(* ===== verification/_CoqProject ===== *)
-Q . S2P
Prelude.v
GoStrings.v
GoNet.v
GoPath.v
GoTime.v
GoOs.v
GoFmt.v
GoDate.v
Json.v
SessionManager.v
SshSlots.v
SlotPool.v
ProxyConfig.v
SshConfig.v
Forward.v
ForwardSeq.v
IoCopy.v
Relay.v
SshStdio.v
ExitCode.v
SshProcess.v
Shell.v
SshSystem.v
HostKey.v
Metrics.v
ProxySession.v
Keepalive.v
TargetHealth.v
SshServer.v
SshMain.v
SshWhole.v
ProxyServer.v
HttpMux.v
HealthBody.v
ProxySystem.v
ProxyMain.v
ProxyProcess.v
