(* ===== verification/Prelude.v ===== *)
(** * Verification of workspace-websocket-proxy

    The repository holds two programs that run in one pod and give an IDE a shell
    in it.  The proxy ([src/cmd/ws-proxy], [src/internal/proxy]) is a sidecar that
    accepts WebSockets, up to a cap, and copies each to a TCP target; the SSH server
    ([src/cmd/remote-access-server], [src/internal/sshserver]) is that target: it
    listens on loopback, runs a shell or a command per session, up to a cap of its
    own, and offers port forwarding and SFTP.  This development models both in
    Rocq and proves what makes them correct.  This file is its root: it holds the
    notations, the tactics and the generic lemmas the other files share.

    ** How the code is modelled

    Functions without shared state are Rocq functions with the names of the source;
    Go errors are values of [result] or [option], and integers are [Z] with their
    wrap-around written out ([int32], [int64], [uint16], [uint32]).  Concurrent code
    is an executable transition system: a record of the shared state with a program
    counter per goroutine, and a step function from a state and a label to an
    optional state, one label per atomic action (a lock, a channel operation, an
    atomic operation, a close, a read, a write, a system call).  What the peers, the
    kernel and time do are labels too, so a theorem about every reachable state is
    about every interleaving and every environment.  The labels a program takes by
    itself are marked by [system_label]; a theorem of the form "with no such label
    enabled, the state is ..." excludes deadlocks, and together with a bound on the
    number of such steps it gives termination.  The witnesses run the step functions
    on concrete schedules with [vm_compute].

    ** Files

    Go's library, as far as the code uses it:
    - [GoStrings]: strings and [strconv.Itoa], [Atoi], [ParseBool];
    - [GoNet]: [net.SplitHostPort], [JoinHostPort], [ParseIP];
    - [GoPath]: [path/filepath]; [GoTime]: [time.ParseDuration];
    - [GoOs]: the environment, the user database, [os.Stat];
    - [GoFmt]: UTF-8 and the verb [%q]; [GoDate]: timestamps in RFC 3339;
    - [IoCopy]: [io.Copy] as a transition system.

    [Json] is not Go: it is a reference parser for the texts the health endpoints
    print, with the lemmas that relate it to [%q].

    The proxy:
    - [ProxyConfig]: [config.go];
    - [SessionManager]: the connection cap of [session.go], a compare-and-swap loop
      run by any number of handlers, refined to an atomic counting semaphore;
    - [Metrics]: [metrics.go], over a Prometheus client that is a parameter;
    - [ProxySession]: one connection, [handleWebSocket] of [server.go],
      [Session.Run] and [pingLoop] of [session.go] and [bridge.go], with its up to
      seven goroutines;
    - [Keepalive]: pings, pongs and the read deadline of such a connection, in real
      time, with the writes to the target that delay its reads, over a WebSocket
      library that is a parameter with its laws;
    - [TargetHealth]: [probeTarget] and [handleTargetHealth] of [server.go], and
      [targethealth.go];
    - [ProxyServer]: [NewServer], the routes, the health answer and the admission of
      [server.go], [revalidator.go], and the health check of [cmd/ws-proxy/main.go];
    - [HttpMux]: how the mux of [NewServer] cleans, redirects and routes a path;
    - [HealthBody]: the bytes of the answers of [handleHealth] and
      [handleTargetHealth];
    - [ProxySystem]: all connections at once, over the cap;
    - [ProxyMain]: the process, [main] with [ListenAndServe] and [Shutdown], over the
      number of its requests; [ProxyProcess]: the process with the connections of
      [ProxySystem] as these requests.

    The SSH server:
    - [SshConfig]: [config.go]; [HostKey]: [hostkey.go]; [Shell]: [shell.go];
    - [SshSlots]: the session cap of [server.go], an optimistic counter;
    - [ExitCode]: [exitCode]; [SshProcess]: one session from the start of its command
      to its exit status, [runWithPty], [runWithoutPty], [watchWindowSize],
      [sessionCmd], [terminateOnDisconnect] and [finish]; [SshStdio]: its input and
      output;
    - [SshSystem]: [handleSession], all sessions at once, over the cap, and
      [handleSFTP];
    - [Forward]: reverse port forwarding, [forward.go] with the policy callbacks of
      [server.go], as functions over the table of forwards and as a transition
      system; [ForwardSeq]: that the functions are sequences of its steps; [Relay]:
      one forwarded connection;
    - [SshServer]: [New] of [server.go], and the flags of
      [cmd/remote-access-server/main.go];
    - [SshMain]: the process, [main] with [ListenAndServe] and [Shutdown], over the
      number of its connections; [SshWhole]: the process with these connections and
      the sessions of [SshSystem] and the forwards of [Forward] on them.

    [SlotPool] is the interface between the two: a type class of a pool of slots
    with its laws, which [SessionManager] and [SshSlots] discharge, a type class of
    the handlers that use one, and the system of both.  [ProxySystem] and
    [SshSystem] are instances of it, and their theorems are proved from its lemmas.

    ** What is proved

    - Capacity: at most [MaxConnections] connections and [MaxSessions] sessions are
      in progress under every interleaving, the proxy's counter is linearizable,
      and every slot is returned, that of a session whose output a process outside
      its process group holds only when that process ends
      ([SessionManager_linearizable], [proxy_keeps_cap], [ssh_keeps_cap],
      [proxy_session_accounting]).
    - Data: the bridge, a forwarded connection and the streams of a session deliver
      prefixes in order, and everything unless a write failed
      ([bridge_transparent], [relay_faithful], [stdio_faithful]); the two writers of
      data and pings on a WebSocket exclude each other ([ws_single_writer]).
    - No deadlock, bounded teardown: [proxy_session_no_deadlock],
      [disconnect_ends_session], [relay_faithful], [prober_stop],
      [proxy_process_exit], [ssh_process_exit]; what a clean exit of either process
      leaves open ([proxy_shutdown_leaves_sessions], [shutdown_abandons_session]).  In
      a server that lives on, the end of a connection frees its sessions and its
      forwards ([forwards_end_with_client], [ssh_connection_end_frees]).
    - Keepalive: a client that answers its pings is never cut by the deadline, one
      that does not is cut in time ([keepalive_keeps_live_client],
      [keepalive_cuts_silent_client]).
    - HTTP: every path is served by one handler after at most one redirect
      ([proxy_routing]); the health endpoints answer JSON that reads back as the
      fields of the answer ([health_bodies_json]).
    - Containment: listeners and forwards stay on loopback
      ([validate_loopback_only], [forward_listeners_loopback], [New_safe]), and the
      table of forwards stays consistent ([forward_table_consistent],
      [forward_no_leak], [start_cancel_roundtrip]); the sequential functions are
      the steps these quantify over ([forward_functions_are_steps]).
    - Sessions: exit status, signals, resizes, environment and command
      ([session_exit_status], [signals_before_flag], [resizes_before_close],
      [session_environment], [session_command]).
    - Persistence: the host key is installed atomically, kept, and never overwritten
      ([hostkey_atomic], [hostkey_persistent], [hostkey_first_start]).
    - Configuration, health and metrics: [LoadConfig_wf], [LoadConfig_roundtrip],
      [TargetAddr_split], [target_health_reported], [NewMetrics_registers].
    - Behaviour that differs from what the comments say, each with a run that shows
      it: [signal_after_reap], [escaped_process_keeps_session],
      [shutdown_abandons_session], [accept_error_leaks_listener],
      [stale_teardown_closes_other_forward], [SshSlots_spurious_refusal],
      [shutdown_ignores_websockets], and the configurations that [LoadConfig] accepts
      and the proxy does not work with ([LoadConfig_gaps]).

    ** Bounds and fuel

    [Acquire] run alone takes fuel 3, enough from any point of its loop
    ([Acquire_terminates]).  The walk of [statNearestAncestor] takes the length of
    the path and two more, and [statNearestAncestor_total] shows that
    this is enough; [mkdirs] takes the length of the path, at least the number of its
    parents.  The loops of [ParseDuration], [ParseIP], [Itoa] and [TrimSpace] take
    the length of their input (or its number of groups or digits), of which every
    turn consumes a part; so do those of the parser in [Json], and
    [json_string_Quote] and [json_object_text] show that this is enough for what is
    printed.  The goroutines of the forwards take at most [frank] steps of their own.
    The other recursions are structural.  [ssh_keeps_cap]
    assumes fewer than 2^63 sessions, below which the counter cannot wrap.

    ** Not modelled

    Log lines, and what a session whose command could not be started prints on the
    client's stderr (its status is modelled); the wire formats of SSH, WebSocket and
    SFTP, the HTTP server and the SSH library, which are library code (what the code uses of [http.Server] is in
    [ProxyMain] and [HttpMux], the results of the SSH library are arguments, labels
    or hypotheses); requests with the method CONNECT, whose path the mux does not
    clean; the handler of the metrics endpoint and the table of printable code
    points, which are libraries; the file operations behind SFTP; the cryptography
    of the host key, which is a parameter of [HostKey]; durations outside
    [Keepalive], which appear as labels (such as the end of the grace period)
    without their lengths; images, charts and CI, which hold no program logic.

    The connections that [Relay] copies are independent of each other and of the
    table, and are not part of the state of [SshWhole]. *)

From Stdlib Require Export ZArith Lia Ascii String.
From stdpp Require Export base gmap list strings relations.

#[export] Set Default Goal Selector "!".
#[export] Set Warnings "-clear-no-such-hyp".

(** * Scope and fallible results *)

Declare Scope go_scope.
Delimit Scope go_scope with go.

(** A Go function that returns [(value, error)]: [Ok] when the error is nil. *)
Inductive result (E A : Type) : Type :=
| Ok (a : A)
| Err (e : E).
Arguments Ok {E A} a.
Arguments Err {E A} e.

#[export] Instance result_ret {E} : MRet (result E) := fun A a => Ok a.
#[export] Instance result_bind {E} : MBind (result E) := fun A B f r =>
  match r with Ok a => f a | Err e => Err e end.

(** [if cond { return err }] as a statement of the result monad. *)
Definition guard_err {E} (bad : bool) (e : E) : result E unit :=
  if bad then Err e else Ok tt.

Notation "'fail_if' b 'with' e ';' k" := (guard_err b e ≫= fun _ => k)
  (at level 10, b at level 100, e at level 100, k at level 200,
   format "'fail_if'  b  'with'  e ';' '//' k") : go_scope.

Definition is_ok {E A} (r : result E A) : bool :=
  match r with Ok _ => true | Err _ => false end.

(** * Machine integers *)

Section machine_integers.
Local Open Scope Z_scope.

(** Two's-complement reading of [z] at width [w]. *)
Definition wrap_signed (w z : Z) : Z := (z + 2 ^ (w - 1)) mod 2 ^ w - 2 ^ (w - 1).
Definition int32 (z : Z) : Z := wrap_signed 32 z.
Definition int64 (z : Z) : Z := wrap_signed 64 z.
Definition uint16 (z : Z) : Z := z mod 2 ^ 16.
Definition uint32 (z : Z) : Z := z mod 2 ^ 32.

Definition max_int32 : Z := 2 ^ 31 - 1.
Definition min_int32 : Z := - 2 ^ 31.
Definition max_int64 : Z := 2 ^ 63 - 1.
Definition min_int64 : Z := - 2 ^ 63.
Definition max_uint64 : Z := 2 ^ 64 - 1.

Lemma int32_range z : min_int32 <= int32 z <= max_int32.
Proof.
  unfold int32, wrap_signed, min_int32, max_int32.
  pose proof (Z.mod_pos_bound (z + 2 ^ (32 - 1)) (2 ^ 32) eq_refl). lia.
Qed.

Lemma int32_small z : min_int32 <= z <= max_int32 -> int32 z = z.
Proof.
  unfold int32, wrap_signed, min_int32, max_int32. intros H.
  rewrite Z.mod_small; lia.
Qed.

Lemma int64_small z : min_int64 <= z <= max_int64 -> int64 z = z.
Proof.
  unfold int64, wrap_signed, min_int64, max_int64. intros H.
  rewrite Z.mod_small; lia.
Qed.

Lemma uint16_small z : 0 <= z < 2 ^ 16 -> uint16 z = z.
Proof. apply Z.mod_small. Qed.

Lemma uint16_range z : 0 <= uint16 z < 2 ^ 16.
Proof. apply Z.mod_pos_bound. reflexivity. Qed.

Lemma uint32_small z : 0 <= z < 2 ^ 32 -> uint32 z = z.
Proof. apply Z.mod_small. Qed.
End machine_integers.

(** * Automation *)

Create HintDb go discriminated.
#[export] Hint Resolve int32_range uint16_range : go.
Create Rewrite HintDb go_int.
#[export] Hint Rewrite @int32_small @int64_small @uint16_small @uint32_small
  using (unfold max_int32, min_int32, max_int64, min_int64 in *; lia) : go_int.

(** Case analysis on the scrutinee of every boolean [if] or [match] in sight,
    turning boolean tests into propositions for [lia] and [congruence]. *)
Ltac break_match_hyp :=
  match goal with
  | H : context [ match ?x with _ => _ end ] |- _ =>
      lazymatch x with context [ match _ with _ => _ end ] => fail | _ => destruct x eqn:? end
  end.

Ltac break_match_goal :=
  match goal with
  | |- context [ match ?x with _ => _ end ] =>
      lazymatch x with context [ match _ with _ => _ end ] => fail | _ => destruct x eqn:? end
  end.

Ltac break := repeat (break_match_hyp || break_match_goal).

Ltac to_prop :=
  repeat match goal with
  | H : (_ && _)%bool = true |- _ => apply andb_true_iff in H; destruct H
  | H : (_ && _)%bool = false |- _ => apply andb_false_iff in H
  | H : (_ || _)%bool = false |- _ => apply orb_false_iff in H; destruct H
  | H : (_ || _)%bool = true |- _ => apply orb_true_iff in H
  | H : negb _ = true |- _ => apply negb_true_iff in H
  | H : negb _ = false |- _ => apply negb_false_iff in H
  | H : (_ <? _)%Z = true |- _ => apply Z.ltb_lt in H
  | H : (_ <? _)%Z = false |- _ => apply Z.ltb_ge in H
  | H : (_ <=? _)%Z = true |- _ => apply Z.leb_le in H
  | H : (_ <=? _)%Z = false |- _ => apply Z.leb_gt in H
  | H : (_ =? _)%Z = true |- _ => apply Z.eqb_eq in H
  | H : (_ =? _)%Z = false |- _ => apply Z.eqb_neq in H
  | H : (_ =? _)%string = true |- _ => apply String.eqb_eq in H
  | H : (_ =? _)%string = false |- _ => apply String.eqb_neq in H
  | H : bool_decide _ = true |- _ => apply bool_decide_eq_true in H
  | H : bool_decide _ = false |- _ => apply bool_decide_eq_false in H
  end.

(** Opens a step function in a hypothesis: every branch on the way to [Some]. *)
Ltac branches H :=
  repeat match type of H with
  | context [ match ?x with _ => _ end ] => is_var x; destruct x; simpl in H
  | context [ match ?x with _ => _ end ] => destruct x eqn:?; simpl in H
  end; try discriminate H.

(** * Reachability *)

Section reachability.
Context {S : Type} (R : relation S).

(** An inductive invariant holds in every state reachable from one where it
    holds. *)
Lemma rtc_invariant (P : S -> Prop) :
  (forall s s', P s -> R s s' -> P s') -> forall s s', rtc R s s' -> P s -> P s'.
Proof. intros Hstep s s' Hrtc. induction Hrtc; intros; eauto. Qed.
End reachability.

(** * Executable transition systems *)

Section lts.
Context {S L : Type} (step : S -> L -> option S).

(** The transition relation of an executable step function. *)
Definition lts_step (s s' : S) : Prop := exists l, step s l = Some s'.

(** The state a schedule leads to, when each of its steps is enabled. *)
Fixpoint run (s : S) (ls : list L) : option S :=
  match ls with
  | [] => Some s
  | l :: ls' => match step s l with Some s' => run s' ls' | None => None end
  end.

Lemma run_reachable ls s s' : run s ls = Some s' -> rtc lts_step s s'.
Proof.
  revert s. induction ls as [|l ls IH]; intros s; simpl; [by intros [= <-]|].
  destruct (step s l) as [t|] eqn:Hs; [|done]. intros H.
  eapply rtc_l; [by exists l|by apply IH].
Qed.

Lemma run_app ls1 ls2 s : run s (ls1 ++ ls2) = s' ← run s ls1; run s' ls2.
Proof.
  revert s. induction ls1 as [|l ls1 IH]; intros s; simpl; [done|].
  destruct (step s l); [apply IH|done].
Qed.
End lts.

(** * Counting threads *)

Section count_if.
Local Open Scope Z_scope.
Context {A : Type} (f : A -> bool).

(** How many elements of a thread pool satisfy [f]. *)
Fixpoint count_if (l : list A) : Z :=
  match l with
  | [] => 0
  | x :: l' => Z.b2z (f x) + count_if l'
  end.

Lemma count_if_app l1 l2 : count_if (l1 ++ l2) = count_if l1 + count_if l2.
Proof. induction l1 as [|x l1 IH]; simpl; [done|]. rewrite IH. lia. Qed.

Lemma count_if_range l : 0 <= count_if l <= Z.of_nat (length l).
Proof. induction l as [|x l IH]; simpl; [lia|]. destruct (f x); simpl Z.b2z; lia. Qed.

(** One thread moving from [x] to [y]. *)
Lemma count_if_insert l i x y :
  l !! i = Some x -> count_if (<[i := y]> l) = count_if l - Z.b2z (f x) + Z.b2z (f y).
Proof.
  revert i. induction l as [|z l IH]; intros [|i]; simpl; [done..| |].
  - intros [= <-]. lia.
  - intros Hi. rewrite (IH i) by done. lia.
Qed.

Lemma count_if_pos l i x : l !! i = Some x -> f x = true -> 1 <= count_if l.
Proof.
  revert i. induction l as [|z l IH]; intros [|i]; simpl; [done..| |].
  - intros [= <-] ->. pose proof (count_if_range l). simpl. lia.
  - intros Hi Hx. specialize (IH i Hi Hx). destruct (f z); simpl Z.b2z; lia.
Qed.

(** A thread outside [f] leaves room below the size of the pool. *)
Lemma count_if_lt l i x : l !! i = Some x -> f x = false -> count_if l < Z.of_nat (length l).
Proof.
  revert i. induction l as [|z l IH]; intros [|i]; simpl length; simpl count_if; [done..| |].
  - intros [= <-] ->. pose proof (count_if_range l). simpl. lia.
  - intros Hi Hx. specialize (IH i Hi Hx). destruct (f z); simpl Z.b2z; lia.
Qed.
End count_if.

Section guards.
Local Open Scope go_scope.

Lemma guard_err_ok {E A} (b : bool) (e : E) (k : result E A) (a : A) :
  (fail_if b with e; k) = Ok a <-> b = false /\ k = Ok a.
Proof. destruct b; simpl; split; [done | by intros [? _] | done | by intros [_ ?]]. Qed.
End guards.
