(* ===== verification/GoStrings.v ===== *)
(** The string functions of Go's standard library the program calls
    ([strings], [strconv]): byte search, prefixes, [Cut], the trimming
    functions, [Itoa], [Atoi] and [ParseBool].  A Go string is a sequence of
    bytes, here a [string] of [ascii]. *)

From S2P Require Import Prelude.

Open Scope string_scope.

(** * Slices *)

(** [s[n:]] and [s[:n]], for [n] at most [len(s)]. *)
Fixpoint sdrop (n : nat) (s : string) : string :=
  match n, s with
  | O, _ => s
  | S n', String _ s' => sdrop n' s'
  | S _, EmptyString => EmptyString
  end.

Fixpoint stake (n : nat) (s : string) : string :=
  match n, s with
  | O, _ => EmptyString
  | S n', String c s' => String c (stake n' s')
  | S _, EmptyString => EmptyString
  end.

(** * Searching *)

(** [strings.IndexByte]: [None] for -1. *)
Fixpoint index_byte (c : ascii) (s : string) : option nat :=
  match s with
  | EmptyString => None
  | String d s' => if Ascii.eqb c d then Some 0%nat else S <$> index_byte c s'
  end.

(** [strings.LastIndexByte], and [strings.LastIndex] for a one-byte needle. *)
Fixpoint last_index_byte (c : ascii) (s : string) : option nat :=
  match s with
  | EmptyString => None
  | String d s' =>
      match last_index_byte c s' with
      | Some i => Some (S i)
      | None => if Ascii.eqb c d then Some 0%nat else None
      end
  end.

Definition contains_byte (c : ascii) (s : string) : bool :=
  match index_byte c s with Some _ => true | None => false end.

(** [strings.HasPrefix s pre]. *)
Fixpoint HasPrefix (s pre : string) {struct pre} : bool :=
  match pre, s with
  | EmptyString, _ => true
  | String c pre', String d s' => Ascii.eqb c d && HasPrefix s' pre'
  | String _ _, EmptyString => false
  end.

(** [strings.TrimPrefix]. *)
Definition TrimPrefix (s pre : string) : string :=
  if HasPrefix s pre then sdrop (String.length pre) s else s.

(** [strings.Cut s sep] for a one-byte separator: [None] when it is absent. *)
Fixpoint Cut (s : string) (sep : ascii) : option (string * string) :=
  match s with
  | EmptyString => None
  | String c s' =>
      if Ascii.eqb c sep then Some (EmptyString, s')
      else match Cut s' sep with
           | Some (k, v) => Some (String c k, v)
           | None => None
           end
  end.

(** * Trimming *)

(** [strings.TrimRight s cutset] for a cutset of ASCII bytes. *)
Fixpoint TrimRight (s : string) (cutset : string) : string :=
  match s with
  | EmptyString => EmptyString
  | String c s' =>
      match TrimRight s' cutset with
      | EmptyString => if contains_byte c cutset then EmptyString else String c EmptyString
      | s'' => String c s''
      end
  end.

Definition byte_str (n : nat) : string := String (ascii_of_nat n) EmptyString.

(** The UTF-8 encodings of the code points [unicode.IsSpace] accepts: the
    ASCII blanks, U+0085, U+00A0 and the White_Space separators. *)
Definition space_encodings : list string :=
  (byte_str <$> [9; 10; 11; 12; 13; 32]%nat) ++
  [byte_str 194 +:+ byte_str 133; byte_str 194 +:+ byte_str 160;
   byte_str 225 +:+ byte_str 154 +:+ byte_str 128] ++
  ((fun n => byte_str 226 +:+ byte_str 128 +:+ byte_str n) <$>
     [128; 129; 130; 131; 132; 133; 134; 135; 136; 137; 138; 168; 169; 175]%nat) ++
  [byte_str 226 +:+ byte_str 129 +:+ byte_str 159;
   byte_str 227 +:+ byte_str 128 +:+ byte_str 128].

Definition strip_one (encs : list string) (s : string) : option string :=
  (fun e => sdrop (String.length e) s) <$> head (List.filter (HasPrefix s) encs).

(** [strings.TrimLeftFunc s unicode.IsSpace]; every round removes a byte, so
    [len(s)] rounds suffice. *)
Fixpoint trim_left_fuel (encs : list string) (fuel : nat) (s : string) : string :=
  match fuel with
  | O => s
  | S fuel' =>
      match strip_one encs s with
      | Some s' => trim_left_fuel encs fuel' s'
      | None => s
      end
  end.

Fixpoint srev_onto (s acc : string) : string :=
  match s with
  | EmptyString => acc
  | String c s' => srev_onto s' (String c acc)
  end.
Definition srev (s : string) : string := srev_onto s EmptyString.

Definition trim_left_space (s : string) : string :=
  trim_left_fuel space_encodings (String.length s) s.

(** The right end is trimmed the same way on the reversed bytes: the first byte
    of an encoding is never a continuation byte, so a suffix that is the
    encoding of a blank is the last code point. *)
Definition trim_right_space (s : string) : string :=
  srev (trim_left_fuel (srev <$> space_encodings) (String.length s) (srev s)).

(** [strings.TrimSpace]. *)
Definition TrimSpace (s : string) : string := trim_right_space (trim_left_space s).

(** * Hexadecimal digits *)

Definition hex_val (c : ascii) : option nat :=
  let n := nat_of_ascii c in
  (if (48 <=? n) && (n <=? 57) then Some (n - 48)
   else if (65 <=? n) && (n <=? 70) then Some (n - 55)
   else if (97 <=? n) && (n <=? 102) then Some (n - 87)
   else None)%nat.

(** * Numbers *)

Section numbers.
Local Open Scope Z_scope.

Definition digit_char (d : Z) : ascii := ascii_of_nat (Z.to_nat (48 + d)).

Definition digit_val (c : ascii) : option Z :=
  let n := Z.of_nat (nat_of_ascii c) in
  if (48 <=? n) && (n <=? 57) then Some (n - 48) else None.

Fixpoint itoa_go (fuel : nat) (n : Z) (acc : string) : string :=
  match fuel with
  | O => acc
  | S fuel' =>
      let acc' := String (digit_char (n mod 10)) acc in
      if n <? 10 then acc' else itoa_go fuel' (n / 10) acc'
  end.

(** Digits of a nonnegative [n]; [log2 n + 1] rounds cover every digit. *)
Definition itoa_nonneg (n : Z) : string := itoa_go (S (Z.to_nat (Z.log2 n))) n EmptyString.

(** [strconv.Itoa], which is also what [%d] prints. *)
Definition Itoa (n : Z) : string :=
  if n <? 0 then String "-" (itoa_nonneg (- n)) else itoa_nonneg n.

Inductive num_error := ErrSyntax | ErrRange.

(** The digit loop of [strconv.ParseUint s 10 64]: a non-digit is a syntax
    error, a value past the 64-bit maximum a range error, whichever comes
    first. *)
Fixpoint parse_uint_go (v : Z) (s : string) : result num_error Z :=
  match s with
  | EmptyString => Ok v
  | String c s' =>
      match digit_val c with
      | None => Err ErrSyntax
      | Some d =>
          let v' := v * 10 + d in
          if max_uint64 <? v' then Err ErrRange else parse_uint_go v' s'
      end
  end.

Definition ParseUint (s : string) : result num_error Z :=
  match s with EmptyString => Err ErrSyntax | _ => parse_uint_go 0 s end.

(** [strconv.ParseInt s 10 64] after the sign: a range error also returns the
    nearest representable value. *)
Definition parse_signed (neg : bool) (s : string) : Z * option num_error :=
  match ParseUint s with
  | Err ErrSyntax => (0, Some ErrSyntax)
  | Err ErrRange => (if neg then (min_int64, Some ErrRange) else (max_int64, Some ErrRange))
  | Ok un =>
      if neg then
        (if 2 ^ 63 <? un then (min_int64, Some ErrRange) else (- un, None))
      else
        (if 2 ^ 63 <=? un then (max_int64, Some ErrRange) else (un, None))
  end.

(** [strconv.Atoi] on a 64-bit platform. *)
Definition Atoi (s : string) : Z * option num_error :=
  match s with
  | EmptyString => (0, Some ErrSyntax)
  | String c s' =>
      if Ascii.eqb c "-" then parse_signed true s'
      else if Ascii.eqb c "+" then parse_signed false s'
      else parse_signed false s
  end.

(** [strconv.ParseBool]: [None] is its syntax error. *)
Definition ParseBool (s : string) : option bool :=
  if bool_decide (s ∈ ["1"; "t"; "T"; "TRUE"; "true"; "True"]) then Some true
  else if bool_decide (s ∈ ["0"; "f"; "F"; "FALSE"; "false"; "False"]) then Some false
  else None.
End numbers.

(** * Lemmas: concatenation and slices *)

Lemma sapp_cons c s t : String c s +:+ t = String c (s +:+ t).
Proof. reflexivity. Qed.

Lemma sapp_nil_l (s : string) : "" +:+ s = s.
Proof. reflexivity. Qed.

Lemma sapp_nil_r (s : string) : s +:+ "" = s.
Proof. induction s as [|c s IH]; [done|]. rewrite sapp_cons. by f_equal. Qed.

Lemma sapp_assoc (s t u : string) : (s +:+ t) +:+ u = s +:+ (t +:+ u).
Proof. induction s as [|c s IH]; [done|]. rewrite !sapp_cons. by f_equal. Qed.

Lemma sapp_length (s t : string) :
  String.length (s +:+ t) = (String.length s + String.length t)%nat.
Proof. induction s as [|c s IH]; [done|]. rewrite ?sapp_cons. simpl. by f_equal. Qed.

Create Rewrite HintDb go_str.
#[export] Hint Rewrite sapp_cons sapp_nil_l sapp_nil_r sapp_assoc sapp_length : go_str.

Lemma stake_app (s t : string) : stake (String.length s) (s +:+ t) = s.
Proof. induction s as [|c s IH]; [done|]. rewrite ?sapp_cons. simpl. by f_equal. Qed.

Lemma sdrop_app (s t : string) : sdrop (String.length s) (s +:+ t) = t.
Proof. induction s as [|c s IH]; [done|]. rewrite ?sapp_cons. simpl. exact IH. Qed.

Lemma sdrop_app_S (s t : string) c : sdrop (S (String.length s)) (s +:+ String c t) = t.
Proof. induction s as [|d s IH]; [done|]. rewrite ?sapp_cons. simpl in *. exact IH. Qed.

Lemma sdrop_cons n c s : sdrop (S n) (String c s) = sdrop n s.
Proof. reflexivity. Qed.

Lemma stake_cons n c s : stake (S n) (String c s) = String c (stake n s).
Proof. reflexivity. Qed.

Lemma sdrop_app_add n (s t : string) : sdrop (String.length s + n) (s +:+ t) = sdrop n t.
Proof. induction s as [|c s IH]; [done|]. exact IH. Qed.

Lemma stake_sdrop n s : stake n s +:+ sdrop n s = s.
Proof.
  revert s. induction n as [|n IH]; intros [|c s]; simpl; try done.
  rewrite sapp_cons. by rewrite IH.
Qed.

Lemma length_sdrop n s : String.length (sdrop n s) = (String.length s - n)%nat.
Proof. revert s. induction n as [|n IH]; intros [|c s]; simpl; auto. Qed.

Lemma length_stake n s : String.length (stake n s) = Nat.min n (String.length s).
Proof. revert s. induction n as [|n IH]; intros [|c s]; simpl; auto. Qed.

Lemma sapp_inj_l (s t u : string) : s +:+ t = s +:+ u -> t = u.
Proof. induction s as [|c s IH]; [done|]. rewrite !sapp_cons. intros [=]; auto. Qed.

Lemma sapp_inj_r (s t u : string) : s +:+ u = t +:+ u -> s = t.
Proof.
  revert t. induction s as [|c s IH]; intros [|d t]; rewrite ?sapp_cons; intros H; try done.
  - apply (f_equal String.length) in H. revert H. simpl. autorewrite with go_str. simpl. lia.
  - apply (f_equal String.length) in H. revert H. simpl. autorewrite with go_str. simpl. lia.
  - injection H as -> H. by rewrite (IH _ H).
Qed.

(** * Lemmas: searching *)

Lemma index_byte_app_l c s t :
  contains_byte c s = true -> index_byte c (s +:+ t) = index_byte c s.
Proof.
  unfold contains_byte. induction s as [|d s IH]; [done|]. rewrite ?sapp_cons. simpl.
  destruct (Ascii.eqb c d); [done|]. destruct (index_byte c s); [|done].
  intros _. by rewrite IH.
Qed.

Lemma index_byte_app_r c s t :
  contains_byte c s = false ->
  index_byte c (s +:+ t) = Nat.add (String.length s) <$> index_byte c t.
Proof.
  unfold contains_byte. induction s as [|d s IH]; simpl.
  - intros _. rewrite ?sapp_nil_l. by destruct (index_byte c t).
  - rewrite ?sapp_cons. simpl. destruct (Ascii.eqb c d); [done|].
    destruct (index_byte c s); [done|]. intros _. rewrite (IH eq_refl).
    by destruct (index_byte c t).
Qed.

Lemma contains_byte_cons c d s :
  contains_byte c (String d s) = Ascii.eqb c d || contains_byte c s.
Proof. unfold contains_byte. simpl. destruct (Ascii.eqb c d), (index_byte c s); done. Qed.

Lemma contains_byte_app c s t :
  contains_byte c (s +:+ t) = contains_byte c s || contains_byte c t.
Proof.
  induction s as [|d s IH]; [done|].
  rewrite sapp_cons, !contains_byte_cons, IH. by rewrite orb_assoc.
Qed.

Lemma last_index_byte_none c s :
  last_index_byte c s = None <-> contains_byte c s = false.
Proof.
  induction s as [|d s IH]; [done|]. rewrite contains_byte_cons. simpl.
  destruct (last_index_byte c s).
  - split; [done|]. intros [_ H]%orb_false_iff. by apply IH in H.
  - destruct (Ascii.eqb c d); simpl; [done|]. split; [|done]. intros _. by apply IH.
Qed.

(** The last occurrence of [c] splits a string into a head and a tail free of [c]. *)
Lemma last_index_byte_split c a b :
  contains_byte c b = false ->
  last_index_byte c (a +:+ String c b) = Some (String.length a).
Proof.
  intros Hb. induction a as [|d a IH]; simpl.
  - rewrite ?sapp_nil_l. simpl. apply last_index_byte_none in Hb. rewrite Hb.
    by rewrite Ascii.eqb_refl.
  - rewrite ?sapp_cons. simpl. by rewrite IH.
Qed.

Lemma last_index_byte_inv c s i :
  last_index_byte c s = Some i ->
  exists a b, s = a +:+ String c b /\ String.length a = i /\ contains_byte c b = false.
Proof.
  revert i. induction s as [|d s IH]; [done|]. simpl. intros i.
  destruct (last_index_byte c s) as [j|] eqn:Hj.
  - intros [= <-]. destruct (IH j eq_refl) as (a & b & -> & <- & Hb).
    exists (String d a), b. by rewrite sapp_cons.
  - destruct (Ascii.eqb c d) eqn:Hcd; [|done]. intros [= <-].
    apply Ascii.eqb_eq in Hcd as <-. exists "", s. by apply last_index_byte_none in Hj.
Qed.

Lemma index_byte_split c a b :
  contains_byte c a = false -> index_byte c (a +:+ String c b) = Some (String.length a).
Proof.
  intros Ha. rewrite index_byte_app_r by done. simpl. rewrite Ascii.eqb_refl. simpl.
  by rewrite Nat.add_0_r.
Qed.

Lemma HasPrefix_spec s pre : HasPrefix s pre = true <-> exists t, s = pre +:+ t.
Proof.
  revert s. induction pre as [|c pre IH]; intros s; simpl.
  - split; [by exists s|done].
  - destruct s as [|d s]; [split; [done|by intros [t ?]]|].
    rewrite andb_true_iff, Ascii.eqb_eq, IH. split.
    + intros [-> [t ->]]. by exists t.
    + intros [t H]. rewrite sapp_cons in H. injection H as -> ->. eauto.
Qed.

Lemma HasPrefix_app s t : HasPrefix (s +:+ t) s = true.
Proof. apply HasPrefix_spec. eauto. Qed.

Lemma TrimPrefix_app s t : TrimPrefix (s +:+ t) s = t.
Proof. unfold TrimPrefix. rewrite HasPrefix_app. apply sdrop_app. Qed.

Lemma Cut_app k sep v :
  contains_byte sep k = false -> Cut (k +:+ String sep v) sep = Some (k, v).
Proof.
  induction k as [|c k IH]; simpl.
  - intros _. rewrite ?sapp_nil_l. simpl. by rewrite Ascii.eqb_refl.
  - rewrite contains_byte_cons, ?sapp_cons. intros [Hc Hk]%orb_false_iff. simpl.
    rewrite Ascii.eqb_sym, Hc. by rewrite IH.
Qed.

Lemma Cut_inv s sep k v :
  Cut s sep = Some (k, v) -> s = k +:+ String sep v /\ contains_byte sep k = false.
Proof.
  revert k. induction s as [|c s IH]; intros k; simpl; [done|].
  destruct (Ascii.eqb_spec c sep) as [->|Hne]; [by intros [= <- <-]|].
  destruct (Cut s sep) as [[k' v']|]; [|done]. intros [= <- ->].
  destruct (IH k' eq_refl) as [-> Hk']. rewrite contains_byte_cons, Hk'. split; [done|].
  rewrite orb_false_r. apply Ascii.eqb_neq. congruence.
Qed.

Lemma sapp_nonempty_l s t : s <> "" -> s +:+ t <> "".
Proof. by destruct s. Qed.

Lemma Cut_none s sep : Cut s sep = None -> contains_byte sep s = false.
Proof.
  induction s as [|c s IH]; simpl; [done|]. rewrite contains_byte_cons, (Ascii.eqb_sym sep c).
  destruct (Ascii.eqb c sep); [done|]. destruct (Cut s sep) as [[]|]; [done|]. intros _. auto.
Qed.

(** * Lemmas: decimal numbers *)

Section number_lemmas.
Local Open Scope Z_scope.

Lemma digit_val_char d : 0 <= d <= 9 -> digit_val (digit_char d) = Some d.
Proof.
  intros Hd. unfold digit_val, digit_char.
  rewrite nat_ascii_embedding by lia.
  rewrite Z2Nat.id by lia.
  destruct (Z.leb_spec 48 (48 + d)), (Z.leb_spec (48 + d) 57); simpl; try lia.
  f_equal. lia.
Qed.

(** A digit is none of the characters the parsers treat specially. *)
Lemma digit_char_neq c d :
  0 <= d <= 9 -> digit_val c = None -> Ascii.eqb c (digit_char d) = false.
Proof.
  intros Hd Hc. apply Ascii.eqb_neq. intros ->. rewrite digit_val_char in Hc by done. done.
Qed.

Lemma itoa_go_contains c fuel n acc :
  digit_val c = None -> contains_byte c (itoa_go fuel n acc) = contains_byte c acc.
Proof.
  intros Hc. revert n acc. induction fuel as [|fuel IH]; intros n acc; simpl; [done|].
  assert (0 <= n mod 10 <= 9) by (pose proof (Z.mod_pos_bound n 10 eq_refl); lia).
  destruct (n <? 10); rewrite ?IH, contains_byte_cons, digit_char_neq; done.
Qed.

Lemma Itoa_contains c n :
  digit_val c = None -> c <> "-"%char -> contains_byte c (Itoa n) = false.
Proof.
  intros Hc Hm. unfold Itoa, itoa_nonneg. destruct (n <? 0).
  - rewrite contains_byte_cons, itoa_go_contains by done.
    rewrite (proj2 (Ascii.eqb_neq c "-")) by done. done.
  - by rewrite itoa_go_contains.
Qed.

Lemma itoa_go_app fuel n acc : itoa_go fuel n acc = itoa_go fuel n "" +:+ acc.
Proof.
  revert n acc. induction fuel as [|fuel IH]; intros n acc; simpl; [done|].
  destruct (n <? 10); [done|].
  rewrite IH, (IH _ (String _ "")), sapp_assoc. done.
Qed.

Lemma parse_uint_go_digit v d t :
  0 <= d <= 9 -> v * 10 + d <= max_uint64 ->
  parse_uint_go v (String (digit_char d) t) = parse_uint_go (v * 10 + d) t.
Proof.
  intros Hd Hv. cbn [parse_uint_go]. rewrite digit_val_char by done. cbv zeta.
  destruct (Z.ltb_spec max_uint64 (v * 10 + d)); [lia|done].
Qed.

(** Reading back the digits [itoa_go] printed, before the rest [t]. *)
Lemma parse_itoa_go fuel n t :
  0 <= n <= max_uint64 -> n < 2 ^ Z.of_nat fuel ->
  parse_uint_go 0 (itoa_go fuel n "" +:+ t) = parse_uint_go n t.
Proof.
  revert n t. induction fuel as [|fuel IH]; intros n t Hn Hf.
  - simpl in *. replace n with 0 by lia. done.
  - simpl itoa_go. pose proof (Z.mod_pos_bound n 10 eq_refl).
    destruct (Z.ltb_spec n 10).
    + rewrite Z.mod_small in * by lia.
      rewrite sapp_cons, sapp_nil_l, parse_uint_go_digit by lia. done.
    + pose proof (Z.div_mod n 10).
      rewrite itoa_go_app, sapp_assoc, IH.
      * rewrite sapp_cons, sapp_nil_l, parse_uint_go_digit by lia. f_equal. lia.
      * pose proof (Z.div_pos n 10). pose proof (Z.div_le_upper_bound n 10 n). lia.
      * apply Z.div_lt_upper_bound; [lia|].
        rewrite Nat2Z.inj_succ, Z.pow_succ_r in Hf by lia. lia.
Qed.

Lemma log2_fuel n : 0 <= n -> n < 2 ^ Z.of_nat (S (Z.to_nat (Z.log2 n))).
Proof.
  intros Hn. destruct (Z.eq_dec n 0) as [->|]; [done|].
  rewrite Nat2Z.inj_succ, Z2Nat.id by apply Z.log2_nonneg.
  apply Z.log2_spec. lia.
Qed.

Lemma itoa_go_cons fuel n acc :
  exists d s, 0 <= d <= 9 /\ itoa_go (S fuel) n acc = String (digit_char d) s.
Proof.
  revert n acc. induction fuel as [|fuel IH]; intros n acc; cbn [itoa_go];
    pose proof (Z.mod_pos_bound n 10 eq_refl);
    destruct (n <? 10); try (eexists _, _; split; [|done]; lia).
  apply IH.
Qed.

(** [Atoi] reads back what [Itoa] prints, over the whole range of [int]. *)
Lemma Atoi_Itoa n : min_int64 <= n <= max_int64 -> Atoi (Itoa n) = (n, None).
Proof.
  unfold min_int64, max_int64. intros Hn. 
  assert (Hparse : forall m, 0 <= m <= 2 ^ 63 -> ParseUint (itoa_nonneg m) = Ok m).
  { intros m Hm. unfold ParseUint, itoa_nonneg.
    destruct (itoa_go_cons (Z.to_nat (Z.log2 m)) m "") as (d & s & _ & E). rewrite E, <- E.
    rewrite <- (sapp_nil_r (itoa_go _ _ _)), parse_itoa_go; [done| |].
    - unfold max_uint64. lia.
    - apply log2_fuel. lia. }
  unfold Itoa, Atoi, parse_signed. destruct (Z.ltb_spec n 0).
  - rewrite Ascii.eqb_refl, Hparse by lia.
    destruct (Z.ltb_spec (2 ^ 63) (- n)); [lia|]. f_equal. lia.
  - unfold itoa_nonneg.
    destruct (itoa_go_cons (Z.to_nat (Z.log2 n)) n "") as (d & s & Hd & E). rewrite E.
    rewrite !(Ascii.eqb_sym (digit_char d)), !digit_char_neq by done. rewrite <- E.
    fold (itoa_nonneg n). rewrite Hparse by lia.
    destruct (Z.leb_spec (2 ^ 63) n); [lia|done].
Qed.

Lemma parse_signed_range neg s : min_int64 <= fst (parse_signed neg s) <= max_int64.
Proof.
  unfold parse_signed, min_int64, max_int64.
  destruct (ParseUint s) as [un|[]] eqn:E; [|simpl; lia|destruct neg; simpl; lia].
  assert (0 <= un).
  { destruct s as [|c s]; [done|]. unfold ParseUint in E. revert E.
    generalize (String c s) as t. intros t E.
    cut (forall v, 0 <= v -> parse_uint_go v t = Ok un -> 0 <= un); [intros H; eapply (H 0); done|].
    clear E. induction t as [|a t IH]; intros v Hv; cbn [parse_uint_go]; [by intros [= <-]|].
    unfold digit_val. cbv zeta. destruct (_ && _) eqn:Hd; [|done]. to_prop.
    destruct (_ <? _); [done|]. apply IH. lia. }
  destruct neg.
  - destruct (Z.ltb_spec (2 ^ 63) un); simpl; lia.
  - destruct (Z.leb_spec (2 ^ 63) un); simpl; lia.
Qed.

(** [Atoi] only returns values of the platform's [int]. *)
Lemma Atoi_range s : min_int64 <= fst (Atoi s) <= max_int64.
Proof.
  destruct s as [|c s]; [unfold min_int64, max_int64; simpl; lia|]. cbn [Atoi].
  destruct (Ascii.eqb c "-"); [apply parse_signed_range|].
  destruct (Ascii.eqb c "+"); apply parse_signed_range.
Qed.

Lemma Itoa_inj n m :
  min_int64 <= n <= max_int64 -> min_int64 <= m <= max_int64 -> Itoa n = Itoa m -> n = m.
Proof.
  intros Hn Hm E. apply (f_equal Atoi) in E. rewrite !Atoi_Itoa in E by done. congruence.
Qed.

Lemma Itoa_nonempty n : Itoa n <> "".
Proof.
  unfold Itoa, itoa_nonneg. destruct (n <? 0); [done|].
  destruct (itoa_go_cons (Z.to_nat (Z.log2 n)) n "") as (d & s & _ & ->). done.
Qed.
End number_lemmas.
