(* ===== verification/GoNet.v ===== *)
(** The address functions of Go's [net] package the program calls:
    [SplitHostPort], [JoinHostPort], [ParseIP] (that is, [netip.ParseAddr]
    without zones) and [IP.IsLoopback]. *)

From S2P Require Import Prelude GoStrings.

Open Scope string_scope.

(** * Host and port *)

Inductive addr_error :=
| MissingPort | TooManyColons | MissingBracket | UnexpectedOpen | UnexpectedClose.

(** [net.JoinHostPort]: a host that contains a colon is bracketed. *)
Definition JoinHostPort (host port : string) : string :=
  if contains_byte ":" host then "[" +:+ host +:+ "]:" +:+ port else host +:+ ":" +:+ port.

(** [net.SplitHostPort].  [i] is the last colon; in the bracketed form the first
    ']' must be just before it; [j] and [k] are the offsets from which a stray
    bracket is looked for. *)
Definition SplitHostPort (hostport : string) : result addr_error (string * string) :=
  match last_index_byte ":" hostport with
  | None => Err MissingPort
  | Some i =>
      let finish (host : string) (j k : nat) :=
        if contains_byte "[" (sdrop j hostport) then Err UnexpectedOpen
        else if contains_byte "]" (sdrop k hostport) then Err UnexpectedClose
        else Ok (host, sdrop (S i) hostport) in
      if HasPrefix hostport "[" then
        match index_byte "]" hostport with
        | None => Err MissingBracket
        | Some e =>
            if (S e =? String.length hostport)%nat then Err MissingPort
            else if (S e =? i)%nat then finish (sdrop 1 (stake e hostport)) 1%nat (S e)
            else if HasPrefix (sdrop (S e) hostport) ":" then Err TooManyColons
            else Err MissingPort
        end
      else
        let host := stake i hostport in
        if contains_byte ":" host then Err TooManyColons else finish host 0%nat 0%nat
  end.

(** * IP addresses *)

Section ip.
Local Open Scope Z_scope.
Local Open Scope list_scope.

(** The octet loop of [netip.parseIPv4Fields]: [val] and [digs] are the value and
    the digit count of the current octet, [acc] the octets already read. *)
Fixpoint ipv4_fields (s : string) (val digs : Z) (acc : list Z) : option (list Z) :=
  match s with
  | EmptyString => if (length acc <? 3)%nat then None else Some (acc ++ [val])
  | String c s' =>
      match digit_val c with
      | Some d =>
          if (digs =? 1) && (val =? 0) then None
          else let val' := val * 10 + d in
               if 255 <? val' then None else ipv4_fields s' val' (digs + 1) acc
      | None =>
          if Ascii.eqb c "." then
            if (digs =? 0) || (s' =? "")%string then None
            else if (length acc =? 3)%nat then None
            else ipv4_fields s' 0 0 (acc ++ [val])
          else None
      end
  end.

Definition hex_val (c : ascii) : option Z :=
  let n := Z.of_nat (nat_of_ascii c) in
  if (48 <=? n) && (n <=? 57) then Some (n - 48)
  else if (97 <=? n) && (n <=? 102) then Some (n - 87)
  else if (65 <=? n) && (n <=? 70) then Some (n - 55)
  else None.

(** One hexadecimal group: its value, its length and what follows it. *)
Fixpoint hex_group (s : string) (off acc : Z) : option (Z * Z * string) :=
  match s with
  | EmptyString => Some (acc, off, s)
  | String c s' =>
      match hex_val c with
      | None => Some (acc, off, s)
      | Some d =>
          let acc' := acc * 16 + d in
          if 3 <? off then None
          else if 65535 <? acc' then None
          else hex_group s' (off + 1) acc'
      end
  end.

(** The group loop of [netip.parseIPv6]: [ip] holds the bytes read, [ell] the
    offset of the "::".  Each round adds two bytes, so eight rounds fill the
    sixteen. *)
Fixpoint ipv6_loop (fuel : nat) (ip : list Z) (ell : option nat) (s : string)
  : option (list Z * option nat * string) :=
  match fuel with
  | O => Some (ip, ell, s)
  | S fuel' =>
      match hex_group s 0 0 with
      | None => None
      | Some (acc, off, rest) =>
          if off =? 0 then None
          else if HasPrefix rest "." then
            if bool_decide (ell = None) && negb (length ip =? 12)%nat then None
            else if (12 <? length ip)%nat then None
            else match ipv4_fields s 0 0 [] with
                 | Some fs => Some (ip ++ fs, ell, "")
                 | None => None
                 end
          else
            let ip' := ip ++ [acc / 256; acc mod 256] in
            match rest with
            | EmptyString => Some (ip', ell, "")
            | String c rest' =>
                if negb (Ascii.eqb c ":") then None
                else match rest' with
                     | EmptyString => None
                     | String c' rest'' =>
                         if Ascii.eqb c' ":" then
                           match ell with
                           | Some _ => None
                           | None =>
                               let ell' := Some (length ip') in
                               if (rest'' =? "")%string then Some (ip', ell', "")
                               else ipv6_loop fuel' ip' ell' rest''
                           end
                         else ipv6_loop fuel' ip' ell rest'
                     end
            end
      end
  end.

(** Expansion of the "::" to the missing zero bytes. *)
Definition ipv6_finish (r : list Z * option nat * string) : option (list Z) :=
  let '(ip, ell, s) := r in
  if negb (s =? "")%string then None
  else if (length ip <? 16)%nat then
    match ell with
    | None => None
    | Some e => Some (take e ip ++ replicate (16 - length ip) 0 ++ drop e ip)
    end
  else match ell with Some _ => None | None => Some ip end.

Definition parseIPv6 (s : string) : option (list Z) :=
  if HasPrefix s "::" then
    let s' := sdrop 2 s in
    if (s' =? "")%string then Some (replicate 16 0)
    else ipv6_loop 8 [] (Some 0%nat) s' ≫= ipv6_finish
  else ipv6_loop 8 [] None s ≫= ipv6_finish.

Definition v4_in_6 (fs : list Z) : list Z := replicate 10 0 ++ [255; 255] ++ fs.

(** The dispatch of [netip.ParseAddr]: the first of '.', ':' and '%' decides.
    [ParseIP] refuses an address with a zone, so a '%' refuses the address. *)
Fixpoint addr_kind (s : string) : option ascii :=
  match s with
  | EmptyString => None
  | String c s' =>
      if Ascii.eqb c "." || Ascii.eqb c ":" || Ascii.eqb c "%" then Some c else addr_kind s'
  end.

(** [net.ParseIP]: sixteen bytes, or nil. *)
Definition ParseIP (s : string) : option (list Z) :=
  match addr_kind s with
  | Some c =>
      if Ascii.eqb c "." then v4_in_6 <$> ipv4_fields s 0 0 []
      else if Ascii.eqb c ":" then (if contains_byte "%" s then None else parseIPv6 s)
      else None
  | None => None
  end.

(** [IP.To4] on a sixteen-byte address. *)
Definition To4 (ip : list Z) : option (list Z) :=
  if bool_decide (take 12 ip = replicate 10 0 ++ [255; 255]) then Some (drop 12 ip) else None.

Definition IPv6loopback : list Z := replicate 15 0 ++ [1].

(** [IP.IsLoopback]. *)
Definition IsLoopback (ip : list Z) : bool :=
  match To4 ip with
  | Some ip4 => bool_decide (head ip4 = Some 127)
  | None => bool_decide (ip = IPv6loopback)
  end.

(** The dotted form of four octets, as the kernel and Go print an IPv4 address. *)
Definition dotted (a b c d : Z) : string :=
  Itoa a +:+ "." +:+ Itoa b +:+ "." +:+ Itoa c +:+ "." +:+ Itoa d.
End ip.

(** * Lemmas: host and port *)

Definition no_brackets (s : string) : bool := negb (contains_byte "[" s || contains_byte "]" s).

Lemma JoinHostPort_cases host port :
  JoinHostPort host port =
    (if contains_byte ":" host then String "[" (host +:+ "]") else host) +:+ String ":" port.
Proof. unfold JoinHostPort. destruct (contains_byte ":" host); autorewrite with go_str; done. Qed.

Lemma JoinHostPort_last_colon host port :
  contains_byte ":" port = false ->
  exists pre, JoinHostPort host port = pre +:+ String ":" port /\
    last_index_byte ":" (JoinHostPort host port) = Some (String.length pre).
Proof.
  intros Hp. rewrite JoinHostPort_cases. eexists. split; [done|].
  by apply last_index_byte_split.
Qed.

(** The brackets and the colon never occur in a printed port. *)
Lemma Itoa_no_colon n : contains_byte ":" (Itoa n) = false.
Proof. by apply Itoa_contains. Qed.

Lemma Itoa_no_brackets n : no_brackets (Itoa n) = true.
Proof. unfold no_brackets. by rewrite !Itoa_contains. Qed.

(** Splitting at the last colon is unique. *)
Lemma last_colon_inj a b c d :
  contains_byte ":" b = false -> contains_byte ":" d = false ->
  a +:+ String ":" b = c +:+ String ":" d -> a = c /\ b = d.
Proof.
  intros Hb Hd E.
  assert (Hl : String.length a = String.length c).
  { apply (last_index_byte_split ":" a) in Hb. apply (last_index_byte_split ":" c) in Hd.
    rewrite E in Hb. congruence. }
  assert (a = c) as ->.
  { rewrite <- (stake_app a (String ":" b)), E, Hl. apply stake_app. }
  apply sapp_inj_l in E. by injection E as ->.
Qed.

Lemma JoinHostPort_inj h1 p1 h2 p2 :
  contains_byte ":" p1 = false -> contains_byte ":" p2 = false ->
  JoinHostPort h1 p1 = JoinHostPort h2 p2 -> h1 = h2 /\ p1 = p2.
Proof.
  intros Hp1 Hp2. rewrite !JoinHostPort_cases. intros [E ->]%last_colon_inj; [|done..].
  split; [|done].
  destruct (contains_byte ":" h1) eqn:H1, (contains_byte ":" h2) eqn:H2; try done.
  - injection E as E. by apply sapp_inj_r in E.
  - subst h2. rewrite contains_byte_cons, contains_byte_app, H1 in H2. done.
  - subst h1. rewrite contains_byte_cons, contains_byte_app, H2 in H1. done.
Qed.

Lemma SplitHostPort_JoinHostPort host port :
  no_brackets host = true -> no_brackets port = true -> contains_byte ":" port = false ->
  SplitHostPort (JoinHostPort host port) = Ok (host, port).
Proof.
  unfold no_brackets.
  intros [Ho Hc]%negb_true_iff%orb_false_iff [Po Pc]%negb_true_iff%orb_false_iff Hp.
  unfold SplitHostPort. rewrite JoinHostPort_cases.
  rewrite last_index_byte_split by done. cbv zeta.
  destruct (contains_byte ":" host) eqn:Hhc.
  - rewrite sapp_cons, sapp_assoc, sapp_cons, sapp_nil_l.
    change (HasPrefix (String "[" _) "[") with true. cbv iota.
    assert (index_byte "]" (String "[" (host +:+ String "]" (String ":" port)))
      = Some (S (String.length host))) as ->.
    { cbn [index_byte]. change (Ascii.eqb "]" "[") with false. cbv iota.
      by rewrite index_byte_split. }
    assert (String.length (String "[" (host +:+ "]")) = S (String.length host + 1)) as ->
      by (simpl; by rewrite sapp_length).
    replace (_ =? _)%nat with false
      by (symmetry; apply Nat.eqb_neq; simpl; rewrite sapp_length; simpl; lia).
    replace (_ =? _)%nat with true by (symmetry; apply Nat.eqb_eq; lia).
    rewrite stake_cons, stake_app, !sdrop_cons, sdrop_app_S.
    replace (S (String.length host + 1)) with (String.length host + 2)%nat by lia.
    rewrite sdrop_app_add. cbn [sdrop].
    rewrite contains_byte_app, !contains_byte_cons. by rewrite Ho, Po, Pc.
  - assert (HasPrefix (host +:+ String ":" port) "[" = false) as ->.
    { destruct host as [|c host]; [done|]. rewrite sapp_cons. cbn [HasPrefix].
      rewrite contains_byte_cons in Ho. by apply orb_false_iff in Ho as [-> _]. }
    rewrite stake_app, Hhc, sdrop_app_S. cbn [sdrop].
    rewrite !contains_byte_app, !contains_byte_cons, Ho, Po, Hc, Pc. done.
Qed.

(** * Lemmas: dotted addresses *)

Section ip_lemmas.
Local Open Scope Z_scope.
Local Open Scope list_scope.

Definition octet (n : Z) : Prop := 0 <= n <= 255.

Lemma octet_cases (p : Z -> bool) :
  forallb p (Z.of_nat <$> seq 0 256) = true -> forall n, octet n -> p n = true.
Proof.
  intros Hp n Hn. rewrite forallb_forall in Hp. apply Hp. apply list_elem_of_In.
  apply list_elem_of_fmap. exists (Z.to_nat n). unfold octet in Hn.
  rewrite elem_of_seq. lia.
Qed.

(** The decimal digits of an octet, most significant first. *)
Definition octet_digits (n : Z) : list Z :=
  if n <? 10 then [n] else if n <? 100 then [n / 10; n mod 10]
  else [n / 100; n / 10 mod 10; n mod 10].

Lemma Itoa_octet n :
  octet n -> Itoa n = foldr (fun d s => String (digit_char d) s) "" (octet_digits n).
Proof.
  intros Hn. apply String.eqb_eq. revert n Hn.
  refine (octet_cases (fun n => Itoa n =? _)%string _). vm_compute. reflexivity.
Qed.

Lemma ipv4_fields_digit d t v digs acc :
  0 <= d <= 9 -> (digs = 0 \/ 0 < v) -> v * 10 + d <= 255 ->
  ipv4_fields (String (digit_char d) t) v digs acc = ipv4_fields t (v * 10 + d) (digs + 1) acc.
Proof.
  intros Hd Hv Hr. cbn [ipv4_fields]. rewrite digit_val_char by done. cbv zeta.
  assert ((digs =? 1) && (v =? 0) = false) as -> by lia.
  destruct (Z.ltb_spec 255 (v * 10 + d)); [lia|done].
Qed.

(** The octet loop reads the digits of a printed octet, with no leading zero to
    refuse, and stops before what follows. *)
Lemma ipv4_fields_Itoa n t acc :
  octet n ->
  exists digs, 0 < digs /\ ipv4_fields (Itoa n +:+ t) 0 0 acc = ipv4_fields t n digs acc.
Proof.
  intros Hn. rewrite Itoa_octet by done. unfold octet in Hn. unfold octet_digits.
  destruct (Z.ltb_spec n 10); [|destruct (Z.ltb_spec n 100)]; cbn [foldr];
    rewrite !sapp_cons, sapp_nil_l, !ipv4_fields_digit by (Z.to_euclidean_division_equations; lia);
    eexists; (split; [|f_equal; Z.to_euclidean_division_equations; lia]); lia.
Qed.

Lemma ipv4_fields_dot n digs t acc :
  0 < digs -> t <> "" -> (length acc < 3)%nat ->
  ipv4_fields (String "." t) n digs acc = ipv4_fields t 0 0 (acc ++ [n]).
Proof.
  intros Hd Ht Hl. cbn [ipv4_fields]. change (digit_val ".") with (@None Z).
  change (Ascii.eqb "." ".") with true. cbv iota.
  destruct (Z.eqb_spec digs 0); [lia|]. destruct (String.eqb_spec t ""); [done|].
  destruct (Nat.eqb_spec (length acc) 3); [lia|done].
Qed.

Lemma ipv4_fields_dotted a b c d :
  octet a -> octet b -> octet c -> octet d ->
  ipv4_fields (dotted a b c d) 0 0 [] = Some [a; b; c; d].
Proof.
  intros Ha Hb Hc Hd. unfold dotted.
  pose proof Itoa_nonempty. pose proof sapp_nonempty_l.
  destruct (ipv4_fields_Itoa a ("." +:+ Itoa b +:+ "." +:+ Itoa c +:+ "." +:+ Itoa d) [] Ha)
    as (? & ? & ->).
  rewrite (sapp_cons "."), sapp_nil_l, ipv4_fields_dot by (simpl; auto; lia).
  destruct (ipv4_fields_Itoa b ("." +:+ Itoa c +:+ "." +:+ Itoa d) ([] ++ [a]) Hb)
    as (? & ? & ->).
  rewrite (sapp_cons "."), sapp_nil_l, ipv4_fields_dot by (simpl; auto; lia).
  destruct (ipv4_fields_Itoa c ("." +:+ Itoa d) (([] ++ [a]) ++ [b]) Hc) as (? & ? & ->).
  rewrite (sapp_cons "."), sapp_nil_l, ipv4_fields_dot by (simpl; auto; lia).
  rewrite <- (sapp_nil_r (Itoa d)).
  destruct (ipv4_fields_Itoa d "" ((([] ++ [a]) ++ [b]) ++ [c]) Hd) as (? & ? & ->).
  done.
Qed.

Lemma addr_kind_digits fuel n acc :
  addr_kind (itoa_go fuel n acc) = addr_kind acc.
Proof.
  revert n acc. induction fuel as [|fuel IH]; intros n acc; [done|]. cbn [itoa_go].
  assert (0 <= n mod 10 <= 9) by (pose proof (Z.mod_pos_bound n 10 eq_refl); lia).
  assert (addr_kind (String (digit_char (n mod 10)) acc) = addr_kind acc) as E.
  { cbn [addr_kind]. rewrite !(Ascii.eqb_sym (digit_char _)), !digit_char_neq by done. done. }
  destruct (n <? 10); [done|]. by rewrite IH.
Qed.

(** Parsing what is printed: an IPv4 address in dotted form is read back as its
    own four octets. *)
Lemma ParseIP_dotted a b c d :
  octet a -> octet b -> octet c -> octet d ->
  ParseIP (dotted a b c d) = Some (v4_in_6 [a; b; c; d]).
Proof.
  intros Ha Hb Hc Hd. unfold ParseIP.
  assert (addr_kind (dotted a b c d) = Some "."%char) as ->.
  { unfold dotted, Itoa, itoa_nonneg. unfold octet in Ha.
    destruct (Z.ltb_spec a 0); [lia|]. rewrite <- itoa_go_app, addr_kind_digits. done. }
  change (Ascii.eqb "." ".") with true. cbv iota. by rewrite ipv4_fields_dotted.
Qed.

Lemma To4_v4_in_6 fs : To4 (v4_in_6 fs) = Some fs.
Proof. reflexivity. Qed.

Lemma IsLoopback_v4 a b c d : IsLoopback (v4_in_6 [a; b; c; d]) = (a =? 127).
Proof.
  unfold IsLoopback. rewrite To4_v4_in_6. simpl.
  destruct (Z.eqb_spec a 127) as [->|Hne]; [done|].
  apply bool_decide_eq_false. congruence.
Qed.
End ip_lemmas.

(** * Lemmas: which bytes an address can hold *)

Section foreign_bytes.
Local Open Scope Z_scope.
Context (c : ascii).
Hypothesis Hdigit : digit_val c = None.
Hypothesis Hhex : hex_val c = None.
Hypothesis Hdot : Ascii.eqb c "." = false.
Hypothesis Hcolon : Ascii.eqb c ":" = false.

Lemma ipv4_fields_foreign s v digs acc :
  contains_byte c s = true -> ipv4_fields s v digs acc = None.
Proof.
  revert v digs acc. induction s as [|d s IH]; intros v digs acc; [done|].
  rewrite contains_byte_cons. cbn [ipv4_fields].
  destruct (Ascii.eqb_spec c d) as [<-|_]; simpl.
  - intros _. by rewrite Hdigit, Hdot.
  - intros Hs. destruct (digit_val d); destruct (_ && _) || destruct (Ascii.eqb d ".");
      try done; [destruct (255 <? _) | destruct (_ || _); [|destruct (_ =? _)%nat]]; auto.
Qed.

Lemma hex_group_foreign s off acc a o rest :
  hex_group s off acc = Some (a, o, rest) -> contains_byte c s = contains_byte c rest.
Proof.
  revert off acc. induction s as [|d s IH]; intros off acc; cbn [hex_group].
  - by intros [= <- <- <-].
  - destruct (hex_val d) eqn:Hd; [|by intros [= <- <- <-]]. cbv zeta.
    destruct (3 <? off); [done|]. destruct (65535 <? _); [done|]. intros H%IH.
    rewrite contains_byte_cons, H. destruct (Ascii.eqb_spec c d) as [<-|]; [congruence|done].
Qed.

Lemma ipv6_loop_foreign fuel ip ell s ip' ell' s' :
  ipv6_loop fuel ip ell s = Some (ip', ell', s') ->
  contains_byte c s = true -> contains_byte c s' = true.
Proof.
  revert ip ell s. induction fuel as [|fuel IH]; intros ip ell s; cbn [ipv6_loop].
  - by intros [= <- <- <-].
  - destruct (hex_group s 0 0) as [[[acc off] rest]|] eqn:Hg; [|done].
    intros H Hs. pose proof (hex_group_foreign _ _ _ _ _ _ Hg) as Hr. rewrite Hs in Hr.
    destruct (off =? 0); [done|]. destruct (HasPrefix rest ".").
    + destruct (_ && _); [done|]. destruct (12 <? _)%nat; [done|].
      by rewrite ipv4_fields_foreign in H.
    + cbv zeta in H. destruct rest as [|d rest]; [done|].
      destruct (Ascii.eqb_spec d ":") as [->|]; [|done]. simpl in H.
      rewrite contains_byte_cons, Hcolon in Hr. simpl in Hr.
      destruct rest as [|e rest]; [done|].
      destruct (Ascii.eqb_spec e ":") as [->|]; [|by eapply IH].
      rewrite contains_byte_cons, Hcolon in Hr. simpl in Hr.
      destruct ell; [done|]. destruct (String.eqb_spec rest "") as [->|]; [done|by eapply IH].
Qed.

(** A byte that no address syntax uses occurs in no parsable address. *)
Lemma ParseIP_foreign s : contains_byte c s = true -> ParseIP s = None.
Proof.
  intros Hs. unfold ParseIP. destruct (addr_kind s) as [k|]; [|done].
  destruct (Ascii.eqb k "."); [by rewrite ipv4_fields_foreign|].
  destruct (Ascii.eqb k ":"); [|done]. destruct (contains_byte "%" s); [done|].
  assert (Hloop : forall ell t, contains_byte c t = true ->
    ipv6_loop 8 [] ell t ≫= ipv6_finish = None).
  { intros ell t Ht. destruct (ipv6_loop 8 [] ell t) as [[[ip e] r]|] eqn:E; [|done]. simpl.
    apply ipv6_loop_foreign in E; [|done]. by destruct (String.eqb_spec r "") as [->|]. }
  unfold parseIPv6. destruct (HasPrefix s "::") eqn:Hp; [|by apply Hloop].
  apply HasPrefix_spec in Hp as [t ->]. cbv zeta.
  change (sdrop 2 ("::" +:+ t)) with t.
  rewrite contains_byte_app, !contains_byte_cons, Hcolon in Hs. simpl in Hs.
  destruct (String.eqb_spec t "") as [->|]; [done|by apply Hloop].
Qed.
End foreign_bytes.

Lemma ParseIP_no_brackets s ip : ParseIP s = Some ip -> no_brackets s = true.
Proof.
  intros H. unfold no_brackets. apply negb_true_iff, orb_false_iff.
  split; apply not_true_iff_false; intros Hc.
  - by rewrite (ParseIP_foreign "[" eq_refl eq_refl eq_refl eq_refl s Hc) in H.
  - by rewrite (ParseIP_foreign "]" eq_refl eq_refl eq_refl eq_refl s Hc) in H.
Qed.
