(* ===== verification/GoPath.v ===== *)
(** The lexical path functions of Go's [path/filepath] (Unix) the program calls:
    [Clean], [Dir], [Base], [Join] and [IsAbs]. *)

From S2P Require Import Prelude GoStrings.

Open Scope string_scope.
Open Scope list_scope.

(** * Definitions *)

(** The slash-separated components of a path, empty ones included. *)
Fixpoint components (s : string) : list string :=
  match s with
  | EmptyString => [""]
  | String c s' =>
      if Ascii.eqb c "/" then "" :: components s'
      else match components s' with
           | k :: ks => String c k :: ks
           | [] => [String c ""]
           end
  end.

Fixpoint join_slash (ks : list string) : string :=
  match ks with
  | [] => ""
  | [k] => k
  | k :: ks' => k +:+ "/" +:+ join_slash ks'
  end.

Definition IsAbs (p : string) : bool := HasPrefix p "/".

(** One component against the stack of those kept, last first: empty and "."
    are dropped, ".." removes the component before it, is dropped at the root
    and kept in front of a relative path. *)
Definition clean_push (rooted : bool) (stack : list string) (k : string) : list string :=
  if (k =? "") || (k =? ".") then stack
  else if k =? ".." then
    match stack with
    | top :: below => if top =? ".." then ".." :: stack else below
    | [] => if rooted then [] else [".."]
    end
  else k :: stack.

Definition clean_stack (rooted : bool) (ks : list string) : list string :=
  fold_left (clean_push rooted) ks [].

(** [filepath.Clean]. *)
Definition Clean (p : string) : string :=
  let rooted := IsAbs p in
  let out := join_slash (rev (clean_stack rooted (components p))) in
  if rooted then String "/" out else if out =? "" then "." else out.

(** [filepath.Dir]: everything up to the last slash, cleaned. *)
Definition Dir (p : string) : string :=
  match last_index_byte "/" p with
  | None => Clean ""
  | Some i => Clean (stake (S i) p)
  end.

(** [filepath.Base]. *)
Definition Base (p : string) : string :=
  if p =? "" then "."
  else
    let q := TrimRight p "/" in
    let b := match last_index_byte "/" q with None => q | Some i => sdrop (S i) q end in
    if b =? "" then "/" else b.

(** [filepath.Join]: leading empty elements are dropped, the rest joined and
    cleaned. *)
Fixpoint Join (elems : list string) : string :=
  match elems with
  | [] => ""
  | e :: es => if e =? "" then Join es else Clean (join_slash elems)
  end.

(** * Lengths: [Dir] walks strictly upwards *)

(** What a list of components occupies in a path, one separator each. *)
Definition weight (ks : list string) : nat := sum_list_with (fun k => S (String.length k)) ks.

(** The components [clean_push] can keep. *)
Definition kept (ks : list string) : list string := List.filter (fun k => negb (k =? "")) ks.

Lemma IsAbs_inv p : IsAbs p = true -> exists q, p = String "/" q.
Proof. unfold IsAbs. intros [q ->]%HasPrefix_spec. by exists q. Qed.

Lemma components_cons s : exists k ks, components s = k :: ks.
Proof.
  destruct s as [|c s]; simpl; [eauto|]. destruct (Ascii.eqb c "/"); [eauto|].
  destruct (components s); eauto.
Qed.

Lemma weight_components s : weight (components s) = S (String.length s).
Proof.
  induction s as [|c s IH]; [done|]. simpl.
  destruct (Ascii.eqb c "/"); [unfold weight in *; simpl; by rewrite IH|].
  destruct (components_cons s) as (k & ks & E). rewrite E in *.
  unfold weight in *. simpl in *. lia.
Qed.

Lemma weight_app ks1 ks2 : weight (ks1 ++ ks2) = (weight ks1 + weight ks2)%nat.
Proof. apply sum_list_with_app. Qed.

Lemma weight_rev ks : weight (rev ks) = weight ks.
Proof.
  induction ks as [|k ks IH]; [done|]. simpl. rewrite weight_app, IH.
  unfold weight. simpl. lia.
Qed.

Lemma weight_kept ks : (weight (kept ks) <= weight ks)%nat.
Proof.
  induction ks as [|k ks IH]; [done|]. unfold kept. simpl.
  destruct (k =? ""); simpl; unfold weight, kept in *; simpl; lia.
Qed.

Lemma weight_clean_push rooted stack k :
  (weight (clean_push rooted stack k) <= weight stack + weight (kept [k]))%nat.
Proof.
  unfold clean_push, kept. simpl. destruct (String.eqb_spec k "") as [->|]; simpl.
  - lia.
  - destruct (k =? "."); [unfold weight; simpl; lia|].
    destruct (String.eqb_spec k "..") as [->|]; [|unfold weight; simpl; lia].
    destruct stack as [|top below]; [destruct rooted; unfold weight; simpl; lia|].
    destruct (top =? ".."); unfold weight; simpl; lia.
Qed.

Lemma weight_clean_stack rooted ks :
  (weight (clean_stack rooted ks) <= weight (kept ks))%nat.
Proof.
  unfold clean_stack.
  cut (forall stack,
    (weight (fold_left (clean_push rooted) ks stack) <= weight stack + weight (kept ks))%nat).
  { intros H. specialize (H []). simpl in H. exact H. }
  induction ks as [|k ks IH]; intros stack; cbn [fold_left]; [unfold weight; simpl; lia|].
  specialize (IH (clean_push rooted stack k)).
  pose proof (weight_clean_push rooted stack k).
  assert (weight (kept (k :: ks)) = weight (kept [k]) + weight (kept ks))%nat as ->.
  { unfold kept. simpl. destruct (negb (k =? "")); unfold weight; simpl; lia. }
  lia.
Qed.

Lemma length_join_slash ks :
  (String.length (join_slash ks) = weight ks - 1)%nat.
Proof.
  induction ks as [|k ks IH]; [done|]. destruct ks as [|k' ks].
  - unfold weight. simpl. lia.
  - change (join_slash (k :: k' :: ks)) with (k +:+ "/" +:+ join_slash (k' :: ks)).
    rewrite !sapp_length, IH. unfold weight. simpl. lia.
Qed.

Lemma components_snoc_slash s : components (s +:+ "/") = components s ++ [""].
Proof.
  induction s as [|c s IH]; [done|]. rewrite sapp_cons. cbn [components].
  rewrite IH. destruct (Ascii.eqb c "/"); [done|].
  by destruct (components_cons s) as (k & ks & ->).
Qed.

Lemma kept_app ks1 ks2 : kept (ks1 ++ ks2) = kept ks1 ++ kept ks2.
Proof. apply List.filter_app. Qed.

Lemma kept_components_abs s : kept (components (String "/" s)) = kept (components s).
Proof. reflexivity. Qed.

(** Cleaning a path that ends in a slash shortens it, unless it is the root. *)
Lemma Clean_trailing_slash s :
  s +:+ "/" = "/" \/ (String.length (Clean (s +:+ "/")) <= String.length s)%nat.
Proof.
  destruct s as [|c s]; [by left|right]. unfold Clean.
  pose proof (weight_clean_stack (IsAbs (String c s +:+ "/")) (components (String c s +:+ "/"))) as Hw.
  assert (kept (components (String c s +:+ "/")) = kept (components (String c s))) as E.
  { rewrite components_snoc_slash, kept_app. apply app_nil_r. }
  rewrite E in Hw. clear E.
  set (st := clean_stack _ _) in *.
  assert (HL : String.length (join_slash (rev st)) = (weight st - 1)%nat)
    by (rewrite length_join_slash; by rewrite weight_rev).
  destruct (IsAbs (String c s +:+ "/")) eqn:Habs.
  - apply IsAbs_inv in Habs as [q [= -> _]]. rewrite kept_components_abs in Hw.
    pose proof (weight_kept (components s)). rewrite weight_components in *. simpl. lia.
  - pose proof (weight_kept (components (String c s))). rewrite weight_components in *.
    destruct (join_slash (rev st) =? "") eqn:E; simpl in *; lia.
Qed.

Lemma Dir_slash a b :
  contains_byte "/" b = false -> Dir (a +:+ String "/" b) = Clean (a +:+ "/").
Proof.
  intros Hb. unfold Dir. rewrite last_index_byte_split by done. f_equal.
  clear. induction a as [|c a IH]; [done|].
  change (String.length (String c a)) with (S (String.length a)).
  by rewrite !sapp_cons, stake_cons, IH.
Qed.

Lemma Dir_no_slash p : contains_byte "/" p = false -> Dir p = ".".
Proof. intros H%last_index_byte_none. unfold Dir. by rewrite H. Qed.

Lemma slash_cases p :
  contains_byte "/" p = false \/
  exists a b, p = a +:+ String "/" b /\ contains_byte "/" b = false.
Proof.
  destruct (last_index_byte "/" p) as [i|] eqn:Hi.
  - right. destruct (last_index_byte_inv _ _ _ Hi) as (a & b & -> & _ & Hb). eauto.
  - left. by apply last_index_byte_none.
Qed.

(** A parent is shorter than its path, or is one of the two fixed points. *)
Lemma Dir_shrinks p :
  Dir p = "." \/ p = "/" \/ (String.length (Dir p) < String.length p)%nat.
Proof.
  destruct (slash_cases p) as [H|(a & b & -> & Hb)]; [left; by apply Dir_no_slash|right].
  rewrite Dir_slash by done. destruct (Clean_trailing_slash a) as [E|Hl].
  - rewrite E. change (Clean "/") with "/". destruct a as [|c a]; [|by destruct a].
    destruct b as [|c b]; [by left|right]. rewrite sapp_nil_l. simpl. lia.
  - right. rewrite sapp_length. simpl. lia.
Qed.

Lemma Clean_abs p : IsAbs p = true -> IsAbs (Clean p) = true.
Proof. intros H. unfold Clean. by rewrite H. Qed.

Lemma Dir_abs p : IsAbs p = true -> IsAbs (Dir p) = true.
Proof.
  intros Habs. destruct (slash_cases p) as [H|(a & b & -> & Hb)].
  - apply IsAbs_inv in Habs as [q ->]. by rewrite contains_byte_cons in H.
  - rewrite Dir_slash by done. apply Clean_abs. by destruct a.
Qed.

(** The root is the only absolute path that is its own parent. *)
Lemma Dir_fixed_abs p : IsAbs p = true -> Dir p = p -> p = "/".
Proof.
  intros Habs E. destruct (Dir_shrinks p) as [H|[H|H]]; [|done|rewrite E in H; lia].
  apply Dir_abs in Habs. by rewrite H in Habs.
Qed.

Lemma Join_abs e es : IsAbs e = true -> IsAbs (Join (e :: es)) = true.
Proof.
  intros [q ->]%IsAbs_inv. cbn [Join]. apply Clean_abs.
  by destruct es.
Qed.

(** * The last component *)

Lemma TrimRight_keep a s cutset :
  s <> "" -> TrimRight s cutset = s -> TrimRight (a +:+ s) cutset = a +:+ s.
Proof.
  intros Hne Hs. induction a as [|c a IH]; [done|]. rewrite sapp_cons. simpl. rewrite IH.
  destruct (a +:+ s) eqn:E; [|done]. destruct a; [by rewrite sapp_nil_l in E|done].
Qed.

Lemma TrimRight_none s c : contains_byte c s = false -> TrimRight s (String c "") = s.
Proof.
  induction s as [|d s IH]; [done|]. rewrite contains_byte_cons. intros [Hd Hs]%orb_false_iff.
  simpl. rewrite IH by done. rewrite contains_byte_cons, Ascii.eqb_sym, Hd. by destruct s.
Qed.

(** The component after the last slash is the base, when there is one. *)
Lemma Base_slash a s :
  s <> "" -> contains_byte "/" s = false -> Base (a +:+ String "/" s) = s.
Proof.
  intros Hne Hs. unfold Base.
  assert ((a +:+ String "/" s =? "") = false) as -> by (destruct a; done).
  rewrite TrimRight_keep; [|done|].
  - rewrite last_index_byte_split, sdrop_app_S by done.
    by rewrite (proj2 (String.eqb_neq s "") Hne).
  - simpl. rewrite TrimRight_none by done. by destruct s.
Qed.

Lemma Base_no_slash s : s <> "" -> contains_byte "/" s = false -> Base s = s.
Proof.
  intros Hne Hs. unfold Base. rewrite (proj2 (String.eqb_neq s "") Hne), TrimRight_none by done.
  pose proof Hs as ->%last_index_byte_none. by rewrite (proj2 (String.eqb_neq s "") Hne).
Qed.

(** * Components and joined paths *)

Lemma components_join k ks :
  Forall (fun k => contains_byte "/" k = false) (k :: ks) ->
  components (join_slash (k :: ks)) = k :: ks.
Proof.
  revert k. induction ks as [|k' ks IH]; intros k [Hk Hks]%Forall_cons.
  - induction k as [|c k IHk]; [done|]. rewrite contains_byte_cons in Hk.
    apply orb_false_iff in Hk as [Hc Hk]. cbn [join_slash] in *. cbn [components].
    rewrite Ascii.eqb_sym in Hc. by rewrite Hc, IHk.
  - change (join_slash (k :: k' :: ks)) with (k +:+ String "/" (join_slash (k' :: ks))).
    specialize (IH k' Hks). clear Hks.
    induction k as [|c k IHk]; [rewrite sapp_nil_l; cbn [components]; rewrite Ascii.eqb_refl; by rewrite IH|].
    rewrite contains_byte_cons in Hk. apply orb_false_iff in Hk as [Hc Hk]. rewrite sapp_cons.
    cbn [components]. rewrite Ascii.eqb_sym in Hc. by rewrite Hc, IHk.
Qed.

Lemma components_no_slash s : Forall (fun k => contains_byte "/" k = false) (components s).
Proof.
  induction s as [|c s IH]; [by repeat constructor|]. cbn [components].
  destruct (Ascii.eqb c "/") eqn:E; [by constructor|].
  destruct (components_cons s) as (k & ks & Es). rewrite Es in *. apply Forall_cons in IH as [Hk Hks].
  constructor; [|done]. by rewrite contains_byte_cons, Ascii.eqb_sym, E, Hk.
Qed.

Lemma join_components s : join_slash (components s) = s.
Proof.
  induction s as [|c s IH]; [done|]. cbn [components].
  destruct (components_cons s) as (k & ks & E). rewrite E in *.
  destruct (Ascii.eqb_spec c "/") as [->|Hc].
  - change (join_slash ("" :: k :: ks)) with (String "/" (join_slash (k :: ks))). by rewrite IH.
  - rewrite <-IH. by destruct ks.
Qed.

Lemma components_inj s t : components s = components t -> s = t.
Proof. intros E. by rewrite <-(join_components s), E, join_components. Qed.
