(* ===== verification/GoTime.v ===== *)
(** [time.Duration] constants and [time.ParseDuration].  A duration is an
    [int64] count of nanoseconds; the fractional part of a component is computed
    in binary64 arithmetic, as Go does. *)

From Stdlib Require Import SpecFloat.
From S2P Require Import Prelude GoStrings.

Open Scope string_scope.
Open Scope Z_scope.

(** * Constants *)

Definition Nanosecond : Z := 1.
Definition Microsecond : Z := 1000 * Nanosecond.
Definition Millisecond : Z := 1000 * Microsecond.
Definition Second : Z := 1000 * Millisecond.
Definition Minute : Z := 60 * Second.
Definition Hour : Z := 60 * Minute.

(** [unitMap], with the two spellings of the micro sign. *)
Definition unit_ns (u : string) : option Z :=
  if (u =? "ns")%string then Some Nanosecond
  else if bool_decide (u ∈ ["us"; byte_str 194 +:+ byte_str 181 +:+ "s";
                            byte_str 206 +:+ byte_str 188 +:+ "s"]) then Some Microsecond
  else if (u =? "ms")%string then Some Millisecond
  else if (u =? "s")%string then Some Second
  else if (u =? "m")%string then Some Minute
  else if (u =? "h")%string then Some Hour
  else None.

(** * The scanner *)

(** [leadingInt]: [None] on overflow past 2^63. *)
Fixpoint leading_int (x : Z) (s : string) : option (Z * string) :=
  match s with
  | EmptyString => Some (x, s)
  | String c s' =>
      match digit_val c with
      | None => Some (x, s)
      | Some d =>
          if 2 ^ 63 / 10 <? x then None
          else let x' := x * 10 + d in
               if 2 ^ 63 <? x' then None else leading_int x' s'
      end
  end.

(** [leadingFraction]: digits past the precision of [x] are read and ignored.
    [scale] is a power of ten of at most 19 digits, exact in binary64. *)
Fixpoint leading_fraction (x scale : Z) (overflow : bool) (s : string) : Z * Z * string :=
  match s with
  | EmptyString => (x, scale, s)
  | String c s' =>
      match digit_val c with
      | None => (x, scale, s)
      | Some d =>
          if overflow then leading_fraction x scale true s'
          else if (2 ^ 63 - 1) / 10 <? x then leading_fraction x scale true s'
          else let y := x * 10 + d in
               if 2 ^ 63 <? y then leading_fraction x scale true s'
               else leading_fraction y (scale * 10) false s'
      end
  end.

(** The unit: everything up to the next digit or point. *)
Fixpoint split_unit (s : string) : string * string :=
  match s with
  | EmptyString => (s, s)
  | String c s' =>
      if Ascii.eqb c "." || bool_decide (is_Some (digit_val c)) then (EmptyString, s)
      else let '(u, r) := split_unit s' in (String c u, r)
  end.

(** * Binary64 *)

Definition float_of_Z (z : Z) : spec_float := binary_normalize 53 1024 z 0 false.

(** Conversion to [uint64] of a nonnegative float in range: truncation. *)
Definition float_trunc (f : spec_float) : Z :=
  match f with
  | S754_finite _ m e => if 0 <=? e then Z.pos m * 2 ^ e else Z.pos m / 2 ^ (- e)
  | _ => 0
  end.

(** [uint64(float64(f) * (float64(unit) / scale))]. *)
Definition fraction_ns (f unit scale : Z) : Z :=
  float_trunc (SFmul 53 1024 (float_of_Z f)
                 (SFdiv 53 1024 (float_of_Z unit) (float_of_Z scale))).

(** * ParseDuration *)

(** The component loop; every round consumes a byte, so [len(s)] rounds suffice
    and running out of fuel cannot be mistaken for a result. *)
Fixpoint duration_loop (fuel : nat) (d : Z) (s : string) : option Z :=
  match s, fuel with
  | EmptyString, _ => Some d
  | _, O => None
  | String c _, S fuel' =>
      if negb (Ascii.eqb c "." || bool_decide (is_Some (digit_val c))) then None
      else
        '(v, s1) ← leading_int 0 s;
        let pre := negb (String.length s1 =? String.length s)%nat in
        let '(f, scale, s2, post) :=
          match s1 with
          | String "." s1' =>
              let '(f, scale, s2) := leading_fraction 0 1 false s1' in
              (f, scale, s2, negb (String.length s2 =? String.length s1')%nat)
          | _ => (0, 1, s1, false)
          end in
        if negb pre && negb post then None
        else
          let '(u, s3) := split_unit s2 in
          if (u =? "")%string then None
          else
            unit ← unit_ns u;
            if 2 ^ 63 / unit <? v then None
            else
              let v1 := v * unit in
              let v2 := if 0 <? f then v1 + fraction_ns f unit scale else v1 in
              if 2 ^ 63 <? v2 then None
              else
                let d' := (d + v2) mod 2 ^ 64 in
                if 2 ^ 63 <? d' then None else duration_loop fuel' d' s3
  end.

(** [time.ParseDuration]; [None] is its error. *)
Definition ParseDuration (s : string) : option Z :=
  let '(neg, s1) :=
    match s with
    | String c s' => if Ascii.eqb c "-" || Ascii.eqb c "+" then (Ascii.eqb c "-", s') else (false, s)
    | EmptyString => (false, s)
    end in
  if (s1 =? "0")%string then Some 0
  else if (s1 =? "")%string then None
  else
    d ← duration_loop (String.length s1) 0 s1;
    if (neg : bool) then Some (int64 (- d))
    else if 2 ^ 63 - 1 <? d then None
    else Some d.

(** * Lemmas *)

(** Every parsed duration is an [int64]. *)
Lemma duration_loop_range fuel d s r :
  0 <= d <= 2 ^ 63 -> duration_loop fuel d s = Some r -> 0 <= r <= 2 ^ 63.
Proof.
  revert d s. induction fuel as [|fuel IH]; intros d s Hd; destruct s as [|c s];
    cbn [duration_loop]; try (by intros [= <-]); [].
  destruct (negb _); [done|].
  destruct (leading_int 0 (String c s)) as [[v s1]|]; [|done]. simpl.
  destruct (match s1 with String "." _ => _ | _ => _ end) as [[[f scale] s2] post].
  destruct (_ && _); [done|]. destruct (split_unit s2) as [u s3].
  destruct (u =? "")%string; [done|]. destruct (unit_ns u) as [unit|]; [|done]. simpl.
  destruct (_ <? v); [done|].
  set (v2 := if 0 <? f then _ else _). destruct (2 ^ 63 <? v2); [done|].
  destruct (Z.ltb_spec (2 ^ 63) ((d + v2) mod 2 ^ 64)); [done|].
  apply IH. pose proof (Z.mod_pos_bound (d + v2) (2 ^ 64) eq_refl). lia.
Qed.

Lemma ParseDuration_range s r : ParseDuration s = Some r -> min_int64 <= r <= max_int64.
Proof.
  unfold ParseDuration, min_int64, max_int64.
  destruct (match s with String _ _ => _ | _ => _ end) as [neg s1].
  destruct (s1 =? "0")%string; [intros [= <-]; lia|]. destruct (s1 =? "")%string; [done|].
  destruct (duration_loop _ 0 s1) as [d|] eqn:Hd; [|done]. simpl.
  apply duration_loop_range in Hd; [|lia]. destruct neg.
  - intros [= <-]. unfold int64, wrap_signed.
    pose proof (Z.mod_pos_bound (- d + 2 ^ (64 - 1)) (2 ^ 64) eq_refl). lia.
  - destruct (Z.ltb_spec (2 ^ 63 - 1) d); [done|]. intros [= <-]. lia.
Qed.
