(* ===== verification/GoOs.v ===== *)
(** What the program observes of the operating system through Go's [os] and
    [os/user]: the environment, the passwd entry and [Stat]. *)

From S2P Require Import Prelude.

Open Scope string_scope.

(** [os.LookupEnv] and [os.Getenv] over the process environment. *)
Definition LookupEnv (env : gmap string string) (key : string) : option string := env !! key.
Definition Getenv (env : gmap string string) (key : string) : string :=
  default "" (LookupEnv env key).

(** [os.UserHomeDir] on Unix: [$HOME], or an error when it is empty. *)
Definition UserHomeDir (env : gmap string string) : option string :=
  let home := Getenv env "HOME" in
  if (home =? "")%string then None else Some home.

(** What [user.Current] returns of the passwd entry. *)
Record User := mkUser { HomeDir : string; Username : string }.

(** What [os.Stat] returns.  [Dev] is the device of [Sys()], absent when [Sys()]
    is not a [*syscall.Stat_t]. *)
Record FileInfo := mkFileInfo { IsDir : bool; Dev : option Z }.

Record System := mkSystem {
  environ : gmap string string;
  currentUser : option User;
  Stat : string -> option FileInfo;
}.
