(* ===== verification/GoFmt.v ===== *)
(** What [fmt] prints for the verb [%q]: UTF-8 as [unicode/utf8] decodes and
    encodes it, and [strconv.Quote].  The table behind [strconv.IsPrint] for code
    points from U+0080 is a parameter. *)

From S2P Require Import Prelude GoStrings.

Open Scope string_scope.
Open Scope Z_scope.

(** * Bytes *)

Definition byte_val (c : ascii) : Z := Z.of_nat (nat_of_ascii c).
Definition byte_of (z : Z) : ascii := ascii_of_nat (Z.to_nat z).
Definition byte1 (z : Z) : string := String (byte_of z) EmptyString.

Definition dquote : ascii := byte_of 34.
Definition backslash : ascii := byte_of 92.

(** * UTF-8 *)

Definition between (a b : Z) (c : ascii) : bool := (a <=? byte_val c) && (byte_val c <=? b).

(** The well-formed sequences of two, three and four bytes: no overlong forms, no
    surrogates, nothing past U+10FFFF. *)
Definition seq2 (b0 b1 : ascii) : bool := between 194 223 b0 && between 128 191 b1.
Definition seq3 (b0 b1 b2 : ascii) : bool :=
  between 224 239 b0 &&
  between (if byte_val b0 =? 224 then 160 else 128) (if byte_val b0 =? 237 then 159 else 191) b1 &&
  between 128 191 b2.
Definition seq4 (b0 b1 b2 b3 : ascii) : bool :=
  between 240 244 b0 &&
  between (if byte_val b0 =? 240 then 144 else 128) (if byte_val b0 =? 244 then 143 else 191) b1 &&
  between 128 191 b2 && between 128 191 b3.

Definition val2 (b0 b1 : ascii) : Z := (byte_val b0 - 192) * 64 + (byte_val b1 - 128).
Definition val3 (b0 b1 b2 : ascii) : Z :=
  ((byte_val b0 - 224) * 64 + (byte_val b1 - 128)) * 64 + (byte_val b2 - 128).
Definition val4 (b0 b1 b2 b3 : ascii) : Z :=
  (((byte_val b0 - 240) * 64 + (byte_val b1 - 128)) * 64 + (byte_val b2 - 128)) * 64 + (byte_val b3 - 128).

(** What a loop of [utf8.DecodeRuneInString] sees: code points, and single bytes
    that begin none ([RuneError] of width 1). *)
Inductive item := Rune (r : Z) | Invalid (b : ascii).

Fixpoint runes (s : string) : list item :=
  match s with
  | EmptyString => []
  | String b0 s1 =>
      if byte_val b0 <? 128 then Rune (byte_val b0) :: runes s1
      else match s1 with
      | EmptyString => Invalid b0 :: runes s1
      | String b1 s2 =>
          if seq2 b0 b1 then Rune (val2 b0 b1) :: runes s2
          else match s2 with
          | EmptyString => Invalid b0 :: runes s1
          | String b2 s3 =>
              if seq3 b0 b1 b2 then Rune (val3 b0 b1 b2) :: runes s3
              else match s3 with
              | EmptyString => Invalid b0 :: runes s1
              | String b3 s4 =>
                  if seq4 b0 b1 b2 b3 then Rune (val4 b0 b1 b2 b3) :: runes s4
                  else Invalid b0 :: runes s1
              end
          end
      end
  end.

(** [utf8.AppendRune]: what is not a code point becomes U+FFFD. *)
Definition encode (r : Z) : string :=
  if r <? 128 then byte1 r
  else if r <? 2048 then byte1 (192 + r / 64) +:+ byte1 (128 + r mod 64)
  else if r <? 65536 then
    byte1 (224 + r / 4096) +:+ byte1 (128 + r / 64 mod 64) +:+ byte1 (128 + r mod 64)
  else byte1 (240 + r / 262144) +:+ byte1 (128 + r / 4096 mod 64) +:+ byte1 (128 + r / 64 mod 64) +:+
       byte1 (128 + r mod 64).

Definition valid_rune (r : Z) : bool :=
  ((0 <=? r) && (r <? 55296)) || ((57344 <=? r) && (r <=? 1114111)).

Definition AppendRune (r : Z) : string := encode (if valid_rune r then r else 65533).

(** * [strconv.Quote] *)

Definition lowerhex (d : Z) : ascii := byte_of (if d <? 10 then 48 + d else 87 + d).

(** The last [n] hexadecimal digits of [r]. *)
Fixpoint hex_digits (n : nat) (r : Z) : string :=
  match n with
  | O => EmptyString
  | S n' => String (lowerhex (r / 16 ^ Z.of_nat n' mod 16)) (hex_digits n' r)
  end.

#[global] Arguments hex_digits : simpl never.

Section quote.
Context (isPrintTable : Z -> bool).

Definition IsPrint (r : Z) : bool :=
  if r <? 128 then (32 <=? r) && (r <? 127) else isPrintTable r.

(** The letter of a control character that has one. *)
Definition control_letter (r : Z) : option ascii :=
  if r =? 7 then Some "a"%char else if r =? 8 then Some "b"%char
  else if r =? 12 then Some "f"%char else if r =? 10 then Some "n"%char
  else if r =? 13 then Some "r"%char else if r =? 9 then Some "t"%char
  else if r =? 11 then Some "v"%char else None.

(** [appendEscapedRune], and the bytes that are not UTF-8. *)
Definition escape (i : item) : string :=
  match i with
  | Invalid b => String backslash (String "x" (hex_digits 2 (byte_val b)))
  | Rune r =>
      if (r =? 34) || (r =? 92) then String backslash (byte1 r)
      else if IsPrint r then AppendRune r
      else match control_letter r with
      | Some l => String backslash (String l EmptyString)
      | None =>
          if (r <? 32) || (r =? 127) then String backslash (String "x" (hex_digits 2 r))
          else if r <? 65536 then String backslash (String "u" (hex_digits 4 r))
          else String backslash (String "U" (hex_digits 8 r))
      end
  end.

Fixpoint escape_all (l : list item) : string :=
  match l with [] => EmptyString | i :: l' => escape i +:+ escape_all l' end.

Definition Quote (s : string) : string :=
  String dquote (escape_all (runes s) +:+ String dquote EmptyString).
End quote.

(** * Bytes: lemmas *)

Lemma byte_val_range c : 0 <= byte_val c < 256.
Proof. unfold byte_val. pose proof (nat_ascii_bounded c). lia. Qed.
#[export] Hint Resolve byte_val_range : go.

Lemma byte_of_val c : byte_of (byte_val c) = c.
Proof. unfold byte_of, byte_val. by rewrite Nat2Z.id, ascii_nat_embedding. Qed.

Lemma byte_val_of z : 0 <= z < 256 -> byte_val (byte_of z) = z.
Proof. intros H. unfold byte_of, byte_val. rewrite nat_ascii_embedding; lia. Qed.

Lemma byte_val_inj c d : byte_val c = byte_val d -> c = d.
Proof. intros E. by rewrite <-(byte_of_val c), E, byte_of_val. Qed.

Lemma between_spec a b c : between a b c = true <-> a <= byte_val c <= b.
Proof. unfold between. lia. Qed.

(** * UTF-8: lemmas *)

(** A well-formed sequence and its code point. *)
Inductive enc : Z -> string -> Prop :=
| enc1 b0 : byte_val b0 < 128 -> enc (byte_val b0) (String b0 "")
| enc2 b0 b1 : seq2 b0 b1 = true -> enc (val2 b0 b1) (String b0 (String b1 ""))
| enc3 b0 b1 b2 : seq3 b0 b1 b2 = true -> enc (val3 b0 b1 b2) (String b0 (String b1 (String b2 "")))
| enc4 b0 b1 b2 b3 : seq4 b0 b1 b2 b3 = true ->
    enc (val4 b0 b1 b2 b3) (String b0 (String b1 (String b2 (String b3 "")))).

(** The first byte tells the length. *)
Lemma seq2_inv b0 b1 : seq2 b0 b1 = true -> 194 <= byte_val b0 <= 223 /\ 128 <= byte_val b1 <= 191.
Proof. unfold seq2. rewrite andb_true_iff, !between_spec. tauto. Qed.

Lemma seq3_inv b0 b1 b2 :
  seq3 b0 b1 b2 = true ->
  224 <= byte_val b0 <= 239 /\ 128 <= byte_val b1 <= 191 /\ 128 <= byte_val b2 <= 191 /\
  (byte_val b0 = 224 -> 160 <= byte_val b1) /\ (byte_val b0 = 237 -> byte_val b1 <= 159).
Proof.
  unfold seq3. rewrite !andb_true_iff, !between_spec.
  destruct (Z.eqb_spec (byte_val b0) 224), (Z.eqb_spec (byte_val b0) 237); lia.
Qed.

Lemma seq4_inv b0 b1 b2 b3 :
  seq4 b0 b1 b2 b3 = true ->
  240 <= byte_val b0 <= 244 /\ 128 <= byte_val b1 <= 191 /\ 128 <= byte_val b2 <= 191 /\
  128 <= byte_val b3 <= 191 /\
  (byte_val b0 = 240 -> 144 <= byte_val b1) /\ (byte_val b0 = 244 -> byte_val b1 <= 143).
Proof.
  unfold seq4. rewrite !andb_true_iff, !between_spec.
  destruct (Z.eqb_spec (byte_val b0) 240), (Z.eqb_spec (byte_val b0) 244); lia.
Qed.

Lemma seq2_no b0 b1 : byte_val b0 < 194 \/ 223 < byte_val b0 -> seq2 b0 b1 = false.
Proof. intros H. apply not_true_is_false. intros ?%seq2_inv. lia. Qed.

Lemma seq3_no b0 b1 b2 : byte_val b0 < 224 \/ 239 < byte_val b0 -> seq3 b0 b1 b2 = false.
Proof. intros H. apply not_true_is_false. intros ?%seq3_inv. lia. Qed.

Lemma runes_enc r raw t : enc r raw -> runes (raw +:+ t) = Rune r :: runes t.
Proof.
  intros []; rewrite ?sapp_cons, sapp_nil_l; cbn [runes].
  - by rewrite (proj2 (Z.ltb_lt _ _)).
  - pose proof (seq2_inv _ _ H). rewrite (proj2 (Z.ltb_ge _ _)) by lia. by rewrite H.
  - pose proof (seq3_inv _ _ _ H). rewrite (proj2 (Z.ltb_ge _ _)) by lia.
    rewrite seq2_no by lia. by rewrite H.
  - pose proof (seq4_inv _ _ _ _ H). rewrite (proj2 (Z.ltb_ge _ _)) by lia.
    rewrite seq2_no, seq3_no by lia. by rewrite H.
Qed.

(** Induction along the items of a string. *)
Lemma runes_ind (P : string -> Prop) :
  P "" ->
  (forall r raw t, enc r raw -> P t -> P (raw +:+ t)) ->
  (forall b t, 128 <= byte_val b -> runes (String b t) = Invalid b :: runes t -> P t -> P (String b t)) ->
  forall s, P s.
Proof.
  intros H0 Hr Hi s. induction s as [s IH] using (induction_ltof1 _ String.length). unfold ltof in IH.
  destruct s as [|b0 s1]; [done|].
  assert (H1 : P s1) by (apply IH; simpl; lia).
  destruct (byte_val b0 <? 128) eqn:E0.
  { apply (Hr (byte_val b0) (String b0 "")); [constructor; lia|done]. }
  assert (Hb : runes (String b0 s1) = Invalid b0 :: runes s1 -> P (String b0 s1))
    by (intros E; apply Hi; [lia|done|done]).
  cbn [runes] in Hb. rewrite E0 in Hb.
  destruct s1 as [|b1 s2]; [by apply Hb|]. destruct (seq2 b0 b1) eqn:E2.
  { apply (Hr _ _ _ (enc2 _ _ E2)), IH. simpl. lia. }
  destruct s2 as [|b2 s3]; [by apply Hb|]. destruct (seq3 b0 b1 b2) eqn:E3.
  { apply (Hr _ _ _ (enc3 _ _ _ E3)), IH. simpl. lia. }
  destruct s3 as [|b3 s4]; [by apply Hb|]. destruct (seq4 b0 b1 b2 b3) eqn:E4; [|by apply Hb].
  apply (Hr _ _ _ (enc4 _ _ _ _ E4)), IH. simpl. lia.
Qed.

Lemma byte1_val c z : z = byte_val c -> byte1 z = String c "".
Proof. intros ->. unfold byte1. by rewrite byte_of_val. Qed.

Lemma div64 a b : 0 <= b < 64 -> (a * 64 + b) / 64 = a.
Proof. intros H. rewrite Z.div_add_l, Z.div_small by lia. lia. Qed.

Lemma mod64 a b : 0 <= b < 64 -> (a * 64 + b) mod 64 = b.
Proof. intros H. rewrite Z.add_comm, Z.mod_add, Z.mod_small by lia. done. Qed.

(** Encoding gives back the bytes that were decoded. *)
Lemma encode_enc r raw : enc r raw -> encode r = raw /\ valid_rune r = true.
Proof.
  intros []; unfold encode, valid_rune.
  - pose proof (byte_val_range b0). rewrite (proj2 (Z.ltb_lt _ _)) by lia. split; [by apply byte1_val|lia].
  - apply seq2_inv in H as [H0 H1]. unfold val2. rewrite div64, mod64 by lia.
    split; [|lia]. rewrite (proj2 (Z.ltb_ge _ 128)), (proj2 (Z.ltb_lt _ 2048)) by lia.
    by rewrite (byte1_val b0), (byte1_val b1) by lia.
  - apply seq3_inv in H as (H0 & H1 & H2 & H3 & H4). unfold val3.
    change 4096 with (64 * 64). rewrite <-Z.div_div, !div64, !mod64 by lia. split; [|lia].
    rewrite (proj2 (Z.ltb_ge _ 128)), (proj2 (Z.ltb_ge _ 2048)), (proj2 (Z.ltb_lt _ 65536)) by lia.
    by rewrite (byte1_val b0), (byte1_val b1), (byte1_val b2) by lia.
  - apply seq4_inv in H as (H0 & H1 & H2 & H3 & H4 & H5). unfold val4.
    change 262144 with (64 * 64 * 64). change 4096 with (64 * 64).
    rewrite <-!Z.div_div, !div64, !mod64 by lia. split; [|lia].
    rewrite (proj2 (Z.ltb_ge _ 128)), (proj2 (Z.ltb_ge _ 2048)), (proj2 (Z.ltb_ge _ 65536)) by lia.
    by rewrite (byte1_val b0), (byte1_val b1), (byte1_val b2), (byte1_val b3) by lia.
Qed.

Lemma AppendRune_enc r raw : enc r raw -> AppendRune r = raw.
Proof. intros [E V]%encode_enc. unfold AppendRune. by rewrite V. Qed.

(** An ASCII string is its own list of code points. *)
Lemma runes_ascii c s : byte_val c < 128 -> runes (String c s) = Rune (byte_val c) :: runes s.
Proof. intros H. apply (runes_enc _ _ s (enc1 c H)). Qed.

Definition is_rune (i : item) : bool := match i with Rune _ => true | Invalid _ => false end.

(** [utf8.ValidString]. *)
Definition ValidString (s : string) : bool := forallb is_rune (runes s).

(** Decoding starts afresh after a valid string. *)
Lemma runes_app s t : ValidString s = true -> runes (s +:+ t) = (runes s ++ runes t)%list.
Proof.
  unfold ValidString. induction s as [|r raw s E IH|b s Hb E IH] using runes_ind.
  - done.
  - rewrite sapp_assoc, !(runes_enc r raw) by done. simpl. intros H. by rewrite IH.
  - by rewrite E.
Qed.

Lemma ValidString_app s t : ValidString s = true -> ValidString t = true -> ValidString (s +:+ t) = true.
Proof. intros Hs Ht. unfold ValidString. rewrite runes_app, forallb_app by done. by apply andb_true_iff. Qed.

(** * [Quote] prints *)

Section quote_lemmas.
Context (isPrintTable : Z -> bool).
Local Abbreviation IsPrint := (IsPrint isPrintTable).
Local Abbreviation Quote := (Quote isPrintTable).

Definition prints (i : item) : bool := match i with Rune r => IsPrint r | Invalid _ => false end.

(** Only printable code points. *)
Definition printable (s : string) : bool := forallb prints (runes s).

Lemma printable_valid s : printable s = true -> ValidString s = true.
Proof.
  unfold printable, ValidString. rewrite !forallb_forall. intros H i Hi. specialize (H i Hi).
  by destruct i.
Qed.

Lemma printable_app s t : printable s = true -> printable t = true -> printable (s +:+ t) = true.
Proof.
  intros Hs Ht. pose proof (printable_valid _ Hs). unfold printable. rewrite runes_app, forallb_app by done.
  by apply andb_true_iff.
Qed.

Lemma printable_cons c s : 32 <= byte_val c < 127 -> printable s = true -> printable (String c s) = true.
Proof.
  intros Hc Hs. unfold printable. rewrite runes_ascii by lia. cbn. rewrite andb_true_iff. split; [|done].
  unfold GoFmt.IsPrint. destruct (byte_val c <? 128) eqn:E; lia.
Qed.

(** Decimal numbers. *)
Lemma printable_digit d s :
  0 <= d <= 9 -> printable s = true -> printable (String (digit_char d) s) = true.
Proof.
  intros Hd Hs. apply printable_cons; [|done]. unfold digit_char, byte_val. rewrite nat_ascii_embedding; lia.
Qed.

Lemma Itoa_printable z : printable (Itoa z) = true.
Proof.
  assert (H : forall fuel n acc, printable acc = true -> printable (itoa_go fuel n acc) = true).
  { induction fuel as [|fuel IH]; intros m acc Ha; cbn [itoa_go]; [done|].
    pose proof (Z.mod_pos_bound m 10 ltac:(lia)).
    assert (printable (String (digit_char (m mod 10)) acc) = true) by (apply printable_digit; [lia|done]).
    destruct (m <? 10); [done|]. by apply IH. }
  unfold Itoa, itoa_nonneg. destruct (z <? 0); [|by apply H].
  apply printable_cons; [done|]. by apply (H _ (-z) "").
Qed.

Lemma lowerhex_val d : 0 <= d < 16 -> byte_val (lowerhex d) = if d <? 10 then 48 + d else 87 + d.
Proof. intros H. unfold lowerhex. apply byte_val_of. destruct (d <? 10) eqn:E; lia. Qed.

Lemma printable_hex n r : printable (hex_digits n r) = true.
Proof.
  induction n as [|n IH]; [done|]. cbn [hex_digits]. apply printable_cons; [|done].
  pose proof (Z.mod_pos_bound (r / 16 ^ Z.of_nat n) 16 ltac:(lia)).
  rewrite lowerhex_val by done. destruct (_ <? 10) eqn:E; lia.
Qed.

Lemma printable_enc r raw : enc r raw -> IsPrint r = true -> printable raw = true.
Proof.
  intros He Hr. unfold printable. rewrite <-(sapp_nil_r raw), (runes_enc r) by done. cbn. by rewrite Hr.
Qed.

(** The items that decoding can give. *)
Definition decoded (i : item) : Prop := match i with Rune r => exists raw, enc r raw | Invalid _ => True end.

Lemma runes_decoded s : Forall decoded (runes s).
Proof.
  induction s as [|r raw s E IH|b s Hb E IH] using runes_ind; [constructor| |].
  - rewrite (runes_enc r) by done. constructor; [by exists raw|done].
  - rewrite E. by constructor.
Qed.

Lemma escape_printable i : decoded i -> printable (escape isPrintTable i) = true.
Proof.
  destruct i as [r|b]; simpl.
  - intros [raw He]. destruct ((r =? 34) || (r =? 92)) eqn:E1.
    + apply printable_cons; [done|]. apply printable_cons; [rewrite byte_val_of; lia|done].
    + destruct (IsPrint r) eqn:E2; [by rewrite (AppendRune_enc _ _ He), (printable_enc r)|].
      unfold control_letter.
      repeat match goal with |- context [if ?b then _ else _] => destruct b end;
        repeat (apply printable_cons; [done|]); try done; apply printable_hex.
  - intros _. repeat (apply printable_cons; [done|]). apply (printable_hex 2).
Qed.

(** Whatever the string, what is printed for it is printable. *)
Lemma Quote_printable s : printable (Quote s) = true.
Proof.
  unfold Quote. apply printable_cons; [done|]. apply printable_app; [|by apply printable_cons].
  pose proof (runes_decoded s) as H. induction H as [|i l Hi Hl IH]; [done|].
  cbn [escape_all]. apply printable_app; [by apply escape_printable|done].
Qed.
End quote_lemmas.
