(* ===== verification/GoDate.v ===== *)
(** [time.Time.UTC().Format(time.RFC3339)] of a moment given in seconds since
    1970, and a reference reader of such timestamps. *)

From S2P Require Import Prelude GoStrings.

Open Scope string_scope.
Open Scope Z_scope.

(** * The calendar *)

Definition leap (y : Z) : bool := (y mod 4 =? 0) && (negb (y mod 100 =? 0) || (y mod 400 =? 0)).

Definition month_lengths (y : Z) : list Z :=
  [31; if leap y then 29 else 28; 31; 30; 31; 30; 31; 31; 30; 31; 30; 31].

Definition sumZ (l : list Z) : Z := foldr Z.add 0 l.

(** Days from 0001-01-01 to the first day of a year, and of a month in it. *)
Definition days_before_year (y : Z) : Z :=
  365 * (y - 1) + (y - 1) / 4 - (y - 1) / 100 + (y - 1) / 400.
Definition days_before_month (y m : Z) : Z := sumZ (take (Z.to_nat (m - 1)) (month_lengths y)).

Definition unix_epoch : Z := 719162.  (* 1970-01-01 *)

Fixpoint month_of (lens : list Z) (yday : Z) : Z * Z :=
  match lens with
  | [] => (1, yday + 1)
  | n :: lens' => if yday <? n then (1, yday + 1) else let '(m, d) := month_of lens' (yday - n) in (m + 1, d)
  end.

(** Year, month and day of a day counted from 0001-01-01: cycles of 400, 100, 4
    years and one year, the last century and the last year of which may be a day
    longer. *)
Definition civil (d : Z) : Z * Z * Z :=
  let n400 := d / 146097 in let d := d mod 146097 in
  let n100 := Z.min 3 (d / 36524) in let d := d - 36524 * n100 in
  let n4 := d / 1461 in let d := d mod 1461 in
  let n1 := Z.min 3 (d / 365) in let yday := d - 365 * n1 in
  let year := 400 * n400 + 100 * n100 + 4 * n4 + n1 + 1 in
  let '(m, d) := month_of (month_lengths year) yday in (year, m, d).

(** * Printing *)

(** [z] in [n] digits, with zeros in front. *)
Fixpoint pad (n : nat) (z : Z) : string :=
  match n with
  | O => EmptyString
  | S n' => String (digit_char (z / 10 ^ Z.of_nat n' mod 10)) (pad n' z)
  end.

(** [appendInt]: at least [n] digits. *)
Definition appendInt (n : nat) (z : Z) : string :=
  if z <? 0 then String "-" (if - z <? 10 ^ Z.of_nat n then pad n (- z) else Itoa (- z))
  else if z <? 10 ^ Z.of_nat n then pad n z else Itoa z.

Definition FormatRFC3339 (sec : Z) : string :=
  let '(y, m, d) := civil (unix_epoch + sec / 86400) in
  let s := sec mod 86400 in
  appendInt 4 y +:+ "-" +:+ appendInt 2 m +:+ "-" +:+ appendInt 2 d +:+ "T" +:+
  appendInt 2 (s / 3600) +:+ ":" +:+ appendInt 2 (s / 60 mod 60) +:+ ":" +:+ appendInt 2 (s mod 60) +:+ "Z".

(** * Reading *)

Fixpoint read_digits (n : nat) (v : Z) (s : string) : option (Z * string) :=
  match n, s with
  | O, _ => Some (v, s)
  | S n', String c s' => match digit_val c with Some d => read_digits n' (v * 10 + d) s' | None => None end
  | S _, EmptyString => None
  end.

(** A number of [n] digits with the separator [c] behind it. *)
Definition read_field (n : nat) (c : ascii) (s : string) : option (Z * string) :=
  '(v, r) ← read_digits n 0 s;
  match r with
  | String d r' => if Ascii.eqb c d then Some (v, r') else None
  | EmptyString => None
  end.

(** The seconds since 1970 of a timestamp in UTC with a four-digit year. *)
Definition ParseRFC3339 (s : string) : option Z :=
  '(y, s) ← read_field 4 "-" s;
  '(m, s) ← read_field 2 "-" s;
  '(d, s) ← read_field 2 "T" s;
  '(hh, s) ← read_field 2 ":" s;
  '(mm, s) ← read_field 2 ":" s;
  '(ss, s) ← read_field 2 "Z" s;
  if (1 <=? m) && (m <=? 12) && (1 <=? d) && (d <=? nth (Z.to_nat (m - 1)) (month_lengths y) 0) &&
     (hh <? 24) && (mm <? 60) && (ss <? 60) && (s =? "")%string
  then Some ((days_before_year y + days_before_month y m + d - 1 - unix_epoch) * 86400 +
             hh * 3600 + mm * 60 + ss)
  else None.

(** * The calendar: lemmas *)

Lemma month_of_spec lens yday :
  0 <= yday < sumZ lens ->
  let '(m, d) := month_of lens yday in
  1 <= m <= Z.of_nat (length lens) /\ 1 <= d <= nth (Z.to_nat (m - 1)) lens 0 /\
  sumZ (take (Z.to_nat (m - 1)) lens) + d - 1 = yday.
Proof.
  revert yday. induction lens as [|n lens IH]; intros yday H; cbn [month_of].
  - simpl in H. lia.
  - destruct (Z.ltb_spec yday n) as [Hlt|Hge]; [simpl; lia|].
    specialize (IH (yday - n)). destruct (month_of lens (yday - n)) as [m d]. simpl in H.
    destruct IH as (H1 & H2 & H3); [unfold sumZ in *; lia|].
    replace (Z.to_nat (m + 1 - 1)) with (S (Z.to_nat (m - 1))) by lia.
    cbn [length nth]. rewrite firstn_cons. unfold sumZ in *. simpl. lia.
Qed.

Lemma sum_month_lengths y : sumZ (month_lengths y) = 365 + Z.b2z (leap y).
Proof. unfold month_lengths. by destruct (leap y). Qed.

(** Which years have 366 days, by their place in the cycles. *)
Lemma leap_cycles a b c e :
  0 <= b <= 3 -> 0 <= c <= 24 -> 0 <= e <= 3 ->
  leap (400 * a + 100 * b + 4 * c + e + 1) = (e =? 3) && (negb (c =? 24) || (b =? 3)).
Proof.
  intros Hb Hc He. unfold leap. set (y := _ + 1).
  assert (E4 : (y mod 4 =? 0) = (e =? 3)).
  { replace y with (e + 1 + (100 * a + 25 * b + c) * 4) by (unfold y; lia). rewrite Z.mod_add by lia.
    assert (e = 0 \/ e = 1 \/ e = 2 \/ e = 3) as [->|[->|[->| ->]]] by lia; done. }
  rewrite E4. destruct (Z.eqb_spec e 3) as [->|]; [|done]. cbn [andb].
  assert (E100 : y mod 100 = (4 * c + 4) mod 100)
    by (replace y with (4 * c + 4 + (4 * a + b) * 100) by (unfold y; lia); by rewrite Z.mod_add).
  assert (E400 : y mod 400 = (100 * b + 4 * c + 4) mod 400)
    by (replace y with (100 * b + 4 * c + 4 + a * 400) by (unfold y; lia); by rewrite Z.mod_add).
  rewrite E100, E400. destruct (Z.eqb_spec c 24) as [->|Hc'].
  - assert (b = 0 \/ b = 1 \/ b = 2 \/ b = 3) as [->|[->|[->| ->]]] by lia; done.
  - rewrite Z.mod_small by lia. by rewrite (proj2 (Z.eqb_neq (4 * c + 4) 0)) by lia.
Qed.

Lemma days_before_cycles a b c e :
  0 <= b <= 3 -> 0 <= c <= 24 -> 0 <= e <= 3 ->
  days_before_year (400 * a + 100 * b + 4 * c + e + 1) = 146097 * a + 36524 * b + 1461 * c + 365 * e.
Proof. intros Hb Hc He. unfold days_before_year. Z.to_euclidean_division_equations. lia. Qed.

(** [civil] gives a date of the calendar, and the day it was given. *)
Lemma civil_spec d :
  let '(y, m, dd) := civil d in
  1 <= m <= 12 /\ 1 <= dd <= nth (Z.to_nat (m - 1)) (month_lengths y) 0 /\
  days_before_year y + days_before_month y m + dd - 1 = d.
Proof.
  unfold civil. set (a := d / 146097). set (d1 := d mod 146097).
  set (b := Z.min 3 (d1 / 36524)). set (d2 := d1 - 36524 * b).
  set (c := d2 / 1461). set (d3 := d2 mod 1461). set (e := Z.min 3 (d3 / 365)).
  assert (H1 : d = 146097 * a + d1 /\ 0 <= d1 < 146097)
    by (unfold a, d1; split; [apply Z.div_mod; lia|apply Z.mod_pos_bound; lia]).
  assert (H2 : d1 = 36524 * b + d2 /\ 0 <= b <= 3 /\ 0 <= d2 /\ (d2 < 36524 \/ b = 3 /\ d2 = 36524)).
  { unfold d2, b. pose proof (Z.div_mod d1 36524 ltac:(lia)). pose proof (Z.mod_pos_bound d1 36524 ltac:(lia)). lia. }
  assert (H3 : d2 = 1461 * c + d3 /\ 0 <= d3 < 1461)
    by (unfold c, d3; split; [apply Z.div_mod; lia|apply Z.mod_pos_bound; lia]).
  assert (H4 : 0 <= e <= 3 /\ 0 <= d3 - 365 * e /\ (d3 - 365 * e < 365 \/ e = 3 /\ d3 - 365 * e = 365)).
  { unfold e. pose proof (Z.div_mod d3 365 ltac:(lia)). pose proof (Z.mod_pos_bound d3 365 ltac:(lia)). lia. }
  clearbody a b c e d1 d2 d3. assert (Hc : 0 <= c <= 24) by lia.
  set (y := 400 * a + 100 * b + 4 * c + e + 1).
  pose proof (month_of_spec (month_lengths y) (d3 - 365 * e)) as Hm.
  pose proof (leap_cycles a b c e ltac:(lia) ltac:(lia) ltac:(lia)) as Hl.
  pose proof (days_before_cycles a b c e ltac:(lia) ltac:(lia) ltac:(lia)) as Hy. fold y in Hl, Hy.
  rewrite sum_month_lengths, Hl in Hm. unfold days_before_month.
  destruct (month_of (month_lengths y) (d3 - 365 * e)) as [m dd].
  destruct Hm as (Hm1 & Hm2 & Hm3).
  { destruct (Z.eqb_spec e 3), (Z.eqb_spec c 24), (Z.eqb_spec b 3); simpl; lia. }
  split; [exact Hm1|]. split; [exact Hm2|]. lia.
Qed.

(** * Digits *)

Lemma read_digits_pad n v z t :
  read_digits n v (pad n z +:+ t) = Some (v * 10 ^ Z.of_nat n + z mod 10 ^ Z.of_nat n, t).
Proof.
  revert v. induction n as [|n IH]; intros v.
  - cbn. rewrite Z.mod_1_r. f_equal. f_equal. lia.
  - cbn [pad read_digits]. rewrite sapp_cons. cbn [read_digits].
    rewrite digit_val_char by (pose proof (Z.mod_pos_bound (z / 10 ^ Z.of_nat n) 10); lia).
    rewrite IH. do 2 f_equal. rewrite Nat2Z.inj_succ, Z.pow_succ_r by lia.
    rewrite (Z.mul_comm 10 (10 ^ _)), Z.rem_mul_r by lia. lia.
Qed.

Lemma read_field_pad n c z t :
  0 <= z < 10 ^ Z.of_nat n -> read_field n c (appendInt n z +:+ String c "" +:+ t) = Some (z, t).
Proof.
  intros Hz. unfold read_field, appendInt. rewrite (proj2 (Z.ltb_ge _ _)), (proj2 (Z.ltb_lt _ _)) by lia.
  rewrite read_digits_pad. simpl. rewrite Ascii.eqb_refl, Z.mod_small by lia. done.
Qed.

(** A date of the calendar lies within its year. *)
Lemma month_bounds y m d :
  1 <= m <= 12 -> 1 <= d <= nth (Z.to_nat (m - 1)) (month_lengths y) 0 ->
  0 <= days_before_month y m + d - 1 < 366 /\ d <= 31.
Proof.
  intros Hm Hd. unfold days_before_month, month_lengths in *.
  assert (Hc : m ∈ [1; 2; 3; 4; 5; 6; 7; 8; 9; 10; 11; 12])
    by (rewrite !elem_of_cons; lia).
  rewrite !elem_of_cons, elem_of_nil in Hc.
  destruct (leap y); repeat destruct Hc as [->|Hc]; try done; simpl in *; lia.
Qed.

(** The years of four digits. *)
Lemma civil_year d : 0 <= d < 3652059 -> 1 <= fst (fst (civil d)) <= 9999.
Proof.
  intros Hd. pose proof (civil_spec d) as H. destruct (civil d) as [[y m] dd]. cbn [fst].
  destruct H as (Hm & Hdd & E). pose proof (month_bounds y m dd Hm Hdd).
  unfold days_before_year in E. Z.to_euclidean_division_equations. lia.
Qed.

(** A timestamp is read back as the second it was printed for, in the years 1 to
    9999. *)
Definition four_digit_year (sec : Z) : Prop :=
  - unix_epoch * 86400 <= sec < (3652059 - unix_epoch) * 86400.

Lemma RFC3339_roundtrip sec : four_digit_year sec -> ParseRFC3339 (FormatRFC3339 sec) = Some sec.
Proof.
  unfold four_digit_year. intros Hs. unfold FormatRFC3339.
  assert (Hd : 0 <= unix_epoch + sec / 86400 < 3652059).
  { pose proof (Z.div_le_lower_bound sec 86400 (- unix_epoch)).
    pose proof (Z.div_lt_upper_bound sec 86400 (3652059 - unix_epoch)). lia. }
  pose proof (civil_year _ Hd) as Hy. pose proof (civil_spec (unix_epoch + sec / 86400)) as H.
  destruct (civil _) as [[y m] d]. cbn [fst] in Hy. destruct H as (Hm & Hdd & E).
  pose proof (month_bounds y m d Hm Hdd) as [_ H31].
  set (s := sec mod 86400). assert (Hsec : sec = 86400 * (sec / 86400) + s /\ 0 <= s < 86400)
    by (unfold s; split; [apply Z.div_mod; lia|apply Z.mod_pos_bound; lia]).
  set (day := sec / 86400) in *. clearbody s day.
  assert (Hh : 0 <= s / 3600 < 24 /\ 0 <= s / 60 mod 60 < 60 /\ 0 <= s mod 60 < 60 /\
               s = s / 3600 * 3600 + s / 60 mod 60 * 60 + s mod 60)
    by (Z.to_euclidean_division_equations; lia).
  set (hh := s / 3600) in *. set (mm := s / 60 mod 60) in *. set (ss := s mod 60) in *.
  clearbody hh mm ss. unfold ParseRFC3339.
  do 5 (rewrite read_field_pad by lia; cbn [mbind option_bind]).
  change "Z" with (String "Z" "" +:+ ""). rewrite (read_field_pad 2 "Z" ss "") by lia. cbn [mbind option_bind].
  rewrite (proj2 (Z.leb_le 1 m)), (proj2 (Z.leb_le m 12)), (proj2 (Z.leb_le 1 d)),
    (proj2 (Z.leb_le d _)), (proj2 (Z.ltb_lt hh 24)), (proj2 (Z.ltb_lt mm 60)), (proj2 (Z.ltb_lt ss 60)) by lia.
  cbn. f_equal. lia.
Qed.
