(* ===== verification/Json.v ===== *)
(** A reference parser for JSON texts (RFC 8259), for objects whose values are
    strings and integers: what a client of the health endpoints reads.  It shares
    nothing with the code that prints them but UTF-8. *)

From S2P Require Import Prelude GoStrings GoFmt.

Open Scope string_scope.
Open Scope Z_scope.

Inductive json := JStr (s : string) | JNum (z : Z).

(** * Strings *)

Definition simple_escape (e : ascii) : option ascii :=
  if bool_decide (e = dquote \/ e = backslash \/ e = "/"%char) then Some e
  else if bool_decide (e = "b"%char) then Some (byte_of 8)
  else if bool_decide (e = "f"%char) then Some (byte_of 12)
  else if bool_decide (e = "n"%char) then Some (byte_of 10)
  else if bool_decide (e = "r"%char) then Some (byte_of 13)
  else if bool_decide (e = "t"%char) then Some (byte_of 9)
  else None.

(** Four hexadecimal digits, and what follows them. *)
Definition hex4 (s : string) : option Z :=
  match s with
  | String a (String b (String c (String d _))) =>
      match hex_val a, hex_val b, hex_val c, hex_val d with
      | Some a, Some b, Some c, Some d =>
          Some (((Z.of_nat a * 16 + Z.of_nat b) * 16 + Z.of_nat c) * 16 + Z.of_nat d)
      | _, _, _, _ => None
      end
  | _ => None
  end.

(** The code point of an escape that starts with [u]: one, or a surrogate pair
    with the second half in the next escape. *)
Definition low_surrogate (s : string) : option Z :=
  match s with
  | String a (String b s') =>
      if bool_decide (a = backslash /\ b = "u"%char) then
        match hex4 s' with
        | Some l => if (56320 <=? l) && (l <=? 57343) then Some l else None
        | None => None
        end
      else None
  | _ => None
  end.

Definition push (x : string) (r : option (string * string)) : option (string * string) :=
  match r with Some (s, rest) => Some (x +:+ s, rest) | None => None end.

(** The characters up to the closing quotation mark, and the rest. *)
Fixpoint json_chars (fuel : nat) (s : string) : option (string * string) :=
  match fuel, s with
  | S fuel', String c s1 =>
      if bool_decide (c = dquote) then Some ("", s1)
      else if bool_decide (c = backslash) then
        match s1 with
        | EmptyString => None
        | String e s2 =>
            match simple_escape e with
            | Some x => push (String x "") (json_chars fuel' s2)
            | None =>
                if bool_decide (e = "u"%char) then
                  match hex4 s2 with
                  | None => None
                  | Some r =>
                      if valid_rune r then push (encode r) (json_chars fuel' (sdrop 4 s2))
                      else if r <=? 56319 then
                        match low_surrogate (sdrop 4 s2) with
                        | Some l => push (encode (65536 + (r - 55296) * 1024 + (l - 56320)))
                                      (json_chars fuel' (sdrop 10 s2))
                        | None => None
                        end
                      else None
                  end
                else None
            end
        end
      else if byte_val c <? 32 then None
      else push (String c "") (json_chars fuel' s1)
  | _, _ => None
  end.

(** A string after its opening quotation mark. *)
Definition json_string (s : string) : option (string * string) :=
  match s with
  | String c s' => if bool_decide (c = dquote) then json_chars (String.length s') s' else None
  | EmptyString => None
  end.

(** * Integers *)

Fixpoint json_digits (v : Z) (s : string) : Z * string :=
  match s with
  | String c s' => match digit_val c with Some d => json_digits (v * 10 + d) s' | None => (v, s) end
  | EmptyString => (v, s)
  end.

(** No leading zeros, and neither a fraction nor an exponent behind it. *)
Definition json_natural (s : string) : option (Z * string) :=
  match s with
  | EmptyString => None
  | String c s' =>
      match digit_val c with
      | None => None
      | Some d =>
          let '(v, rest) := if d =? 0 then (0, s') else json_digits d s' in
          match rest with
          | String e _ => if bool_decide (e ∈ [".";"e";"E"]%char) || bool_decide (is_Some (digit_val e))
                          then None else Some (v, rest)
          | EmptyString => Some (v, rest)
          end
      end
  end.

Definition json_integer (s : string) : option (Z * string) :=
  match s with
  | String c s' =>
      if bool_decide (c = "-"%char) then (fun '(v, r) => (- v, r)) <$> json_natural s' else json_natural s
  | EmptyString => None
  end.

(** * Objects *)

Definition json_blank (c : ascii) : bool := bool_decide (byte_val c ∈ [32; 9; 10; 13]).

Fixpoint skip (s : string) : string :=
  match s with
  | String c s' => if json_blank c then skip s' else s
  | EmptyString => EmptyString
  end.

(** The next token must be [c]. *)
Definition expect (c : ascii) (s : string) : option string :=
  match skip s with
  | String d s' => if bool_decide (d = c) then Some s' else None
  | EmptyString => None
  end.

Definition json_value (s : string) : option (json * string) :=
  match json_string (skip s) with
  | Some (x, rest) => Some (JStr x, rest)
  | None => (fun '(z, rest) => (JNum z, rest)) <$> json_integer (skip s)
  end.

Definition json_member (s : string) : option ((string * json) * string) :=
  '(k, s1) ← json_string (skip s);
  s2 ← expect ":" s1;
  '(v, s3) ← json_value s2;
  Some ((k, v), s3).

(** The members of an object up to its closing brace. *)
Fixpoint json_members (fuel : nat) (s : string) : option (list (string * json) * string) :=
  match fuel with
  | O => None
  | S fuel' =>
      '(m, s1) ← json_member s;
      match expect "}" s1 with
      | Some rest => Some ([m], rest)
      | None =>
          s2 ← expect "," s1;
          '(ms, rest) ← json_members fuel' s2;
          Some (m :: ms, rest)
      end
  end.

(** A text is valid UTF-8 and one object, with nothing but blanks behind it. *)
Definition json_object (s : string) : option (list (string * json)) :=
  if ValidString s then
    s1 ← expect "{" s;
    '(ms, rest) ← (match expect "}" s1 with
                   | Some rest => Some ([], rest)
                   | None => json_members (String.length s1) s1
                   end);
    if (skip rest =? "")%string then Some ms else None
  else None.

(** * Quoted strings *)

Section quoted.
Context (isPrintTable : Z -> bool).
Local Abbreviation IsPrint := (IsPrint isPrintTable).

(** What the escapes of [Quote] and of JSON agree on: printable code points, the
    control characters with a letter in both, and those that need four
    hexadecimal digits. *)
Definition json_safe_item (i : item) : bool :=
  match i with
  | Invalid _ => false
  | Rune r => IsPrint r || bool_decide (r ∈ [8; 9; 10; 12; 13]) || ((128 <=? r) && (r <? 65536))
  end.

Definition json_safe (s : string) : bool := forallb json_safe_item (runes s).

Lemma push_push x y r : push x (push y r) = push (x +:+ y) r.
Proof. destruct r as [[s t]|]; [|done]. simpl. by rewrite sapp_assoc. Qed.

(** A character that needs no escape. *)
Lemma json_chars_raw fuel c t :
  32 <= byte_val c -> c <> dquote -> c <> backslash ->
  json_chars (S fuel) (String c t) = push (String c "") (json_chars fuel t).
Proof.
  intros Hv Hd Hb. cbn [json_chars]. rewrite !bool_decide_false by done.
  by rewrite (proj2 (Z.ltb_ge _ _)).
Qed.

Lemma not_ascii c : 128 <= byte_val c -> 32 <= byte_val c /\ c <> dquote /\ c <> backslash.
Proof. intros H. split_and!; [lia|by intros ->..]. Qed.

(** The bytes of an encoded code point, when it is neither a control character
    nor one of the two that are always escaped. *)
Lemma json_chars_enc fuel r raw t :
  enc r raw -> 32 <= r -> r <> 34 -> r <> 92 ->
  json_chars (String.length raw + fuel) (raw +:+ t) = push raw (json_chars fuel t).
Proof.
  intros [b0 H|b0 b1 H|b0 b1 b2 H|b0 b1 b2 b3 H] Hr H1 H2;
    rewrite ?sapp_cons, sapp_nil_l; cbn [String.length Nat.add].
  - apply json_chars_raw; [done|by intros ->..].
  - apply seq2_inv in H. do 2 rewrite json_chars_raw by (apply not_ascii; lia). apply push_push.
  - apply seq3_inv in H. do 3 rewrite json_chars_raw by (apply not_ascii; lia). by rewrite !push_push.
  - apply seq4_inv in H. do 4 rewrite json_chars_raw by (apply not_ascii; lia). by rewrite !push_push.
Qed.

Lemma hex_val_lowerhex d : 0 <= d < 16 -> hex_val (lowerhex d) = Some (Z.to_nat d).
Proof.
  intros H. assert (Hn : nat_of_ascii (lowerhex d) = Z.to_nat (if d <? 10 then 48 + d else 87 + d)).
  { apply Nat2Z.inj. rewrite Z2Nat.id by (destruct (d <? 10); lia). by apply lowerhex_val. }
  unfold hex_val. rewrite Hn. destruct (Z.ltb_spec d 10).
  - rewrite (proj2 (Nat.leb_le 48 _)), (proj2 (Nat.leb_le _ 57)) by lia. simpl. f_equal. lia.
  - rewrite (proj2 (Nat.leb_gt _ 57)), (proj2 (Nat.leb_gt _ 70)) by lia.
    rewrite !andb_false_r. rewrite (proj2 (Nat.leb_le 97 _)), (proj2 (Nat.leb_le _ 102)) by lia.
    simpl. f_equal. lia.
Qed.

Lemma hex4_digits r t : 0 <= r < 65536 -> hex4 (hex_digits 4 r +:+ t) = Some r.
Proof.
  intros Hr. unfold hex_digits. rewrite !sapp_cons. cbn [hex4].
  rewrite !hex_val_lowerhex by (apply Z.mod_pos_bound; lia).
  rewrite !Z2Nat.id by (apply Z.mod_pos_bound; lia). f_equal.
  change (16 ^ Z.of_nat 3) with 4096. change (16 ^ Z.of_nat 2) with 256.
  change (16 ^ Z.of_nat 1) with 16. change (16 ^ Z.of_nat 0) with 1.
  Z.to_euclidean_division_equations. lia.
Qed.

(** One item: what [Quote] prints for it is read back as its bytes, or refused. *)
Definition item_raw (i : item) (raw : string) : Prop :=
  match i with Rune r => enc r raw | Invalid b => raw = String b "" end.

Lemma enc_nonneg r raw : enc r raw -> 0 <= r.
Proof. intros [_ V]%encode_enc. unfold valid_rune in V. lia. Qed.

(** An escape that is a letter. *)
Lemma json_chars_letter fuel e t :
  json_chars (S fuel) (String backslash (String e t)) =
  match simple_escape e with
  | Some x => push (String x "") (json_chars fuel t)
  | None => if bool_decide (e = "u"%char) then json_chars (S fuel) (String backslash (String e t)) else None
  end.
Proof. cbn [json_chars]. cbn. by destruct (simple_escape e), (bool_decide (e = "u"%char)). Qed.

Lemma json_chars_u fuel r t :
  0 <= r < 65536 -> valid_rune r = true ->
  json_chars (S fuel) (String backslash (String "u" (hex_digits 4 r +:+ t))) =
  push (encode r) (json_chars fuel t).
Proof.
  intros Hr Hv. cbn [json_chars]. change (bool_decide (backslash = dquote)) with false.
  change (bool_decide (backslash = backslash)) with true. change (simple_escape "u") with (@None ascii).
  change (bool_decide ("u"%char = "u"%char)) with true. cbn match.
  by rewrite hex4_digits, Hv.
Qed.

Lemma control_letter_json r l raw :
  control_letter r = Some l -> enc r raw ->
  simple_escape l = (if bool_decide (r ∈ [8; 9; 10; 12; 13]) then Some (byte_of r) else None) /\
  raw = byte1 r /\ l <> "u"%char /\ r < 32.
Proof.
  unfold control_letter. intros Hc [E _]%encode_enc.
  repeat match type of Hc with context [if ?r =? ?k then _ else _] =>
    destruct (Z.eqb_spec r k); [subst r; simplify_eq; by vm_compute; split_and!|] end.
  done.
Qed.

#[local] Arguments json_chars : simpl never.

Lemma json_chars_escape i raw fuel t :
  item_raw i raw -> (String.length (escape isPrintTable i +:+ t) <= fuel)%nat ->
  exists fuel', (String.length t <= fuel')%nat /\
    json_chars fuel (escape isPrintTable i +:+ t) =
    if json_safe_item i then push raw (json_chars fuel' t) else None.
Proof.
  destruct i as [r|b]; simpl; intros Hi Hf.
  2: { exists fuel. rewrite !sapp_cons in *. simpl in Hf. rewrite sapp_length in Hf. split; [lia|].
       destruct fuel as [|fuel]; [lia|]. by rewrite json_chars_letter. }
  pose proof (encode_enc _ _ Hi) as [He Hv]. pose proof (enc_nonneg _ _ Hi) as H0.
  destruct ((r =? 34) || (r =? 92)) eqn:E1.
  { assert (Hr : r = 34 \/ r = 92) by lia. rewrite sapp_cons in *. simpl in Hf.
    destruct fuel as [|fuel]; [lia|]. exists fuel. split; [rewrite sapp_length in Hf; simpl in Hf; lia|].
    assert (IsPrint r = true) as -> by (by destruct Hr as [->| ->]). simpl.
    unfold byte1. rewrite sapp_cons, sapp_nil_l, json_chars_letter.
    by destruct Hr as [->| ->]; rewrite <-He. }
  destruct (IsPrint r) eqn:E2.
  { rewrite (AppendRune_enc _ _ Hi) in *. rewrite sapp_length in Hf. simpl.
    exists (fuel - String.length raw)%nat. split; [lia|].
    replace fuel with (String.length raw + (fuel - String.length raw))%nat at 1 by lia.
    apply (json_chars_enc _ r); [done|unfold GoFmt.IsPrint in E2; destruct (r <? 128) eqn:?; lia|lia..]. }
  destruct (control_letter r) as [l|] eqn:E3.
  { destruct (control_letter_json _ _ _ E3 Hi) as (Hs & -> & Hu & Hr). rewrite !sapp_cons, sapp_nil_l in *.
    simpl in Hf. destruct fuel as [|fuel]; [lia|]. exists fuel. split; [lia|].
    rewrite json_chars_letter, Hs, (proj2 (Z.leb_gt 128 r)), orb_false_r by lia. simpl.
    destruct (bool_decide (r ∈ _)); [done|]. by rewrite bool_decide_false. }
  assert (Hn : bool_decide (r ∈ [8; 9; 10; 12; 13]) = false).
  { apply bool_decide_false. rewrite !elem_of_cons, elem_of_nil.
    by intros [->|[->|[->|[->|[->|[]]]]]]. }
  rewrite Hn. unfold GoFmt.IsPrint in E2.
  destruct ((r <? 32) || (r =? 127)) eqn:E4; [|destruct (r <? 65536) eqn:E5];
    rewrite !sapp_cons in *; simpl in Hf; rewrite sapp_length in Hf;
    (destruct fuel as [|fuel]; [lia|]); exists fuel; (split; [lia|]).
  - by rewrite json_chars_letter, (proj2 (Z.leb_gt 128 r)) by lia.
  - rewrite json_chars_u, He by (done || lia). destruct (r <? 128) eqn:E6; [lia|].
    by rewrite (proj2 (Z.leb_le 128 r)) by lia.
  - by rewrite json_chars_letter, andb_false_r.
Qed.

(** A quoted string is read back exactly, if it is safe, and refused otherwise. *)
Lemma json_string_Quote s t :
  json_string (Quote isPrintTable s +:+ t) = if json_safe s then Some (s, t) else None.
Proof.
  unfold Quote, json_safe. rewrite sapp_cons. cbn [json_string].
  change (bool_decide (dquote = dquote)) with true. cbn match. rewrite sapp_assoc.
  set (body := escape_all _ _ +:+ _). pose proof (Nat.le_refl (String.length body)) as Hf.
  revert Hf. generalize (String.length body) at 2 3 as fuel. unfold body. clear body.
  induction s as [|r raw s E IH|b s Hb E IH] using runes_ind; intros fuel Hf.
  - cbn [runes escape_all] in *. rewrite sapp_nil_l in *.
    destruct fuel as [|fuel]; [simpl in Hf; lia|]. done.
  - rewrite (runes_enc r) in * by done. cbn [escape_all forallb] in *. rewrite sapp_assoc in *.
    destruct (json_chars_escape (Rune r) raw _ _ E Hf) as (fuel' & Hf' & ->).
    rewrite (IH _ Hf'). by destruct (json_safe_item (Rune r)), (forallb _ (runes s)).
  - rewrite E in *. cbn [escape_all forallb] in *. rewrite sapp_assoc in *.
    by destruct (json_chars_escape (Invalid b) (String b "") _ _ eq_refl Hf) as (fuel' & Hf' & ->).
Qed.

Lemma printable_safe s : printable isPrintTable s = true -> json_safe s = true.
Proof.
  unfold printable, json_safe. rewrite !forallb_forall. intros H i Hi. specialize (H i Hi).
  destruct i as [r|b]; [|done]. simpl in *. by rewrite H.
Qed.

Lemma json_safe_valid s : json_safe s = true -> ValidString s = true.
Proof.
  unfold json_safe, ValidString. rewrite !forallb_forall. intros H i Hi. specialize (H i Hi).
  by destruct i.
Qed.

Lemma json_safe_app s t : json_safe s = true -> json_safe t = true -> json_safe (s +:+ t) = true.
Proof.
  intros Hs Ht. pose proof (json_safe_valid _ Hs). unfold json_safe. rewrite runes_app, forallb_app by done.
  by apply andb_true_iff.
Qed.
End quoted.

(** * Printed integers *)

Lemma itoa_go_digits fuel n acc :
  0 <= n < 2 ^ Z.of_nat fuel -> (0 < fuel)%nat ->
  exists c rest d, itoa_go fuel n acc = String c rest /\ digit_val c = Some d /\
    (d = 0 -> n = 0 /\ rest = acc) /\ json_digits d rest = json_digits n acc.
Proof.
  revert n acc. induction fuel as [|fuel IH]; intros n acc Hn Hf; [lia|]. cbn [itoa_go].
  pose proof (Z.mod_pos_bound n 10 ltac:(lia)).
  destruct (Z.ltb_spec n 10).
  - exists (digit_char (n mod 10)), acc, n. rewrite Z.mod_small by lia.
    split_and!; [done|apply digit_val_char; lia|done|done].
  - destruct (IH (n / 10) (String (digit_char (n mod 10)) acc)) as (c & rest & d & E & Hd & Hz & Hv).
    + rewrite Nat2Z.inj_succ, Z.pow_succ_r in Hn by lia. split; [apply Z.div_pos; lia|].
      apply Z.div_lt_upper_bound; lia.
    + destruct fuel; [simpl in Hn; lia|lia].
    + exists c, rest, d. split_and!; [done|done| |].
      * intros [E0 _]%Hz. pose proof (Z.div_le_lower_bound n 10 1). lia.
      * rewrite Hv. cbn [json_digits]. rewrite digit_val_char by lia. f_equal.
        pose proof (Z.div_mod n 10 ltac:(lia)). lia.
Qed.

(** What may follow a number in a text. *)
Definition ends_number (t : string) : bool :=
  match t with
  | EmptyString => true
  | String e _ => negb (bool_decide (e ∈ [".";"e";"E"]%char)) && negb (bool_decide (is_Some (digit_val e)))
  end.

Lemma json_digits_end v t : ends_number t = true -> json_digits v t = (v, t).
Proof.
  destruct t as [|e t]; [done|]. simpl. intros [_ H]%andb_true_iff.
  apply negb_true_iff, bool_decide_eq_false in H. destruct (digit_val e); [|done]. by destruct H.
Qed.

Lemma json_natural_itoa n t :
  0 <= n -> ends_number t = true -> json_natural (itoa_nonneg n +:+ t) = Some (n, t).
Proof.
  intros Hn Ht. unfold itoa_nonneg. rewrite <-itoa_go_app.
  destruct (itoa_go_digits (S (Z.to_nat (Z.log2 n))) n t) as (c & rest & d & -> & Hd & Hz & Hv); [|lia|].
  { rewrite Nat2Z.inj_succ, Z2Nat.id by apply Z.log2_nonneg. split; [done|].
    destruct (decide (n = 0)) as [->|]; [done|]. apply Z.log2_spec. lia. }
  cbn [json_natural]. rewrite Hd.
  assert ((if d =? 0 then (0, rest) else json_digits d rest) = (n, t)) as ->.
  { destruct (Z.eqb_spec d 0) as [->|]; [by destruct (Hz eq_refl) as [-> ->]|].
    rewrite Hv. by apply json_digits_end. }
  destruct t as [|e t]; [done|]. simpl in Ht. rewrite <-negb_orb in Ht.
  apply negb_true_iff in Ht. by rewrite Ht.
Qed.

Lemma json_integer_Itoa n t : ends_number t = true -> json_integer (Itoa n +:+ t) = Some (n, t).
Proof.
  intros Ht. unfold Itoa. destruct (Z.ltb_spec n 0).
  - rewrite sapp_cons. cbn [json_integer]. rewrite bool_decide_true by done.
    rewrite json_natural_itoa by (done || lia). simpl. do 2 f_equal. lia.
  - pose proof (json_natural_itoa n t ltac:(lia) Ht) as E.
    destruct (itoa_nonneg n +:+ t) as [|c s] eqn:Es; [done|]. cbn [json_integer].
    rewrite bool_decide_false; [done|]. intros ->. done.
Qed.

Lemma Itoa_valid n : ValidString (Itoa n) = true.
Proof. apply (printable_valid (fun _ => false)), Itoa_printable. Qed.

(** * Printed objects *)

Section objects.
Context (isPrintTable : Z -> bool).
Local Abbreviation Quote := (Quote isPrintTable).
Local Abbreviation json_safe := (json_safe isPrintTable).

(** The text of an object without blanks: strings as [%q] prints them, numbers as
    [%d]. *)
Definition text_of (v : json) : string := match v with JStr s => Quote s | JNum z => Itoa z end.
Definition value_safe (v : json) : bool := match v with JStr s => json_safe s | JNum _ => true end.
Definition member_text (m : string * json) : string := Quote (fst m) +:+ ":" +:+ text_of (snd m).
Definition member_safe (m : string * json) : bool := json_safe (fst m) && value_safe (snd m).

Fixpoint members_text (ms : list (string * json)) : string :=
  match ms with
  | [] => "}"
  | m :: ms' => "," +:+ member_text m +:+ members_text ms'
  end.

Definition object_text (m : string * json) (ms : list (string * json)) : string :=
  "{" +:+ member_text m +:+ members_text ms.

Lemma skip_Quote s t : skip (Quote s +:+ t) = Quote s +:+ t.
Proof. reflexivity. Qed.

Lemma skip_nonblank c s : json_blank c = false -> skip (String c s) = String c s.
Proof. intros H. simpl. by rewrite H. Qed.

Lemma Itoa_cons z : exists c s, Itoa z = String c s /\ json_blank c = false /\ c <> dquote.
Proof.
  pose proof (json_integer_Itoa z "" eq_refl) as E. rewrite sapp_nil_r in E.
  destruct (Itoa z) as [|c s]; [done|]. exists c, s. split; [done|].
  destruct (json_blank c) eqn:Eb.
  - exfalso. unfold json_blank in Eb. apply bool_decide_eq_true in Eb.
    rewrite !elem_of_cons, elem_of_nil in Eb.
    assert (Hc : c = byte_of (byte_val c)) by (by rewrite byte_of_val).
    destruct Eb as [->|[->|[->|[->|[]]]]] in Hc; subst c; done.
  - split; [done|]. intros ->. done.
Qed.

Lemma json_value_text v t :
  ends_number t = true -> json_value (text_of v +:+ t) = if value_safe v then Some (v, t) else None.
Proof.
  intros Ht. unfold json_value. destruct v as [s|z]; cbn [text_of value_safe].
  - rewrite skip_Quote, json_string_Quote. by destruct (json_safe s).
  - destruct (Itoa_cons z) as (c & s & E & Hb & Hq). pose proof (json_integer_Itoa z t Ht) as Hi.
    rewrite E, sapp_cons in *. rewrite skip_nonblank by done. cbn [json_string].
    rewrite bool_decide_false by done. by rewrite Hi.
Qed.

Lemma json_member_text m t :
  ends_number t = true ->
  json_member (member_text m +:+ t) = if member_safe m then Some (m, t) else None.
Proof.
  intros Ht. destruct m as [k v]. unfold json_member, member_text, member_safe. cbn [fst snd].
  rewrite !sapp_assoc, skip_Quote, json_string_Quote.
  destruct (json_safe k); [|done]. cbn [mbind option_bind].
  change (expect ":" (":" +:+ (text_of v +:+ t))) with (Some (text_of v +:+ t)). cbn [mbind option_bind].
  rewrite json_value_text by done. by destruct (value_safe v).
Qed.

Lemma members_text_end ms t : ends_number (members_text ms +:+ t) = true.
Proof. by destruct ms. Qed.

Lemma json_members_text fuel m ms :
  (length ms < fuel)%nat ->
  json_members fuel (member_text m +:+ members_text ms) =
  if forallb member_safe (m :: ms) then Some (m :: ms, "") else None.
Proof.
  revert m fuel. induction ms as [|m' ms IH]; intros m [|fuel] Hf; simpl in Hf; try lia;
    cbn [json_members]; rewrite json_member_text by done; cbn [forallb];
    (destruct (member_safe m); [|done]); [done|].
  cbn [mbind option_bind].
  change (expect "}" (members_text (m' :: ms))) with (@None string).
  change (expect "," (members_text (m' :: ms))) with (Some (member_text m' +:+ members_text ms)).
  cbn [mbind option_bind]. rewrite IH by lia. cbn [forallb andb]. by destruct (_ && _).
Qed.

Lemma text_of_valid v : ValidString (text_of v) = true.
Proof. destruct v; [eapply printable_valid, Quote_printable|apply Itoa_valid]. Qed.

Lemma member_text_valid m : ValidString (member_text m) = true.
Proof.
  unfold member_text. apply ValidString_app; [eapply printable_valid, Quote_printable|].
  apply ValidString_app; [done|apply text_of_valid].
Qed.

Lemma members_text_valid ms : ValidString (members_text ms) = true.
Proof.
  induction ms as [|m ms IH]; [done|]. cbn [members_text].
  apply ValidString_app; [done|]. apply ValidString_app; [apply member_text_valid|done].
Qed.

Lemma members_length ms : (length ms < String.length (members_text ms))%nat.
Proof.
  induction ms as [|m ms IH]; [simpl; lia|]. cbn [members_text length]. rewrite !sapp_length. simpl. lia.
Qed.

(** The text of an object is read back as that object when all its strings are
    safe, and is not JSON otherwise. *)
Lemma json_object_text m ms :
  json_object (object_text m ms) = if forallb member_safe (m :: ms) then Some (m :: ms) else None.
Proof.
  unfold json_object, object_text.
  assert (ValidString ("{" +:+ member_text m +:+ members_text ms) = true) as ->.
  { apply ValidString_app; [done|]. apply ValidString_app; [apply member_text_valid|apply members_text_valid]. }
  change (expect "{" ("{" +:+ (member_text m +:+ members_text ms))) with
    (Some (member_text m +:+ members_text ms)). cbn [mbind option_bind].
  change (expect "}" (member_text m +:+ members_text ms)) with (@None string). cbn match.
  rewrite json_members_text.
  - by destruct (forallb member_safe (m :: ms)).
  - rewrite sapp_length. pose proof (members_length ms). lia.
Qed.
End objects.
