(* ===== verification/SessionManager.v ===== *)
(** The sidecar's connection cap, [SessionManager] of [internal/proxy/session.go]:
    a compare-and-swap loop on a 32-bit counter, run by any number of handlers
    at once, against the specification of an atomic counting semaphore. *)

From S2P Require Import Prelude.

Open Scope Z_scope.

(** * The counter *)

(** Both fields are [int32]. *)
Record SessionManager := mkSessionManager { maxConnections : Z; active : Z }.

Definition NewSessionManager (max : Z) : SessionManager := mkSessionManager (int32 max) 0.

(** The atomic operations on [active]. *)
Definition Load (sm : SessionManager) : Z := active sm.
Definition CompareAndSwap (sm : SessionManager) (old new : Z) : SessionManager * bool :=
  if active sm =? old then (mkSessionManager (maxConnections sm) new, true) else (sm, false).
Definition AtomicAdd (sm : SessionManager) (delta : Z) : SessionManager :=
  mkSessionManager (maxConnections sm) (int32 (active sm + delta)).

Definition Release (sm : SessionManager) : SessionManager := AtomicAdd sm (-1).
Definition ActiveCount (sm : SessionManager) : Z := Load sm.

(** Where a handler is in [Acquire]: before the load, between the load of
    [current] and the compare-and-swap, and the two returns; [Released] after
    the matching [Release]. *)
Inductive acquire_pc :=
| AtLoad
| AtCAS (current : Z)
| Acquired
| Refused
| Released.

(** One atomic step of [Acquire] for one handler; a failed compare-and-swap goes
    round the loop again. *)
Definition Acquire_step (sm : SessionManager) (pc : acquire_pc)
  : option (SessionManager * acquire_pc) :=
  match pc with
  | AtLoad =>
      let current := Load sm in
      if maxConnections sm <=? current then Some (sm, Refused) else Some (sm, AtCAS current)
  | AtCAS current =>
      let '(sm', swapped) := CompareAndSwap sm current (int32 (current + 1)) in
      if swapped then Some (sm', Acquired) else Some (sm', AtLoad)
  | _ => None
  end.

(** [Acquire] run to its return by a handler that nobody interrupts. *)
Fixpoint Acquire (fuel : nat) (sm : SessionManager) (pc : acquire_pc)
  : option (SessionManager * bool) :=
  match fuel with
  | O => None
  | S fuel' =>
      match Acquire_step sm pc with
      | Some (sm', Acquired) => Some (sm', true)
      | Some (sm', Refused) => Some (sm', false)
      | Some (sm', pc') => Acquire fuel' sm' pc'
      | None => None
      end
  end.

(** * Interleaving *)

Record PoolState := mkPool { manager : SessionManager; pool : list acquire_pc }.

(** What an observer sees: a call returning, or a release. *)
Inductive slot_event := EvAcquire (i : nat) (ok : bool) | EvRelease (i : nat).

Inductive pool_step : PoolState -> option slot_event -> PoolState -> Prop :=
| step_arrive sm ts :
    pool_step (mkPool sm ts) None (mkPool sm (ts ++ [AtLoad]))
| step_acquire sm ts i pc sm' pc' :
    ts !! i = Some pc -> Acquire_step sm pc = Some (sm', pc') ->
    pool_step (mkPool sm ts)
      (match pc' with
       | Acquired => Some (EvAcquire i true)
       | Refused => Some (EvAcquire i false)
       | _ => None
       end)
      (mkPool sm' (<[i := pc']> ts))
| step_release sm ts i :
    ts !! i = Some Acquired ->
    pool_step (mkPool sm ts) (Some (EvRelease i)) (mkPool (Release sm) (<[i := Released]> ts)).

(** The events of a run, oldest first. *)
Inductive pool_run : PoolState -> list slot_event -> PoolState -> Prop :=
| run_nil s : pool_run s [] s
| run_step s o s' evs s'' :
    pool_step s o s' -> pool_run s' evs s'' ->
    pool_run s (match o with Some e => e :: evs | None => evs end) s''.

(** A scheduler's choice, and the run it produces. *)
Inductive choice := Arrive | Run (i : nat) | DoRelease (i : nat).

Definition pool_exec_step (s : PoolState) (c : choice) : option (option slot_event * PoolState) :=
  match c with
  | Arrive => Some (None, mkPool (manager s) (pool s ++ [AtLoad]))
  | Run i =>
      pc ← pool s !! i;
      '(sm', pc') ← Acquire_step (manager s) pc;
      Some (match pc' with
            | Acquired => Some (EvAcquire i true)
            | Refused => Some (EvAcquire i false)
            | _ => None
            end, mkPool sm' (<[i := pc']> (pool s)))
  | DoRelease i =>
      match pool s !! i with
      | Some Acquired => Some (Some (EvRelease i), mkPool (Release (manager s)) (<[i := Released]> (pool s)))
      | _ => None
      end
  end.

Fixpoint pool_exec (s : PoolState) (cs : list choice) : option (list slot_event * PoolState) :=
  match cs with
  | [] => Some ([], s)
  | c :: cs' =>
      '(o, s') ← pool_exec_step s c;
      '(evs, s'') ← pool_exec s' cs';
      Some (match o with Some e => e :: evs | None => evs end, s'')
  end.

Definition initPool (max : Z) : PoolState := mkPool (NewSessionManager max) [].

(** * The specification *)

(** A counting semaphore of [cap] permits, each operation atomic: the set of
    holders grows on an acquire when there is room and only then. *)
Inductive sem_step (cap : Z) : gset nat -> slot_event -> gset nat -> Prop :=
| sem_acquire held i :
    i ∉ held -> Z.of_nat (size held) < cap -> sem_step cap held (EvAcquire i true) ({[i]} ∪ held)
| sem_refuse held i :
    cap <= Z.of_nat (size held) -> sem_step cap held (EvAcquire i false) held
| sem_release held i :
    i ∈ held -> sem_step cap held (EvRelease i) (held ∖ {[i]}).

Inductive sem_run (cap : Z) : gset nat -> list slot_event -> gset nat -> Prop :=
| sem_nil held : sem_run cap held [] held
| sem_cons held e held' evs held'' :
    sem_step cap held e held' -> sem_run cap held' evs held'' ->
    sem_run cap held (e :: evs) held''.

(** * Invariant *)

Definition holds (pc : acquire_pc) : bool := match pc with Acquired => true | _ => false end.

Definition pool_inv (max : Z) (s : PoolState) : Prop :=
  maxConnections (manager s) = int32 max /\
  active (manager s) = count_if holds (pool s) /\
  active (manager s) <= Z.max 0 (int32 max) /\
  forall i current, pool s !! i = Some (AtCAS current) -> 0 <= current < int32 max.

(** * Lemmas *)

Lemma lookup_insert_other {A} (l : list A) i j x y :
  <[i := x]> l !! j = Some y -> x <> y -> l !! j = Some y.
Proof.
  intros H Hne. destruct (decide (i = j)) as [->|Hij].
  - apply list_lookup_insert_Some in H as [(_ & ? & _)|[? _]]; congruence.
  - by rewrite list_lookup_insert_ne in H.
Qed.

Lemma pool_inv_init max : pool_inv max (initPool max).
Proof. unfold pool_inv. simpl. split_and!; [done|done|lia|done]. Qed.

(** What one step of [Acquire] does, under the invariant: the counter moves by
    exactly the handler's own change of state, and stays a machine integer. *)
Lemma Acquire_step_inv max s i pc sm' pc' :
  pool_inv max s -> pool s !! i = Some pc -> Acquire_step (manager s) pc = Some (sm', pc') ->
  maxConnections sm' = maxConnections (manager s) /\
  match pc' with
  | Acquired => active sm' = active (manager s) + 1 /\ active (manager s) < int32 max
  | Refused => sm' = manager s /\ int32 max <= active (manager s)
  | AtCAS current => sm' = manager s /\ current = active (manager s) /\ current < int32 max
  | AtLoad => sm' = manager s
  | Released => False
  end /\ holds pc = false /\ pc' <> Released.
Proof.
  intros (Hmax & Hact & Hle & Hcas) Hi. unfold Acquire_step, Load, CompareAndSwap.
  destruct pc as [|current| | |]; try done.
  - rewrite Hmax. destruct (Z.leb_spec (int32 max) (active (manager s))); intros [= <- <-]; by split_and!.
  - destruct (Z.eqb_spec (active (manager s)) current) as [E|]; intros [= <- <-]; simpl; [|by split_and!].
    pose proof (Hcas i current Hi). pose proof (int32_range max).
    rewrite int32_small by (unfold min_int32, max_int32 in *; lia). rewrite E. split_and!; (done || lia).
Qed.

(** The invariant after one handler moves. *)
Lemma pool_inv_move max sm ts i pc sm' pc' :
  pool_inv max (mkPool sm ts) -> ts !! i = Some pc ->
  maxConnections sm' = maxConnections sm ->
  active sm' = active sm - Z.b2z (holds pc) + Z.b2z (holds pc') ->
  active sm' <= Z.max 0 (int32 max) ->
  (forall cur, pc' = AtCAS cur -> 0 <= cur < int32 max) ->
  pool_inv max (mkPool sm' (<[i := pc']> ts)).
Proof.
  intros (Hmax & Hact & Hle & Hcas) Hi E Ha Hb Hc. unfold pool_inv. simpl in *.
  rewrite (count_if_insert holds ts i pc pc' Hi). split_and!; try lia.
  intros j cur [(_ & E1 & _)|[_ Hj]]%list_lookup_insert_Some; [by apply Hc|by eapply Hcas].
Qed.

Lemma pool_inv_step max s o s' : pool_inv max s -> pool_step s o s' -> pool_inv max s'.
Proof.
  intros Hinv Hs. pose proof Hinv as (Hmax & Hact & Hle & Hcas). pose proof (int32_range max).
  pose proof (count_if_range holds (pool s)) as Hcount.
  destruct Hs as [sm ts|sm ts i pc sm' pc' Hi Ha|sm ts i Hi]; simpl in *.
  - unfold pool_inv. simpl. rewrite count_if_app. simpl. split_and!; try lia.
    intros j cur [Hj|[_ Hj]]%lookup_app_Some; [by eapply Hcas|by destruct (j - _)%nat].
  - destruct (Acquire_step_inv max (mkPool sm ts) i pc sm' pc' Hinv Hi Ha)
      as (E & Hpc & Hh & _). simpl in *.
    eapply pool_inv_move; [done|done|done|rewrite Hh| |]; destruct pc'; simpl;
      naive_solver lia.
  - pose proof (count_if_pos holds ts i Acquired Hi eq_refl).
    eapply pool_inv_move; [done|done|done| |simpl|done];
      cbn [Release AtomicAdd active holds Z.b2z];
      rewrite int32_small by (unfold min_int32, max_int32 in *; lia); lia.
Qed.

Lemma pool_inv_run max s evs s' : pool_run s evs s' -> pool_inv max s -> pool_inv max s'.
Proof. induction 1 as [|s o t evs u Hs _ IH]; [done|]. intros Hi. by eapply IH, pool_inv_step. Qed.

Lemma pool_exec_step_sound s c o s' :
  pool_exec_step s c = Some (o, s') -> pool_step s o s'.
Proof.
  destruct s as [sm ts], c as [|i|i]; simpl.
  - intros [= <- <-]. constructor.
  - destruct (ts !! i) as [pc|] eqn:Hi; [|done]. simpl.
    destruct (Acquire_step sm pc) as [[sm' pc']|] eqn:Ha; [|done]. intros [= <- <-].
    by eapply step_acquire.
  - destruct (ts !! i) as [[]|] eqn:Hi; try done. intros [= <- <-]. by constructor.
Qed.

Lemma pool_exec_sound cs s evs s' : pool_exec s cs = Some (evs, s') -> pool_run s evs s'.
Proof.
  revert s evs. induction cs as [|c cs IH]; intros s evs; simpl.
  - intros [= <- <-]. constructor.
  - destruct (pool_exec_step s c) as [[o t]|] eqn:Hc; [|done]. simpl.
    destruct (pool_exec t cs) as [[evs' u]|] eqn:Hr; [|done]. intros [= <- <-].
    eapply run_step; [by eapply pool_exec_step_sound|by apply IH].
Qed.

(** The holders, as the specification sees them. *)
Definition sim (s : PoolState) (held : gset nat) : Prop :=
  (forall i, i ∈ held <-> pool s !! i = Some Acquired) /\
  active (manager s) = Z.of_nat (size held).

Lemma sim_step max s o s' held :
  pool_inv max s -> sim s held -> pool_step s o s' ->
  exists held', sim s' held' /\
    match o with
    | Some e => sem_step (int32 max) held e held'
    | None => held' = held
    end.
Proof.
  intros Hinv [Hiff Hsize] Hs.
  destruct Hs as [sm ts|sm ts i pc sm' pc' Hi Ha|sm ts i Hi]; simpl in *.
  - exists held. split; [split|]; simpl; try done. intros j. rewrite Hiff. split.
    + intros Hj. by apply lookup_app_l_Some.
    + intros [Hj|[_ Hj]]%lookup_app_Some; [done|by destruct (j - _)%nat].
  - destruct (Acquire_step_inv max (mkPool sm ts) i pc sm' pc' Hinv Hi Ha)
      as (_ & Hpc & Hh & Hnr). simpl in *.
    assert (Hnot : i ∉ held) by (rewrite Hiff, Hi; intros [= ->]; done).
    assert (Hsame : pc' <> Acquired -> forall j, j ∈ held <-> <[i := pc']> ts !! j = Some Acquired).
    { intros Hne j. rewrite Hiff. split.
      - intros Hj. rewrite list_lookup_insert_ne; [done|]. intros ->. by rewrite Hiff in Hnot.
      - intros Hj. by eapply lookup_insert_other. }
    destruct pc' as [|cur| | |].
    + exists held. subst. split; [split; [by apply Hsame|done]|done].
    + exists held. destruct Hpc as (-> & _). split; [split; [by apply Hsame|done]|done].
    + destruct Hpc as [Hact Hlt]. exists ({[i]} ∪ held). split; [split|].
      * intros j. cbn [pool]. rewrite elem_of_union, elem_of_singleton, Hiff,
          list_lookup_insert_Some. apply lookup_lt_Some in Hi.
        destruct (decide (i = j)) as [->|]; naive_solver.
      * cbn [manager]. rewrite size_union, size_singleton by set_solver. lia.
      * constructor; [done|lia].
    + destruct Hpc as [-> Hle]. exists held. split; [split; [by apply Hsame|done]|].
      constructor. lia.
    + done.
  - assert (Hin : i ∈ held) by by apply Hiff.
    pose proof Hinv as (_ & Hact & Hle & _). simpl in *. pose proof (int32_range max).
    pose proof (count_if_pos holds ts i Acquired Hi eq_refl).
    exists (held ∖ {[i]}). split; [split|].
    + intros j. cbn [pool]. rewrite elem_of_difference, elem_of_singleton, Hiff,
        list_lookup_insert_Some. destruct (decide (i = j)) as [->|]; naive_solver.
    + cbn [manager Release AtomicAdd active].
      rewrite size_difference, size_singleton by set_solver.
      rewrite int32_small by (unfold min_int32, max_int32 in *; lia).
      assert (size held <> 0)%nat by (intros ?%size_empty_inv; set_solver). lia.
    + by constructor.
Qed.

Lemma sim_run max s evs s' held :
  pool_run s evs s' -> pool_inv max s -> sim s held ->
  exists held', sem_run (int32 max) held evs held' /\ sim s' held'.
Proof.
  intros Hr. revert held. induction Hr as [|s o t evs u Hs _ IH]; intros held Hi Hsim.
  - exists held. split; [constructor|done].
  - destruct (sim_step _ _ _ _ _ Hi Hsim Hs) as (held1 & Hsim1 & Ho).
    destruct (IH held1) as (held2 & Hr2 & ?); [by eapply pool_inv_step|done|].
    exists held2. split; [|done]. destruct o as [e|]; [|by subst]. by econstructor.
Qed.

(** * Properties *)

(** The connection cap is never exceeded: however any number of
    handlers interleave, the counter equals the number of handlers holding a
    slot, which is at most the configured cap, and none when the cap is not
    positive as an [int32]. *)
Theorem SessionManager_capacity max evs s :
  pool_run (initPool max) evs s ->
  ActiveCount (manager s) = count_if holds (pool s) /\
  0 <= ActiveCount (manager s) <= Z.max 0 (int32 max).
Proof.
  intros Hr. destruct (pool_inv_run max _ _ _ Hr (pool_inv_init max)) as (_ & Hact & Hle & _).
  unfold ActiveCount, Load. pose proof (count_if_range holds (pool s)). lia.
Qed.

(** Two handlers race for one slot: both load 0, the first swaps, the second
    fails to, goes round and is refused; then the slot is released. *)
Definition exampleRace : list choice :=
  [Arrive; Arrive; Run 0; Run 1; Run 0; Run 1; Run 1; DoRelease 0].

Lemma SessionManager_capacity_witness :
  ActiveCount (mkSessionManager 1 0) = 0 /\ 0 <= ActiveCount (mkSessionManager 1 0) <= Z.max 0 (int32 1).
Proof.
  apply (SessionManager_capacity 1 [EvAcquire 0 true; EvAcquire 1 false; EvRelease 0]
    (mkPool (mkSessionManager 1 0) [Released; Refused])).
  apply (pool_exec_sound exampleRace). vm_compute. reflexivity.
Defined.

(** C5. The lock-free counter implements an atomic semaphore: the
    calls of every concurrent run return exactly as they would if each [Acquire]
    and [Release] took effect at once, so a refusal happens only when the cap is
    reached at that instant. *)
Theorem SessionManager_linearizable max evs s :
  pool_run (initPool max) evs s -> exists held, sem_run (int32 max) ∅ evs held.
Proof.
  intros Hr. destruct (sim_run max _ _ _ ∅ Hr (pool_inv_init max)) as (held & ? & _); [|eauto].
  split; [|done]. intros i. set_solver.
Qed.

Lemma SessionManager_linearizable_witness :
  exists held, sem_run (int32 1) ∅ [EvAcquire 0 true; EvAcquire 1 false; EvRelease 0] held.
Proof.
  apply (SessionManager_linearizable 1 _ (mkPool (mkSessionManager 1 0) [Released; Refused])).
  apply (pool_exec_sound exampleRace). vm_compute. reflexivity.
Defined.

(** A handler that is not interrupted leaves [Acquire] within
    three steps from any point of the loop, with a slot exactly when the counter
    is below the cap. *)
Theorem Acquire_terminates sm pc :
  (pc = AtLoad \/ exists current, pc = AtCAS current /\ current < maxConnections sm) ->
  exists sm', Acquire 3 sm pc = Some (sm', active sm <? maxConnections sm) /\
    (active sm < maxConnections sm -> active sm' = int32 (active sm + 1)) /\
    (maxConnections sm <= active sm -> sm' = sm).
Proof.
  intros Hpc. unfold Acquire, Acquire_step, Load, CompareAndSwap.
  destruct (Z.ltb_spec (active sm) (maxConnections sm)) as [Hlt|Hge].
  - assert ((maxConnections sm <=? active sm) = false) as E by lia.
    destruct Hpc as [->|(cur & -> & Hc)].
    + rewrite E, Z.eqb_refl. simpl. eexists. split; [done|]. split; [done|lia].
    + destruct (Z.eqb_spec (active sm) cur) as [<-|_].
      * eexists. split; [done|]. split; [done|lia].
      * rewrite E, Z.eqb_refl. simpl. eexists. split; [done|]. split; [done|lia].
  - assert ((maxConnections sm <=? active sm) = true) as E by lia.
    destruct Hpc as [->|(cur & -> & Hc)].
    + rewrite E. eexists. split; [done|]. split; [lia|done].
    + destruct (Z.eqb_spec (active sm) cur) as [<-|_]; [lia|].
      rewrite E. eexists. split; [done|]. split; [lia|done].
Qed.

Lemma Acquire_terminates_witness :
  exists sm', Acquire 3 (mkSessionManager 10 4) (AtCAS 3) = Some (sm', 4 <? 10) /\
    (4 < 10 -> active sm' = int32 (4 + 1)) /\ (10 <= 4 -> sm' = mkSessionManager 10 4).
Proof.
  apply (Acquire_terminates (mkSessionManager 10 4) (AtCAS 3)).
  right. exists 3. split; [reflexivity|simpl; lia].
Defined.
