(* ===== verification/SshSlots.v ===== *)
(** The SSH server's session cap, [acquireSession] and [releaseSession] of
    [internal/sshserver/server.go]: an optimistic 64-bit counter, raised first
    and lowered again when it passed the cap, run by any number of sessions at
    once. *)

From S2P Require Import Prelude.

Open Scope Z_scope.

(** * Operations *)

(** [maxSessions] is the configured [MaxSessions]; [sessions] the atomic
    counter. *)
Record Slots := mkSlots { maxSessions : Z; sessions : Z }.

(** [sessions.Add delta], with its result. *)
Definition Add (s : Slots) (delta : Z) : Slots * Z :=
  let v := int64 (sessions s + delta) in (mkSlots (maxSessions s) v, v).

(** A session's progress: before [acquireSession], between its two additions when
    the first one passed the cap, holding a slot, refused, and after
    [releaseSession]. *)
Inductive slot_pc := Entering | BackingOut | Holding | Turned | Left.

(** One atomic step of [acquireSession] or of [releaseSession]. *)
Definition slot_step (s : Slots) (pc : slot_pc) : option (Slots * slot_pc) :=
  match pc with
  | Entering =>
      if maxSessions s <=? 0 then Some (s, Holding)
      else let '(s', v) := Add s 1 in
           if int64 (maxSessions s) <? v then Some (s', BackingOut) else Some (s', Holding)
  | BackingOut => let '(s', _) := Add s (-1) in Some (s', Turned)
  | Holding =>
      if maxSessions s <=? 0 then Some (s, Left)
      else let '(s', _) := Add s (-1) in Some (s', Left)
  | Turned | Left => None
  end.

(** The two functions as one caller runs them alone. *)
Definition acquireSession (s : Slots) : Slots * bool :=
  if maxSessions s <=? 0 then (s, true)
  else let '(s1, v) := Add s 1 in
       if int64 (maxSessions s) <? v then (fst (Add s1 (-1)), false) else (s1, true).

Definition releaseSession (s : Slots) : Slots :=
  if maxSessions s <=? 0 then s else fst (Add s (-1)).

(** * Interleaving *)

Record SlotState := mkSlotState { slots : Slots; threads : list slot_pc }.

Inductive slots_step : SlotState -> SlotState -> Prop :=
| slots_arrive s ts : slots_step (mkSlotState s ts) (mkSlotState s (ts ++ [Entering]))
| slots_run s ts i pc s' pc' :
    ts !! i = Some pc -> slot_step s pc = Some (s', pc') ->
    slots_step (mkSlotState s ts) (mkSlotState s' (<[i := pc']> ts)).

Definition initSlots (max : Z) : SlotState := mkSlotState (mkSlots max 0) [].

Definition slots_reachable (max : Z) (s : SlotState) : Prop := rtc slots_step (initSlots max) s.

(** A scheduler's choice: a new session, or a step of one of them. *)
Definition slots_exec_step (s : SlotState) (c : option nat) : option SlotState :=
  match c with
  | None => Some (mkSlotState (slots s) (threads s ++ [Entering]))
  | Some i =>
      pc ← threads s !! i;
      '(s', pc') ← slot_step (slots s) pc;
      Some (mkSlotState s' (<[i := pc']> (threads s)))
  end.

Fixpoint slots_exec (s : SlotState) (cs : list (option nat)) : option SlotState :=
  match cs with
  | [] => Some s
  | c :: cs' => s' ← slots_exec_step s c; slots_exec s' cs'
  end.

(** * Invariant *)

Definition holding (pc : slot_pc) : bool := match pc with Holding => true | _ => false end.

(** The sessions the counter currently counts. *)
Definition counted (pc : slot_pc) : bool :=
  match pc with Holding | BackingOut => true | _ => false end.

Definition slots_inv (max : Z) (s : SlotState) : Prop :=
  maxSessions (slots s) = max /\
  (max <= 0 -> sessions (slots s) = 0 /\ forall i, threads s !! i <> Some BackingOut) /\
  (0 < max -> Z.of_nat (length (threads s)) <= max_int64 ->
   sessions (slots s) = count_if counted (threads s) /\ count_if holding (threads s) <= max).

(** * Lemmas *)

Lemma slots_inv_init max : slots_inv max (initSlots max).
Proof. unfold slots_inv. simpl. split_and!; intros; split_and?; (lia || done). Qed.

Lemma count_holding_counted ts : count_if holding ts <= count_if counted ts.
Proof. induction ts as [|pc ts IH]; simpl; [lia|]. destruct pc; simpl; lia. Qed.

(** With the cap disabled the counter is never touched. *)
Lemma slot_step_off s pc s' pc' :
  maxSessions s <= 0 -> pc <> BackingOut -> slot_step s pc = Some (s', pc') ->
  s' = s /\ pc' <> BackingOut.
Proof.
  intros Hm Hne. unfold slot_step. apply Z.leb_le in Hm. rewrite Hm.
  destruct pc; try done; by intros [= <- <-].
Qed.

(** With a positive cap a step moves the counter by the change in the number of
    sessions it counts, and a slot is granted only below the cap. *)
Lemma slot_step_on max n s pc s' pc' :
  0 < max <= max_int64 -> maxSessions s = max -> sessions s = n -> 0 <= n <= max_int64 ->
  (counted pc = true -> 1 <= n) -> (counted pc = false -> n < max_int64) ->
  slot_step s pc = Some (s', pc') ->
  maxSessions s' = max /\ sessions s' = n - Z.b2z (counted pc) + Z.b2z (counted pc') /\
  (pc' = Holding -> n + 1 <= max).
Proof.
  intros Hmax Hm Hs Hn Hc Hu. unfold slot_step, Add. rewrite Hm, Hs.
  assert ((max <=? 0) = false) as -> by lia. unfold min_int64, max_int64 in *.
  destruct pc; simpl in *; try done.
  - rewrite !int64_small by (unfold min_int64, max_int64; lia).
    destruct (Z.ltb_spec max (n + 1)); intros [= <- <-]; simpl; split_and!; (lia || done).
  - rewrite int64_small by (unfold min_int64, max_int64; lia).
    intros [= <- <-]; simpl; split_and!; (lia || done).
  - rewrite int64_small by (unfold min_int64, max_int64; lia).
    intros [= <- <-]; simpl; split_and!; (lia || done).
Qed.

Lemma slot_step_max s pc s' pc' : slot_step s pc = Some (s', pc') -> maxSessions s' = maxSessions s.
Proof. unfold slot_step, Add. intros H. destruct pc; repeat case_match; naive_solver. Qed.

Lemma slots_inv_step max s s' :
  max <= max_int64 -> slots_inv max s -> slots_step s s' -> slots_inv max s'.
Proof.
  intros Hcap (Hmax & Hoff & Hon) Hs.
  destruct Hs as [s ts|s ts i pc s' pc' Hi Hstep]; unfold slots_inv; simpl in *.
  - rewrite !count_if_app, length_app. simpl. split; [done|]. split.
    + intros H. destruct (Hoff H) as [? Hno]. split; [done|].
      intros i [Hi|[_ Hi]]%lookup_app_Some; [by eapply Hno|by destruct (i - _)%nat].
    + intros H Hl. destruct (Hon H); lia.
  - rewrite !(count_if_insert _ ts i pc pc' Hi), length_insert.
    split; [by rewrite (slot_step_max _ _ _ _ Hstep)|]. split.
    + intros H. destruct (Hoff H) as [? Hno].
      destruct (slot_step_off s pc s' pc') as [-> Hne]; [lia|by intros ->; eapply Hno|done|].
      split; [done|]. intros j [(_ & -> & _)|[_ Hj]]%list_lookup_insert_Some; [done|by eapply Hno].
    + intros H Hl. destruct (Hon H Hl) as [Hs Hle].
      pose proof (count_if_range counted ts). pose proof (count_holding_counted ts).
      destruct (slot_step_on max (count_if counted ts) s pc s' pc') as (_ & E & Hh); try done; try lia.
      * by apply count_if_pos with (i := i).
      * intros Hc. pose proof (count_if_lt counted ts i pc Hi Hc). lia.
      * split; [done|]. destruct pc'; simpl; try (destruct (holding pc); simpl; lia).
        specialize (Hh eq_refl). destruct (holding pc); simpl; lia.
Qed.

Lemma slots_inv_reachable max s :
  max <= max_int64 -> slots_reachable max s -> slots_inv max s.
Proof.
  intros Hcap Hr. refine (rtc_invariant slots_step (slots_inv max) _ _ _ Hr (slots_inv_init max)).
  intros t t' Ht Hs. by eapply slots_inv_step.
Qed.

Lemma slots_exec_reachable cs s s' : slots_exec s cs = Some s' -> rtc slots_step s s'.
Proof.
  revert s. induction cs as [|c cs IH]; intros s; simpl; [by intros [= <-]|].
  destruct (slots_exec_step s c) as [t|] eqn:Hc; [|done]. simpl. intros H.
  eapply rtc_l; [|by apply IH]. destruct s as [sl ts], c as [i|]; simpl in Hc.
  - destruct (ts !! i) as [pc|] eqn:Hi; [|done]. simpl in Hc.
    destruct (slot_step sl pc) as [[s1 pc']|] eqn:Hs; [|done]. injection Hc as <-.
    by eapply slots_run.
  - injection Hc as <-. constructor.
Qed.

(** * Properties *)

(** The session cap is never exceeded: whatever the interleaving
    of opening and closing sessions, at most [MaxSessions] sessions hold a slot,
    and the counter counts exactly the holders and the sessions on their way to
    a refusal; when the cap is disabled the counter stays at zero and no session
    is ever turned away. *)
Theorem SshSlots_capacity max s :
  max <= max_int64 -> slots_reachable max s ->
  (0 < max -> Z.of_nat (length (threads s)) <= max_int64 ->
     count_if holding (threads s) <= max /\
     sessions (slots s) = count_if counted (threads s)) /\
  (max <= 0 -> sessions (slots s) = 0 /\ forall i, threads s !! i <> Some BackingOut).
Proof.
  intros Hcap Hr. destruct (slots_inv_reachable max s Hcap Hr) as (_ & Hoff & Hon).
  split; [|done]. intros H Hl. by destruct (Hon H Hl).
Qed.

Lemma SshSlots_capacity_witness :
  (0 < 1 -> Z.of_nat 2 <= max_int64 -> 1 <= 1 /\ 2 = 2) /\
  (1 <= 0 -> 2 = 0 /\ forall i, [Holding; BackingOut] !! i <> Some BackingOut).
Proof.
  apply (SshSlots_capacity 1 (mkSlotState (mkSlots 1 2) [Holding; BackingOut]));
    [unfold max_int64; lia|].
  apply (slots_exec_reachable [None; None; Some 0%nat; Some 1%nat]). vm_compute. reflexivity.
Defined.

(** With no other session in the middle of a call, the optimistic
    counter decides like the semaphore: a slot is granted exactly below the cap,
    and a refusal leaves the counter as it was. *)
Theorem acquireSession_quiet max n :
  0 <= n <= max_int64 - 1 -> max <= max_int64 ->
  acquireSession (mkSlots max n) =
    (if max <=? 0 then (mkSlots max n, true)
     else if n <? max then (mkSlots max (n + 1), true) else (mkSlots max n, false)) /\
  (0 < max -> n < max -> releaseSession (fst (acquireSession (mkSlots max n))) = mkSlots max n).
Proof.
  intros Hn Hm. unfold max_int64 in *.
  assert (Hacq : acquireSession (mkSlots max n) =
    (if max <=? 0 then (mkSlots max n, true)
     else if n <? max then (mkSlots max (n + 1), true) else (mkSlots max n, false))).
  { unfold acquireSession, Add. simpl. destruct (Z.leb_spec max 0); [done|].
    rewrite !int64_small by (unfold min_int64, max_int64; lia).
    destruct (Z.ltb_spec max (n + 1)), (Z.ltb_spec n max); try lia; [|done].
    simpl. by replace (n + 1 + -1) with n by lia. }
  split; [done|]. intros H0 Hlt. rewrite Hacq.
  assert ((max <=? 0) = false) as -> by lia. assert ((n <? max) = true) as -> by lia.
  unfold releaseSession, Add. simpl. assert ((max <=? 0) = false) as -> by lia.
  simpl. rewrite int64_small by (unfold min_int64, max_int64; lia).
  by replace (n + 1 + -1) with n by lia.
Qed.

Lemma acquireSession_quiet_witness :
  acquireSession (mkSlots 10 9) =
    (if 10 <=? 0 then (mkSlots 10 9, true)
     else if 9 <? 10 then (mkSlots 10 (9 + 1), true) else (mkSlots 10 9, false)) /\
  (0 < 10 -> 9 < 10 -> releaseSession (fst (acquireSession (mkSlots 10 9))) = mkSlots 10 9).
Proof. apply (acquireSession_quiet 10 9); unfold max_int64; lia. Defined.

(** The optimistic counter can turn a session away below the
    cap: with one slot, a session arriving while another is backing out of a
    refusal is refused although no session holds the slot. *)
Theorem SshSlots_spurious_refusal :
  exists s, slots_reachable 1 s /\ count_if holding (threads s) = 0 /\
    exists s', slots_step s s' /\ threads s' = [Left; BackingOut; BackingOut] /\
      count_if holding (threads s') = 0.
Proof.
  exists (mkSlotState (mkSlots 1 1) [Left; BackingOut; Entering]). split; [|split; [done|]].
  - apply (slots_exec_reachable
      [None; Some 0%nat; None; Some 1%nat; Some 0%nat; None]). vm_compute. reflexivity.
  - exists (mkSlotState (mkSlots 1 2) [Left; BackingOut; BackingOut]).
    split; [|by split]. 
    apply (slots_run (mkSlots 1 1) [Left; BackingOut; Entering] 2 Entering (mkSlots 1 2) BackingOut);
      reflexivity.
Qed.
