(* ===== verification/SlotPool.v ===== *)
(** The interface between the two servers' session caps and the sessions they
    admit: a pool of slots as a type class with its laws, discharged by the
    compare-and-swap counter of [internal/proxy/session.go] and by the optimistic
    counter of [internal/sshserver/server.go], and the system made of a pool and
    of any number of handlers that take a slot, serve, and return it in a deferred
    call.  The lemmas on the system are proved against the interface only. *)

From S2P Require Import Prelude SessionManager SshSlots.

Open Scope Z_scope.

(** * The pool *)

(** Where a caller is: taking a slot, holding one, turned away, or done. *)
Inductive slot_status := SlotAsking | SlotHeld | SlotRefused | SlotReturned.

#[export] Instance slot_status_eq_dec : EqDecision slot_status.
Proof. solve_decision. Defined.

(** [P] is the shared state of a pool, [C] the progress of one caller. *)
Class SlotPool (P C : Type) := {
  slot_enter : C;
  slot_take : P -> C -> option (P * C);     (* one atomic step of the acquire *)
  slot_return : P -> C -> option (P * C);   (* the release *)
  slot_view : C -> slot_status;
  slot_limit : P -> option Z;               (* [None]: no limit *)
  slot_ok : P -> list C -> Prop;
}.

Definition slot_held {P C} `{SlotPool P C} (c : C) : bool := bool_decide (slot_view c = SlotHeld).

Class SlotPoolLaws (P C : Type) `{SlotPool P C} := {
  slot_enter_view : slot_view slot_enter = SlotAsking;
  slot_arrive_ok p cs : slot_ok p cs -> slot_ok p (cs ++ [slot_enter]);
  slot_take_asking p c : is_Some (slot_take p c) <-> slot_view c = SlotAsking;
  slot_take_ok p cs i c p' c' :
    slot_ok p cs -> cs !! i = Some c -> slot_take p c = Some (p', c') ->
    slot_ok p' (<[i := c']> cs) /\ slot_limit p' = slot_limit p /\ slot_view c' <> SlotReturned;
  slot_return_held p c : is_Some (slot_return p c) <-> slot_view c = SlotHeld;
  slot_return_ok p cs i c p' c' :
    slot_ok p cs -> cs !! i = Some c -> slot_return p c = Some (p', c') ->
    slot_ok p' (<[i := c']> cs) /\ slot_limit p' = slot_limit p /\ slot_view c' = SlotReturned;
  slot_bound p cs n :
    slot_ok p cs -> slot_limit p = Some n -> Z.of_nat (length cs) <= max_int64 ->
    count_if slot_held cs <= n;
}.

(** * The proxy's pool *)

#[export] Instance SessionManager_pool : SlotPool SessionManager acquire_pc := {
  slot_enter := AtLoad;
  slot_take := Acquire_step;
  slot_return sm c := match c with Acquired => Some (Release sm, Released) | _ => None end;
  slot_view c :=
    match c with
    | AtLoad | AtCAS _ => SlotAsking | Acquired => SlotHeld | Refused => SlotRefused
    | Released => SlotReturned
    end;
  slot_limit sm := Some (Z.max 0 (maxConnections sm));
  slot_ok sm cs := exists max, pool_inv max (mkPool sm cs);
}.

Lemma count_if_ext {A} (f g : A -> bool) l : (forall x, f x = g x) -> count_if f l = count_if g l.
Proof. intros E. induction l as [|x l IH]; simpl; [done|]. by rewrite E, IH. Qed.

Lemma SessionManager_held c : slot_held (P := SessionManager) c = holds c.
Proof. by destruct c. Qed.

#[export] Instance SessionManager_laws : SlotPoolLaws SessionManager acquire_pc.
Proof.
  split.
  - done.
  - intros p cs [max Hok]. exists max. eapply pool_inv_step; [done|]. apply step_arrive.
  - intros p c. simpl. unfold Acquire_step, CompareAndSwap. split.
    + intros [x Hx]. by destruct c.
    + intros Hc. destruct c; try discriminate Hc; simpl; repeat case_match; eauto.
  - intros p cs i c p' c' [max Hok] Hi Ht.
    pose proof (Acquire_step_inv max (mkPool p cs) i c p' c' Hok Hi Ht) as (E & _ & _ & Hne).
    split; [|split].
    + exists max. eapply pool_inv_step; [done|]. by eapply step_acquire.
    + simpl in *. by rewrite E.
    + by destruct c'.
  - intros p c. simpl. split; [intros [x Hx]|intros Hc]; destruct c; try done; eauto.
  - intros p cs i c p' c' [max Hok] Hi Hr. simpl in Hr. destruct c; try done. injection Hr as <- <-.
    split; [|done]. exists max. eapply pool_inv_step; [done|]. by apply step_release.
  - intros p cs n [max (Hm & Ha & Hle & _)] Hn _. injection Hn as <-. simpl in *.
    rewrite (count_if_ext _ holds) by apply SessionManager_held. rewrite Hm. lia.
Qed.

(** * The SSH server's pool *)

#[export] Instance Slots_pool : SlotPool Slots slot_pc := {
  slot_enter := Entering;
  slot_take s c := match c with Entering | BackingOut => slot_step s c | _ => None end;
  slot_return s c := match c with Holding => slot_step s c | _ => None end;
  slot_view c :=
    match c with
    | Entering | BackingOut => SlotAsking | Holding => SlotHeld | Turned => SlotRefused
    | Left => SlotReturned
    end;
  slot_limit s := if maxSessions s <=? 0 then None else Some (maxSessions s);
  slot_ok s cs := exists max, max <= max_int64 /\ slots_inv max (mkSlotState s cs);
}.

Lemma Slots_held c : slot_held (P := Slots) c = holding c.
Proof. by destruct c. Qed.

Lemma Slots_step_ok s cs i c s' c' :
  slot_ok s cs -> cs !! i = Some c -> slot_step s c = Some (s', c') ->
  slot_ok s' (<[i := c']> cs) /\ slot_limit s' = slot_limit s.
Proof.
  intros (max & Hmax & Hok) Hi Hs. split.
  - exists max. split; [done|]. eapply slots_inv_step; [done..|]. by eapply slots_run.
  - simpl. by rewrite (slot_step_max _ _ _ _ Hs).
Qed.

#[export] Instance Slots_laws : SlotPoolLaws Slots slot_pc.
Proof.
  split.
  - done.
  - intros s cs (max & Hmax & Hok). exists max. split; [done|].
    eapply slots_inv_step; [done..|]. apply slots_arrive.
  - intros s c. simpl. unfold slot_step, Add. split.
    + intros [x Hx]. by destruct c.
    + intros Hc. destruct c; try discriminate Hc; simpl; repeat case_match; eauto.
  - intros s cs i c s' c' Hok Hi Ht. simpl in Ht.
    assert (slot_step s c = Some (s', c')) as Hs by by destruct c.
    destruct (Slots_step_ok _ _ _ _ _ _ Hok Hi Hs) as [? ?]. split_and!; [done..|].
    unfold slot_step, Add in Hs. destruct c; try done; repeat case_match; naive_solver.
  - intros s c. simpl. unfold slot_step, Add. split.
    + intros [x Hx]. by destruct c.
    + intros Hc. destruct c; try discriminate Hc; simpl; repeat case_match; eauto.
  - intros s cs i c s' c' Hok Hi Ht. simpl in Ht.
    assert (slot_step s c = Some (s', c')) as Hs by by destruct c.
    destruct (Slots_step_ok _ _ _ _ _ _ Hok Hi Hs) as [? ?]. split_and!; [done..|].
    unfold slot_step, Add in Hs. destruct c; try done; repeat case_match; naive_solver.
  - intros s cs n (max & Hmax & Hm & _ & Hon) Hn Hl. simpl in *.
    destruct (Z.leb_spec (maxSessions s) 0); [done|]. injection Hn as <-. subst max.
    rewrite (count_if_ext _ holding) by apply Slots_held. by apply Hon.
Qed.

(** * The handlers *)

(** What a handler does with its slot: [user_init] is its state once it has one,
    [user_refused] once it was turned away, and [user_owes] tells whether its
    deferred release is still to run. *)
Class SlotUser (A U L : Type) := {
  user_init : A -> U;
  user_refused : A -> U;
  user_step : U -> L -> option U;
  user_owes : U -> bool;
}.

Class SlotUserLaws (A U L : Type) `{SlotUser A U L} := {
  user_init_owes a : user_owes (user_init a) = true;
  user_refused_owes a : user_owes (user_refused a) = false;
  user_owes_once u l u' : user_step u l = Some u' -> user_owes u = false -> user_owes u' = false;
}.

(** * The system *)

Section system.
Context {P C A U L : Type} `{SlotPoolLaws P C} `{SlotUserLaws A U L}.

(** One request: its handler is taking a slot, or past that. *)
Record Request := mkRequest { req_arg : A; req_slot : C; req_user : option U }.

Record SlotSystem := mkSlotSystem { sys_pool : P; sys_requests : list Request }.

Inductive sys_label := SysArrive (a : A) | SysSlot (i : nat) | SysUser (i : nat) (l : L).

(** The handler after a step of its acquire. *)
Definition admitted (a : A) (c : C) : option U :=
  match slot_view c with
  | SlotHeld => Some (user_init a)
  | SlotRefused => Some (user_refused a)
  | SlotAsking | SlotReturned => None
  end.

(** The release runs with the handler's step that ends it. *)
Definition sys_step (s : SlotSystem) (l : sys_label) : option SlotSystem :=
  match l with
  | SysArrive a => Some (mkSlotSystem (sys_pool s) (sys_requests s ++ [mkRequest a slot_enter None]))
  | SysSlot i =>
      r ← sys_requests s !! i;
      match req_user r with
      | Some _ => None
      | None =>
          '(p', c') ← slot_take (sys_pool s) (req_slot r);
          Some (mkSlotSystem p' (<[i := mkRequest (req_arg r) c' (admitted (req_arg r) c')]> (sys_requests s)))
      end
  | SysUser i l =>
      r ← sys_requests s !! i;
      u ← req_user r;
      u' ← user_step u l;
      if user_owes u && negb (user_owes u') then
        '(p', c') ← slot_return (sys_pool s) (req_slot r);
        Some (mkSlotSystem p' (<[i := mkRequest (req_arg r) c' (Some u')]> (sys_requests s)))
      else Some (mkSlotSystem (sys_pool s)
                   (<[i := mkRequest (req_arg r) (req_slot r) (Some u')]> (sys_requests s)))
  end.

Definition sys_init (p : P) : SlotSystem := mkSlotSystem p [].
Definition sys_reachable (p : P) (s : SlotSystem) : Prop := rtc (lts_step sys_step) (sys_init p) s.

(** ** Invariant *)

(** A handler holds a slot exactly while it owes the release, and its own state is
    one it can reach by itself. *)
Definition request_ok (r : Request) : Prop :=
  match req_user r with
  | None => slot_view (req_slot r) = SlotAsking
  | Some u =>
      slot_view (req_slot r) <> SlotAsking /\ slot_held (req_slot r) = user_owes u /\
      (rtc (lts_step user_step) (user_init (req_arg r)) u \/
       rtc (lts_step user_step) (user_refused (req_arg r)) u)
  end.

Record sys_inv (p : P) (s : SlotSystem) : Prop := mkSysInv {
  sys_inv_pool : slot_ok (sys_pool s) (req_slot <$> sys_requests s);
  sys_inv_limit : slot_limit (sys_pool s) = slot_limit p;
  sys_inv_requests : Forall request_ok (sys_requests s);
}.

Lemma sys_inv_init p : slot_ok p [] -> sys_inv p (sys_init p).
Proof. intros Hp. by split. Qed.

(** One request moves, with the pool. *)
Lemma sys_inv_move p s i r p' r' :
  sys_inv p s -> sys_requests s !! i = Some r ->
  slot_ok p' (<[i := req_slot r']> (req_slot <$> sys_requests s)) ->
  slot_limit p' = slot_limit (sys_pool s) -> request_ok r' ->
  sys_inv p (mkSlotSystem p' (<[i := r']> (sys_requests s))).
Proof.
  intros [Hok Hl Hr] Hi Hok' Hl' Hr'. split; simpl.
  - by rewrite list_fmap_insert.
  - by rewrite Hl'.
  - by apply Forall_insert.
Qed.

Lemma request_ok_admitted a c : slot_view c <> SlotReturned -> request_ok (mkRequest a c (admitted a c)).
Proof using All.
  unfold request_ok, admitted, slot_held. simpl. destruct (slot_view c); simpl; try done; intros _.
  - split_and!; [done|by rewrite user_init_owes|left; apply rtc_refl].
  - split_and!; [done|by rewrite user_refused_owes|right; apply rtc_refl].
Qed.

(** A handler's own step keeps its request in order, whether it returns the slot
    or not. *)
Lemma request_ok_step a c u l u' c' :
  request_ok (mkRequest a c (Some u)) -> user_step u l = Some u' ->
  slot_view c' <> SlotAsking -> slot_held c' = user_owes u' ->
  request_ok (mkRequest a c' (Some u')).
Proof using All.
  unfold request_ok. simpl. intros (_ & _ & Hr) Hs Hv Hh. split_and!; [done..|].
  destruct Hr as [Hr|Hr]; [left|right]; (eapply rtc_r; [done|by exists l]).
Qed.

Lemma sys_inv_slot p s i s' : sys_inv p s -> sys_step s (SysSlot i) = Some s' -> sys_inv p s'.
Proof using All.
  intros Hinv Hs. simpl in Hs. destruct (sys_requests s !! i) as [r|] eqn:Hi; [|done]. simpl in Hs.
  destruct (req_user r); [done|].
  destruct (slot_take _ _) as [[p' c']|] eqn:Ht; [|done]. injection Hs as <-.
  destruct (slot_take_ok (sys_pool s) (req_slot <$> sys_requests s) i (req_slot r) p' c')
    as (Hok & Hl & Hv); [apply Hinv|by rewrite list_lookup_fmap, Hi|done|].
  eapply sys_inv_move; [done..|]. by apply request_ok_admitted.
Qed.

Lemma sys_inv_user p s i l s' : sys_inv p s -> sys_step s (SysUser i l) = Some s' -> sys_inv p s'.
Proof using All.
  intros Hinv Hs. simpl in Hs. destruct (sys_requests s !! i) as [[a c mu]|] eqn:Hi; [|done].
  simpl in Hs. destruct mu as [u|]; [|done]. simpl in Hs.
  destruct (user_step u l) as [u'|] eqn:Hu; [|done]. simpl in Hs.
  pose proof (Forall_lookup_1 _ _ _ _ (sys_inv_requests _ _ Hinv) Hi) as Hreq.
  pose proof Hreq as (Hv & Hh & _). simpl in *.
  assert ((req_slot <$> sys_requests s) !! i = Some c) as Hc by by rewrite list_lookup_fmap, Hi.
  destruct (user_owes u) eqn:Eo, (user_owes u') eqn:Eo'; simpl in Hs.
  2: { destruct (slot_return _ _) as [[p' c']|] eqn:Ht; [|done]. injection Hs as <-.
       destruct (slot_return_ok _ _ _ _ _ _ (sys_inv_pool _ _ Hinv) Hc Ht) as (Hok & Hl & Hv').
       eapply sys_inv_move; [done..|]. eapply request_ok_step; [done..| |].
       - by rewrite Hv'.
       - unfold slot_held. by rewrite Hv', Eo'. }
  2: { by rewrite (user_owes_once u l u' Hu Eo) in Eo'. }
  all: injection Hs as <-; eapply sys_inv_move; [done|done| |done|].
  all: try (by rewrite list_insert_id; [apply Hinv|]).
  all: eapply request_ok_step; [done|done|done|by rewrite Hh].
Qed.

Lemma sys_inv_step p s l s' : sys_inv p s -> sys_step s l = Some s' -> sys_inv p s'.
Proof using All.
  destruct l as [a|i|i l]; [|apply sys_inv_slot|apply sys_inv_user].
  intros [Hok Hl Hr] [= <-]. split; simpl; [|done|].
  - rewrite fmap_app. by apply slot_arrive_ok.
  - apply Forall_app. split; [done|]. constructor; [|done]. apply slot_enter_view.
Qed.

Lemma sys_inv_reachable p s : slot_ok p [] -> sys_reachable p s -> sys_inv p s.
Proof using All.
  intros Hp Hr. refine (rtc_invariant _ (sys_inv p) _ _ _ Hr (sys_inv_init p Hp)).
  intros t t' Ht [l Hs]. by eapply sys_inv_step.
Qed.

(** ** Consequences *)

(** The handlers that owe a release, and the pool's limit on them. *)
Definition in_progress (r : Request) : bool :=
  match req_user r with Some u => user_owes u | None => false end.

Lemma in_progress_held r : request_ok r -> in_progress r = slot_held (req_slot r).
Proof.
  unfold request_ok, in_progress. destruct (req_user r) as [u|]; [by intros (_ & -> & _)|].
  unfold slot_held. by intros ->.
Qed.

Lemma count_in_progress rs :
  Forall request_ok rs -> count_if in_progress rs = count_if slot_held (req_slot <$> rs).
Proof.
  induction 1 as [|r rs Hr _ IH]; simpl; [done|]. by rewrite in_progress_held, IH.
Qed.

Lemma sys_capacity p s n :
  slot_ok p [] -> sys_reachable p s -> slot_limit p = Some n ->
  Z.of_nat (length (sys_requests s)) <= max_int64 -> count_if in_progress (sys_requests s) <= n.
Proof using All.
  intros Hp Hr Hn Hlen. destruct (sys_inv_reachable _ _ Hp Hr) as [Hok Hl Hreq].
  rewrite count_in_progress by done. eapply slot_bound; [done|by rewrite Hl|by rewrite length_fmap].
Qed.

(** The system never holds up a handler: a request in the middle of its acquire
    can go on, and so can a handler with a step of its own, the release included. *)
Lemma sys_asking p s i r :
  sys_inv p s -> sys_requests s !! i = Some r -> req_user r = None ->
  exists s', sys_step s (SysSlot i) = Some s'.
Proof using All.
  intros Hinv Hi Hn. pose proof (Forall_lookup_1 _ _ _ _ (sys_inv_requests _ _ Hinv) Hi) as Hreq.
  unfold request_ok in Hreq. rewrite Hn in Hreq. apply (slot_take_asking (sys_pool s)) in Hreq.
  destruct Hreq as [[p' c'] Ht]. simpl. rewrite Hi. simpl. rewrite Hn, Ht. simpl. eauto.
Qed.

Lemma sys_user p s i r u l u' :
  sys_inv p s -> sys_requests s !! i = Some r -> req_user r = Some u -> user_step u l = Some u' ->
  exists s', sys_step s (SysUser i l) = Some s'.
Proof using All.
  intros Hinv Hi Hu Hs. pose proof (Forall_lookup_1 _ _ _ _ (sys_inv_requests _ _ Hinv) Hi) as Hreq.
  unfold request_ok in Hreq. rewrite Hu in Hreq. destruct Hreq as (_ & Hh & _).
  simpl. rewrite Hi. simpl. rewrite Hu. simpl. rewrite Hs. simpl.
  destruct (user_owes u && negb (user_owes u')) eqn:E; [|eauto]. apply andb_true_iff in E as [E _].
  rewrite E in Hh. apply bool_decide_eq_true in Hh. apply (slot_return_held (sys_pool s)) in Hh.
  destruct Hh as [[p' c'] ->]. simpl. eauto.
Qed.
End system.

Arguments Request : clear implicits.
Arguments SlotSystem : clear implicits.
Arguments sys_label : clear implicits.
