(* ===== verification/ProxyConfig.v ===== *)
(** The sidecar's configuration, [internal/proxy/config.go]: the environment
    readers, [LoadConfig] with its checks, and [TargetAddr]. *)

From S2P Require Import Prelude GoStrings GoNet GoTime GoOs.

Open Scope string_scope.
Open Scope Z_scope.
Open Scope go_scope.

(** * Environment readers *)

Definition getEnv (env : gmap string string) (key defaultValue : string) : string :=
  let value := Getenv env key in
  if negb (value =? "")%string then value else defaultValue.

Definition getEnvAllowEmpty (env : gmap string string) (key defaultValue : string) : string :=
  match LookupEnv env key with
  | Some value => value
  | None => defaultValue
  end.

Definition getDurationEnv (env : gmap string string) (key : string) (defaultValue : Z) : Z :=
  let value := Getenv env key in
  if negb (value =? "")%string then
    match ParseDuration value with
    | None => defaultValue
    | Some d => d
    end
  else defaultValue.

Definition getIntEnv (env : gmap string string) (key : string) (defaultValue : Z) : Z :=
  let value := Getenv env key in
  if negb (value =? "")%string then
    match Atoi value with
    | (_, Some _) => defaultValue
    | (n, None) => n
    end
  else defaultValue.

(** * Configuration *)

Definition defaultTargetHealthBannerPrefix : string := "SSH-2.0-".
Definition defaultTargetHealthInterval : Z := 30 * Second.

(** The probe timeout of [server.go]. *)
Definition targetHealthDialTimeout : Z := 2 * Second.

Record Config := mkConfig {
  ListenAddr : string;
  TargetHost : string;
  TargetPort : Z;
  MaxSessionDuration : Z;
  PingInterval : Z;
  PingTimeout : Z;
  MaxConnections : Z;
  ReadLimit : Z;
  RevalidationInterval : Z;
  RevalidationEndpoint : string;
  TargetHealthBannerPrefix : string;
  TargetHealthInterval : Z;
}.

(** The refusals of [LoadConfig], each with the values its message reports. *)
Inductive config_error :=
| ErrTargetPort (got : Z)
| ErrPingInterval (interval timeout : Z)
| ErrReadLimit (got : Z)
| ErrTargetHealthInterval (interval timeout : Z).

(** The record [LoadConfig] fills before it checks anything.  [READ_LIMIT] is
    read as an [int] and widened to [int64], the same width here. *)
Definition readConfig (env : gmap string string) : Config := {|
  ListenAddr := getEnv env "LISTEN_ADDR" ":8080";
  TargetHost := getEnv env "TARGET_HOST" "127.0.0.1";
  TargetPort := getIntEnv env "TARGET_PORT" 2222;
  MaxSessionDuration := getDurationEnv env "MAX_SESSION_DURATION" (12 * Hour);
  PingInterval := getDurationEnv env "PING_INTERVAL" (30 * Second);
  PingTimeout := getDurationEnv env "PING_TIMEOUT" (60 * Second);
  MaxConnections := getIntEnv env "MAX_CONNECTIONS" 10;
  ReadLimit := int64 (getIntEnv env "READ_LIMIT" 65536);
  RevalidationInterval := getDurationEnv env "REVALIDATION_INTERVAL" (5 * Minute);
  RevalidationEndpoint := getEnv env "REVALIDATION_ENDPOINT" "";
  TargetHealthBannerPrefix :=
    getEnvAllowEmpty env "TARGET_HEALTH_BANNER_PREFIX" defaultTargetHealthBannerPrefix;
  TargetHealthInterval :=
    getDurationEnv env "TARGET_HEALTH_INTERVAL" defaultTargetHealthInterval;
|}.

Definition LoadConfig (env : gmap string string) : result config_error Config :=
  let config := readConfig env in
  fail_if (TargetPort config <? 1) || (65535 <? TargetPort config)
    with ErrTargetPort (TargetPort config);
  fail_if PingTimeout config <=? PingInterval config
    with ErrPingInterval (PingInterval config) (PingTimeout config);
  fail_if (ReadLimit config <? 1024) || (10 * 1024 * 1024 <? ReadLimit config)
    with ErrReadLimit (ReadLimit config);
  fail_if TargetHealthInterval config <=? targetHealthDialTimeout
    with ErrTargetHealthInterval (TargetHealthInterval config) targetHealthDialTimeout;
  Ok config.

Definition TargetAddr (c : Config) : string := TargetHost c +:+ ":" +:+ Itoa (TargetPort c).

(** What a loaded configuration promises its readers. *)
Definition config_wf (c : Config) : Prop :=
  1 <= TargetPort c <= 65535 /\
  PingInterval c < PingTimeout c /\
  1024 <= ReadLimit c <= 10485760 /\
  targetHealthDialTimeout < TargetHealthInterval c /\
  min_int64 <= MaxConnections c <= max_int64 /\
  min_int64 <= PingInterval c /\ PingTimeout c <= max_int64 /\
  min_int64 <= MaxSessionDuration c <= max_int64.

(** * Lemmas *)

Lemma getIntEnv_range env key dflt :
  min_int64 <= dflt <= max_int64 -> min_int64 <= getIntEnv env key dflt <= max_int64.
Proof.
  intros Hd. unfold getIntEnv. destruct (negb _); [|done].
  pose proof (Atoi_range (Getenv env key)). by destruct (Atoi _) as [n [e|]].
Qed.

Lemma getDurationEnv_range env key dflt :
  min_int64 <= dflt <= max_int64 -> min_int64 <= getDurationEnv env key dflt <= max_int64.
Proof.
  intros Hd. unfold getDurationEnv. destruct (negb _); [|done].
  destruct (ParseDuration _) as [d|] eqn:E; [|done]. by eapply ParseDuration_range.
Qed.

Lemma getIntEnv_Itoa env key n dflt :
  min_int64 <= n <= max_int64 -> getIntEnv (<[key := Itoa n]> env) key dflt = n.
Proof.
  intros Hn. unfold getIntEnv, Getenv, LookupEnv. rewrite lookup_insert_eq. simpl.
  rewrite (proj2 (String.eqb_neq _ _) (Itoa_nonempty n)). simpl. by rewrite Atoi_Itoa.
Qed.

(** The four checks, in propositional form. *)
Definition config_checks (c : Config) : Prop :=
  1 <= TargetPort c <= 65535 /\ PingInterval c < PingTimeout c /\
  1024 <= ReadLimit c <= 10485760 /\ targetHealthDialTimeout < TargetHealthInterval c.

Lemma LoadConfig_Ok_iff env c :
  LoadConfig env = Ok c <-> c = readConfig env /\ config_checks c.
Proof.
  unfold LoadConfig. cbv zeta. rewrite !guard_err_ok. unfold config_checks.
  rewrite !orb_false_iff, !Z.ltb_ge, !Z.leb_gt. split.
  - intros ([? ?] & ? & [? ?] & ? & [= <-]). repeat split; lia.
  - intros (-> & ? & ? & ? & ?). repeat split; lia.
Qed.

Lemma readConfig_ranges env :
  let c := readConfig env in
  min_int64 <= MaxConnections c <= max_int64 /\
  min_int64 <= PingInterval c /\ PingTimeout c <= max_int64 /\
  min_int64 <= MaxSessionDuration c <= max_int64.
Proof. cbn [readConfig MaxConnections PingInterval PingTimeout MaxSessionDuration].
  repeat split; first [apply getIntEnv_range | apply getDurationEnv_range]; by compute. Qed.

Lemma getIntEnv_insert_ne env k k' v dflt :
  k <> k' -> getIntEnv (<[k := v]> env) k' dflt = getIntEnv env k' dflt.
Proof. intros H. unfold getIntEnv, Getenv, LookupEnv. by rewrite lookup_insert_ne. Qed.

Lemma getDurationEnv_insert_ne env k k' v dflt :
  k <> k' -> getDurationEnv (<[k := v]> env) k' dflt = getDurationEnv env k' dflt.
Proof. intros H. unfold getDurationEnv, Getenv, LookupEnv. by rewrite lookup_insert_ne. Qed.

(** * Properties *)

(** A configuration [LoadConfig] returns satisfies every bound
    the rest of the sidecar relies on: a dialable port, a ping period strictly
    inside the pong timeout, a read limit between 1 KiB and 10 MiB, a probe
    period longer than the probe timeout, and machine-width numbers. *)
Theorem LoadConfig_wf env c : LoadConfig env = Ok c -> config_wf c.
Proof.
  intros [-> (Hp & Hi & Hr & Hh)]%LoadConfig_Ok_iff.
  pose proof (readConfig_ranges env) as (Hm & Hpi & Hpt & Hd).
  unfold config_wf. tauto.
Qed.

Lemma LoadConfig_wf_witness : config_wf (readConfig ∅).
Proof. apply (LoadConfig_wf ∅). vm_compute. reflexivity. Defined.

(** Settings written in decimal are the settings the sidecar
    runs with: over any environment that loads, overriding the port, the
    connection cap and the read limit with in-range numbers loads, with exactly
    those numbers. *)
Theorem LoadConfig_roundtrip env c port cap limit :
  LoadConfig env = Ok c ->
  1 <= port <= 65535 -> min_int64 <= cap <= max_int64 -> 1024 <= limit <= 10485760 ->
  exists c',
    LoadConfig (<["TARGET_PORT" := Itoa port]>
      (<["MAX_CONNECTIONS" := Itoa cap]> (<["READ_LIMIT" := Itoa limit]> env))) = Ok c' /\
    TargetPort c' = port /\ MaxConnections c' = cap /\ ReadLimit c' = limit /\
    PingInterval c' = PingInterval c /\ PingTimeout c' = PingTimeout c.
Proof.
  intros [-> (_ & Hi & _ & Hh)]%LoadConfig_Ok_iff Hport Hcap Hlimit.
  eexists. rewrite LoadConfig_Ok_iff. split; [split; [reflexivity|]|].
  - unfold config_checks. cbn [readConfig TargetPort PingInterval PingTimeout ReadLimit
      TargetHealthInterval] in *.
    rewrite !getDurationEnv_insert_ne by done.
    rewrite (getIntEnv_insert_ne _ _ "READ_LIMIT"), (getIntEnv_insert_ne _ _ "READ_LIMIT") by done.
    rewrite !getIntEnv_Itoa by (unfold min_int64, max_int64 in *; lia).
    rewrite int64_small by (unfold min_int64, max_int64 in *; lia). auto.
  - cbn [readConfig TargetPort MaxConnections ReadLimit PingInterval PingTimeout].
    rewrite !getDurationEnv_insert_ne by done.
    rewrite (getIntEnv_insert_ne _ _ "READ_LIMIT"), (getIntEnv_insert_ne _ _ "READ_LIMIT"),
      (getIntEnv_insert_ne _ _ "MAX_CONNECTIONS") by done.
    rewrite !getIntEnv_Itoa by (unfold min_int64, max_int64 in *; lia).
    rewrite int64_small by (unfold min_int64, max_int64 in *; lia). done.
Qed.

Lemma LoadConfig_roundtrip_witness :
  exists c', LoadConfig (<["TARGET_PORT" := Itoa 22]>
      (<["MAX_CONNECTIONS" := Itoa 3]> (<["READ_LIMIT" := Itoa 2048]> ∅))) = Ok c' /\
    TargetPort c' = 22 /\ MaxConnections c' = 3 /\ ReadLimit c' = 2048 /\
    PingInterval c' = PingInterval (readConfig ∅) /\ PingTimeout c' = PingTimeout (readConfig ∅).
Proof.
  apply (LoadConfig_roundtrip ∅ (readConfig ∅) 22 3 2048);
    [vm_compute; reflexivity | lia | unfold min_int64, max_int64; lia | lia].
Defined.

(** The dial address is split back into the configured host and
    port when the host has no colon; a host with a colon, such as the IPv6
    loopback, gives an address that no dial can parse, because it is not
    bracketed. *)
Theorem TargetAddr_split c :
  no_brackets (TargetHost c) = true ->
  SplitHostPort (TargetAddr c) =
    if contains_byte ":" (TargetHost c) then Err TooManyColons
    else Ok (TargetHost c, Itoa (TargetPort c)).
Proof.
  intros Hb. unfold TargetAddr. destruct (contains_byte ":" (TargetHost c)) eqn:Hc.
  - apply negb_true_iff, orb_false_iff in Hb as [Ho _]. unfold SplitHostPort.
    rewrite (sapp_cons ":"), sapp_nil_l, last_index_byte_split by apply Itoa_no_colon.
    cbv zeta. destruct (TargetHost c) as [|a h] eqn:Hh; [done|].
    rewrite contains_byte_cons in Ho. apply orb_false_iff in Ho as [Ho _].
    cbn [HasPrefix]. rewrite sapp_cons. cbn [HasPrefix]. rewrite Ho.
    rewrite <- sapp_cons, stake_app, Hc. done.
  - rewrite <- (SplitHostPort_JoinHostPort _ (Itoa (TargetPort c)));
      [unfold JoinHostPort; by rewrite Hc | done | apply Itoa_no_brackets | apply Itoa_no_colon].
Qed.

Lemma TargetAddr_split_witness :
  SplitHostPort (TargetAddr (readConfig {["TARGET_HOST" := "::1"]})) = Err TooManyColons.
Proof.
  rewrite (TargetAddr_split (readConfig {["TARGET_HOST" := "::1"]})); vm_compute; reflexivity.
Defined.
