(* ===== verification/SshConfig.v ===== *)
(** The SSH server's configuration, [internal/sshserver/config.go]: reading the
    environment, [validate] with the loopback guard, the ephemeral host-key
    check and [isLoopback]. *)

From S2P Require Import Prelude GoStrings GoNet GoPath GoTime GoOs.

Open Scope string_scope.
Open Scope Z_scope.
Open Scope go_scope.

(** * Environment readers *)

Definition getEnv (sys : System) (key defaultValue : string) : string :=
  let value := Getenv (environ sys) key in
  if negb (value =? "")%string then value else defaultValue.

Definition getDurationEnv (sys : System) (key : string) (defaultValue : Z) : Z :=
  let value := Getenv (environ sys) key in
  if negb (value =? "")%string then
    match ParseDuration value with
    | None => defaultValue
    | Some d => d
    end
  else defaultValue.

Definition getIntEnv (sys : System) (key : string) (defaultValue : Z) : Z :=
  let value := Getenv (environ sys) key in
  if negb (value =? "")%string then
    match Atoi value with
    | (_, Some _) => defaultValue
    | (n, None) => n
    end
  else defaultValue.

Definition getBoolEnv (sys : System) (key : string) (defaultValue : bool) : bool :=
  let value := Getenv (environ sys) key in
  if negb (value =? "")%string then
    match ParseBool value with
    | None => defaultValue
    | Some b => b
    end
  else defaultValue.

(** * Configuration *)

Definition defaultPort : Z := 2222.
Definition defaultMaxSessions : Z := 10.
Definition defaultIdleTimeout : Z := 12 * Hour.
Definition loopbackIPv4 : string := "127.0.0.1".
Definition hostKeyDirName : string := ".ssh".
Definition hostKeyFileName : string := "ssh_host_ed25519_key".
Definition localhostHost : string := "localhost".
Definition rootPath : string := "/".
Definition ephemeralPathPrefixes : list string := ["/tmp/"; "/var/tmp/"; "/run/"; "/dev/shm/"].

Record Config := mkConfig {
  ListenAddr : string;
  HostKeyPath : string;
  IdleTimeout : Z;
  MaxSessions : Z;
  LoginShell : bool;
  AllowNonLoopback : bool;
}.

Definition homeDir (sys : System) : string :=
  let from_passwd := match currentUser sys with
                     | Some current => HomeDir current
                     | None => ""
                     end in
  match UserHomeDir (environ sys) with
  | Some home => if negb (home =? "")%string then home else from_passwd
  | None => from_passwd
  end.

Definition defaultHostKeyPath (sys : System) : string :=
  let home := homeDir sys in
  if (home =? "")%string then "" else Join [home; hostKeyDirName; hostKeyFileName].

Definition LoadConfig (sys : System) : Config := {|
  ListenAddr := getEnv sys "SSH_LISTEN_ADDR" (loopbackIPv4 +:+ ":" +:+ Itoa defaultPort);
  HostKeyPath := getEnv sys "SSH_HOST_KEY_PATH" (defaultHostKeyPath sys);
  IdleTimeout := getDurationEnv sys "SSH_IDLE_TIMEOUT" defaultIdleTimeout;
  MaxSessions := getIntEnv sys "SSH_MAX_SESSIONS" defaultMaxSessions;
  LoginShell := getBoolEnv sys "SSH_LOGIN_SHELL" false;
  AllowNonLoopback := getBoolEnv sys "SSH_ALLOW_NON_LOOPBACK" false;
|}.

(** * Loopback policy *)

Definition isLoopback (host : string) : bool :=
  if (host =? "")%string || (host =? "*")%string then false
  else if (host =? localhostHost)%string then true
  else match ParseIP host with
       | None => false
       | Some ip => IsLoopback ip
       end.

(** The refusals of [validate], each with the value its message reports. *)
Inductive validate_error :=
| ErrListenAddr (addr : string) (e : addr_error)
| ErrPort (port : string)
| ErrHostKeyEmpty
| ErrHostKeyRelative (path : string)
| ErrMaxSessions (n : Z)
| ErrIdleTimeout (d : Z)
| ErrNonLoopback (addr : string).

(** [strconv.Atoi] succeeded with a value between 1 and 65535. *)
Definition bad_port (port : string) : bool :=
  match Atoi port with
  | (_, Some _) => true
  | (p, None) => (p <? 1) || (65535 <? p)
  end.

Definition validate (c : Config) : result validate_error unit :=
  match SplitHostPort (ListenAddr c) with
  | Err e => Err (ErrListenAddr (ListenAddr c) e)
  | Ok (host, port) =>
      fail_if bad_port port with ErrPort port;
      fail_if (HostKeyPath c =? "")%string with ErrHostKeyEmpty;
      fail_if negb (IsAbs (HostKeyPath c)) with ErrHostKeyRelative (HostKeyPath c);
      fail_if MaxSessions c <? 0 with ErrMaxSessions (MaxSessions c);
      fail_if IdleTimeout c <? 0 with ErrIdleTimeout (IdleTimeout c);
      fail_if negb (AllowNonLoopback c) && negb (isLoopback host)
        with ErrNonLoopback (ListenAddr c);
      Ok tt
  end.

(** * Ephemeral host keys *)

Definition onSameDevice (a b : FileInfo) : bool :=
  match Dev a, Dev b with
  | Some da, Some db => da =? db
  | _, _ => false
  end.

(** The upward walk of [statNearestAncestor].  [None] is lack of fuel,
    [Some None] the failure of the walk at a path that is its own parent. *)
Fixpoint statNearestAncestor (stat : string -> option FileInfo) (fuel : nat) (path : string)
  : option (option FileInfo) :=
  match fuel with
  | O => None
  | S fuel' =>
      match stat path with
      | Some info => Some (Some info)
      | None =>
          let parent := Dir path in
          if (parent =? path)%string then Some None
          else statNearestAncestor stat fuel' parent
      end
  end.

(** Enough for every path: a parent is shorter, or is "." or "/". *)
Definition ancestor_fuel (path : string) : nat := String.length path + 2.

Definition isOnRootDevice (sys : System) (path : string) : bool :=
  match Stat sys rootPath with
  | None => false
  | Some rootInfo =>
      match statNearestAncestor (Stat sys) (ancestor_fuel path) path with
      | Some (Some pathInfo) => onSameDevice pathInfo rootInfo
      | _ => false
      end
  end.

Definition hasEphemeralHostKeyPath (sys : System) (c : Config) : bool :=
  existsb (HasPrefix (HostKeyPath c)) ephemeralPathPrefixes ||
  isOnRootDevice sys (Dir (HostKeyPath c)).

(** * Lemmas *)

Lemma validate_Ok_iff c :
  validate c = Ok tt <->
  exists host port, SplitHostPort (ListenAddr c) = Ok (host, port) /\
    bad_port port = false /\ HostKeyPath c <> "" /\ IsAbs (HostKeyPath c) = true /\
    0 <= MaxSessions c /\ 0 <= IdleTimeout c /\
    (AllowNonLoopback c = true \/ isLoopback host = true).
Proof.
  unfold validate. destruct (SplitHostPort (ListenAddr c)) as [[host port]|e].
  - rewrite !guard_err_ok. rewrite andb_false_iff, !negb_false_iff, !Z.ltb_ge, String.eqb_neq.
    split.
    + intros (? & ? & ? & ? & ? & ? & _). exists host, port. tauto.
    + intros (? & ? & [= <- <-] & ?). tauto.
  - split; [done|]. intros (? & ? & ? & _). done.
Qed.

Lemma bad_port_Itoa p : 1 <= p <= 65535 -> bad_port (Itoa p) = false.
Proof.
  intros Hp. unfold bad_port. rewrite Atoi_Itoa by (unfold min_int64, max_int64; lia). lia.
Qed.

(** A dotted address is none of the names [isLoopback] treats specially. *)
Lemma dotted_not_name a b c d s :
  octet a -> addr_kind s = None -> dotted a b c d <> s.
Proof.
  intros Ha Hs <-. revert Hs. unfold dotted, Itoa, itoa_nonneg. unfold octet in Ha.
  destruct (Z.ltb_spec a 0); [lia|]. by rewrite <- itoa_go_app, addr_kind_digits.
Qed.

Lemma isLoopback_dotted_eq a b c d :
  octet a -> octet b -> octet c -> octet d -> isLoopback (dotted a b c d) = (a =? 127).
Proof.
  intros Ha Hb Hc Hd. unfold isLoopback.
  rewrite !(proj2 (String.eqb_neq _ _)) by (by apply dotted_not_name). simpl.
  rewrite ParseIP_dotted by done. apply IsLoopback_v4.
Qed.

Lemma no_brackets_app s t : no_brackets (s +:+ t) = no_brackets s && no_brackets t.
Proof.
  unfold no_brackets. rewrite !contains_byte_app.
  destruct (contains_byte "[" s), (contains_byte "]" s), (contains_byte "[" t); done.
Qed.

Lemma dotted_plain a b c d :
  no_brackets (dotted a b c d) = true /\ contains_byte ":" (dotted a b c d) = false.
Proof.
  unfold dotted. rewrite !no_brackets_app, !contains_byte_app, !Itoa_no_brackets, !Itoa_no_colon.
  done.
Qed.

Lemma SplitHostPort_dotted a b c d p :
  SplitHostPort (dotted a b c d +:+ ":" +:+ Itoa p) = Ok (dotted a b c d, Itoa p).
Proof.
  destruct (dotted_plain a b c d) as [Hb Hc].
  rewrite <- (SplitHostPort_JoinHostPort _ (Itoa p));
    [unfold JoinHostPort; by rewrite Hc | done | apply Itoa_no_brackets | apply Itoa_no_colon].
Qed.

(** The [k]-th ancestor of a path. *)
Definition ancestor (k : nat) (path : string) : string := Nat.iter k Dir path.

Lemma ancestor_S k path : ancestor (S k) path = ancestor k (Dir path).
Proof. unfold ancestor. by rewrite Nat.iter_succ_r. Qed.

(** The first path that exists on the way up, starting at [path] itself. *)
Definition nearest (stat : string -> option FileInfo) (path : string) (info : FileInfo) : Prop :=
  exists k, stat (ancestor k path) = Some info /\
    forall j, (j < k)%nat -> stat (ancestor j path) = None.

Lemma nearest_step stat path info :
  stat path = None -> nearest stat (Dir path) info -> nearest stat path info.
Proof.
  intros Hn (k & Hk & Hj). exists (S k). rewrite ancestor_S. split; [done|].
  intros [|j] Hlt; [done|]. rewrite ancestor_S. apply Hj. lia.
Qed.

(** The walk ends with the given fuel, whatever the file system. *)
Lemma statNearestAncestor_total stat fuel path :
  (String.length path + 2 <= fuel)%nat ->
  exists r, statNearestAncestor stat fuel path = Some r.
Proof.
  revert path. induction fuel as [|fuel IH]; intros path Hf; [lia|]. cbn [statNearestAncestor].
  destruct (stat path); [eauto|]. cbv zeta.
  destruct (String.eqb_spec (Dir path) path) as [|Hne]; [eauto|].
  destruct (Dir_shrinks path) as [E|[->|Hl]]; [|done|apply IH; lia].
  destruct fuel as [|fuel]; [lia|]. rewrite E. cbn [statNearestAncestor].
  destruct (stat "."); eauto.
Qed.

Lemma statNearestAncestor_sound stat fuel path r :
  statNearestAncestor stat fuel path = Some r ->
  match r with
  | Some info => nearest stat path info
  | None => exists k, stat (ancestor k path) = None /\ Dir (ancestor k path) = ancestor k path
  end.
Proof.
  revert path. induction fuel as [|fuel IH]; intros path; [done|]. cbn [statNearestAncestor].
  destruct (stat path) as [info|] eqn:Hs.
  - intros [= <-]. exists 0%nat. split; [done|]. lia.
  - cbv zeta. destruct (String.eqb_spec (Dir path) path) as [E|Hne].
    + intros [= <-]. by exists 0%nat.
    + intros H%IH. destruct r as [info|]; [by apply nearest_step|].
      destruct H as (k & Hk). exists (S k). by rewrite ancestor_S.
Qed.

Lemma ancestor_abs k path : IsAbs path = true -> IsAbs (ancestor k path) = true.
Proof. revert path. induction k as [|k IH]; intros path H; [done|].
  rewrite ancestor_S. by apply IH, Dir_abs. Qed.

Lemma nearest_exists stat path rootInfo :
  IsAbs path = true -> stat rootPath = Some rootInfo ->
  exists info, statNearestAncestor stat (ancestor_fuel path) path = Some (Some info) /\
    nearest stat path info.
Proof.
  intros Habs Hroot.
  destruct (statNearestAncestor_total stat (ancestor_fuel path) path) as [r Hr];
    [unfold ancestor_fuel; lia|].
  pose proof (statNearestAncestor_sound _ _ _ _ Hr) as Hs. destruct r as [info|]; [by exists info|].
  destruct Hs as (k & Hk & Hfix). apply Dir_fixed_abs in Hfix; [|by apply ancestor_abs].
  rewrite Hfix in Hk. unfold rootPath in Hroot. congruence.
Qed.

(** * Properties *)

(** C12. A validated configuration without the override listens on
    loopback only: the listen address splits into a port between 1 and 65535 and
    a host that is "localhost", an address in 127.0.0.0/8 or ::1. *)
Theorem validate_loopback_only c :
  validate c = Ok tt -> AllowNonLoopback c = false ->
  exists host port p,
    SplitHostPort (ListenAddr c) = Ok (host, port) /\
    Atoi port = (p, None) /\ 1 <= p <= 65535 /\
    (host = "localhost" \/
     exists ip, ParseIP host = Some ip /\
       ((exists rest, To4 ip = Some (127 :: rest)) \/ ip = IPv6loopback)).
Proof.
  intros (host & port & Hs & Hp & _ & _ & _ & _ & [Ha|Hl])%validate_Ok_iff Hallow; [congruence|].
  unfold bad_port in Hp. destruct (Atoi port) as [p [e|]] eqn:Hat; [done|].
  exists host, port, p. split; [done|]. split; [done|]. split; [lia|].
  unfold isLoopback in Hl. destruct ((host =? "")%string || (host =? "*")%string); [done|].
  destruct (String.eqb_spec host localhostHost) as [->|_]; [by left|right].
  destruct (ParseIP host) as [ip|]; [|done]. exists ip. split; [done|].
  unfold IsLoopback in Hl. destruct (To4 ip) as [[|x rest]|] eqn:H4; to_prop.
  - done.
  - left. exists rest. simpl in Hl. congruence.
  - by right.
Qed.

Lemma validate_loopback_only_witness :
  exists host port p,
    SplitHostPort "127.0.0.1:2222" = Ok (host, port) /\
    Atoi port = (p, None) /\ 1 <= p <= 65535 /\
    (host = "localhost" \/
     exists ip, ParseIP host = Some ip /\
       ((exists rest, To4 ip = Some (127 :: rest)) \/ ip = IPv6loopback)).
Proof.
  apply (validate_loopback_only (mkConfig "127.0.0.1:2222" "/keys/host_key" 0 10 false false));
    vm_compute; reflexivity.
Defined.

(** Over every dotted IPv4 address, the guard accepts exactly
    127.0.0.0/8. *)
Theorem isLoopback_dotted a b c d :
  octet a -> octet b -> octet c -> octet d -> isLoopback (dotted a b c d) = (a =? 127).
Proof. apply isLoopback_dotted_eq. Qed.

Lemma isLoopback_dotted_witness : isLoopback (dotted 10 0 0 5) = (10 =? 127).
Proof. apply (isLoopback_dotted 10 0 0 5); unfold octet; lia. Defined.

(** Whatever dotted address and port are configured, an otherwise
    valid configuration is accepted exactly when the address is in 127.0.0.0/8
    or the override is set, and refused with the loopback error otherwise. *)
Theorem validate_dotted conf a b c d p :
  octet a -> octet b -> octet c -> octet d -> 1 <= p <= 65535 ->
  ListenAddr conf = dotted a b c d +:+ ":" +:+ Itoa p ->
  IsAbs (HostKeyPath conf) = true -> 0 <= MaxSessions conf -> 0 <= IdleTimeout conf ->
  validate conf =
    if AllowNonLoopback conf || (a =? 127) then Ok tt else Err (ErrNonLoopback (ListenAddr conf)).
Proof.
  intros Ha Hb Hc Hd Hp Hl Habs Hm Hi. unfold validate.
  rewrite Hl, SplitHostPort_dotted, bad_port_Itoa by done.
  destruct (IsAbs_inv _ Habs) as [q Hq]. rewrite Habs, Hq. simpl.
  assert ((MaxSessions conf <? 0) = false) as -> by lia.
  assert ((IdleTimeout conf <? 0) = false) as -> by lia. simpl.
  rewrite isLoopback_dotted_eq by done.
  destruct (AllowNonLoopback conf), (a =? 127); done.
Qed.

Lemma validate_dotted_witness :
  validate (mkConfig "0.0.0.0:2222" "/keys/host_key" 0 10 false false) =
    if false || (0 =? 127) then Ok tt else Err (ErrNonLoopback "0.0.0.0:2222").
Proof.
  apply (validate_dotted (mkConfig "0.0.0.0:2222" "/keys/host_key" 0 10 false false) 0 0 0 0 2222);
    try (unfold octet; lia); try (vm_compute; reflexivity); simpl; lia.
Defined.

(** With no SSH_ variable set, the configuration read from a
    system whose home directory is an absolute path is valid and keeps the
    loopback guard. *)
Theorem LoadConfig_default_valid sys :
  (forall k, HasPrefix k "SSH_" = true -> environ sys !! k = None) ->
  IsAbs (homeDir sys) = true ->
  validate (LoadConfig sys) = Ok tt /\ AllowNonLoopback (LoadConfig sys) = false.
Proof.
  intros Hnone Habs.
  assert (Hg : forall k, HasPrefix k "SSH_" = true -> Getenv (environ sys) k = "").
  { intros k Hk. unfold Getenv, LookupEnv. by rewrite Hnone. }
  assert (HL : LoadConfig sys = mkConfig "127.0.0.1:2222"
    (Join [homeDir sys; hostKeyDirName; hostKeyFileName]) (12 * Hour) 10 false false).
  { unfold LoadConfig, getEnv, getDurationEnv, getIntEnv, getBoolEnv.
    rewrite !Hg by reflexivity. simpl. unfold defaultHostKeyPath.
    destruct (IsAbs_inv _ Habs) as [q Hq]. rewrite Hq. done. }
  rewrite HL. split; [|done]. apply validate_Ok_iff.
  pose proof (Join_abs _ [hostKeyDirName; hostKeyFileName] Habs) as HJ.
  exists "127.0.0.1", "2222". cbn [ListenAddr HostKeyPath MaxSessions IdleTimeout AllowNonLoopback].
  repeat split; try done; [|right; reflexivity].
  destruct (IsAbs_inv _ HJ) as [q Hq]. by rewrite Hq.
Qed.

Lemma LoadConfig_default_valid_witness :
  validate (LoadConfig (mkSystem {["HOME" := "/home/jovyan"]} None (fun _ => None))) = Ok tt /\
  AllowNonLoopback (LoadConfig (mkSystem {["HOME" := "/home/jovyan"]} None (fun _ => None))) = false.
Proof.
  apply LoadConfig_default_valid.
  - intros k Hk. apply lookup_singleton_ne. intros <-. vm_compute in Hk. discriminate.
  - vm_compute. reflexivity.
Defined.

(** The startup warning is exact.  For an absolute key path on a
    system whose root can be examined, the walk up from the key's directory
    always ends at an existing ancestor, and the path is reported ephemeral
    exactly when it has a temporary prefix or its nearest existing ancestor is on
    the root device. *)
Theorem hasEphemeralHostKeyPath_exact sys c rootInfo :
  IsAbs (HostKeyPath c) = true -> Stat sys "/" = Some rootInfo ->
  exists info, nearest (Stat sys) (Dir (HostKeyPath c)) info /\
    hasEphemeralHostKeyPath sys c =
      existsb (HasPrefix (HostKeyPath c)) ephemeralPathPrefixes || onSameDevice info rootInfo.
Proof.
  intros Habs Hroot. apply Dir_abs in Habs.
  destruct (nearest_exists (Stat sys) _ _ Habs Hroot) as (info & Hwalk & Hn).
  exists info. split; [done|]. unfold hasEphemeralHostKeyPath, isOnRootDevice.
  unfold rootPath. by rewrite Hroot, Hwalk.
Qed.

(** A volume mounted on /home, device 2, under a root on device 1. *)
Definition exampleStat (p : string) : option FileInfo :=
  if (p =? "/")%string then Some (mkFileInfo true (Some 1))
  else if (p =? "/home")%string then Some (mkFileInfo true (Some 2))
  else None.

Lemma hasEphemeralHostKeyPath_exact_witness :
  exists info, nearest exampleStat "/home/u/.ssh" info /\
    hasEphemeralHostKeyPath (mkSystem ∅ None exampleStat)
      (mkConfig "" "/home/u/.ssh/key" 0 0 false false) =
      existsb (HasPrefix "/home/u/.ssh/key") ephemeralPathPrefixes ||
      onSameDevice info (mkFileInfo true (Some 1)).
Proof.
  apply (hasEphemeralHostKeyPath_exact (mkSystem ∅ None exampleStat)
    (mkConfig "" "/home/u/.ssh/key" 0 0 false false)); vm_compute; reflexivity.
Defined.

(** The upward walk of the startup check ends on every path and
    every file system. *)
Theorem statNearestAncestor_terminates stat path :
  exists r, statNearestAncestor stat (ancestor_fuel path) path = Some r.
Proof. by apply statNearestAncestor_total. Qed.
