(* ===== verification/Forward.v ===== *)
(** Reverse port forwarding, [internal/sshserver/forward.go], with the forward
    policy callbacks of [server.go].

    The first part translates the handler's functions over the table of
    forwards and the listeners behind it.  The second part interleaves them: the
    table is shared by every connection, and the opening of a listener, its
    registration, its removal and its closing are separate steps, because the
    mutex covers only the table. *)

From S2P Require Import Prelude GoStrings GoNet GoPath GoTime GoOs SshConfig.

Open Scope string_scope.
Open Scope Z_scope.

(** * Data *)

Definition requestTypeForward : string := "tcpip-forward".
Definition requestTypeCancelForward : string := "cancel-tcpip-forward".
Definition bindAnyWildcard : string := "*".
Definition bindAnyIPv4 : string := "0.0.0.0".
Definition bindAnyIPv6 : string := "::".

(** The bind addresses that mean every interface. *)
Definition anyBindAddresses (addr : string) : bool :=
  bool_decide (addr ∈ [""; bindAnyWildcard; bindAnyIPv4; bindAnyIPv6]).

(** [BindPort] is a [uint32]. *)
Record remoteForwardRequest := mkForwardRequest { BindAddr : string; BindPort : Z }.

Record remoteForwardChannelData := mkChannelData {
  DestAddr : string;
  DestPort : Z;
  OriginAddr : string;
  OriginPort : Z;
}.

(** A TCP listener: the host it was asked to bind, the port it was given, and
    whether it is still open.  Listeners are shared by reference, so the handler
    holds indices into the list of all listeners ever opened. *)
Record Listener := mkListener { l_host : string; l_port : Z; l_open : bool }.

Record loopbackForwardHandler := mkHandler {
  forwards : gmap string nat;
  listeners : list Listener;
}.

Definition newLoopbackForwardHandler : loopbackForwardHandler := mkHandler ∅ [].

(** * Policy callbacks *)

Definition allowLocalForward (host : string) (port : Z) : bool :=
  if negb (isLoopback host) then false else true.

Definition allowReverseForward (bindHost : string) (bindPort : Z) : bool :=
  if negb (isLoopback bindHost) then false else true.

(** * Table operations *)

Definition forwardKey (host : string) (port : Z) : string := JoinHostPort host (Itoa port).

Definition splitAddr (addr : string) : string * Z :=
  match SplitHostPort addr with
  | Err _ => (addr, 0)
  | Ok (host, portStr) => (host, fst (Atoi portStr))
  end.

(** The kernel's side of [net.Listen]: given the host and the port asked for,
    the port bound, or a failure. *)
Definition listen_answer := string -> Z -> option Z.

(** [net.Listen "tcp" addr] and [listener.Addr().( *net.TCPAddr ).Port]. *)
Definition net_listen (os : listen_answer) (addr : string) : option (string * Z) :=
  match SplitHostPort addr with
  | Err _ => None
  | Ok (host, portStr) =>
      match Atoi portStr with
      | (_, Some _) => None
      | (port, None) =>
          match os host port with
          | None => None
          | Some bound => Some (host, bound)
          end
      end
  end.

(** The address [openForward] binds for a request. *)
Definition bindHostFor (payload : remoteForwardRequest) : string :=
  if anyBindAddresses (BindAddr payload) then loopbackIPv4 else BindAddr payload.

(** [openForward] up to the listener: the policy and the bind. *)
Definition openListener (callback : option (string -> Z -> bool)) (os : listen_answer)
    (payload : remoteForwardRequest) (h : loopbackForwardHandler)
  : option (loopbackForwardHandler * nat * Z) :=
  let bindHost := bindHostFor payload in
  match callback with
  | None => None
  | Some allowed =>
      if negb (allowed bindHost (BindPort payload)) then None
      else
        match net_listen os (JoinHostPort bindHost (Itoa (BindPort payload))) with
        | None => None
        | Some (host, boundPort) =>
            Some (mkHandler (forwards h) (listeners h ++ [mkListener host boundPort true])%list,
                  length (listeners h), boundPort)
        end
  end.

(** The locked section of [openForward]. *)
Definition recordForward (payload : remoteForwardRequest) (id : nat) (boundPort : Z)
    (h : loopbackForwardHandler) : loopbackForwardHandler :=
  mkHandler (<[forwardKey (BindAddr payload) boundPort := id]> (forwards h)) (listeners h).

Definition openForward (callback : option (string -> Z -> bool)) (os : listen_answer)
    (payload : remoteForwardRequest) (h : loopbackForwardHandler)
  : loopbackForwardHandler * option (nat * Z) :=
  match openListener callback os payload h with
  | None => (h, None)
  | Some (h', id, boundPort) => (recordForward payload id boundPort h', Some (id, boundPort))
  end.

(** The locked section of [closeForward]: the listener taken out of the table. *)
Definition takeForward (key : string) (h : loopbackForwardHandler)
  : option (loopbackForwardHandler * nat) :=
  match forwards h !! key with
  | Some id => Some (mkHandler (delete key (forwards h)) (listeners h), id)
  | None => None
  end.

Definition close_listener (l : Listener) : Listener := mkListener (l_host l) (l_port l) false.

(** [listener.Close()]. *)
Definition closeListener (id : nat) (h : loopbackForwardHandler) : loopbackForwardHandler :=
  mkHandler (forwards h) (alter close_listener id (listeners h)).

Definition closeForward (key : string) (h : loopbackForwardHandler)
  : loopbackForwardHandler * bool :=
  match takeForward key h with
  | None => (h, false)
  | Some (h', id) => (closeListener id h', true)
  end.

(** The deferred cleanup of [acceptLoop]. *)
Definition acceptLoopExit (id : nat) (key : string) (h : loopbackForwardHandler)
  : loopbackForwardHandler :=
  if bool_decide (forwards h !! key = Some id)
  then mkHandler (delete key (forwards h)) (listeners h) else h.

(** The channel payload [acceptLoop] sends for a connection accepted from
    [remoteAddr]. *)
Definition acceptChannelData (requestedAddr : string) (boundPort : Z) (remoteAddr : string)
  : remoteForwardChannelData :=
  let '(originAddr, originPort) := splitAddr remoteAddr in
  mkChannelData requestedAddr (uint32 boundPort) originAddr (uint32 originPort).

Definition cancelForward (payload : remoteForwardRequest) (h : loopbackForwardHandler)
  : loopbackForwardHandler * (bool * option string) :=
  let key := forwardKey (BindAddr payload) (BindPort payload) in
  let '(h', closed) := closeForward key h in
  if negb closed then (h', (false, None)) else (h', (true, None)).

(** The goroutines a started forward leaves behind: the teardown watcher of the
    connection and the accept loop. *)
Record forward_goroutines := mkGoroutines {
  g_key : string;
  g_listener : nat;
  g_requested : string;
  g_port : Z;
}.

Section requests.
(** [gossh.Marshal] of the reply and [gossh.Unmarshal] of the request. *)
Context (marshalSuccess : Z -> string) (unmarshal : string -> option remoteForwardRequest).

(** [hasConn]: the context carries the SSH connection. *)
Definition startForward (callback : option (string -> Z -> bool)) (os : listen_answer)
    (hasConn : bool) (payload : remoteForwardRequest) (h : loopbackForwardHandler)
  : loopbackForwardHandler * (bool * option string) * option forward_goroutines :=
  match openForward callback os payload h with
  | (h', None) => (h', (false, Some "port forwarding is disabled"), None)
  | (h', Some (id, boundPort)) =>
      let key := forwardKey (BindAddr payload) boundPort in
      if negb hasConn then (fst (closeForward key h'), (false, None), None)
      else (h', (true, Some (marshalSuccess (uint32 boundPort))),
            Some (mkGoroutines key id (BindAddr payload) boundPort))
  end.

Definition HandleSSHRequest (callback : option (string -> Z -> bool)) (os : listen_answer)
    (hasConn : bool) (type payload : string) (h : loopbackForwardHandler)
  : loopbackForwardHandler * (bool * option string) * option forward_goroutines :=
  match unmarshal payload with
  | None => (h, (false, None), None)
  | Some req =>
      if (type =? requestTypeForward)%string then startForward callback os hasConn req h
      else if (type =? requestTypeCancelForward)%string then (cancelForward req h, None)
      else (h, (false, None), None)
  end.
End requests.

(** * Interleaving *)

(** The handler as its goroutines see it.  [opening] holds the requests between
    the bind and the locked insertion, [starting] those between the insertion and
    the [go] statements, [closing] the listeners taken out of the table whose
    [Close] is still to run, [watchers] the teardown goroutines,
    [loops] the accept loops and [gone] the connections whose context is done.
    [sent] records the forwarded-tcpip channels opened, with their listener. *)
Record FState := mkFState {
  handler : loopbackForwardHandler;
  opening : list (nat * remoteForwardRequest * nat * Z);
  starting : list (nat * forward_goroutines);
  closing : list nat;
  watchers : list (nat * string);
  loops : list (nat * forward_goroutines);
  gone : list nat;
  sent : list (nat * remoteForwardChannelData);
}.

Definition initFState : FState := mkFState newLoopbackForwardHandler [] [] [] [] [] [] [].

Inductive flabel :=
| LListen (conn : nat) (payload : remoteForwardRequest) (bound : Z)
| LRecord (i : nat)
| LSpawn (i : nat)     (* the two [go] statements *)
| LNoConn (i : nat)    (* the context carries no connection *)
| LCancel (payload : remoteForwardRequest)
| LClose (i : nat)
| LDisconnect (conn : nat)
| LTeardown (i : nat)
| LAccept (i : nat) (remoteAddr : string)
| LAcceptErr (i : nat).

(** What the kernel guarantees of a bind: the port is the one asked for, or any
    port when 0 was asked for, and no open listener has the same host and port. *)
Definition bind_ok (ls : list Listener) (host : string) (asked bound : Z) : bool :=
  (1 <=? bound) && (bound <=? 65535) && ((asked =? 0) || (asked =? bound)) &&
  forallb (fun l => negb (l_open l && (l_host l =? host)%string && (l_port l =? bound))) ls.

(** A connection accepted by a listener that is open; an accept fails when the
    listener is closed, and may fail for another reason while it is open. *)
Definition fstep (s : FState) (l : flabel) : option FState :=
  let h := handler s in
  match l with
  | LListen conn payload bound =>
      match openListener (Some allowReverseForward)
              (fun host asked => if bind_ok (listeners h) host asked bound then Some bound else None)
              payload h with
      | None => None
      | Some (h', id, port) =>
          Some (mkFState h' ((conn, payload, id, port) :: opening s) (starting s) (closing s) (watchers s)
                  (loops s) (gone s) (sent s))
      end
  | LRecord i =>
      match opening s !! i with
      | None => None
      | Some (conn, payload, id, port) =>
          let key := forwardKey (BindAddr payload) port in
          Some (mkFState (recordForward payload id port h) (delete i (opening s))
                  ((conn, mkGoroutines key id (BindAddr payload) port) :: starting s) (closing s)
                  (watchers s) (loops s) (gone s) (sent s))
      end
  | LSpawn i =>
      match starting s !! i with
      | None => None
      | Some (conn, g) =>
          Some (mkFState h (opening s) (delete i (starting s)) (closing s)
                  ((conn, g_key g) :: watchers s) ((conn, g) :: loops s) (gone s) (sent s))
      end
  | LNoConn i =>
      match starting s !! i with
      | None => None
      | Some (conn, g) =>
          match takeForward (g_key g) h with
          | None =>
              Some (mkFState h (opening s) (delete i (starting s)) (closing s) (watchers s) (loops s)
                      (gone s) (sent s))
          | Some (h', id) =>
              Some (mkFState h' (opening s) (delete i (starting s)) (id :: closing s) (watchers s)
                      (loops s) (gone s) (sent s))
          end
      end
  | LCancel payload =>
      match takeForward (forwardKey (BindAddr payload) (BindPort payload)) h with
      | None => Some s
      | Some (h', id) =>
          Some (mkFState h' (opening s) (starting s) (id :: closing s) (watchers s) (loops s) (gone s) (sent s))
      end
  | LClose i =>
      match closing s !! i with
      | None => None
      | Some id =>
          Some (mkFState (closeListener id h) (opening s) (starting s) (delete i (closing s)) (watchers s)
                  (loops s) (gone s) (sent s))
      end
  | LDisconnect conn =>
      Some (mkFState h (opening s) (starting s) (closing s) (watchers s) (loops s) (conn :: gone s) (sent s))
  | LTeardown i =>
      match watchers s !! i with
      | None => None
      | Some (conn, key) =>
          if negb (bool_decide (conn ∈ gone s)) then None
          else
            let watchers' := delete i (watchers s) in
            match takeForward key h with
            | None => Some (mkFState h (opening s) (starting s) (closing s) watchers' (loops s) (gone s) (sent s))
            | Some (h', id) =>
                Some (mkFState h' (opening s) (starting s) (id :: closing s) watchers' (loops s) (gone s) (sent s))
            end
      end
  | LAccept i remoteAddr =>
      match loops s !! i with
      | None => None
      | Some (conn, g) =>
          match listeners h !! g_listener g with
          | Some l =>
              if negb (l_open l) then None
              else
                Some (mkFState h (opening s) (starting s) (closing s) (watchers s) (loops s) (gone s)
                        ((g_listener g, acceptChannelData (g_requested g) (g_port g) remoteAddr)
                           :: sent s))
          | None => None
          end
      end
  | LAcceptErr i =>
      match loops s !! i with
      | None => None
      | Some (conn, g) =>
          Some (mkFState (acceptLoopExit (g_listener g) (g_key g) h) (opening s) (starting s) (closing s)
                  (watchers s) (delete i (loops s)) (gone s) (sent s))
      end
  end.

Definition fstep_rel : FState -> FState -> Prop := lts_step fstep.

(** Every state the handler can reach. *)
Definition freachable (s : FState) : Prop := rtc fstep_rel initFState s.

(** * Lemmas: keys and binds *)

Definition port_range (p : Z) : Prop := 1 <= p <= 65535.

Lemma forwardKey_inj_ports h1 p1 h2 p2 :
  min_int64 <= p1 <= max_int64 -> min_int64 <= p2 <= max_int64 ->
  forwardKey h1 p1 = forwardKey h2 p2 -> h1 = h2 /\ p1 = p2.
Proof.
  intros H1 H2 [-> E]%JoinHostPort_inj; [|apply Itoa_no_colon..].
  split; [done|]. by apply Itoa_inj.
Qed.

Lemma port_int64 p : port_range p -> min_int64 <= p <= max_int64.
Proof. unfold port_range, min_int64, max_int64. lia. Qed.

#[export] Hint Resolve port_int64 : go.

Lemma isLoopback_no_brackets host : isLoopback host = true -> no_brackets host = true.
Proof.
  unfold isLoopback. destruct (_ || _); [done|].
  destruct (String.eqb_spec host localhostHost) as [->|_]; [done|].
  destruct (ParseIP host) eqn:E; [|done]. intros _. by eapply ParseIP_no_brackets.
Qed.

Lemma allowReverseForward_eq host port : allowReverseForward host port = isLoopback host.
Proof. unfold allowReverseForward. by destruct (isLoopback host). Qed.

Lemma net_listen_join os host p :
  no_brackets host = true -> min_int64 <= p <= max_int64 ->
  net_listen os (JoinHostPort host (Itoa p)) =
    match os host p with Some bound => Some (host, bound) | None => None end.
Proof.
  intros Hb Hp. unfold net_listen.
  rewrite SplitHostPort_JoinHostPort by auto using Itoa_no_brackets, Itoa_no_colon.
  by rewrite Atoi_Itoa.
Qed.

Lemma net_listen_inv os host p r :
  no_brackets host = true ->
  net_listen os (JoinHostPort host (Itoa p)) = Some r ->
  exists asked bound, os host asked = Some bound /\ r = (host, bound).
Proof.
  intros Hb. unfold net_listen.
  rewrite SplitHostPort_JoinHostPort by auto using Itoa_no_brackets, Itoa_no_colon.
  destruct (Atoi (Itoa p)) as [q [e|]]; [done|].
  destruct (os host q) as [bound|] eqn:E; [|done]. intros [= <-]. eauto.
Qed.

(** A listener is opened only on a loopback host, and it is the host the
    request resolves to. *)
Lemma openListener_inv os p h h' id port :
  openListener (Some allowReverseForward) os p h = Some (h', id, port) ->
  isLoopback (bindHostFor p) = true /\
  h' = mkHandler (forwards h) (listeners h ++ [mkListener (bindHostFor p) port true])%list /\
  id = length (listeners h) /\
  exists asked, os (bindHostFor p) asked = Some port.
Proof.
  unfold openListener. cbv zeta. rewrite allowReverseForward_eq.
  destruct (isLoopback (bindHostFor p)) eqn:Hl; [|done]. simpl.
  destruct (net_listen _ _) as [[host bound]|] eqn:Hn; [|done]. intros [= <- <- <-].
  apply net_listen_inv in Hn as (asked & b & Ho & [= -> ->]);
    [|by apply isLoopback_no_brackets].
  split_and!; eauto.
Qed.

Lemma bind_ok_inv ls host asked bound :
  bind_ok ls host asked bound = true ->
  port_range bound /\
  forall i l, ls !! i = Some l -> l_open l = true -> l_host l = host -> l_port l = bound -> False.
Proof.
  unfold bind_ok, port_range. intros H. to_prop. split; [lia|].
  intros i l Hi Ho Hh Hp. rewrite forallb_forall in H0.
  specialize (H0 l). rewrite Ho, Hh, Hp, String.eqb_refl, Z.eqb_refl in H0.
  discriminate H0. apply list_elem_of_In, list_elem_of_lookup. eauto.
Qed.

(** * The invariant *)

(** The listeners some goroutine is still responsible for. *)
Definition tableIds (m : gmap string nat) : list nat := snd <$> map_to_list m.
Definition openingIds (s : FState) : list nat := (fun o => snd (fst o)) <$> opening s.
Definition owned (s : FState) : list nat :=
  (openingIds s ++ tableIds (forwards (handler s)) ++ closing s)%list.

Definition listener_at (s : FState) (id : nat) : option Listener := listeners (handler s) !! id.

(** [l] is the listener of a forward requested for [addr], bound to [port]. *)
Definition bound_for (addr : string) (port : Z) (l : Listener) : Prop :=
  l_host l = bindHostFor (mkForwardRequest addr port) /\ l_port l = port.

Record finv (s : FState) : Prop := mkFinv {
  inv_listener : forall id l, listener_at s id = Some l ->
    isLoopback (l_host l) = true /\ port_range (l_port l);
  inv_opening : forall conn p id port, (conn, p, id, port) ∈ opening s ->
    exists l, listener_at s id = Some l /\ l_open l = true /\ bound_for (BindAddr p) port l;
  inv_table : forall key id, forwards (handler s) !! key = Some id ->
    exists addr port l, key = forwardKey addr port /\
      listener_at s id = Some l /\ l_open l = true /\ bound_for addr port l;
  inv_closing : forall id, id ∈ closing s -> is_Some (listener_at s id);
  inv_owned : NoDup (owned s);
  inv_unique : forall i j li lj, listener_at s i = Some li -> listener_at s j = Some lj ->
    l_open li = true -> l_open lj = true -> l_host li = l_host lj -> l_port li = l_port lj -> i = j;
  inv_loops : forall conn g, (conn, g) ∈ starting s \/ (conn, g) ∈ loops s ->
    g_key g = forwardKey (g_requested g) (g_port g) /\
    exists l, listener_at s (g_listener g) = Some l /\ bound_for (g_requested g) (g_port g) l;
  inv_sent : forall id d, (id, d) ∈ sent s ->
    exists l, listener_at s id = Some l /\ bound_for (DestAddr d) (DestPort d) l;
}.

Lemma finv_init : finv initFState.
Proof. constructor; unfold listener_at; simpl; try set_solver. apply NoDup_nil_2. Qed.

Lemma tableIds_insert m k id :
  m !! k = None -> tableIds (<[k := id]> m) ≡ₚ id :: tableIds m.
Proof. intros H. unfold tableIds. by rewrite map_to_list_insert. Qed.

Lemma tableIds_delete m k id :
  m !! k = Some id -> tableIds m ≡ₚ id :: tableIds (delete k m).
Proof. intros H. unfold tableIds. by rewrite <- (map_to_list_delete m k id) by done. Qed.

Lemma elem_of_tableIds m id : id ∈ tableIds m <-> exists k, m !! k = Some id.
Proof.
  unfold tableIds. rewrite list_elem_of_fmap. split.
  - intros ([k v] & -> & H). apply elem_of_map_to_list in H. eauto.
  - intros [k H]. exists (k, id). split; [done|]. by apply elem_of_map_to_list.
Qed.

Lemma elem_of_delete_split {A} (l : list A) i x y :
  l !! i = Some y -> x ∈ l <-> x = y \/ x ∈ delete i l.
Proof. intros Hi. rewrite <-elem_of_cons. apply delete_Permutation in Hi. by rewrite <-Hi. Qed.

Lemma elem_of_delete_ne {A} (l : list A) i x y :
  l !! i = Some y -> x ∈ l -> x <> y -> x ∈ delete i l.
Proof. intros Hi Hx Hne. apply (elem_of_delete_split _ _ _ _ Hi) in Hx. tauto. Qed.

Lemma elem_of_delete_sub {A} (l : list A) i x : x ∈ delete i l -> x ∈ l.
Proof. intros H. eapply elem_of_submseteq; [exact H|]. apply sublist_submseteq, sublist_delete. Qed.

(** * Preservation *)

(** Every owned listener exists, so a new index is not owned. *)
Lemma owned_exists s id : finv s -> id ∈ owned s -> is_Some (listener_at s id).
Proof.
  intros Hi. unfold owned, openingIds. rewrite !elem_of_app, list_elem_of_fmap, elem_of_tableIds.
  intros [([[[c p] i] port] & -> & H)|[[k H]|H]].
  - destruct (inv_opening s Hi _ _ _ _ H) as (l & E & _). by exists l.
  - destruct (inv_table s Hi _ _ H) as (? & ? & l & _ & E & _). by exists l.
  - by apply (inv_closing s Hi).
Qed.

Lemma finv_listen s conn p bound s' :
  finv s -> fstep s (LListen conn p bound) = Some s' -> finv s'.
Proof.
  intros Hi H. cbn [fstep] in H.
  destruct (openListener _ _ p (handler s)) as [[[h' id] port]|] eqn:Ho; [|done].
  injection H as <-.
  apply openListener_inv in Ho as (Hlb & -> & -> & asked & Hos).
  destruct (bind_ok _ _ _ _) eqn:Hb; [|done]. injection Hos as <-.
  apply bind_ok_inv in Hb as [Hpr Hfree].
  assert (Hold : forall i l, listener_at s i = Some l ->
    (listeners (handler s) ++ [mkListener (bindHostFor p) bound true])%list !! i = Some l).
  { intros i l Hl. by apply lookup_app_l_Some. }
  constructor; unfold listener_at; cbn [handler opening starting closing loops sent forwards listeners].
  - intros id l [[_ Hl]|[-> <-]]%lookup_snoc_Some; [by eapply (inv_listener s Hi)|done].
  - intros c q id port [[= -> -> -> ->]|Hin]%elem_of_cons.
    + eexists. rewrite list_lookup_middle by done. split; [done|]. done.
    + destruct (inv_opening s Hi _ _ _ _ Hin) as (l & Hl & ?). eauto.
  - intros key id Hk. destruct (inv_table s Hi _ _ Hk) as (a & pt & l & ? & Hl & ?).
    exists a, pt, l. eauto.
  - intros id Hc. destruct (inv_closing s Hi _ Hc) as [l Hl]. eauto.
  - unfold owned, openingIds. cbn [opening handler closing forwards].
    rewrite fmap_cons. cbn [fst snd app]. apply NoDup_cons. split; [|apply (inv_owned s Hi)].
    intros Hin. apply (owned_exists s _ Hi) in Hin as [l Hl].
    apply lookup_lt_Some in Hl. lia.
  - intros i j li lj [[_ H1]|[-> <-]]%lookup_snoc_Some [[_ H2]|[-> <-]]%lookup_snoc_Some ? ? ? ?.
    + by eapply (inv_unique s Hi).
    + exfalso. by eapply Hfree.
    + exfalso. by eapply Hfree.
    + done.
  - intros c g Hg. destruct (inv_loops s Hi _ _ Hg) as (? & l & Hl & ?). eauto.
  - intros id d Hd. destruct (inv_sent s Hi _ _ Hd) as (l & Hl & ?). eauto.
Qed.

(** The insertion never replaces an entry: two forwards of the same key would be
    two open listeners on the same host and port. *)
Lemma opening_key_free s conn p id port :
  finv s -> (conn, p, id, port) ∈ opening s ->
  forwards (handler s) !! forwardKey (BindAddr p) port = None.
Proof.
  intros Hi Hin. destruct (inv_opening s Hi _ _ _ _ Hin) as (l & Hl & Hopen & Hh & Hp).
  destruct (forwards (handler s) !! _) as [id'|] eqn:Hk; [|done]. exfalso.
  destruct (inv_table s Hi _ _ Hk) as (a & pt & l' & Hkey & Hl' & Hopen' & Hh' & Hp').
  destruct (inv_listener s Hi _ _ Hl) as [_ Hr]. destruct (inv_listener s Hi _ _ Hl') as [_ Hr'].
  apply forwardKey_inj_ports in Hkey as [<- <-]; [|subst; auto with go..].
  assert (id = id') as <- by (eapply (inv_unique s Hi); eauto; congruence).
  pose proof (inv_owned s Hi) as Hnd. unfold owned in Hnd.
  apply NoDup_app in Hnd as (_ & Hdisj & _). apply (Hdisj id).
  - apply list_elem_of_fmap. by exists (conn, p, id, port).
  - apply elem_of_app. left. apply elem_of_tableIds. eauto.
Qed.

Lemma openingIds_delete (ops : list (nat * remoteForwardRequest * nat * Z)) i conn p id port :
  ops !! i = Some (conn, p, id, port) ->
  ((fun o => snd (fst o)) <$> ops) ≡ₚ id :: ((fun o => snd (fst o)) <$> delete i ops).
Proof.
  intros H. apply delete_Permutation in H. rewrite H at 1. done.
Qed.

Lemma finv_record s i s' : finv s -> fstep s (LRecord i) = Some s' -> finv s'.
Proof.
  intros Hi H. cbn [fstep] in H.
  destruct (opening s !! i) as [[[[conn p] id] port]|] eqn:Hop; [|done]. injection H as <-.
  assert (Hin : (conn, p, id, port) ∈ opening s) by (apply list_elem_of_lookup; eauto).
  pose proof (opening_key_free s _ _ _ _ Hi Hin) as Hfree.
  destruct (inv_opening s Hi _ _ _ _ Hin) as (l & Hl & Hopen & Hb).
  constructor; unfold listener_at; cbn [handler opening starting closing loops sent recordForward forwards listeners].
  - apply (inv_listener s Hi).
  - intros c q j pt Hd. apply (inv_opening s Hi c q).
    eapply elem_of_submseteq; [exact Hd|]. apply sublist_submseteq, sublist_delete.
  - intros key j. rewrite lookup_insert. case_decide as Hk.
    + intros [= <-]. subst key. exists (BindAddr p), port, l. done.
    + apply (inv_table s Hi).
  - apply (inv_closing s Hi).
  - pose proof (inv_owned s Hi) as Hnd. revert Hnd.
    unfold owned, openingIds. cbn [opening handler closing forwards recordForward].
    rewrite (openingIds_delete _ _ _ _ _ _ Hop), tableIds_insert by done.
    cbn [app]. by rewrite <- Permutation_middle.
  - apply (inv_unique s Hi).
  - intros c g [[[= -> ->]|Hg]%elem_of_cons|Hg]; [|by apply (inv_loops s Hi c); auto..].
    cbn [g_key g_requested g_port g_listener]. split; [done|]. exists l. done.
  - apply (inv_sent s Hi).
Qed.

(** Watchers and disconnections are irrelevant to the invariant, and goroutines may
    start or end. *)
Lemma finv_frame s st w lps g :
  finv s -> (forall x, x ∈ st \/ x ∈ lps -> x ∈ starting s \/ x ∈ loops s) ->
  finv (mkFState (handler s) (opening s) st (closing s) w lps g (sent s)).
Proof. intros [] Hsub. constructor; try done. intros c q Hq%Hsub. eauto. Qed.

(** Taking a forward out of the table, for a cancel or a teardown. *)
Lemma finv_take s key h' id st w g :
  finv s -> (forall x, x ∈ st -> x ∈ starting s) -> takeForward key (handler s) = Some (h', id) ->
  finv (mkFState h' (opening s) st (id :: closing s) w (loops s) g (sent s)).
Proof.
  intros Hi Hst H. unfold takeForward in H.
  destruct (forwards (handler s) !! key) as [id'|] eqn:Hk; [|done]. injection H as <- ->.
  constructor; unfold listener_at; cbn [handler opening starting closing loops sent forwards listeners].
  - apply (inv_listener s Hi).
  - apply (inv_opening s Hi).
  - intros k j [_ Hj]%lookup_delete_Some. by apply (inv_table s Hi).
  - intros j [->|Hj]%elem_of_cons; [|by apply (inv_closing s Hi)].
    destruct (inv_table s Hi _ _ Hk) as (? & ? & l & _ & Hl & _). by exists l.
  - pose proof (inv_owned s Hi) as Hnd. revert Hnd.
    unfold owned, openingIds. cbn [opening handler closing forwards].
    rewrite (tableIds_delete _ _ _ Hk). cbn [app].
    by rewrite <- (Permutation_middle (tableIds _)).
  - apply (inv_unique s Hi).
  - intros c q [Hq%Hst|Hq]; apply (inv_loops s Hi c); auto.
  - apply (inv_sent s Hi).
Qed.

Lemma lookup_close (ls : list Listener) (id i : nat) l :
  alter close_listener id ls !! i = Some l ->
  exists l0, ls !! i = Some l0 /\ l_host l = l_host l0 /\ l_port l = l_port l0 /\
    (l_open l = true -> i <> id /\ l_open l0 = true).
Proof.
  destruct (decide (i = id)) as [->|Hne].
  - rewrite list_lookup_alter_eq. destruct (ls !! id) as [l0|]; [|done].
    intros [= <-]. exists l0. by split_and!.
  - rewrite list_lookup_alter_ne by done. intros H. exists l. by split_and!.
Qed.

Lemma close_keeps (ls : list Listener) (id i : nat) l :
  ls !! i = Some l -> exists l', alter close_listener id ls !! i = Some l' /\
    l_host l' = l_host l /\ l_port l' = l_port l /\ (i <> id -> l' = l).
Proof.
  intros H. destruct (decide (i = id)) as [->|Hne].
  - rewrite list_lookup_alter_eq, H. exists (close_listener l). by split_and!.
  - rewrite list_lookup_alter_ne by done. exists l. by split_and!.
Qed.

Lemma finv_close s i s' : finv s -> fstep s (LClose i) = Some s' -> finv s'.
Proof.
  intros Hi H. cbn [fstep] in H.
  destruct (closing s !! i) as [id|] eqn:Hc; [|done]. injection H as <-.
  pose proof (inv_owned s Hi) as Hnd. unfold owned in Hnd.
  assert (Hin : id ∈ closing s) by (apply list_elem_of_lookup; eauto).
  assert (Hno : forall j, j ∈ openingIds s \/ j ∈ tableIds (forwards (handler s)) -> j <> id).
  { rewrite app_assoc in Hnd. apply NoDup_app in Hnd as (_ & Hdisj & _).
    intros j Hj ->. apply (Hdisj id); [|done]. by apply elem_of_app. }
  constructor; unfold listener_at;
    cbn [handler opening starting closing loops sent closeListener forwards listeners].
  - intros j l (l0 & Hl & -> & -> & _)%lookup_close. by eapply (inv_listener s Hi).
  - intros c p j pt Hop. destruct (inv_opening s Hi _ _ _ _ Hop) as (l & Hl & Hl2).
    destruct (close_keeps _ id _ _ Hl) as (l' & Hl' & _ & _ & E). 
    rewrite E in Hl'; [by exists l|]. apply Hno. left. apply list_elem_of_fmap.
    by exists (c, p, j, pt).
  - intros k j Hk. destruct (inv_table s Hi _ _ Hk) as (a & pt & l & ? & Hl & Hl2).
    destruct (close_keeps _ id _ _ Hl) as (l' & Hl' & _ & _ & E). 
    rewrite E in Hl'; [by exists a, pt, l|]. apply Hno. right. apply elem_of_tableIds. eauto.
  - intros j Hj. assert (j ∈ closing s) as Hj' by
      (eapply elem_of_submseteq; [exact Hj|]; apply sublist_submseteq, sublist_delete).
    destruct (inv_closing s Hi _ Hj') as [l Hl].
    destruct (close_keeps _ id _ _ Hl) as (l' & Hl' & _). by exists l'.
  - unfold owned, openingIds. cbn [opening handler closing forwards closeListener].
    apply delete_Permutation in Hc. rewrite Hc, !app_assoc, <- Permutation_middle in Hnd.
    apply NoDup_cons in Hnd as [_ Hnd]. by rewrite app_assoc.
  - intros j k lj lk (a & Ha & -> & -> & Hao)%lookup_close (b & Hb & -> & -> & Hbo)%lookup_close
      [_ ?]%Hao [_ ?]%Hbo ? ?. by eapply (inv_unique s Hi).
  - intros c g Hg. destruct (inv_loops s Hi _ _ Hg) as (? & l & Hl & Hb1 & Hb2).
    destruct (close_keeps _ id _ _ Hl) as (l' & Hl' & E1 & E2 & _). split; [done|].
    exists l'. unfold bound_for. by rewrite E1, E2.
  - intros j d Hd. destruct (inv_sent s Hi _ _ Hd) as (l & Hl & Hb1 & Hb2).
    destruct (close_keeps _ id _ _ Hl) as (l' & Hl' & E1 & E2 & _).
    exists l'. unfold bound_for. by rewrite E1, E2.
Qed.

Lemma finv_accept_err s i s' : finv s -> fstep s (LAcceptErr i) = Some s' -> finv s'.
Proof.
  intros Hi H. cbn [fstep] in H.
  destruct (loops s !! i) as [[conn g]|] eqn:Hg; [|done]. injection H as <-.
  assert (Hloops : forall c g', (c, g') ∈ delete i (loops s) -> (c, g') ∈ loops s).
  { intros c g' Hd. eapply elem_of_submseteq; [exact Hd|]. apply sublist_submseteq, sublist_delete. }
  unfold acceptLoopExit. case_bool_decide as Hk.
  - constructor; unfold listener_at; cbn [handler opening starting closing loops sent forwards listeners];
      try apply Hi.
    + intros k j [_ Hj]%lookup_delete_Some. by apply (inv_table s Hi).
    + pose proof (inv_owned s Hi) as Hnd. revert Hnd.
      unfold owned, openingIds. cbn [opening handler closing forwards].
      rewrite (tableIds_delete _ _ _ Hk). cbn [app]. rewrite <- Permutation_middle.
      by intros [_ ?]%NoDup_cons.
    + intros c g' [Hd|Hd%Hloops]; eapply (inv_loops s Hi); eauto.
  - constructor; unfold listener_at; cbn [handler opening starting closing loops sent forwards listeners];
      try apply Hi.
    intros c g' [Hd|Hd%Hloops]; eapply (inv_loops s Hi); eauto.
Qed.

Lemma acceptChannelData_dest addr port remote :
  DestAddr (acceptChannelData addr port remote) = addr /\
  DestPort (acceptChannelData addr port remote) = uint32 port.
Proof. unfold acceptChannelData. by destruct (splitAddr remote). Qed.

Lemma finv_accept s i remote s' : finv s -> fstep s (LAccept i remote) = Some s' -> finv s'.
Proof.
  intros Hi H. cbn [fstep] in H.
  destruct (loops s !! i) as [[conn g]|] eqn:Hg; [|done].
  destruct (listeners (handler s) !! g_listener g) as [l|] eqn:Hl; [|done].
  destruct (negb (l_open l)); [done|]. injection H as <-.
  constructor; unfold listener_at; cbn [handler opening starting closing loops sent]; try apply Hi.
  intros id d [[= -> ->]|Hd]%elem_of_cons; [|by apply (inv_sent s Hi)].
  destruct (inv_loops s Hi conn g) as (_ & l' & Hl' & Hh & Hp);
    [right; apply list_elem_of_lookup; eauto|].
  destruct (inv_listener s Hi _ _ Hl') as [_ Hr].
  destruct (acceptChannelData_dest (g_requested g) (g_port g) remote) as [-> ->].
  exists l'. split; [done|]. rewrite uint32_small by (unfold port_range in Hr; lia). done.
Qed.

(** A request leaves [starting]. *)
Lemma finv_start s i s' :
  finv s -> fstep s (LSpawn i) = Some s' \/ fstep s (LNoConn i) = Some s' -> finv s'.
Proof.
  intros Hi H. cbn [fstep] in H.
  destruct (starting s !! i) as [[conn g]|] eqn:Hg; [|by destruct H].
  assert (Hin : (conn, g) ∈ starting s) by (apply list_elem_of_lookup; eauto).
  destruct H as [[= <-]|H].
  - apply finv_frame; [done|]. intros x [Hx%elem_of_delete_sub|[->|Hx]%elem_of_cons]; auto.
  - destruct (takeForward _ _) as [[h' id]|] eqn:Ht; injection H as <-.
    + eapply finv_take; [done| |done]. by intros x Hx%elem_of_delete_sub.
    + apply finv_frame; [done|]. intros x [Hx%elem_of_delete_sub|Hx]; auto.
Qed.

Lemma finv_step s s' : finv s -> fstep_rel s s' -> finv s'.
Proof.
  intros Hi [[conn p b|i|i|i|p|i|conn|i|i r|i] H].
  - by eapply finv_listen.
  - by eapply finv_record.
  - eapply finv_start; eauto.
  - eapply finv_start; eauto.
  - cbn [fstep] in H. destruct (takeForward _ _) as [[h' id]|] eqn:Ht; injection H as <-; [|done].
    by eapply finv_take.
  - by eapply finv_close.
  - injection H as <-. by apply finv_frame.
  - cbn [fstep] in H. destruct (watchers s !! i) as [[c key]|]; [|done].
    destruct (negb _); [done|].
    destruct (takeForward _ _) as [[h' id]|] eqn:Ht; injection H as <-;
      [by eapply finv_take|by apply finv_frame].
  - by eapply finv_accept.
  - by eapply finv_accept_err.
Qed.

Lemma finv_reachable s : freachable s -> finv s.
Proof. intros H. eapply rtc_invariant; [apply finv_step|exact H|apply finv_init]. Qed.

(** * Who is responsible for an entry *)

(** A recorded forward is known to the table only under the key of the request, and
    it is served by an accept loop and watched by the connection that asked for it,
    or both are about to be started. *)
Record flink (s : FState) : Prop := mkFlink {
  link_loops : forall conn g, (conn, g) ∈ starting s \/ (conn, g) ∈ loops s ->
    (g_listener g ∉ openingIds s) /\
    forall k, forwards (handler s) !! k = Some (g_listener g) ->
      k = g_key g /\ ((conn, k) ∈ watchers s \/ (conn, g) ∈ starting s);
  link_sent : forall id d, (id, d) ∈ sent s ->
    (id ∉ openingIds s) /\
    forall k, forwards (handler s) !! k = Some id -> k = forwardKey (DestAddr d) (DestPort d);
  link_entry : forall k id, forwards (handler s) !! k = Some id ->
    exists conn g, ((conn, g) ∈ starting s \/ (conn, g) ∈ loops s) /\ g_listener g = id;
}.

Lemma flink_init : flink initFState.
Proof. constructor; simpl; set_solver. Qed.

(** Fewer entries, and the watchers and requests of those that remain, keep the
    links. *)
Lemma flink_shrink s h' st' c' w' :
  flink s ->
  (forall k id, forwards h' !! k = Some id -> forwards (handler s) !! k = Some id) ->
  (forall x, x ∈ st' -> x ∈ starting s) ->
  (forall conn g, (conn, g) ∈ starting s -> forwards h' !! g_key g = Some (g_listener g) -> (conn, g) ∈ st') ->
  (forall conn k id, forwards h' !! k = Some id -> (conn, k) ∈ watchers s -> (conn, k) ∈ w') ->
  forall g', flink (mkFState h' (opening s) st' c' w' (loops s) g' (sent s)).
Proof.
  intros Hf Hsub Hst Hkeep Hw g'.
  constructor; unfold openingIds; cbn [handler opening starting watchers loops sent].
  - intros conn g Hg. destruct (link_loops s Hf conn g) as [? Hk]; [destruct Hg; auto|]. split; [done|].
    intros k Hs. destruct (Hk k) as [-> [?|?]]; [auto|by eauto..].
  - intros id d Hd. destruct (link_sent s Hf _ _ Hd) as [? Hk]. eauto.
  - intros k id Hs. destruct (link_entry s Hf k id (Hsub _ _ Hs)) as (c & g & [Hg|Hg] & <-); [|by eauto].
    exists c, g. split; [left|done]. apply Hkeep; [done|].
    destruct (link_loops s Hf c g) as [_ Hk]; [by left|]. by destruct (Hk k (Hsub _ _ Hs)) as [-> _].
Qed.

Lemma flink_listen s conn p bound s' :
  finv s -> flink s -> fstep s (LListen conn p bound) = Some s' -> flink s'.
Proof.
  intros Hi Hf H. cbn [fstep] in H.
  destruct (openListener _ _ p (handler s)) as [[[h' id] port]|] eqn:Ho; [|done].
  injection H as <-. apply openListener_inv in Ho as (_ & -> & -> & _).
  assert (Hfresh : forall id l, listener_at s id = Some l -> id <> length (listeners (handler s))).
  { intros id l Hl%lookup_lt_Some. lia. }
  constructor; unfold openingIds; cbn [handler opening starting watchers loops sent forwards];
    rewrite ?fmap_cons; cbn [fst snd].
  - intros c g Hg. destruct (link_loops s Hf _ _ Hg) as [Hno Hk]. split; [|done].
    destruct (inv_loops s Hi _ _ Hg) as (_ & l & Hl & _). apply not_elem_of_cons. eauto.
  - intros id d Hd. destruct (link_sent s Hf _ _ Hd) as [Hno Hk]. split; [|done].
    destruct (inv_sent s Hi _ _ Hd) as (l & Hl & _). apply not_elem_of_cons. eauto.
  - apply (link_entry s Hf).
Qed.

Lemma flink_record s i s' :
  finv s -> flink s -> fstep s (LRecord i) = Some s' -> flink s'.
Proof.
  intros Hi Hf H. cbn [fstep] in H.
  destruct (opening s !! i) as [[[[conn p] id] port]|] eqn:Hop; [|done]. injection H as <-.
  pose proof (openingIds_delete _ _ _ _ _ _ Hop) as Hperm.
  pose proof (inv_owned s Hi) as Hnd. unfold owned, openingIds in Hnd. rewrite Hperm in Hnd.
  apply NoDup_cons in Hnd as [Hid _]. rewrite !not_elem_of_app, elem_of_tableIds in Hid.
  destruct Hid as (Hid1 & Hid2 & _).
  assert (Hsub : forall j, j ∉ openingIds s ->
    j <> id /\ j ∉ ((fun o => snd (fst o)) <$> delete i (opening s))).
  { intros j. unfold openingIds. by rewrite Hperm, not_elem_of_cons. }
  constructor; unfold openingIds; cbn [handler opening starting watchers loops sent recordForward forwards].
  - intros c g Hg. rewrite elem_of_cons in Hg.
    assert ((c, g) = (conn, mkGoroutines (forwardKey (BindAddr p) port) id (BindAddr p) port) \/
            (c, g) ∈ starting s \/ (c, g) ∈ loops s) as [[= -> ->]|Hg'] by tauto;
      cbn [g_listener g_key].
    + split; [done|]. intros k. rewrite lookup_insert. case_decide as E.
      * intros _. subst k. split; [done|]. right. apply list_elem_of_here.
      * intros Hk. destruct Hid2. eauto.
    + destruct (link_loops s Hf _ _ Hg') as [[Hne Hno]%Hsub Hk]. split; [done|].
      intros k. rewrite lookup_insert. case_decide; [congruence|].
      intros [-> ?]%Hk. split; [done|]. rewrite elem_of_cons. tauto.
  - intros j d Hd. destruct (link_sent s Hf _ _ Hd) as [[Hne Hno]%Hsub Hk]. split; [done|].
    intros k. rewrite lookup_insert. case_decide; [congruence|]. apply Hk.
  - intros k j. rewrite lookup_insert. case_decide as E.
    + intros [= <-]. eexists _, _. split; [left; apply list_elem_of_here|done].
    + intros Hk. destruct (link_entry s Hf _ _ Hk) as (c & g & ? & ?).
      exists c, g. rewrite elem_of_cons. split; [tauto|done].
Qed.

Lemma flink_accept s i remote s' :
  finv s -> flink s -> fstep s (LAccept i remote) = Some s' -> flink s'.
Proof.
  intros Hi Hf H. cbn [fstep] in H.
  destruct (loops s !! i) as [[conn g]|] eqn:Hg; [|done].
  destruct (listeners (handler s) !! g_listener g) as [l|] eqn:Hl; [|done].
  destruct (negb (l_open l)); [done|]. injection H as <-.
  assert (Hin : (conn, g) ∈ starting s \/ (conn, g) ∈ loops s) by (right; apply list_elem_of_lookup; eauto).
  constructor; unfold openingIds; cbn [handler opening starting watchers loops sent]; try apply Hf.
  intros id d [[= -> ->]|Hd]%elem_of_cons; [|by apply (link_sent s Hf)].
  destruct (link_loops s Hf _ _ Hin) as [Hno Hk]. split; [done|]. intros k [-> _]%Hk.
  destruct (inv_loops s Hi _ _ Hin) as (-> & l' & Hl' & _ & Hp).
  destruct (inv_listener s Hi _ _ Hl') as [_ Hr].
  destruct (acceptChannelData_dest (g_requested g) (g_port g) remote) as [-> ->].
  rewrite uint32_small; [done|]. unfold port_range in Hr. lia.
Qed.

Lemma flink_accept_err s i s' :
  finv s -> flink s -> fstep s (LAcceptErr i) = Some s' -> flink s'.
Proof.
  intros Hi Hf H. cbn [fstep] in H.
  destruct (loops s !! i) as [[conn g]|] eqn:Hg; [|done]. injection H as <-.
  set (h' := acceptLoopExit _ _ _).
  assert (Hsub : forall k id, forwards h' !! k = Some id ->
    forwards (handler s) !! k = Some id /\ id <> g_listener g).
  { intros k id. unfold h', acceptLoopExit.
    assert (Hin : (conn, g) ∈ starting s \/ (conn, g) ∈ loops s) by (right; apply list_elem_of_lookup; eauto).
    destruct (link_loops s Hf _ _ Hin) as [_ Hk]. case_bool_decide as E; simpl.
    - intros [Hne Hs]%lookup_delete_Some. split; [done|]. intros ->.
      by destruct (Hk k Hs) as [-> _].
    - intros Hs. split; [done|]. intros ->. destruct (Hk k Hs) as [-> _]. done. }
  constructor; unfold openingIds; cbn [handler opening starting watchers loops sent].
  - intros c g' Hg'. destruct (link_loops s Hf c g') as [? Hk].
    { destruct Hg' as [?|?%elem_of_delete_sub]; auto. }
    split; [done|]. intros k [? _]%Hsub. auto.
  - intros id d Hd. destruct (link_sent s Hf _ _ Hd) as [? Hk].
    split; [done|]. intros k [? _]%Hsub. auto.
  - intros k id [Hs Hne]%Hsub. destruct (link_entry s Hf _ _ Hs) as (c & g' & Hin & <-).
    exists c, g'. split; [|done]. destruct Hin as [?|Hin]; [by left|right].
    eapply elem_of_delete_ne; [exact Hg|done|]. intros [= -> ->]. done.
Qed.

Lemma takeForward_sub key h h' id k j :
  takeForward key h = Some (h', id) -> forwards h' !! k = Some j ->
  k <> key /\ forwards h !! k = Some j.
Proof.
  unfold takeForward. destruct (forwards h !! key); [|done]. intros [= <- <-]. simpl.
  intros [? ?]%lookup_delete_Some. auto.
Qed.

(** The goroutines start, with the watcher that the entry needs. *)
Lemma flink_spawn s i s' : flink s -> fstep s (LSpawn i) = Some s' -> flink s'.
Proof.
  intros Hf H. cbn [fstep] in H. destruct (starting s !! i) as [[conn g]|] eqn:Hg; [|done].
  injection H as <-. assert (Hin : (conn, g) ∈ starting s) by (apply list_elem_of_lookup; eauto).
  assert (Hgo : forall x, x ∈ starting s \/ x ∈ loops s <-> x ∈ delete i (starting s) \/ x ∈ (conn, g) :: loops s).
  { intros x. rewrite elem_of_cons, (elem_of_delete_split _ _ _ _ Hg). tauto. }
  constructor; unfold openingIds; cbn [handler opening starting watchers loops sent].
  - intros c g' Hg'%Hgo. destruct (link_loops s Hf _ _ Hg') as [? Hk]. split; [done|].
    intros k Hs. destruct (Hk k Hs) as [-> Hw]. split; [done|]. rewrite elem_of_cons.
    destruct Hw as [Hw|Hw]; [by auto|].
    apply (elem_of_delete_split _ _ _ _ Hg) in Hw as [[= -> ->]|Hw]; auto.
  - apply (link_sent s Hf).
  - intros k id Hs. destruct (link_entry s Hf _ _ Hs) as (c & g' & Hg'%Hgo & <-). eauto.
Qed.

Lemma flink_noconn s i s' : flink s -> fstep s (LNoConn i) = Some s' -> flink s'.
Proof.
  intros Hf H. cbn [fstep] in H. destruct (starting s !! i) as [[conn g]|] eqn:Hg; [|done].
  destruct (takeForward _ _) as [[h' id]|] eqn:Ht; injection H as <-; apply flink_shrink; try done.
  - intros k j Hj. by eapply takeForward_sub in Hj as [_ ?].
  - intros x. apply elem_of_delete_sub.
  - intros c g' Hin Hk. eapply elem_of_delete_ne; [exact Hg|done|]. intros [= -> ->].
    by eapply takeForward_sub in Hk as [? _].
  - intros x. apply elem_of_delete_sub.
  - intros c g' Hin Hk. eapply elem_of_delete_ne; [exact Hg|done|]. intros [= -> ->].
    unfold takeForward in Ht. by rewrite Hk in Ht.
Qed.

Lemma flink_step s s' : finv s -> flink s -> fstep_rel s s' -> flink s'.
Proof.
  intros Hi Hf [[conn p b|i|i|i|p|i|conn|i|i r|i] H].
  - by eapply flink_listen.
  - by eapply flink_record.
  - by eapply flink_spawn.
  - by eapply flink_noconn.
  - cbn [fstep] in H. destruct (takeForward _ _) as [[h' id]|] eqn:Ht; injection H as <-; [|done].
    apply flink_shrink; try done. intros k j Hj. by eapply takeForward_sub in Hj as [_ ?].
  - cbn [fstep] in H. destruct (closing s !! i); [|done]. injection H as <-.
    by apply flink_shrink.
  - injection H as <-. by apply flink_shrink.
  - cbn [fstep] in H. destruct (watchers s !! i) as [[c key]|] eqn:Hw; [|done].
    destruct (negb _); [done|].
    destruct (takeForward _ _) as [[h' id]|] eqn:Ht; injection H as <-;
      (apply flink_shrink; try done).
    + intros k j Hj. by eapply takeForward_sub in Hj as [_ ?].
    + intros c' k j Hj Hin. eapply takeForward_sub in Hj as [Hne _]; [|done].
      eapply elem_of_delete_ne; [exact Hw|done|congruence].
    + intros c' k j Hj Hin. eapply elem_of_delete_ne; [exact Hw|done|].
      intros [= -> ->]. unfold takeForward in Ht. by rewrite Hj in Ht.
  - by eapply flink_accept.
  - by eapply flink_accept_err.
Qed.

Lemma flink_reachable s : freachable s -> flink s.
Proof.
  intros H. cut (finv s /\ flink s); [by intros []|].
  refine (rtc_invariant fstep_rel (fun s => finv s /\ flink s) _ _ _ H (conj finv_init flink_init)).
  intros t t' [Hi Hf] Hs. split; [by eapply finv_step|by eapply flink_step].
Qed.

(** * Which open listeners are accounted for *)

Lemma owned_listen s conn p bound s' :
  fstep s (LListen conn p bound) = Some s' ->
  owned s' = length (listeners (handler s)) :: owned s /\
  exists l, l_open l = true /\
    listeners (handler s') = (listeners (handler s) ++ [l])%list.
Proof.
  intros H. cbn [fstep] in H.
  destruct (openListener _ _ p (handler s)) as [[[h' id] port]|] eqn:Ho; [|done].
  injection H as <-. apply openListener_inv in Ho as (_ & -> & -> & _).
  split; [done|]. eexists. split; [|done]. done.
Qed.

Lemma owned_record s i s' :
  finv s -> fstep s (LRecord i) = Some s' ->
  owned s' ≡ₚ owned s /\ listeners (handler s') = listeners (handler s).
Proof.
  intros Hi H. cbn [fstep] in H.
  destruct (opening s !! i) as [[[[conn p] id] port]|] eqn:Hop; [|done]. injection H as <-.
  split; [|done].
  assert (Hfree : forwards (handler s) !! forwardKey (BindAddr p) port = None).
  { eapply (opening_key_free s conn p id); [done|]. apply list_elem_of_lookup. eauto. }
  unfold owned, openingIds. cbn [opening handler closing forwards recordForward].
  rewrite (openingIds_delete _ _ _ _ _ _ Hop), tableIds_insert by done. cbn [app].
  by rewrite <- Permutation_middle.
Qed.

Lemma owned_take s key h' id st w g :
  takeForward key (handler s) = Some (h', id) ->
  owned (mkFState h' (opening s) st (id :: closing s) w (loops s) g (sent s)) ≡ₚ owned s /\
  listeners h' = listeners (handler s).
Proof.
  unfold takeForward. destruct (forwards (handler s) !! key) as [j|] eqn:Hk; [|done].
  intros [= <- <-]. split; [|done].
  unfold owned, openingIds. cbn [opening handler closing forwards].
  rewrite (tableIds_delete _ _ _ Hk). cbn [app]. by rewrite <- Permutation_middle.
Qed.

Lemma owned_close s i s' :
  fstep s (LClose i) = Some s' ->
  exists id, owned s ≡ₚ id :: owned s' /\
    listeners (handler s') = alter close_listener id (listeners (handler s)).
Proof.
  intros H. cbn [fstep] in H. destruct (closing s !! i) as [id|] eqn:Hc; [|done].
  injection H as <-. exists id. split; [|done].
  unfold owned, openingIds. cbn [opening handler closing forwards closeListener].
  apply delete_Permutation in Hc. rewrite Hc at 1. rewrite !app_assoc. by rewrite <- Permutation_middle.
Qed.

Lemma owned_accept_err s i s' :
  fstep s (LAcceptErr i) = Some s' ->
  listeners (handler s') = listeners (handler s) /\
  (owned s' = owned s \/ exists conn g, loops s !! i = Some (conn, g) /\
     forwards (handler s) !! g_key g = Some (g_listener g) /\
     owned s ≡ₚ g_listener g :: owned s').
Proof.
  intros H. cbn [fstep] in H. destruct (loops s !! i) as [[conn g]|] eqn:Hg; [|done].
  injection H as <-. unfold acceptLoopExit. case_bool_decide as Hk; [|split; [done|by left]].
  split; [done|right]. exists conn, g. split; [done|]. split; [done|].
  unfold owned, openingIds. cbn [opening handler closing forwards].
  rewrite (tableIds_delete _ _ _ Hk). cbn [app]. by rewrite <- Permutation_middle.
Qed.

(** The steps that neither open nor close nor drop a listener. *)
Lemma owned_other s l s' :
  fstep s l = Some s' ->
  match l with
  | LSpawn _ | LNoConn _ | LCancel _ | LDisconnect _ | LTeardown _ | LAccept _ _ => True
  | _ => False
  end ->
  owned s' ≡ₚ owned s /\ listeners (handler s') = listeners (handler s).
Proof.
  intros H Hl. destruct l; try done; cbn [fstep] in H.
  - destruct (starting s !! i) as [[conn g]|]; [|done]. by injection H as <-.
  - destruct (starting s !! i) as [[conn g]|]; [|done].
    destruct (takeForward _ _) as [[h' id]|] eqn:Ht; injection H as <-; [|done].
    by eapply owned_take in Ht.
  - destruct (takeForward _ _) as [[h' id]|] eqn:Ht; injection H as <-; [|done].
    by eapply owned_take in Ht.
  - by injection H as <-.
  - destruct (watchers s !! i) as [[c key]|]; [|done]. destruct (negb _); [done|].
    destruct (takeForward _ _) as [[h' id]|] eqn:Ht; injection H as <-; [|done].
    by eapply owned_take in Ht.
  - destruct (loops s !! i) as [[conn g]|]; [|done].
    destruct (listeners (handler s) !! g_listener g); [|done].
    destruct (negb _); [done|]. by injection H as <-.
Qed.

(** A step in which an accept fails only because its listener is closed. *)
Definition accept_ok (s : FState) (l : flabel) : bool :=
  match l with
  | LAcceptErr i =>
      match loops s !! i with
      | Some (_, g) => match listener_at s (g_listener g) with
                       | Some li => negb (l_open li)
                       | None => true
                       end
      | None => true
      end
  | _ => true
  end.

Definition fstep_clean (s s' : FState) : Prop :=
  exists l, accept_ok s l = true /\ fstep s l = Some s'.

Definition no_leak (s : FState) : Prop :=
  forall id l, listener_at s id = Some l -> l_open l = true -> id ∈ owned s.

Lemma no_leak_step s s' : finv s -> no_leak s -> fstep_clean s s' -> no_leak s'.
Proof.
  intros Hi Hn (l & Hok & H) id li. unfold listener_at.
  destruct l as [conn p b|i|i|i|p|i|conn|i|i r|i];
    try (destruct (owned_other s _ s' H I) as [-> ->]; by apply Hn).
  - destruct (owned_listen _ _ _ _ _ H) as (-> & l0 & Ho & ->).
    intros [[_ Hl]|[-> <-]]%lookup_snoc_Some ?; [|apply list_elem_of_here].
    apply list_elem_of_further. by eapply Hn.
  - destruct (owned_record _ _ _ Hi H) as [-> ->]. by apply Hn.
  - destruct (owned_close _ _ _ H) as (j & Hp & ->).
    intros (l0 & Hl & _ & _ & Ho)%lookup_close Hopen. apply Ho in Hopen as [Hne Hopen].
    pose proof (Hn _ _ Hl Hopen) as Hin. rewrite Hp in Hin.
    by apply elem_of_cons in Hin as [?|?].
  - destruct (owned_accept_err _ _ _ H) as [-> [->|(c & g & Hg & Hk & _)]]; [by apply Hn|].
    destruct (inv_table s Hi _ _ Hk) as (_ & _ & l0 & _ & Hl & Ho & _).
    simpl in Hok. by rewrite Hg, Hl, Ho in Hok.
Qed.

Lemma fstep_clean_step s s' : fstep_clean s s' -> fstep_rel s s'.
Proof. intros (l & _ & H). by exists l. Qed.

Lemma no_leak_reachable s : rtc fstep_clean initFState s -> finv s /\ no_leak s.
Proof.
  intros H.
  refine (rtc_invariant fstep_clean (fun s => finv s /\ no_leak s) _ _ _ H _).
  - intros t t' [Hi Hn] Hs. split; [by eapply finv_step, fstep_clean_step|by eapply no_leak_step].
  - split; [apply finv_init|]. intros id l. done.
Qed.

(** An open listener nobody is responsible for. *)
Definition orphan (s : FState) (id : nat) : Prop :=
  (exists l, listener_at s id = Some l /\ l_open l = true) /\ (id ∉ owned s).

Lemma orphan_step s s' id : finv s -> orphan s id -> fstep_rel s s' -> orphan s' id.
Proof.
  intros Hi [(l & Hl & Ho) Hno] [lab H]. unfold orphan, listener_at in *.
  destruct lab as [conn p b|i|i|i|p|i|conn|i|i r|i];
    try (destruct (owned_other s _ s' H I) as [-> ->]; eauto).
  - destruct (owned_listen _ _ _ _ _ H) as (-> & l0 & _ & ->). split.
    + exists l. split; [by apply lookup_app_l_Some|done].
    + apply not_elem_of_cons. split; [|done]. apply lookup_lt_Some in Hl. lia.
  - destruct (owned_record _ _ _ Hi H) as [-> ->]. eauto.
  - destruct (owned_close _ _ _ H) as (j & Hp & ->). rewrite Hp, not_elem_of_cons in Hno.
    destruct Hno as [Hne Hno]. split; [|done].
    destruct (close_keeps _ j _ _ Hl) as (l' & Hl' & _ & _ & E). rewrite E in Hl' by done. eauto.
  - destruct (owned_accept_err _ _ _ H) as [-> [->|(c & g & _ & _ & Hp)]]; [eauto|].
    rewrite Hp, not_elem_of_cons in Hno. destruct Hno. eauto.
Qed.

(** * What the handler does by itself *)

Lemma entry_watched s key id :
  freachable s -> starting s = [] -> forwards (handler s) !! key = Some id ->
  exists conn, (conn, key) ∈ watchers s.
Proof.
  intros Hr Hst Hk. pose proof (flink_reachable s Hr) as Hf.
  destruct (link_entry s Hf _ _ Hk) as (conn & g & Hg & <-).
  destruct (link_loops s Hf _ _ Hg) as [_ Hl]. destruct (Hl _ Hk) as [_ [Hw|Hw]]; [by exists conn|].
  rewrite Hst in Hw. by apply elem_of_nil in Hw.
Qed.

(** The steps of its goroutines once they have been called: an accept returns by
    itself only when its listener is closed. *)
Definition own_step (s : FState) (l : flabel) : bool :=
  match l with
  | LRecord _ | LSpawn _ | LClose _ | LTeardown _ => true
  | LAcceptErr _ => accept_ok s l
  | _ => false
  end.

(** How many of them are left, at most. *)
Definition frank (s : FState) : nat :=
  5 * length (opening s) + 4 * length (starting s) + 2 * length (watchers s) + length (closing s) +
  length (loops s).

Definition own_label (l : flabel) : bool :=
  match l with LRecord _ | LSpawn _ | LClose _ | LTeardown _ | LAcceptErr _ => true | _ => false end.

Lemma length_delete_S {A} (l : list A) i x : l !! i = Some x -> length l = S (length (delete i l)).
Proof. intros H. apply delete_Permutation in H. by rewrite H at 1. Qed.

Lemma frank_step s l s' : fstep s l = Some s' -> own_label l = true -> (frank s' < frank s)%nat.
Proof.
  intros H Hl. unfold frank. destruct l as [conn p b|i|i|i|p|i|conn|i|i r|i]; try discriminate Hl; cbn [fstep] in H.
  - destruct (opening s !! i) as [[[[conn p] id] port]|] eqn:E; [|done]. injection H as <-.
    apply length_delete_S in E. cbn [opening starting watchers closing loops length]. lia.
  - destruct (starting s !! i) as [[conn g]|] eqn:E; [|done]. injection H as <-.
    apply length_delete_S in E. cbn [opening starting watchers closing loops length]. lia.
  - destruct (closing s !! i) as [id|] eqn:E; [|done]. injection H as <-.
    apply length_delete_S in E. cbn [opening starting watchers closing loops length]. lia.
  - destruct (watchers s !! i) as [[conn key]|] eqn:E; [|done]. destruct (negb _); [done|].
    apply length_delete_S in E.
    destruct (takeForward _ _) as [[h' id]|]; injection H as <-;
      cbn [opening starting watchers closing loops length]; lia.
  - destruct (loops s !! i) as [[conn g]|] eqn:E; [|done]. injection H as <-.
    apply length_delete_S in E. cbn [opening starting watchers closing loops length]. lia.
Qed.

Lemma frank_run ls s s' :
  run fstep s ls = Some s' -> Forall (fun l => own_label l = true) ls -> (length ls + frank s' <= frank s)%nat.
Proof.
  revert s. induction ls as [|l ls IH]; intros s; simpl; [intros [= ->]; lia|].
  destruct (fstep s l) as [t|] eqn:E; [|done]. intros Hr [Hl Hls]%Forall_cons.
  pose proof (frank_step _ _ _ E Hl). specialize (IH t Hr Hls). lia.
Qed.

Lemma clean_reachable s : rtc fstep_clean initFState s -> freachable s.
Proof. apply rtc_subrel. intros t t'. apply fstep_clean_step. Qed.

Section quiescent.
Context (s : FState).
Hypothesis Hclean : rtc fstep_clean initFState s.
Hypothesis Hquiet : forall l, own_step s l = true -> fstep s l = None.

Lemma quiet_nothing : opening s = [] /\ starting s = [] /\ closing s = [].
Proof using Hquiet.
  split_and!.
  - pose proof (Hquiet (LRecord 0) eq_refl) as H. cbn [fstep] in H.
    destruct (opening s) as [|[[[? ?] ?] ?] ?]; [done|discriminate H].
  - pose proof (Hquiet (LSpawn 0) eq_refl) as H. cbn [fstep] in H.
    destruct (starting s) as [|[? ?] ?]; [done|discriminate H].
  - pose proof (Hquiet (LClose 0) eq_refl) as H. cbn [fstep] in H.
    destruct (closing s); [done|discriminate H].
Qed.

Lemma quiet_watcher conn key : (conn, key) ∈ watchers s -> conn ∉ gone s.
Proof using Hquiet.
  intros [i Hi]%list_elem_of_lookup Hg. pose proof (Hquiet (LTeardown i) eq_refl) as H. cbn [fstep] in H.
  rewrite Hi, bool_decide_true in H by done. cbn [negb] in H. by destruct (takeForward _ _) as [[]|].
Qed.

Lemma quiet_loop conn g :
  (conn, g) ∈ loops s -> exists l, listener_at s (g_listener g) = Some l /\ l_open l = true.
Proof using Hclean Hquiet.
  intros Hg. destruct (no_leak_reachable s Hclean) as [Hi _].
  destruct (inv_loops s Hi conn g) as (_ & l & Hl & _); [by right|]. exists l. split; [done|].
  apply list_elem_of_lookup in Hg as [i Hlk]. destruct (l_open l) eqn:Ho; [done|].
  pose proof (Hquiet (LAcceptErr i)) as H. cbn [own_step accept_ok fstep] in H.
  rewrite Hlk, Hl, Ho in H. by specialize (H eq_refl).
Qed.

Lemma quiet_listener id l :
  listener_at s id = Some l -> l_open l = true ->
  exists conn key, forwards (handler s) !! key = Some id /\ (conn, key) ∈ watchers s /\ conn ∉ gone s.
Proof using Hclean Hquiet.
  intros Hl Ho. destruct (no_leak_reachable s Hclean) as [_ Hn]. destruct quiet_nothing as (E1 & E2 & E3).
  pose proof (Hn id l Hl Ho) as Hin. unfold owned, openingIds in Hin. rewrite E1, E3, app_nil_r in Hin.
  apply elem_of_tableIds in Hin as [key Hk].
  destruct (entry_watched s key id (clean_reachable s Hclean) E2 Hk) as [conn Hw].
  exists conn, key. split_and!; [done|done|by eapply quiet_watcher].
Qed.
End quiescent.

(** * Properties *)

(** C6. No reverse forward is ever reachable from outside the pod:
    in every reachable state of the handler, under every interleaving of
    requests, cancels, disconnections and accept loops of any number of
    connections, each listener the handler has opened is bound to a loopback
    host. *)
Theorem forward_listeners_loopback s id l :
  freachable s -> listener_at s id = Some l -> isLoopback (l_host l) = true.
Proof. intros Hr Hl. by eapply (inv_listener s (finv_reachable s Hr)). Qed.

(** A wildcard request by connection 0, served on port 5000, and the end of the
    connection. *)
Definition exampleForward : list flabel :=
  [LListen 0 (mkForwardRequest "" 0) 5000; LRecord 0; LSpawn 0; LAccept 0 "127.0.0.1:40000";
   LDisconnect 0].

Definition exampleForwardState : FState :=
  Eval vm_compute in default initFState (run fstep initFState exampleForward).

Lemma forward_listeners_loopback_witness :
  isLoopback (l_host (mkListener "127.0.0.1" 5000 true)) = true.
Proof.
  apply (forward_listeners_loopback exampleForwardState 0 (mkListener "127.0.0.1" 5000 true)).
  - apply (run_reachable fstep exampleForward). vm_compute. reflexivity.
  - vm_compute. reflexivity.
Defined.

(** The goroutines behind an entry. *)
Lemma entry_goroutines s : flink s -> forall key id,
  forwards (handler s) !! key = Some id ->
  exists conn g, g_listener g = id /\ g_key g = key /\
    ((conn, g) ∈ starting s \/ (conn, g) ∈ loops s /\ (conn, key) ∈ watchers s).
Proof.
  intros Hf key id Hk. destruct (link_entry s Hf _ _ Hk) as (conn & g & Hg & <-).
  destruct (link_loops s Hf _ _ Hg) as [_ Hl]. destruct (Hl _ Hk) as [-> Hw].
  exists conn, g. split_and!; [done..|]. destruct Hg, Hw; auto.
Qed.

(** What the end of an accept loop leaves in the table. *)
Lemma loop_exit_own s : flink s -> forall conn g,
  (conn, g) ∈ starting s \/ (conn, g) ∈ loops s -> forall key id,
  forwards (acceptLoopExit (g_listener g) (g_key g) (handler s)) !! key = Some id <->
  forwards (handler s) !! key = Some id /\ id <> g_listener g.
Proof.
  intros Hf conn g Hg key id. destruct (link_loops s Hf _ _ Hg) as [_ Hl]. unfold acceptLoopExit.
  case_bool_decide as E; cbn [forwards].
  - rewrite lookup_delete_Some. split; intros [H1 H2]; split; try done.
    + intros ->. by destruct (Hl _ H2) as [-> _].
    + intros <-. congruence.
  - split; [|by intros [? _]]. intros Hk. split; [done|]. intros ->.
    by destruct (Hl _ Hk) as [-> _].
Qed.

(** C7. In every reachable state an entry of the table refers to an
    open listener under the address the client asked for with the port that was
    bound, no listener has two entries, and registering a forward never replaces
    an entry.  Every entry belongs to goroutines that will undo it: those of its
    request are about to be started, or its accept loop runs on that very listener
    and a teardown goroutine watches the connection under that very key.  And an
    accept loop that ends takes exactly its own entry out of the table, if it is
    still there, never one that another forward has claimed under the same key in
    the meantime. *)
Theorem forward_table_consistent s :
  freachable s ->
  (forall key id, forwards (handler s) !! key = Some id ->
    exists addr port l, key = forwardKey addr port /\ listener_at s id = Some l /\
      l_open l = true /\ l_host l = bindHostFor (mkForwardRequest addr port) /\ l_port l = port) /\
  (forall k1 k2 id, forwards (handler s) !! k1 = Some id ->
    forwards (handler s) !! k2 = Some id -> k1 = k2) /\
  (forall i s' conn p id port, opening s !! i = Some (conn, p, id, port) ->
    fstep s (LRecord i) = Some s' ->
    forwards (handler s) !! forwardKey (BindAddr p) port = None /\
    forwards (handler s') = <[forwardKey (BindAddr p) port := id]> (forwards (handler s))) /\
  (forall key id, forwards (handler s) !! key = Some id ->
    exists conn g, g_listener g = id /\ g_key g = key /\
      ((conn, g) ∈ starting s \/ (conn, g) ∈ loops s /\ (conn, key) ∈ watchers s)) /\
  (forall i s' conn g, loops s !! i = Some (conn, g) -> fstep s (LAcceptErr i) = Some s' ->
    forall key id, forwards (handler s') !! key = Some id <->
      forwards (handler s) !! key = Some id /\ id <> g_listener g).
Proof.
  intros Hr. pose proof (finv_reachable s Hr) as Hi. pose proof (flink_reachable s Hr) as Hf.
  split_and!.
  - intros key id Hk. destruct (inv_table s Hi _ _ Hk) as (a & p & l & ? & ? & ? & ?).
    exists a, p, l. by unfold bound_for in *.
  - intros k1 k2 id H1 H2. destruct (link_entry s Hf _ _ H1) as (c & g & Hg & <-).
    destruct (link_loops s Hf _ _ Hg) as [_ Hk].
    by rewrite (proj1 (Hk _ H1)), (proj1 (Hk _ H2)).
  - intros i s' conn p id port Hop Hs. split.
    + eapply (opening_key_free s conn p id); [done|]. apply list_elem_of_lookup. eauto.
    + cbn [fstep] in Hs. rewrite Hop in Hs. by injection Hs as <-.
  - apply (entry_goroutines s Hf).
  - intros i s' conn g Hg Hs key id. cbn [fstep] in Hs. rewrite Hg in Hs. injection Hs as <-.
    apply (loop_exit_own s Hf conn). right. apply list_elem_of_lookup. eauto.
Qed.

Lemma forward_table_consistent_witness :
  exists addr port l, ":5000" = forwardKey addr port /\
    listener_at exampleForwardState 0 = Some l /\
    l_open l = true /\ l_host l = bindHostFor (mkForwardRequest addr port) /\ l_port l = port.
Proof.
  apply (forward_table_consistent exampleForwardState); [|vm_compute; reflexivity].
  apply (run_reachable fstep exampleForward). vm_compute. reflexivity.
Defined.

(** Every forwarded connection is announced to the client under
    the address it registered: the channel names the bound port of the listener
    that accepted the connection, the requested host that resolves to the host
    bound, and, while the forward is in the table, the very key a cancel would
    name. *)
Theorem forwarded_channel_address s id d :
  freachable s -> (id, d) ∈ sent s ->
  (exists l, listener_at s id = Some l /\ l_port l = DestPort d /\
     l_host l = bindHostFor (mkForwardRequest (DestAddr d) (DestPort d))) /\
  (forall k, forwards (handler s) !! k = Some id -> k = forwardKey (DestAddr d) (DestPort d)).
Proof.
  intros Hr Hd. split.
  - destruct (inv_sent s (finv_reachable s Hr) _ _ Hd) as (l & Hl & Hh & Hp). by exists l.
  - apply (link_sent s (flink_reachable s Hr) _ _ Hd).
Qed.

Lemma forwarded_channel_address_witness :
  (exists l, listener_at exampleForwardState 0 = Some l /\ l_port l = 5000 /\
     l_host l = bindHostFor (mkForwardRequest "" 5000)) /\
  (forall k, forwards (handler exampleForwardState) !! k = Some 0%nat -> k = forwardKey "" 5000).
Proof.
  apply (forwarded_channel_address exampleForwardState 0
           (mkChannelData "" 5000 "127.0.0.1" 40000)).
  - apply (run_reachable fstep exampleForward). vm_compute. reflexivity.
  - vm_compute. apply list_elem_of_here.
Defined.

(** C23. No forward outlives its client.  Left to itself, the handler takes at most
    [frank s] steps from any state, whatever has been asked of it; and once it has
    nothing left to do, as long as accepts fail only on closed listeners, every
    listener that is open is in the table under a key that the connection which asked
    for it still watches, that connection is not gone, every accept loop has an open
    listener, and no request is half done. *)
Theorem forwards_end_with_client s :
  rtc fstep_clean initFState s ->
  (forall ls s', run fstep s ls = Some s' -> Forall (fun l => own_label l = true) ls ->
     (length ls <= frank s)%nat) /\
  ((forall l, own_step s l = true -> fstep s l = None) ->
   (opening s = [] /\ starting s = [] /\ closing s = []) /\
   (forall id l, listener_at s id = Some l -> l_open l = true ->
      exists conn key, forwards (handler s) !! key = Some id /\ (conn, key) ∈ watchers s /\ conn ∉ gone s) /\
   (forall conn key, (conn, key) ∈ watchers s -> conn ∉ gone s) /\
   (forall conn g, (conn, g) ∈ loops s ->
      exists l, listener_at s (g_listener g) = Some l /\ l_open l = true)).
Proof.
  intros Hc. split.
  - intros ls s' Hr Hls. pose proof (frank_run _ _ _ Hr Hls). lia.
  - intros Hq. split_and!; try apply (quiet_nothing s Hq).
    + by apply quiet_listener.
    + by apply quiet_watcher.
    + by apply quiet_loop.
Qed.

(** C18. As long as accepts fail only on closed listeners, nothing
    leaks: every open listener is about to be registered, registered, or about to
    be closed, so when no request is in flight each open listener can be
    cancelled by its key. *)
Theorem forward_no_leak s :
  rtc fstep_clean initFState s ->
  (forall id l, listener_at s id = Some l -> l_open l = true -> id ∈ owned s) /\
  (opening s = [] -> closing s = [] ->
   forall id l, listener_at s id = Some l -> l_open l = true ->
     exists addr port, forwards (handler s) !! forwardKey addr port = Some id).
Proof.
  intros H. destruct (no_leak_reachable s H) as [Hi Hn]. split; [exact Hn|].
  intros Ho Hc id l Hl Hopen. pose proof (Hn id l Hl Hopen) as Hin.
  unfold owned, openingIds in Hin. rewrite Ho, Hc, app_nil_r in Hin. simpl in Hin.
  apply elem_of_tableIds in Hin as [k Hk].
  destruct (inv_table s Hi _ _ Hk) as (a & p & _ & -> & _). eauto.
Qed.

Fixpoint clean_run (s : FState) (ls : list flabel) : bool :=
  match ls with
  | [] => true
  | l :: ls' => accept_ok s l && match fstep s l with Some s' => clean_run s' ls' | None => false end
  end.

Lemma clean_run_reachable ls s s' :
  clean_run s ls = true -> run fstep s ls = Some s' -> rtc fstep_clean s s'.
Proof.
  revert s. induction ls as [|l ls IH]; intros s; simpl; [by intros _ [= <-]|].
  intros [Hok Hr]%andb_true_iff. destruct (fstep s l) as [t|] eqn:Hs; [|done]. intros H.
  eapply rtc_l; [by exists l|by apply IH].
Qed.

(** Two clients, of which one has gone and its forward with it. *)
Definition exampleClients : list flabel :=
  [LListen 0 (mkForwardRequest "" 0) 5000; LListen 1 (mkForwardRequest "localhost" 0) 6000; LRecord 0; LRecord 0;
   LSpawn 0; LSpawn 0; LDisconnect 0; LTeardown 1; LClose 0; LAcceptErr 1].
Definition exampleClientsState : FState :=
  Eval vm_compute in default initFState (run fstep initFState exampleClients).

Lemma forwards_end_with_client_witness :
  exists conn key, forwards (handler exampleClientsState) !! key = Some 1%nat /\
    (conn, key) ∈ watchers exampleClientsState /\ conn ∉ gone exampleClientsState.
Proof.
  destruct (forwards_end_with_client exampleClientsState
    (clean_run_reachable exampleClients initFState exampleClientsState
       ltac:(vm_compute; reflexivity) ltac:(vm_compute; reflexivity))) as [_ H].
  destruct H as (_ & H & _).
  - intros [conn p b|[|i]|[|i]|[|i]|p|[|i]|conn|[|[|i]]|[|i] r|[|[|i]]] E; try discriminate E; vm_compute in E |- *;
      try discriminate E; reflexivity.
  - apply (H 1%nat (mkListener "localhost" 6000 true)); vm_compute; reflexivity.
Defined.

Lemma forward_no_leak_witness :
  exists addr port, forwards (handler exampleForwardState) !! forwardKey addr port = Some 0%nat.
Proof.
  apply (proj2 (forward_no_leak exampleForwardState
    (clean_run_reachable exampleForward initFState exampleForwardState
       ltac:(vm_compute; reflexivity) ltac:(vm_compute; reflexivity)))
    ltac:(vm_compute; reflexivity) ltac:(vm_compute; reflexivity)
    0%nat (mkListener "127.0.0.1" 5000 true)); vm_compute; reflexivity.
Defined.

(** C37. An accept that fails while the listener is open leaks it: a
    state is reachable in which a listener is open, is in no table entry, and
    stays open in every later state, whatever the clients do. *)
Theorem accept_error_leaks_listener :
  exists s id, freachable s /\ listener_at s id = Some (mkListener "127.0.0.1" 5000 true) /\
    forall s', rtc fstep_rel s s' ->
      exists l, listener_at s' id = Some l /\ l_open l = true.
Proof.
  set (ls := [LListen 0 (mkForwardRequest "127.0.0.1" 0) 5000; LRecord 0; LSpawn 0; LAcceptErr 0]).
  destruct (run fstep initFState ls) as [s|] eqn:Hs; [|done].
  exists s, 0%nat. pose proof (run_reachable fstep _ _ _ Hs) as Hr.
  assert (Hl : listener_at s 0 = Some (mkListener "127.0.0.1" 5000 true)).
  { vm_compute in Hs. injection Hs as <-. reflexivity. }
  assert (Ho : orphan s 0).
  { split; [by eexists|]. vm_compute in Hs. injection Hs as <-. vm_compute. apply not_elem_of_nil. }
  split; [done|]. split; [done|]. intros s' Hs'.
  assert (finv s' /\ orphan s' 0) as [_ [? _]]; [|done].
  refine (rtc_invariant fstep_rel (fun t => finv t /\ orphan t 0) _ _ _ Hs'
    (conj (finv_reachable s Hr) Ho)).
  intros t t' [? ?] ?. split; [by eapply finv_step|by eapply orphan_step].
Qed.

(** C38. The teardown of a connection closes by key, not by listener:
    after connection 0 opens and cancels a forward and connection 1 opens the
    same address and port, the end of connection 0 closes the forward of
    connection 1, which neither cancelled it nor went away. *)
Theorem stale_teardown_closes_other_forward :
  exists s1 s2,
    run fstep initFState
      [LListen 0 (mkForwardRequest "127.0.0.1" 5000) 5000; LRecord 0; LSpawn 0;
       LCancel (mkForwardRequest "127.0.0.1" 5000); LClose 0;
       LListen 1 (mkForwardRequest "127.0.0.1" 5000) 5000; LRecord 0; LSpawn 0] = Some s1 /\
    listener_at s1 1 = Some (mkListener "127.0.0.1" 5000 true) /\
    (1%nat, forwardKey "127.0.0.1" 5000) ∈ watchers s1 /\
    run fstep s1 [LDisconnect 0; LTeardown 1; LClose 0] = Some s2 /\
    (1%nat ∉ gone s2) /\
    forwards (handler s2) !! forwardKey "127.0.0.1" 5000 = None /\
    listener_at s2 1 = Some (mkListener "127.0.0.1" 5000 false).
Proof.
  eexists _, _. split; [vm_compute; reflexivity|]. split; [vm_compute; reflexivity|].
  split; [apply list_elem_of_here|]. split; [vm_compute; reflexivity|].
  split; [|split; vm_compute; reflexivity].
  simpl. rewrite list_elem_of_singleton. done.
Qed.

(** [openForward] on every branch: a request is refused, with no
    listener opened and the table unchanged, when the address it resolves to is
    not loopback or the bind fails; otherwise the listener is bound to that
    address and recorded under the requested address and the bound port.  A
    wildcard request resolves to 127.0.0.1. *)
Theorem openForward_spec os payload h :
  0 <= BindPort payload < 2 ^ 32 ->
  openForward (Some allowReverseForward) os payload h =
    match (if isLoopback (bindHostFor payload) then os (bindHostFor payload) (BindPort payload)
           else None) with
    | None => (h, None)
    | Some bound =>
        (mkHandler
           (<[forwardKey (BindAddr payload) bound := length (listeners h)]> (forwards h))
           (listeners h ++ [mkListener (bindHostFor payload) bound true])%list,
         Some (length (listeners h), bound))
    end /\
  openForward None os payload h = (h, None) /\
  (anyBindAddresses (BindAddr payload) = true -> bindHostFor payload = "127.0.0.1").
Proof.
  intros Hp. split_and!; [|done|unfold bindHostFor; by intros ->].
  unfold openForward, openListener. cbv zeta. rewrite allowReverseForward_eq.
  destruct (isLoopback (bindHostFor payload)) eqn:Hl; [|done]. simpl.
  rewrite net_listen_join; [|by apply isLoopback_no_brackets|unfold min_int64, max_int64; lia].
  by destruct (os (bindHostFor payload) (BindPort payload)).
Qed.

Lemma openForward_spec_witness :
  openForward (Some allowReverseForward) (fun _ _ => Some 5000)
    (mkForwardRequest "10.0.0.5" 0) newLoopbackForwardHandler = (newLoopbackForwardHandler, None) /\
  openForward None (fun _ _ => Some 5000) (mkForwardRequest "10.0.0.5" 0)
    newLoopbackForwardHandler = (newLoopbackForwardHandler, None) /\
  (anyBindAddresses "10.0.0.5" = true -> "10.0.0.5" = "127.0.0.1").
Proof.
  apply (openForward_spec (fun _ _ => Some 5000) (mkForwardRequest "10.0.0.5" 0)
    newLoopbackForwardHandler). simpl. lia.
Defined.

Section cancel.
Context (marshalSuccess : Z -> string) (unmarshal : string -> option remoteForwardRequest).

(** C40. A client can always undo what it asked for: after a
    successful request, a cancel naming the requested host and the port reported
    back succeeds, closes that listener, and leaves the table and every other
    listener as they were.  The system is taken to report ports between 1 and 65535,
    and the key to be free before, which it is in every reachable state (see
    [opening_key_free]). *)
Theorem start_cancel_roundtrip os payload h h1 reply g :
  startForward marshalSuccess (Some allowReverseForward) os true payload h = (h1, reply, Some g) ->
  (forall host asked bound, os host asked = Some bound -> port_range bound) ->
  forwards h !! forwardKey (BindAddr payload) (g_port g) = None ->
  reply = (true, Some (marshalSuccess (g_port g))) /\
  cancelForward (mkForwardRequest (BindAddr payload) (g_port g)) h1 =
    (mkHandler (forwards h)
       (listeners h ++ [mkListener (bindHostFor payload) (g_port g) false])%list,
     (true, None)).
Proof.
  unfold startForward, openForward. intros H Hos Hfree.
  destruct (openListener _ os payload h) as [[[h' id] port]|] eqn:Ho; [|done].
  apply openListener_inv in Ho as (_ & -> & -> & asked & Ha). apply Hos in Ha.
  cbv zeta in H. cbn [negb] in H. injection H as <- <- <-. cbn [g_port] in *. split.
  - rewrite uint32_small; [done|]. unfold port_range in Ha. lia.
  - unfold cancelForward, closeForward, takeForward. cbn [BindAddr BindPort recordForward forwards].
    rewrite lookup_insert_eq. cbn [negb]. unfold closeListener. cbn [forwards listeners].
    rewrite delete_insert_eq, delete_id by done.
    cbn [recordForward listeners]. by rewrite alter_app_r_alt, Nat.sub_diag.
Qed.
End cancel.

Lemma start_cancel_roundtrip_witness :
  (true, Some (Itoa 5000)) = (true, Some (Itoa 5000)) /\
  cancelForward (mkForwardRequest "0.0.0.0" 5000)
    (mkHandler {["0.0.0.0:5000" := 0%nat]} [mkListener "127.0.0.1" 5000 true]) =
    (mkHandler ∅ [mkListener "127.0.0.1" 5000 false], (true, None)).
Proof.
  apply (start_cancel_roundtrip Itoa (fun _ _ => Some 5000) (mkForwardRequest "0.0.0.0" 0)
    newLoopbackForwardHandler
    (mkHandler {["0.0.0.0:5000" := 0%nat]} [mkListener "127.0.0.1" 5000 true])
    (true, Some (Itoa 5000)) (mkGoroutines "0.0.0.0:5000" 0 "0.0.0.0" 5000)).
  - vm_compute. reflexivity.
  - intros _ _ bound [= <-]. unfold port_range. lia.
  - vm_compute. reflexivity.
Defined.

(** The table key determines the host and the port it stands for,
    whatever bytes the client put in the host, so a cancel can only reach the
    forward it names. *)
Theorem forwardKey_injective h1 p1 h2 p2 :
  0 <= p1 < 2 ^ 32 -> 0 <= p2 < 2 ^ 32 ->
  forwardKey h1 p1 = forwardKey h2 p2 -> h1 = h2 /\ p1 = p2.
Proof. intros ? ?. apply forwardKey_inj_ports; unfold min_int64, max_int64; lia. Qed.

Lemma forwardKey_injective_witness : "::" = "::" /\ 22 = 22.
Proof. apply (forwardKey_injective "::" 22 "::" 22); [lia|lia|reflexivity]. Defined.
