(* ===== verification/ForwardSeq.v ===== *)
(** The functions of [internal/sshserver/forward.go] as they run without
    interference, against the atomic steps of [Forward]: the whole loop of
    [acceptLoop], and that [openForward], [startForward], [cancelForward],
    [closeForward] and [acceptLoop] are sequences of those steps. *)

From S2P Require Import Prelude GoStrings GoNet SshConfig Forward.

Open Scope Z_scope.

(** * [acceptLoop] *)

(** The loop over what [listener.Accept] returns, an address or an error, until
    the error; it returns the channels opened and the handler after the deferred
    cleanup, or [None] for a loop that still waits. *)
Fixpoint acceptLoop (accepts : list (option string)) (g : forward_goroutines)
    (h : loopbackForwardHandler) : list remoteForwardChannelData * option loopbackForwardHandler :=
  match accepts with
  | [] => ([], None)
  | None :: _ => ([], Some (acceptLoopExit (g_listener g) (g_key g) h))
  | Some remoteAddr :: rest =>
      let '(channels, r) := acceptLoop rest g h in
      (acceptChannelData (g_requested g) (g_port g) remoteAddr :: channels, r)
  end.

(** The labels of the steps it takes as goroutine [i]. *)
Definition accept_label (i : nat) (a : option string) : flabel :=
  match a with Some remoteAddr => LAccept i remoteAddr | None => LAcceptErr i end.

(** The kernel's answer a [LListen] label carries. *)
Definition listen_with (ls : list Listener) (bound : Z) : listen_answer :=
  fun host asked => if bind_ok ls host asked bound then Some bound else None.

(** * Lemmas *)

Section steps.
Context (s : FState).

Lemma listen_step conn payload bound :
  fstep s (LListen conn payload bound) =
  match openListener (Some allowReverseForward) (listen_with (listeners (handler s)) bound) payload
          (handler s) with
  | None => None
  | Some (h', id, port) =>
      Some (mkFState h' ((conn, payload, id, port) :: opening s) (starting s) (closing s) (watchers s)
              (loops s) (gone s) (sent s))
  end.
Proof. reflexivity. Qed.

(** The bind and the locked insertion make [openForward]; its caller then starts the
    goroutines. *)
Lemma open_steps conn payload bound :
  let '(h', r) := openForward (Some allowReverseForward)
                    (listen_with (listeners (handler s)) bound) payload (handler s) in
  match run fstep s [LListen conn payload bound; LRecord 0] with
  | Some s' =>
      handler s' = h' /\ exists id port, r = Some (id, port) /\
      starting s' = (conn, mkGoroutines (forwardKey (BindAddr payload) port) id (BindAddr payload) port)
                      :: starting s /\
      (watchers s' = watchers s /\ loops s' = loops s) /\
      opening s' = opening s /\ closing s' = closing s /\ sent s' = sent s
  | None => h' = handler s /\ r = None
  end.
Proof.
  unfold openForward. cbn [run]. rewrite listen_step.
  destruct (openListener _ _ _ _) as [[[h' id] port]|]; [|done]. simpl. eauto 10.
Qed.
End steps.

(** The channels [acceptLoop] opens for the connections it accepts before the
    error that ends it, and its cleanup. *)
Lemma acceptLoop_spec g h addrs rest :
  acceptLoop ((Some <$> addrs) ++ None :: rest)%list g h =
  (acceptChannelData (g_requested g) (g_port g) <$> addrs,
   Some (acceptLoopExit (g_listener g) (g_key g) h)).
Proof.
  induction addrs as [|a addrs IH]; [done|].
  rewrite fmap_cons. cbn [app acceptLoop]. by rewrite IH.
Qed.

(** Accepting leaves everything but the record of the channels as it was. *)
Lemma accepts_run addrs s i conn g l :
  loops s !! i = Some (conn, g) -> listeners (handler s) !! g_listener g = Some l -> l_open l = true ->
  run fstep s (LAccept i <$> addrs) =
  Some (mkFState (handler s) (opening s) (starting s) (closing s) (watchers s) (loops s) (gone s)
          (((fun d => (g_listener g, d)) <$> rev (acceptChannelData (g_requested g) (g_port g) <$> addrs))
             ++ sent s)%list).
Proof.
  revert s. induction addrs as [|a addrs IH]; intros s Hl Hg Ho; [by destruct s|].
  cbn [run fmap list_fmap fstep]. rewrite Hl, Hg, Ho. cbn [negb].
  rewrite IH by done. do 2 f_equal. simpl. by rewrite fmap_app, <- app_assoc.
Qed.

(** * Equivalence *)

Section equivalence.
Context (marshalSuccess : Z -> string).

(** The functions of the handler are the sequences of atomic steps whose
    interleavings the other theorems of the component quantify over: a
    [startForward] that succeeds is the bind, the insertion and the start of the
    goroutines, with the same table, reply, watcher and accept loop, one that is
    refused has no bind to do, and one without a connection undoes the insertion;
    [cancelForward] and the [closeForward] of a teardown are the removal followed by
    the close of the listener removed; and [acceptLoop] is one
    step per connection accepted, opening the same channels in the same order, and
    the cleanup at the error. *)
Theorem forward_functions_are_steps s :
  (forall conn payload bound,
    let '(h', reply, g) := startForward marshalSuccess (Some allowReverseForward)
                             (listen_with (listeners (handler s)) bound) true payload (handler s) in
    match run fstep s [LListen conn payload bound; LRecord 0; LSpawn 0] with
    | Some s' =>
        handler s' = h' /\ exists g', g = Some g' /\
        reply = (true, Some (marshalSuccess (uint32 (g_port g')))) /\
        watchers s' = (conn, g_key g') :: watchers s /\ loops s' = (conn, g') :: loops s /\
        starting s' = starting s /\ opening s' = opening s /\ closing s' = closing s /\ sent s' = sent s
    | None => h' = handler s /\ g = None /\ reply = (false, Some "port forwarding is disabled"%string)
    end) /\
  (forall conn payload bound s1,
    run fstep s [LListen conn payload bound; LRecord 0] = Some s1 ->
    let '(h', reply, g) := startForward marshalSuccess (Some allowReverseForward)
                             (listen_with (listeners (handler s)) bound) false payload (handler s) in
    exists s', run fstep s1 [LNoConn 0; LClose 0] = Some s' /\
      handler s' = h' /\ g = None /\ reply = (false, None) /\
      starting s' = starting s /\ watchers s' = watchers s /\ loops s' = loops s /\
      opening s' = opening s /\ closing s' = closing s) /\
  (forall payload,
    let '(h', (closed, _)) := cancelForward payload (handler s) in
    exists s', run fstep s (LCancel payload :: if closed then [LClose 0] else []) = Some s' /\
      handler s' = h' /\ closing s' = closing s /\ watchers s' = watchers s /\ loops s' = loops s) /\
  (forall i conn key, watchers s !! i = Some (conn, key) -> conn ∈ gone s ->
    let '(h', closed) := closeForward key (handler s) in
    exists s', run fstep s (LTeardown i :: if closed then [LClose 0] else []) = Some s' /\
      handler s' = h' /\ closing s' = closing s /\ watchers s' = delete i (watchers s) /\
      loops s' = loops s) /\
  (forall i conn g l addrs, loops s !! i = Some (conn, g) ->
    listeners (handler s) !! g_listener g = Some l -> l_open l = true ->
    let '(channels, r) := acceptLoop ((Some <$> addrs) ++ [None])%list g (handler s) in
    exists s', run fstep s (accept_label i <$> (Some <$> addrs) ++ [None])%list = Some s' /\
      r = Some (handler s') /\ loops s' = delete i (loops s) /\
      sent s' = (((fun d => (g_listener g, d)) <$> rev channels) ++ sent s)%list).
Proof.
  split_and!.
  - intros conn payload bound. pose proof (open_steps s conn payload bound) as H. unfold startForward.
    change [LListen conn payload bound; LRecord 0; LSpawn 0] with
      ([LListen conn payload bound; LRecord 0] ++ [LSpawn 0])%list. rewrite run_app.
    destruct (openForward _ _ _ _) as [h' [[id port]|]], (run fstep s _) as [s'|]; cbn [mbind option_bind].
    + destruct H as (E & ? & ? & [= <- <-] & Est & [Ew El] & ? & ? & ?). cbn [run fstep]. rewrite Est. simpl.
      rewrite Ew, El. split; [done|]. eauto 12.
    + by destruct H.
    + by destruct H as (? & ? & ? & ? & ?).
    + by destruct H as [-> _].
  - intros conn payload bound s1 Hs1. pose proof (open_steps s conn payload bound) as H.
    rewrite Hs1 in H. unfold startForward.
    destruct (openForward _ _ _ _) as [h' r] eqn:Eo. destruct H as (E & id & port & -> & Est & [Ew El] & ? & ? & ?).
    cbn [negb run fstep]. rewrite Est. cbn [lookup list_lookup g_key].
    assert (takeForward (forwardKey (BindAddr payload) port) (handler s1) =
            takeForward (forwardKey (BindAddr payload) port) h') as Et by (by rewrite E).
    assert (forwards h' !! forwardKey (BindAddr payload) port = Some id) as Hk.
    { unfold openForward in Eo. destruct (openListener _ _ _ _) as [[[h2 id2] port2]|]; [|done].
      injection Eo as <- <- <-. simpl. apply lookup_insert_eq. }
    rewrite Et. unfold closeForward, takeForward. rewrite Hk. simpl. rewrite Ew, El. eauto 12.
  - intros payload. unfold cancelForward, closeForward.
    destruct (takeForward _ _) as [[h' id]|] eqn:E; simpl; rewrite E; simpl; eauto 10.
  - intros i conn key Hw Hg. unfold closeForward.
    destruct (takeForward _ _) as [[h' id]|] eqn:E; simpl; rewrite Hw, bool_decide_true by done;
      simpl; rewrite E; simpl; eauto 10.
  - intros i conn g l addrs Hl Hg Ho. rewrite acceptLoop_spec.
    rewrite fmap_app, <- list_fmap_compose. eexists. split; [|split_and!].
    + rewrite run_app. change (accept_label i ∘ Some) with (LAccept i).
      erewrite accepts_run by done. simpl. by rewrite Hl.
    + done.
    + done.
    + done.
Qed.
End equivalence.

(** A forward opened on port 5000 and one connection accepted on it. *)
Definition exampleFState : FState :=
  mkFState (mkHandler {["localhost:5000"%string := 0%nat]} [mkListener "localhost" 5000 true])
    [] [] [] [(1%nat, "localhost:5000"%string)]
    [(1%nat, mkGoroutines "localhost:5000" 0 "localhost" 5000)] [1%nat] [].

Lemma forward_functions_are_steps_witness :
  (exists s', run fstep exampleFState [LTeardown 0; LClose 0] = Some s' /\
     listeners (handler s') = [mkListener "localhost" 5000 false]) /\
  (exists s', run fstep exampleFState [LAccept 0 "127.0.0.1:7"; LAcceptErr 0] = Some s' /\
     sent s' = [(0%nat, mkChannelData "localhost" 5000 "127.0.0.1" 7)]).
Proof.
  destruct (forward_functions_are_steps (fun _ => ""%string) exampleFState) as (_ & _ & _ & H1 & H2).
  split.
  - destruct (H1 0%nat 1%nat "localhost:5000"%string eq_refl
                (proj2 (list_elem_of_singleton 1%nat 1%nat) eq_refl)) as (s' & E & Eh & _).
    exists s'. split; [exact E|]. rewrite Eh. vm_compute. reflexivity.
  - destruct (H2 0%nat 1%nat (mkGoroutines "localhost:5000" 0 "localhost" 5000)
                (mkListener "localhost" 5000 true) ["127.0.0.1:7"%string] eq_refl eq_refl eq_refl)
      as (s' & E & _ & _ & Es).
    exists s'. split; [exact E|]. rewrite Es. vm_compute. reflexivity.
Defined.
