(* ===== verification/IoCopy.v ===== *)
(** [io.Copy] of the Go standard library as a transition system: what it has read
    and written so far, and the ways it ends.  [relay] of
    [internal/sshserver/forward.go] and the input and output of a session
    ([server.go]) are made of such copies. *)

From S2P Require Import Prelude.

Open Scope Z_scope.

Definition bytes : Type := list ascii.

(** Reading, writing what was read, returned. *)
Inductive io_pc := Reading | Writing (data : bytes) | Finished.

(** The source has data, ends or fails, or is over; a write succeeds, fails after [k]
    bytes, or fails because the destination is over.  An end is over when it was closed
    in a way that unblocks the calls that wait for it. *)
Inductive io_event :=
| Data (data : bytes) | SourceEnd | SourceClosed
| WriteOk | WriteErr (k : nat) | DestClosed (k : nat).

(** A copy: where it is, what it read and wrote, and whether a write failed. *)
Record Copy := mkCopy { pc : io_pc; input : bytes; output : bytes; failed : bool }.

Definition newCopy : Copy := mkCopy Reading [] [] false.

(** One step, given which ends are over. *)
Definition copy_step (srcClosed dstClosed : bool) (c : Copy) (ev : io_event) : option Copy :=
  match pc c, ev with
  | Reading, Data data => Some (mkCopy (Writing data) (input c ++ data) (output c) (failed c))
  | Reading, SourceEnd => Some (mkCopy Finished (input c) (output c) (failed c))
  | Reading, SourceClosed =>
      if srcClosed then Some (mkCopy Finished (input c) (output c) (failed c)) else None
  | Writing data, WriteOk =>
      if dstClosed then None else Some (mkCopy Reading (input c) (output c ++ data) (failed c))
  | Writing data, WriteErr k => Some (mkCopy Finished (input c) (output c ++ take k data) true)
  | Writing data, DestClosed k =>
      if dstClosed then Some (mkCopy Finished (input c) (output c ++ take k data) true) else None
  | _, _ => None
  end.

(** The events a copy goes on with when neither peer does anything. *)
Definition local_event (ev : io_event) : bool :=
  match ev with SourceClosed | DestClosed _ => true | _ => false end.

Definition copying (p : io_pc) : bool := match p with Finished => false | _ => true end.

(** * Invariant *)

Definition copied (c : Copy) : Prop :=
  match pc c with
  | Reading => output c = input c /\ failed c = false
  | Writing data => input c = output c ++ data /\ failed c = false
  | Finished => output c `prefix_of` input c /\ (failed c = false -> output c = input c)
  end.

Lemma copied_new : copied newCopy.
Proof. done. Qed.

Lemma copied_step sc dc c ev c' : copied c -> copy_step sc dc c ev = Some c' -> copied c'.
Proof.
  destruct c as [p i o f]. unfold copied, copy_step. simpl. intros Hc Hs.
  destruct p, ev; simpl in Hs; try discriminate Hs; try destruct sc; try destruct dc;
    simplify_eq; destruct Hc as [-> ->]; simpl; try done.
  all: split; [|done]; apply prefix_app; eexists; symmetry; apply take_drop.
Qed.

(** At any moment the destination has a prefix of what was read. *)
Lemma copied_prefix c : copied c -> output c `prefix_of` input c.
Proof. unfold copied. destruct (pc c); [by intros [-> _]|intros [-> _]; by eexists|by intros [? _]]. Qed.

(** Nothing is missing while it reads, nor after it ended without a failed write. *)
Lemma copied_all c :
  copied c -> failed c = false -> (forall data, pc c <> Writing data) -> output c = input c.
Proof.
  unfold copied. destruct (pc c) as [|data|]; [by intros [? _]| |by intros [_ H] ? _; apply H].
  intros _ _ H. by destruct (H data).
Qed.

(** A copy of which an end was closed does not hang. *)
Lemma copy_closed sc dc c :
  (forall ev, local_event ev = true -> copy_step sc dc c ev = None) ->
  pc c = Finished \/ (pc c = Reading /\ sc = false) \/ ((exists data, pc c = Writing data) /\ dc = false).
Proof.
  intros H. pose proof (H SourceClosed eq_refl) as H1. pose proof (H (DestClosed 0) eq_refl) as H2.
  unfold copy_step in *. destruct (pc c) eqn:E; [right; left|right; right|by left].
  - by destruct sc.
  - split; [by eexists|]. by destruct dc.
Qed.

(** The steps left: a closed copy has one step of its own. *)
Definition copy_rank (c : Copy) : nat := if copying (pc c) then 1 else 0.

Lemma copy_step_rank sc dc c ev c' :
  copy_step sc dc c ev = Some c' -> (copy_rank c' + Nat.b2n (local_event ev) <= copy_rank c)%nat.
Proof.
  unfold copy_step, copy_rank. destruct (pc c), ev; try done; try destruct sc; try destruct dc;
    intros; simplify_eq; simpl; lia.
Qed.
