(* ===== verification/Relay.v ===== *)
(** One forwarded connection, [relay] of [internal/sshserver/forward.go]: the
    channel to the client, and the two goroutines that copy between it and the
    inbound connection, each of which closes both when its copy ends.

    The two ends differ.  Closing a [net.Conn] is documented to unblock its [Read] and
    [Write].  Closing an SSH channel only sends the close message of RFC 4254, section
    5.3: a call that is blocked on the channel goes on waiting until the client has
    answered with its own close, or its connection is gone. *)

From S2P Require Import Prelude IoCopy.

Open Scope Z_scope.

(** * State *)

(** A goroutine: its [io.Copy], and how many of its deferred calls have run, the
    close of the inbound connection first. *)
Inductive close_pc := NoneClosed | InboundDone | BothDone.

Record Pump := mkPump { io : Copy; closes : close_pc }.

(** [inboundClosed]: [inbound.Close] was called; [closeSent]: [channel.Close] was
    called; [channelOver]: the client has closed the channel, by itself or as the
    answer, or its connection is gone. *)
Record Relay := mkRelay {
  toChannel : Pump; toInbound : Pump;
  inboundClosed : bool; closeSent : bool; channelOver : bool;
}.

Inductive side := ToChannel | ToInbound.

Inductive pump_event := Io (ev : io_event) | DeferredClose.

(** A goroutine moves, or the client's close arrives. *)
Inductive relay_event := Pumps (sd : side) (ev : pump_event) | ClientClose.

Definition newPump : Pump := mkPump newCopy NoneClosed.
Definition noPump : Pump := mkPump (mkCopy Finished [] [] false) BothDone.

(** [OpenChannel]: refused, the inbound connection is closed and no goroutine is
    started; there is no channel to close. *)
Definition relay_open (accepted : bool) : Relay :=
  if accepted then mkRelay newPump newPump false false false
  else mkRelay noPump noPump true false true.

(** * Steps *)

(** One step of a goroutine. *)
Definition pump_step (srcClosed dstClosed : bool) (p : Pump) (ev : pump_event) : option Pump :=
  match ev, closes p with
  | Io ev, NoneClosed => c ← copy_step srcClosed dstClosed (io p) ev; Some (mkPump c NoneClosed)
  | DeferredClose, NoneClosed =>
      if copying (pc (io p)) then None else Some (mkPump (io p) InboundDone)
  | DeferredClose, InboundDone => Some (mkPump (io p) BothDone)
  | _, _ => None
  end.

Definition past_inbound (p : Pump) : bool := match closes p with NoneClosed => false | _ => true end.
Definition ended (p : Pump) : bool := match closes p with BothDone => true | _ => false end.

Definition side_pump (r : Relay) (sd : side) : Pump :=
  match sd with ToChannel => toChannel r | ToInbound => toInbound r end.
(** Whether a call that waits for the source, or for the destination, returns: the
    inbound connection was closed here, or the channel is over. *)
Definition source_over (r : Relay) (sd : side) : bool :=
  match sd with ToChannel => inboundClosed r | ToInbound => channelOver r end.
Definition dest_over (r : Relay) (sd : side) : bool :=
  match sd with ToChannel => channelOver r | ToInbound => inboundClosed r end.

(** A step of [relay]. *)
Definition relay_step (r : Relay) (l : relay_event) : option Relay :=
  match l with
  | Pumps sd ev =>
      p ← pump_step (source_over r sd) (dest_over r sd) (side_pump r sd) ev;
      Some (mkRelay (match sd with ToChannel => p | ToInbound => toChannel r end)
                    (match sd with ToChannel => toInbound r | ToInbound => p end)
                    (inboundClosed r || past_inbound p) (closeSent r || ended p) (channelOver r))
  | ClientClose =>
      if channelOver r then None
      else Some (mkRelay (toChannel r) (toInbound r) (inboundClosed r) (closeSent r) true)
  end.

(** The events that need neither peer. *)
Definition system_label (l : relay_event) : bool :=
  match l with
  | Pumps _ (Io ev) => local_event ev
  | Pumps _ DeferredClose => true
  | ClientClose => false
  end.

Definition relay_reachable (accepted : bool) (r : Relay) : Prop :=
  rtc (lts_step relay_step) (relay_open accepted) r.

(** * Invariant *)

(** A goroutine closes nothing before its copy is over. *)
Definition pump_ok (p : Pump) : Prop :=
  copied (io p) /\ (past_inbound p = true -> pc (io p) = Finished).

Record rinv (accepted : bool) (r : Relay) : Prop := mkRinv {
  rinv_up : pump_ok (toChannel r);
  rinv_down : pump_ok (toInbound r);
  rinv_inbound : inboundClosed r = past_inbound (toChannel r) || past_inbound (toInbound r);
  rinv_channel : closeSent r = accepted && (ended (toChannel r) || ended (toInbound r));
  rinv_refused : accepted = false -> ended (toChannel r) = true /\ ended (toInbound r) = true;
}.

Lemma pump_step_ok sc dc p ev p' :
  pump_ok p -> pump_step sc dc p ev = Some p' ->
  pump_ok p' /\ (past_inbound p = true -> past_inbound p' = true) /\ (ended p = true -> ended p' = true).
Proof.
  destruct p as [c k]. unfold pump_ok, pump_step, past_inbound, ended. simpl. intros [Hc Hf] Hs.
  destruct ev as [ev|], k; try discriminate Hs; simpl in *.
  - destruct (copy_step sc dc c ev) as [c'|] eqn:E; [|done]. injection Hs as <-. simpl.
    split_and!; try done. by eapply copied_step.
  - destruct (copying (pc c)) eqn:E; [done|]. injection Hs as <-. simpl.
    split_and!; try done. intros _. by destruct (pc c).
  - injection Hs as <-. simpl. by split_and!.
Qed.

Lemma rinv_init accepted : rinv accepted (relay_open accepted).
Proof. by destruct accepted; split. Qed.

(** A goroutine that has ended takes no step. *)
Lemma pump_ended sc dc p ev : ended p = true -> pump_step sc dc p ev = None.
Proof. unfold ended, pump_step. by destruct ev, (closes p). Qed.

Lemma rinv_step accepted r l r' : rinv accepted r -> relay_step r l = Some r' -> rinv accepted r'.
Proof.
  intros [H1 H2 H3 H4 H5] Hs. destruct l as [sd ev|]; simpl in Hs.
  2: { destruct (channelOver r); [done|]. by injection Hs as <-. }
  destruct (pump_step _ _ _ _) as [p|] eqn:E; [|done]. injection Hs as <-.
  destruct accepted.
  2: { destruct (H5 eq_refl) as [E1 E2]. destruct sd; by rewrite pump_ended in E. }
  simpl in H4. destruct sd; simpl in E; apply pump_step_ok in E as (Hp & Ha & Hb); try done;
    split; simpl; try done; rewrite ?H3, ?H4.
  all: destruct (past_inbound (toChannel r)), (past_inbound (toInbound r)), (past_inbound p),
         (ended (toChannel r)), (ended (toInbound r)), (ended p);
    try done; first [by specialize (Ha eq_refl)|by specialize (Hb eq_refl)].
Qed.

Lemma rinv_reachable accepted r : relay_reachable accepted r -> rinv accepted r.
Proof.
  intros Hr. refine (rtc_invariant _ (rinv accepted) _ _ _ Hr (rinv_init accepted)).
  intros t t' Ht [l Hs]. by eapply rinv_step.
Qed.

(** * Termination measure *)

Definition pump_rank (p : Pump) : nat :=
  match closes p with NoneClosed => 2 + copy_rank (io p) | InboundDone => 1 | BothDone => 0 end.

Definition relay_rank (r : Relay) : Z := Z.of_nat (pump_rank (toChannel r) + pump_rank (toInbound r)).

Lemma pump_step_rank sc dc p sd ev p' :
  pump_step sc dc p ev = Some p' -> (pump_rank p' + Nat.b2n (system_label (Pumps sd ev)) <= pump_rank p)%nat.
Proof.
  unfold pump_step, pump_rank, system_label. destruct ev as [ev|], (closes p); try done; simpl.
  - destruct (copy_step _ _ _ _) as [c|] eqn:E; [|done]. intros [= <-]. apply copy_step_rank in E.
    simpl. lia.
  - unfold copy_rank. destruct (copying _); [done|]. intros [= <-]. simpl. lia.
  - intros [= <-]. simpl. lia.
Qed.

Lemma relay_rank_step r l r' :
  relay_step r l = Some r' -> relay_rank r' + Z.b2z (system_label l) <= relay_rank r.
Proof.
  destruct l as [sd ev|]; unfold relay_step, relay_rank.
  - destruct (pump_step _ _ _ _) as [p|] eqn:E; [|done]. intros [= <-].
    apply (pump_step_rank _ _ _ sd) in E. destruct sd, (system_label _); simpl in *; lia.
  - destruct (channelOver r); [done|]. intros [= <-]. simpl. lia.
Qed.

Lemma relay_rank_run ls r r' :
  run relay_step r ls = Some r' -> relay_rank r' + count_if system_label ls <= relay_rank r.
Proof.
  revert r. induction ls as [|l ls IH]; intros r; simpl; [intros [= <-]; lia|].
  destruct (relay_step r l) as [t|] eqn:Hs; [|done]. intros Hr.
  pose proof (relay_rank_step _ _ _ Hs). specialize (IH _ Hr). lia.
Qed.

(** A goroutine with no step of its own left has ended, or waits for an end that is
    not over. *)
Definition waiting (r : Relay) (sd : side) : Prop :=
  let c := pc (io (side_pump r sd)) in
  past_inbound (side_pump r sd) = false /\ ended (side_pump r sd) = false /\
  (c = Reading /\ source_over r sd = false \/ (exists data, c = Writing data) /\ dest_over r sd = false).

Lemma relay_stuck r sd :
  (forall l, system_label l = true -> relay_step r l = None) ->
  ended (side_pump r sd) = true \/ waiting r sd.
Proof.
  intros H. pose proof (H (Pumps sd DeferredClose) eq_refl) as H1.
  pose proof (fun ev => H (Pumps sd (Io ev))) as H2. unfold waiting, past_inbound, ended.
  unfold relay_step, pump_step in *.
  destruct (closes (side_pump r sd)) eqn:Ec; simpl in *; [right|done|by left].
  split_and!; [done..|]. destruct (copying _) eqn:E; [|done].
  destruct (copy_closed (source_over r sd) (dest_over r sd) (io (side_pump r sd)))
    as [F|?]; [|by rewrite F in E|done].
  intros ev Hev. specialize (H2 ev Hev). by destruct (copy_step _ _ _ _).
Qed.

(** * Properties *)

(** C16. A forwarded connection is copied faithfully and ends as a whole.  At any moment
    each side has received a prefix of what the other sent, all of it while the
    goroutine is reading and also when it ended without a failed write.  The two
    goroutines take at most six steps of their own, closes included; and when neither
    has one left, then either both copy and neither end was closed, and if the client
    has closed the channel it is because the inbound connection takes no more data;
    or both have ended and both ends were closed; or one has ended, both ends were
    closed, and the other waits for the client to answer the close of the channel.  So
    neither end is left open by the end of one goroutine, and once the client has
    answered nothing of the connection is left.  A connection the client refuses is
    closed at once, with no goroutine. *)
Theorem relay_faithful accepted r :
  relay_reachable accepted r ->
  (forall sd, let c := io (side_pump r sd) in
     output c `prefix_of` input c /\
     (failed c = false -> (forall data, pc c <> Writing data) -> output c = input c)) /\
  ((forall l, system_label l = true -> relay_step r l = None) ->
   (copying (pc (io (toChannel r))) = true /\ copying (pc (io (toInbound r))) = true /\
    inboundClosed r = false /\ closeSent r = false /\
    (channelOver r = true -> exists data, pc (io (toInbound r)) = Writing data)) \/
   (ended (toChannel r) = true /\ ended (toInbound r) = true /\
    inboundClosed r = true /\ closeSent r = accepted) \/
   (ended (toChannel r) <> ended (toInbound r) /\
    inboundClosed r = true /\ closeSent r = true /\ channelOver r = false)) /\
  (forall ls r', run relay_step (relay_open accepted) ls = Some r' -> count_if system_label ls <= 6) /\
  (accepted = false ->
   inboundClosed r = true /\ ended (toChannel r) = true /\ ended (toInbound r) = true).
Proof.
  intros Hr. destruct (rinv_reachable _ _ Hr) as [H1 H2 H3 H4 H5]. split_and!.
  - intros sd c. assert (copied c) as Hc by (destruct sd; [apply H1|apply H2]).
    split; [by apply copied_prefix|by apply copied_all].
  - intros Hstuck. pose proof (relay_stuck r ToChannel Hstuck) as S1.
    pose proof (relay_stuck r ToInbound Hstuck) as S2. unfold waiting in S1, S2. simpl in S1, S2.
    clear Hstuck Hr H1 H2. destruct accepted; [clear H5|right; left].
    2: { destruct (H5 eq_refl) as [E1 E2]. rewrite H3, H4. unfold past_inbound, ended in *.
         by destruct (closes (toChannel r)). }
    rewrite H3, H4 in *. unfold past_inbound, ended, copying in *.
    destruct (closes (toChannel r)), (closes (toInbound r)); simpl in *;
      destruct S1 as [S1|(E1 & E2 & S1)], S2 as [S2|(E3 & E4 & S2)]; try done.
    + left. destruct S1 as [[-> _]|[[data ->] _]], S2 as [[-> E]|[[data' ->] _]]; split_and!; try done;
        intros; (congruence || by eexists).
    + right. right. destruct S1 as [[_ ?]|[_ ?]]; done.
    + right. right. destruct S2 as [[_ ?]|[_ ?]]; done.
    + right. left. done.
  - intros ls r' H%relay_rank_run. assert (0 <= relay_rank r') by (unfold relay_rank; lia).
    assert (relay_rank (relay_open accepted) <= 6) by by destruct accepted. lia.
  - intros ->. destruct (H5 eq_refl) as [E1 E2]. split_and!; [|done..]. rewrite H3.
    unfold past_inbound, ended in *. by destruct (closes (toChannel r)).
Qed.

(** The local program ends the connection while the client is sending: the channel is
    closed, and the copy from it ends when the client answers. *)
Definition exampleRelayRun : list relay_event :=
  [Pumps ToChannel (Io (Data ["a"]%char)); Pumps ToChannel (Io WriteOk);
   Pumps ToChannel (Io SourceEnd); Pumps ToChannel DeferredClose; Pumps ToChannel DeferredClose;
   ClientClose; Pumps ToInbound (Io SourceClosed); Pumps ToInbound DeferredClose; Pumps ToInbound DeferredClose].
Definition exampleRelay : Relay :=
  Eval vm_compute in default (relay_open true) (run relay_step (relay_open true) exampleRelayRun).

(** Before the client has answered. *)
Definition waitingRelay : Relay :=
  Eval vm_compute in default (relay_open true) (run relay_step (relay_open true) (take 5 exampleRelayRun)).

Lemma relay_faithful_witness :
  output (io (toChannel exampleRelay)) = input (io (toChannel exampleRelay)) /\
  closeSent exampleRelay = true /\ count_if system_label exampleRelayRun <= 6 /\
  channelOver waitingRelay = false.
Proof.
  destruct (relay_faithful true exampleRelay) as (H1 & H2 & H3 & _).
  { apply (run_reachable relay_step exampleRelayRun). vm_compute. reflexivity. }
  split; [apply (H1 ToChannel); [reflexivity|discriminate]|]. split; [|split].
  - destruct H2 as [(_ & _ & H & _)|[(_ & _ & _ & H)|(_ & _ & H & _)]]; [|discriminate H|exact H|exact H].
    intros [[] [[]|]|] E; (discriminate E || reflexivity).
  - apply (H3 exampleRelayRun exampleRelay). vm_compute. reflexivity.
  - destruct (relay_faithful true waitingRelay) as (_ & H & _).
    { apply (run_reachable relay_step (take 5 exampleRelayRun)). vm_compute. reflexivity. }
    destruct H as [(_ & _ & H & _)|[(_ & H & _)|(_ & _ & _ & H)]]; [|discriminate H|discriminate H|exact H].
    intros [[] [[]|]|] E; (discriminate E || reflexivity).
Defined.
