(* ===== verification/SshStdio.v ===== *)
(** The input and output of a session, [runWithPty] and [runWithoutPty] of
    [internal/sshserver/server.go]: the goroutine that copies the client's input to
    the command, which also closes the command's stdin when there is no terminal,
    and the copies of its output back, one with a terminal (the pty master carries
    both directions), one each for stdout and stderr without. *)

From S2P Require Import Prelude IoCopy.

Open Scope Z_scope.

(** * State *)

(** [inClosed] is [stdin.Close], or [f.Close] with a terminal; [childExited] what
    [cmd.Wait] waits for. *)
Record Stdio := mkStdio {
  withPty : bool;
  toCommand : Copy; fromStdout : Copy; fromStderr : Copy;
  inClosed : bool; childExited : bool;
}.

Definition newStdio (pty : bool) : Stdio := mkStdio pty newCopy newCopy newCopy false false.

Inductive io_label :=
| In (ev : io_event) | Out (ev : io_event) | ErrOut (ev : io_event)
| CloseIn          (* the statement that closes the command's input *)
| CommandExit.

(** * Steps *)

Definition returned (c : Copy) : bool := negb (copying (pc c)).

(** [runWithPty]: one copy in each direction; the master is closed after the copy of
    the output has returned. *)
Definition runWithPty_io (s : Stdio) (l : io_label) : option Stdio :=
  match l with
  | In ev =>
      c ← copy_step false (inClosed s) (toCommand s) ev;
      Some (mkStdio (withPty s) c (fromStdout s) (fromStderr s) (inClosed s) (childExited s))
  | Out ev =>
      c ← copy_step (inClosed s) false (fromStdout s) ev;
      Some (mkStdio (withPty s) (toCommand s) c (fromStderr s) (inClosed s) (childExited s))
  | CloseIn =>
      if returned (fromStdout s) && negb (inClosed s)
      then Some (mkStdio (withPty s) (toCommand s) (fromStdout s) (fromStderr s) true (childExited s))
      else None
  | ErrOut _ | CommandExit => None
  end.

(** [runWithoutPty]: the goroutine closes stdin after its copy, and [cmd.Wait] closes
    it once the command exited; stdout and stderr are copied separately. *)
Definition runWithoutPty_io (s : Stdio) (l : io_label) : option Stdio :=
  match l with
  | In ev =>
      c ← copy_step false (inClosed s) (toCommand s) ev;
      Some (mkStdio (withPty s) c (fromStdout s) (fromStderr s) (inClosed s) (childExited s))
  | Out ev =>
      c ← copy_step false false (fromStdout s) ev;
      Some (mkStdio (withPty s) (toCommand s) c (fromStderr s) (inClosed s) (childExited s))
  | ErrOut ev =>
      c ← copy_step false false (fromStderr s) ev;
      Some (mkStdio (withPty s) (toCommand s) (fromStdout s) c (inClosed s) (childExited s))
  | CloseIn =>
      if (returned (toCommand s) || childExited s) && negb (inClosed s)
      then Some (mkStdio (withPty s) (toCommand s) (fromStdout s) (fromStderr s) true (childExited s))
      else None
  | CommandExit =>
      if childExited s then None
      else Some (mkStdio (withPty s) (toCommand s) (fromStdout s) (fromStderr s) (inClosed s) true)
  end.

Definition stdio_step (s : Stdio) (l : io_label) : option Stdio :=
  if withPty s then runWithPty_io s l else runWithoutPty_io s l.

Definition stdio_reachable (pty : bool) (s : Stdio) : Prop :=
  rtc (lts_step stdio_step) (newStdio pty) s.

(** What the server does without the client and the command. *)
Definition system_label (l : io_label) : bool :=
  match l with In ev | Out ev | ErrOut ev => local_event ev | CloseIn => true | CommandExit => false end.

(** * Invariant *)

Record ioinv (pty : bool) (s : Stdio) : Prop := mkIoinv {
  ioinv_pty : withPty s = pty;
  ioinv_in : copied (toCommand s);
  ioinv_out : copied (fromStdout s);
  ioinv_err : copied (fromStderr s);
  ioinv_exec : pty = false -> inClosed s = true -> returned (toCommand s) = true \/ childExited s = true;
  ioinv_master : pty = true -> inClosed s = true -> returned (fromStdout s) = true;
  ioinv_single : pty = true -> fromStderr s = newCopy;
}.

Lemma returned_step sc dc c ev c' : copy_step sc dc c ev = Some c' -> returned c = false.
Proof. unfold copy_step, returned. by destruct (pc c), ev. Qed.

Lemma ioinv_step pty s l s' : ioinv pty s -> stdio_step s l = Some s' -> ioinv pty s'.
Proof.
  intros [<- H1 H2 H3 H4 H5 H6] Hs. unfold stdio_step, runWithPty_io, runWithoutPty_io in Hs.
  destruct (withPty s) eqn:Ep, l as [ev|ev|ev| |]; simpl in Hs; try discriminate Hs;
    try (destruct (copy_step _ _ _ ev) as [c|] eqn:E; [|discriminate Hs];
         pose proof (returned_step _ _ _ _ _ E); apply copied_step in E; [|done]);
    try (destruct (_ && _) eqn:E; [apply andb_true_iff in E as [E _]|discriminate Hs]);
    try (destruct (childExited s) eqn:Ec; [discriminate Hs|]);
    injection Hs as <-; split; simpl; try done; intros; intuition congruence ||
    (try apply orb_true_iff in E; intuition congruence).
Qed.

Lemma ioinv_reachable pty s : stdio_reachable pty s -> ioinv pty s.
Proof.
  intros Hr. refine (rtc_invariant _ (ioinv pty) _ _ _ Hr _); [|by split].
  intros t t' Ht [l Hs]. by eapply ioinv_step.
Qed.

(** * Properties *)

(** C17. A session carries its bytes unchanged: what reaches the command is a prefix of
    what the client sent, and what reaches the client on each stream a prefix of
    what the command wrote to it, nothing missing unless a write failed; with a
    terminal there is a single output stream.  Without a terminal the command's
    stdin is not closed early: while the command runs it is closed only after all
    that the client sent was written or a write failed; and it is closed in the
    end: with nothing left to do and the client done sending, it is.  With a
    terminal the master is not closed before the output was copied. *)
Theorem stdio_faithful pty s :
  stdio_reachable pty s ->
  (forall c, c ∈ [toCommand s; fromStdout s; fromStderr s] ->
     output c `prefix_of` input c /\
     (failed c = false -> (forall data, pc c <> Writing data) -> output c = input c)) /\
  (pty = true -> fromStderr s = newCopy /\ (inClosed s = true -> pc (fromStdout s) = Finished)) /\
  (pty = false ->
   (inClosed s = true -> childExited s = false ->
    failed (toCommand s) = false -> output (toCommand s) = input (toCommand s)) /\
   ((forall l, system_label l = true -> stdio_step s l = None) ->
    pc (toCommand s) = Finished -> inClosed s = true)).
Proof.
  intros Hr. destruct (ioinv_reachable _ _ Hr) as [Hp H1 H2 H3 H4 H5 H6].
  assert (forall c, returned c = true -> pc c = Finished) as Hret.
  { intros c. unfold returned. by destruct (pc c). }
  split_and!.
  - intros c Hc. assert (copied c) by set_solver. split; [by apply copied_prefix|by apply copied_all].
  - intros E. split; [by apply H6|]. intros Hi. by apply Hret, H5.
  - intros E. split.
    + intros Hi Hx Hf. apply copied_all; [done..|]. intros data.
      destruct (H4 E Hi) as [Hc|]; [|congruence]. by rewrite (Hret _ Hc).
    + intros Hs Hc. specialize (Hs CloseIn eq_refl). unfold stdio_step, runWithoutPty_io, returned in Hs.
      rewrite Hp, E, Hc in Hs. simpl in Hs. by destruct (inClosed s).
Qed.

(** A command that reads its input to the end. *)
Definition exampleStdio : Stdio :=
  mkStdio false (mkCopy Finished ["h"; "i"]%char ["h"; "i"]%char false)
    (mkCopy Reading ["2"]%char ["2"]%char false) newCopy true false.

Lemma stdio_faithful_witness :
  output (toCommand exampleStdio) = input (toCommand exampleStdio) /\ inClosed exampleStdio = true.
Proof.
  destruct (stdio_faithful false exampleStdio) as (_ & _ & H).
  - apply (run_reachable stdio_step [In (Data ["h"; "i"]%char); In WriteOk; In SourceEnd; CloseIn;
      Out (Data ["2"]%char); Out WriteOk]). vm_compute. reflexivity.
  - destruct (H eq_refl) as [H1 H2]. split; [apply H1; reflexivity|].
    apply H2; [|reflexivity]. intros [[]|[]|[]| |]; (discriminate || reflexivity).
Defined.
