(* ===== verification/ExitCode.v ===== *)
(** The exit status a session reports, [exitCode] of
    [internal/sshserver/server.go], over the wait status word of the kernel and
    the error [exec.Cmd.Wait] makes of it. *)

From S2P Require Import Prelude.

Open Scope Z_scope.

(** * [syscall.WaitStatus] on Linux *)

Definition Exited (w : Z) : bool := Z.land w 127 =? 0.
Definition Signaled (w : Z) : bool := negb (Z.land w 127 =? 127) && negb (Z.land w 127 =? 0).
Definition ExitStatus (w : Z) : Z :=
  if negb (Exited w) then -1 else Z.land (Z.shiftr w 8) 255.
Definition Signal (w : Z) : Z := if negb (Signaled w) then -1 else Z.land w 127.

(** * [exec.Cmd.Wait] *)

(** nil, an [*exec.ExitError] holding the wait status, or another error. *)
Inductive wait_error := WaitNil | WaitExit (w : Z) | WaitOther.

(** A process that did not succeed gives an exit error; a failure of the copies
    to and from it is reported only when it succeeded. *)
Definition CmdWait (w : Z) (copyFailed : bool) : wait_error :=
  if negb (Exited w && (ExitStatus w =? 0)) then WaitExit w
  else if copyFailed then WaitOther else WaitNil.

(** * [exitCode] *)

Definition exitCodeGeneralError : Z := 1.
Definition exitCodeCommandNotExecutable : Z := 127.
Definition signalExitCodeBase : Z := 128.

Definition exitCode (err : wait_error) : Z :=
  match err with
  | WaitNil => 0
  | WaitOther => exitCodeGeneralError
  | WaitExit w =>
      let code := ExitStatus w in
      if 0 <=? code then code
      else if Signaled w then signalExitCodeBase + Signal w
      else exitCodeGeneralError
  end.

(** The wait status words the kernel builds. *)
Definition exit_word (code : Z) : Z := Z.shiftl code 8.
Definition signal_word (sig : Z) (core : bool) : Z := Z.lor sig (if core then 128 else 0).

(** * Lemmas *)

Lemma land_127 w : Z.land w 127 = w mod 128.
Proof. change 127 with (Z.ones 7). rewrite Z.land_ones by lia. done. Qed.

Lemma land_255 w : Z.land w 255 = w mod 256.
Proof. change 255 with (Z.ones 8). rewrite Z.land_ones by lia. done. Qed.

Lemma exit_word_mod code : exit_word code mod 128 = 0.
Proof.
  unfold exit_word. rewrite Z.shiftl_mul_pow2 by lia.
  replace (code * 2 ^ 8) with (code * 2 * 128) by lia. apply Z.mod_mul. lia.
Qed.

Lemma ExitStatus_exit_word code : 0 <= code <= 255 -> ExitStatus (exit_word code) = code.
Proof.
  intros Hc. unfold ExitStatus, Exited. rewrite land_127, exit_word_mod. simpl.
  rewrite land_255. unfold exit_word. rewrite Z.shiftr_shiftl_l by lia. simpl.
  apply Z.mod_small. lia.
Qed.

Lemma signal_word_land sig core : 0 < sig < 127 -> Z.land (signal_word sig core) 127 = sig.
Proof.
  intros Hs. unfold signal_word. rewrite Z.land_lor_distr_l.
  assert (Z.land (if core then 128 else 0) 127 = 0) as -> by by destruct core.
  rewrite Z.lor_0_r, land_127. apply Z.mod_small. lia.
Qed.

(** * Properties *)

(** Exit statuses are faithful: a process that exits with a code
    from 0 to 255 is reported with that code (a failed copy turns only a success
    into 1), and a process killed by a signal, core dump or not, as 128 plus the
    signal number. *)
Theorem exitCode_faithful :
  (forall code copyFailed, 0 <= code <= 255 ->
     exitCode (CmdWait (exit_word code) copyFailed) =
       if (code =? 0) && copyFailed then 1 else code) /\
  (forall sig core copyFailed, 0 < sig < 127 ->
     exitCode (CmdWait (signal_word sig core) copyFailed) = 128 + sig).
Proof.
  split.
  - intros code cf Hc. unfold CmdWait. rewrite ExitStatus_exit_word by done.
    unfold Exited. rewrite land_127, exit_word_mod. simpl.
    destruct (Z.eqb_spec code 0) as [->|]; simpl; [by destruct cf|].
    rewrite ExitStatus_exit_word by done. by destruct (Z.leb_spec 0 code); [|lia].
  - intros sig core cf Hs. pose proof (signal_word_land sig core Hs) as E.
    unfold CmdWait, exitCode, Signal, Signaled, ExitStatus, Exited. rewrite E.
    assert ((sig =? 0) = false) as E0 by lia. assert ((sig =? 127) = false) as E1 by lia.
    rewrite E0. simpl. by rewrite E, E0, E1.
Qed.

Lemma exitCode_faithful_witness :
  exitCode (CmdWait (exit_word 3) false) = 3 /\ exitCode (CmdWait (signal_word 9 true) false) = 137.
Proof.
  split.
  - apply (proj1 exitCode_faithful 3 false). lia.
  - apply (proj2 exitCode_faithful 9 true false). lia.
Defined.

(** Whatever the wait status word, the status sent to the client
    fits the byte a shell reports, and zero is sent only for a process that
    exited with code zero. *)
Theorem exitCode_bounds w copyFailed :
  0 <= exitCode (CmdWait w copyFailed) <= 255 /\
  (exitCode (CmdWait w copyFailed) = 0 -> Exited w = true /\ ExitStatus w = 0).
Proof.
  unfold CmdWait. destruct (Exited w && (ExitStatus w =? 0)) eqn:E.
  - apply andb_true_iff in E as [E1 E2]. apply Z.eqb_eq in E2. split; [|done].
    destruct copyFailed; simpl; unfold exitCodeGeneralError; lia.
  - simpl. unfold ExitStatus in *. destruct (Exited w) eqn:Ex; simpl in *.
    + pose proof (Z.mod_pos_bound (Z.shiftr w 8) 256 eq_refl). rewrite land_255 in *.
      destruct (Z.leb_spec 0 (Z.shiftr w 8 mod 256)); [|lia]. apply Z.eqb_neq in E.
      split; [lia|done].
    + unfold Signal, Exited in *. destruct (Signaled w) eqn:Es; simpl.
      * rewrite land_127. pose proof (Z.mod_pos_bound w 128 eq_refl).
        unfold signalExitCodeBase. split; lia.
      * unfold exitCodeGeneralError. split; lia.
Qed.
