(* ===== verification/SshProcess.v ===== *)
(** One session from its start to its exit status,
    [internal/sshserver/server.go]: [runWithPty], [runWithoutPty],
    [watchWindowSize], [setWinsize], [sessionCmd] (signalling against reaping),
    [terminateOnDisconnect] and [finish].

    Four parties run concurrently once the command is started: the kernel's view
    of the process group, the goroutine of the session, which copies, waits for
    the process and reports its status, the goroutine that applies window
    changes, and the watcher, which signals the group when the client goes away.
    Each atomic action of theirs is a step of one transition system. *)

From S2P Require Import Prelude ExitCode.

Open Scope Z_scope.

(** * Parties *)

(** The process as the kernel has it; after [Reaped] its number is free again as
    soon as no other process of the group is left. *)
Inductive proc_state := NoProc | Running | Zombie | Reaped.

Inductive signal := SIGHUP | SIGKILL.

#[export] Instance signal_eq_dec : EqDecision signal.
Proof. solve_decision. Defined.

(** [ssh.Window], and the [pty.Winsize] made of it. *)
Record Window := mkWindow { Width : Z; Height : Z }.
Record Winsize := mkWinsize { Rows : Z; Cols : Z }.

Definition winsize (win : Window) : Winsize :=
  mkWinsize (uint16 (Height win)) (uint16 (Width win)).

(** The processes of the session.  [proc] is the one the server started, the leader of
    the process group, and [word] its wait status once it ended; [bg]: other processes
    of the group still hold the session's output; [dying]: SIGKILL was delivered to
    the group.  A signal reaches the group only.  [away]: processes that have left the
    group still hold the output (a daemon that called [setsid], a job to which an
    interactive shell gave a group of its own); [strayed]: the leader itself has moved
    to another group, which without a terminal it may.  A process that comes back into
    the group is still counted as one that left it. *)
Record Group := mkGroup {
  proc : proc_state; word : Z; bg : bool; dying : bool; away : bool; strayed : bool;
}.

(** The session's goroutine: starting the command, the first [setWinsize], the
    output copy, the three statements that close the pty, [cmd.Wait] until the
    process is reaped and until its output is drained, setting [reaped], sending
    the status, and the two halves of the deferred [stopWatch]; [MFailed] is the
    early return of a command that did not start. *)
Inductive main_pc :=
| MStart | MSize | MCopy | MStopResize | MJoinResize | MCloseF
| MWait | MDrain | MMark | MExit | MStop | MJoin | MReturned | MFailed.

(** The goroutine of [watchWindowSize]. *)
Inductive resize_pc := RIdle | RSelect | RSet (win : Window) | RDone.

(** The watcher: its first [select], the two halves of [signalGroup SIGHUP]
    around the check of the flag, the [select] of the grace period, the two
    halves of [signalGroup SIGKILL], and its end. *)
Inductive watch_pc := WIdle | WSelect | WHup | WHupKill | WGrace | WKill | WKillKill | WFinished.

(** The pty: the windows on the channel [winCh] that are not yet received and whether
    the channel is closed, [close(stop)], [f.Close], every [pty.Setsize] with whether
    the master was closed by then, and every window the session was given: that of the
    pty request and all that came over the channel. *)
Record Tty := mkTty {
  wins : list Window; winClosed : bool;
  stopResize : bool; fClosed : bool;
  sizes : list (Winsize * bool); asked : list Window;
}.

Record PState := mkPState {
  isPty : bool;
  group : Group;
  reaped : bool;         (* sessionCmd.reaped *)
  copyFailed : bool;     (* the error of the copies cmd.Wait awaits *)
  main : main_pc;
  watch : watch_pc;
  resize : resize_pc;
  tty : Tty;
  ctxDone : bool;        (* the client is gone *)
  doneClosed : bool;     (* close(done) *)
  exits : list Z;        (* session.Exit *)
  kills : list (signal * bool);   (* syscall.Kill; whether the group still had a process *)
}.

(** [queue] is what the SSH library has put on the window channel by then; it is
    documented to be sent the window changes, and may also be sent the first size. *)
Definition initPState (pty : bool) (win : Window) (queue : list Window) : PState :=
  mkPState pty (mkGroup NoProc 0 false false false false) false false MStart WIdle RIdle
    (mkTty queue false false false [] (win :: queue)) false false [] [].

Inductive plabel :=
| StartOk | StartFail (stdinPipe : bool)
| MainStep       (* the next statement of the session's goroutine *)
| CopyEnd        (* the output copy ends early: the client's end of it is gone *)
| CopyAbandoned  (* the copies cmd.Wait awaits fail with the output still open *)
| PExit (w : Z)  (* the process ends by itself with wait status [w] *)
| PKilled        (* the process ends because of SIGKILL *)
| Spawn | BgExit | BgKilled      (* the rest of the group *)
| Leave | AwayExit | Stray       (* processes outside the group *)
| Disconnect     (* the client goes away *)
| WatchDone      (* the watcher's select receives from done *)
| WatchGone      (* the watcher's select receives from the context *)
| WatchTimer     (* the grace period elapses *)
| WatchStep
| WinSend (win : Window) | WinClose
| ResizeStop | ResizeRecv | ResizeEOF | ResizeSet.

(** * Updates *)

Definition set_main (s : PState) (m : main_pc) : PState :=
  mkPState (isPty s) (group s) (reaped s) (copyFailed s) m (watch s) (resize s) (tty s)
    (ctxDone s) (doneClosed s) (exits s) (kills s).
Definition set_watch (s : PState) (w : watch_pc) : PState :=
  mkPState (isPty s) (group s) (reaped s) (copyFailed s) (main s) w (resize s) (tty s)
    (ctxDone s) (doneClosed s) (exits s) (kills s).
Definition set_resize (s : PState) (r : resize_pc) (t : Tty) : PState :=
  mkPState (isPty s) (group s) (reaped s) (copyFailed s) (main s) (watch s) r t
    (ctxDone s) (doneClosed s) (exits s) (kills s).
Definition set_group (s : PState) (g : Group) : PState :=
  mkPState (isPty s) g (reaped s) (copyFailed s) (main s) (watch s) (resize s) (tty s)
    (ctxDone s) (doneClosed s) (exits s) (kills s).
Definition set_exit (s : PState) (m : main_pc) (code : Z) : PState :=
  mkPState (isPty s) (group s) (reaped s) (copyFailed s) m (watch s) (resize s) (tty s)
    (ctxDone s) (doneClosed s) (exits s ++ [code]) (kills s).
Definition set_copyFailed (s : PState) (m : main_pc) (failed : bool) : PState :=
  mkPState (isPty s) (group s) (reaped s) failed m (watch s) (resize s) (tty s)
    (ctxDone s) (doneClosed s) (exits s) (kills s).

Definition set_proc (g : Group) (p : proc_state) (w : Z) : Group :=
  mkGroup p w (bg g) (dying g) (away g) (strayed g).
Definition set_bg (g : Group) (b : bool) : Group :=
  mkGroup (proc g) (word g) b (dying g) (away g) (strayed g).
Definition set_away (g : Group) (b : bool) : Group :=
  mkGroup (proc g) (word g) (bg g) (dying g) b (strayed g).
Definition set_strayed (g : Group) (b : bool) : Group :=
  mkGroup (proc g) (word g) (bg g) (dying g) (away g) b.

Definition leader_running (g : Group) : bool := match proc g with Running => true | _ => false end.
Definition leader_left (g : Group) : bool :=
  match proc g with Running | Zombie => true | _ => false end.

(** The group still has a process, so its number cannot have been reused. *)
Definition group_left (g : Group) : bool := leader_left g && negb (strayed g) || bg g.

(** A process that no signal to the group reaches keeps the session: it holds the
    output, or it is the leader. *)
Definition held (g : Group) : bool := away g || (leader_running g && strayed g).

(** * The window watcher *)

(** [setWinsize] on the master [f]. *)
Definition setWinsize (t : Tty) (win : Window) : Tty :=
  mkTty (wins t) (winClosed t) (stopResize t) (fClosed t)
    (sizes t ++ [(winsize win, fClosed t)]) (asked t).

(** One turn of the loop of [watchWindowSize]; with both channels ready either
    case may be taken. *)
Definition watchWindowSize_step (s : PState) (l : plabel) : option PState :=
  let t := tty s in
  match l, resize s with
  | ResizeStop, RSelect => if stopResize t then Some (set_resize s RDone t) else None
  | ResizeRecv, RSelect =>
      match wins t with
      | win :: ws =>
          Some (set_resize s (RSet win)
                  (mkTty ws (winClosed t) (stopResize t) (fClosed t) (sizes t) (asked t)))
      | [] => None
      end
  | ResizeEOF, RSelect =>
      match wins t with
      | [] => if winClosed t then Some (set_resize s RDone t) else None
      | _ => None
      end
  | ResizeSet, RSet win => Some (set_resize s RSelect (setWinsize t win))
  | _, _ => None
  end.

(** * The disconnect watcher *)

(** The mutex of [sessionCmd] is held by the watcher between its check of
    [reaped] and the system call; the session's goroutine takes it only to set
    the flag, in one step. *)
Definition locked (s : PState) : bool :=
  match watch s with WHupKill | WKillKill => true | _ => false end.

(** [signalGroup]: under the lock, nothing once [reaped] is set, the system call
    otherwise. *)
Definition signalGroup_check (s : PState) (kill skip : watch_pc) : PState :=
  if reaped s then set_watch s skip else set_watch s kill.

Definition signalGroup_kill (s : PState) (sig : signal) (next : watch_pc) : PState :=
  let g := group s in
  let killed := match sig with SIGKILL => group_left g | SIGHUP => false end in
  mkPState (isPty s)
    (mkGroup (proc g) (word g) (bg g) (dying g || killed) (away g) (strayed g)) (reaped s)
    (copyFailed s) (main s) next (resize s) (tty s) (ctxDone s) (doneClosed s) (exits s)
    (kills s ++ [(sig, group_left g)]).

(** The goroutine of [terminateOnDisconnect]. *)
Definition terminateOnDisconnect_step (s : PState) (l : plabel) : option PState :=
  match l, watch s with
  | WatchDone, (WSelect | WGrace) => if doneClosed s then Some (set_watch s WFinished) else None
  | WatchGone, WSelect => if ctxDone s then Some (set_watch s WHup) else None
  | WatchTimer, WGrace => Some (set_watch s WKill)
  | WatchStep, WHup => Some (signalGroup_check s WHupKill WGrace)
  | WatchStep, WHupKill => Some (signalGroup_kill s SIGHUP WGrace)
  | WatchStep, WKill => Some (signalGroup_check s WKillKill WFinished)
  | WatchStep, WKillKill => Some (signalGroup_kill s SIGKILL WFinished)
  | _, _ => None
  end.

(** * The session's goroutine *)

(** The command runs and its watcher with it. *)
Definition started (s : PState) (m : main_pc) : PState :=
  set_watch (set_main (set_group s (mkGroup Running 0 false false false false)) m) WSelect.

(** [runWithPty] up to its first statement after the start: [pty.Start] fails, or
    the watcher is started and the first size comes next. *)
Definition runWithPty_start (s : PState) (ok : bool) : PState :=
  if ok then started s MSize else set_exit s MFailed exitCodeGeneralError.

(** [runWithoutPty] up to [finish]: [StdinPipe] fails, [cmd.Start] fails, or the
    watcher is started. *)
Definition runWithoutPty_start (s : PState) (stdinPipe ok : bool) : PState :=
  if stdinPipe then set_exit s MFailed exitCodeGeneralError
  else if ok then started s MWait
  else set_exit s MFailed exitCodeCommandNotExecutable.

(** The statements of [runWithPty] from the first [setWinsize] to [f.Close].  The
    output copy ends when no process is left that can write to the terminal, in the
    group or outside. *)
Definition runWithPty_step (s : PState) : option PState :=
  let t := tty s in
  match main s with
  | MSize =>
      match asked t with
      | win :: _ => Some (set_main (set_resize s RSelect (setWinsize t win)) MCopy)
      | [] => None
      end
  | MCopy =>
      if negb (leader_running (group s)) && negb (bg (group s)) && negb (away (group s))
      then Some (set_main s MStopResize) else None
  | MStopResize =>
      Some (set_main (set_resize s (resize s)
              (mkTty (wins t) (winClosed t) true (fClosed t) (sizes t) (asked t))) MJoinResize)
  | MJoinResize => match resize s with RDone => Some (set_main s MCloseF) | _ => None end
  | MCloseF =>
      Some (set_main (set_resize s (resize s)
              (mkTty (wins t) (winClosed t) (stopResize t) true (sizes t) (asked t))) MWait)
  | _ => None
  end.

(** [sessionCmd.wait]: [cmd.Wait] reaps the process and, without a pty, returns
    only once no process is left that can write to the output; then the flag is set under the
    lock. *)
Definition wait_step (s : PState) : option PState :=
  match main s with
  | MWait =>
      match proc (group s) with
      | Zombie =>
          Some (set_main (set_group s (set_proc (group s) Reaped (word (group s))))
                  (if isPty s then MMark else MDrain))
      | _ => None
      end
  | MDrain => if bg (group s) || away (group s) then None else Some (set_main s MMark)
  | MMark =>
      if locked s then None
      else Some (mkPState (isPty s) (group s) true (copyFailed s) MExit (watch s) (resize s)
                   (tty s) (ctxDone s) (doneClosed s) (exits s) (kills s))
  | _ => None
  end.

(** [finish] after [wait]: the status is sent. *)
Definition finish_step (s : PState) : option PState :=
  Some (set_exit s MStop (exitCode (CmdWait (word (group s)) (copyFailed s)))).

(** The function [terminateOnDisconnect] returns: [close(done)], then wait for the
    watcher. *)
Definition stopWatch_step (s : PState) : option PState :=
  match main s with
  | MStop =>
      Some (mkPState (isPty s) (group s) (reaped s) (copyFailed s) MJoin (watch s) (resize s)
              (tty s) (ctxDone s) true (exits s) (kills s))
  | MJoin => match watch s with WFinished => Some (set_main s MReturned) | _ => None end
  | _ => None
  end.

Definition main_step (s : PState) : option PState :=
  match main s with
  | MSize | MCopy | MStopResize | MJoinResize | MCloseF => runWithPty_step s
  | MWait | MDrain | MMark => wait_step s
  | MExit => finish_step s
  | MStop | MJoin => stopWatch_step s
  | MStart | MReturned | MFailed => None
  end.

(** * All the parties *)

(** What the processes do, and what SIGKILL does to those of the group.  A process of
    the group that was not killed, or a leader that has left it, may start others or
    leave, also outside the group. *)
Definition kernel_step (s : PState) (l : plabel) : option PState :=
  let g := group s in
  match l, proc g with
  | PExit w, Running => Some (set_group s (set_proc g Zombie w))
  | PKilled, Running =>
      if dying g && negb (strayed g) then Some (set_group s (set_proc g Zombie 9)) else None
  | Spawn, _ =>
      if leader_running g && negb (strayed g) && negb (dying g) && negb (bg g)
      then Some (set_group s (set_bg g true)) else None
  | Leave, _ =>
      if (leader_running g && (strayed g || negb (dying g)) || bg g && negb (dying g)) && negb (away g)
      then Some (set_group s (set_away g true)) else None
  | AwayExit, _ => if away g then Some (set_group s (set_away g false)) else None
  | Stray, Running =>
      if negb (isPty s) && negb (dying g) && negb (strayed g)
      then Some (set_group s (set_strayed g true)) else None
  | BgExit, _ => if bg g then Some (set_group s (set_bg g false)) else None
  | BgKilled, _ => if bg g && dying g then Some (set_group s (set_bg g false)) else None
  | _, _ => None
  end.

Definition pstep (s : PState) (l : plabel) : option PState :=
  let t := tty s in
  match l with
  | StartOk =>
      match main s with
      | MStart => Some (if isPty s then runWithPty_start s true else runWithoutPty_start s false true)
      | _ => None
      end
  | StartFail stdinPipe =>
      match main s with
      | MStart =>
          Some (if isPty s then runWithPty_start s false else runWithoutPty_start s stdinPipe false)
      | _ => None
      end
  | MainStep => main_step s
  | CopyEnd => match main s with MCopy => Some (set_main s MStopResize) | _ => None end
  | CopyAbandoned => match main s with MDrain => Some (set_copyFailed s MMark true) | _ => None end
  | PExit _ | PKilled | Spawn | BgExit | BgKilled | Leave | AwayExit | Stray => kernel_step s l
  | Disconnect =>
      if ctxDone s then None
      else Some (mkPState (isPty s) (group s) (reaped s) (copyFailed s) (main s) (watch s)
                   (resize s) (tty s) true (doneClosed s) (exits s) (kills s))
  | WatchDone | WatchGone | WatchTimer | WatchStep => terminateOnDisconnect_step s l
  | WinSend win =>
      if winClosed t then None
      else Some (set_resize s (resize s)
                   (mkTty (wins t ++ [win]) false (stopResize t) (fClosed t) (sizes t)
                      (asked t ++ [win])))
  | WinClose =>
      if winClosed t then None
      else Some (set_resize s (resize s)
                   (mkTty (wins t) true (stopResize t) (fClosed t) (sizes t) (asked t)))
  | ResizeStop | ResizeRecv | ResizeEOF | ResizeSet => watchWindowSize_step s l
  end.

(** The steps that depend neither on the goodwill of the processes nor on the
    client. *)
Definition system_label (l : plabel) : bool :=
  match l with
  | PExit _ | Spawn | BgExit | Leave | AwayExit | Stray | Disconnect | CopyEnd | CopyAbandoned | WinSend _ | WinClose
  | StartFail _ => false
  | _ => true
  end.

Definition is_WinSend (l : plabel) : bool := match l with WinSend _ => true | _ => false end.

Definition preachable (pty : bool) (win : Window) (queue : list Window) (s : PState) : Prop :=
  rtc (lts_step pstep) (initPState pty win queue) s.

(** * Invariants *)

Definition unstarted (m : main_pc) : bool := match m with MStart | MFailed => true | _ => false end.
Definition marked (m : main_pc) : bool :=
  match m with MExit | MStop | MJoin | MReturned => true | _ => false end.
Definition stopped (m : main_pc) : bool := match m with MJoin | MReturned => true | _ => false end.

Definition leader_of (m : main_pc) (p : proc_state) : Prop :=
  match m with
  | MStart | MFailed => p = NoProc
  | MSize | MCopy | MStopResize | MJoinResize | MCloseF | MWait => p = Running \/ p = Zombie
  | MDrain | MMark | MExit | MStop | MJoin | MReturned => p = Reaped
  end.

(** The status sent so far. *)
Definition exits_of (s : PState) : list Z -> Prop := fun es =>
  match main s with
  | MStop | MJoin | MReturned => es = [exitCode (CmdWait (word (group s)) (copyFailed s))]
  | MFailed => es = [exitCodeGeneralError] \/ (isPty s = false /\ es = [exitCodeCommandNotExecutable])
  | _ => es = []
  end.

(** The signals sent so far. *)
Definition kills_of (w : watch_pc) (ks : list signal) : Prop :=
  match w with
  | WIdle | WSelect | WHup | WHupKill => ks = []
  | WGrace | WKill => ks = [] \/ ks = [SIGHUP]
  | WKillKill => ks = [SIGHUP]
  | WFinished => ks = [] \/ ks = [SIGHUP] \/ ks = [SIGHUP; SIGKILL]
  end.

Record pinv (s : PState) : Prop := mkPinv {
  pinv_leader : leader_of (main s) (proc (group s));
  pinv_watch : watch s = WIdle <-> unstarted (main s) = true;
  pinv_reaped : reaped s = marked (main s);
  pinv_done : doneClosed s = stopped (main s);
  pinv_exits : exits_of s (exits s);
  pinv_lock : locked s = true -> reaped s = false;
  pinv_kills : kills_of (watch s) (fst <$> kills s);
  (* the watcher leaves its first select for a client that is gone only *)
  pinv_gone : ctxDone s = false ->
    kills s = [] /\ (watch s = WIdle \/ watch s = WSelect \/ watch s = WFinished);
  (* past its first signal the watcher has sent it, unless the flag was set *)
  pinv_hup : watch s = WGrace \/ watch s = WKill -> kills s = [] -> reaped s = true;
  (* a watcher that ended before it was told to left a dying or an empty group *)
  pinv_end : watch s = WFinished -> doneClosed s = false -> reaped s = false ->
             dying (group s) = true \/
             ((leader_running (group s) = false \/ strayed (group s) = true) /\ bg (group s) = false);
  pinv_both : watch s = WFinished -> doneClosed s = false -> reaped s = false ->
             fst <$> kills s = [SIGHUP; SIGKILL];
  pinv_strayed : strayed (group s) = true -> isPty s = false;
}.

(** Where the session is with its pty. *)
Definition before_pty (m : main_pc) : bool :=
  match m with MStart | MFailed | MSize => true | _ => false end.
Definition during_pty (m : main_pc) : bool :=
  match m with MCopy | MStopResize | MJoinResize => true | _ => false end.
Definition pty_pc (m : main_pc) : bool :=
  match m with MSize | MCopy | MStopResize | MJoinResize | MCloseF => true | _ => false end.

Definition pending (r : resize_pc) : list Window := match r with RSet win => [win] | _ => [] end.

Definition before_stop (m : main_pc) : bool :=
  match m with MStart | MFailed | MSize | MCopy | MStopResize => true | _ => false end.

Record ptyinv (win : Window) (queue : list Window) (s : PState) : Prop := mkPtyinv {
  ptyinv_pc : pty_pc (main s) = true -> isPty s = true;
  ptyinv_idle : resize s = RIdle <-> before_pty (main s) = true \/ isPty s = false;
  ptyinv_open : fClosed (tty s) = true -> resize s = RDone;
  ptyinv_running : resize s <> RDone -> resize s <> RIdle -> during_pty (main s) = true;
  ptyinv_stop : main s = MJoinResize -> stopResize (tty s) = true;
  ptyinv_closed : Forall (fun z => snd z = false) (sizes (tty s));
  ptyinv_none : resize s = RIdle -> sizes (tty s) = [];
  ptyinv_asked : (win :: queue) `prefix_of` asked (tty s);
  ptyinv_sizes :
    (fst <$> sizes (tty s)) ++ (winsize <$> pending (resize s) ++ wins (tty s)) =
    winsize <$> match resize s with RIdle => tail (asked (tty s)) | _ => asked (tty s) end;
}.

(** Until it is told to stop, the goroutine of the window changes ends only when there
    will be no more of them. *)
Definition eof_inv (s : PState) : Prop :=
  (before_stop (main s) = true -> stopResize (tty s) = false) /\
  (resize s = RDone -> stopResize (tty s) = false -> wins (tty s) = [] /\ winClosed (tty s) = true).

(** Opens a step of the system: the state, the label, every branch taken. *)
Ltac destruct_pstate s :=
  destruct s as [?ip [?p ?wd ?b ?dy ?aw ?st] ?re ?cf ?m ?w ?r [?ws ?wc ?sr ?fc ?sz ?ask] ?cd ?dc ?ex ?ks].
Ltac open_pstep H :=
  unfold pstep, main_step, kernel_step, terminateOnDisconnect_step, watchWindowSize_step,
    runWithPty_start, runWithoutPty_start, started, runWithPty_step, wait_step, finish_step,
    stopWatch_step, signalGroup_check, signalGroup_kill, setWinsize, locked in H;
  simpl in H; branches H; injection H as <-.

Lemma pinv_init pty win queue : pinv (initPState pty win queue).
Proof. split; simpl; naive_solver. Qed.

Lemma kills_sent (ks : list (signal * bool)) k sigs :
  ks.*1 = sigs -> (ks ++ [k]).*1 = sigs ++ [k.1] /\ ks ++ [k] <> [].
Proof. intros <-. rewrite fmap_app. split; [done|by destruct ks]. Qed.

(** The goals a step leaves of the invariant, by the field they belong to. *)
Ltac pinv_field :=
  match goal with
  | |- leader_of ?m _ => destruct m; naive_solver
  | H : ?ex = [] |- exits_of _ (?ex ++ [_]) => rewrite H; unfold exits_of; simpl; auto
  | |- exits_of _ _ => unfold exits_of; simpl; break_match_goal; naive_solver
  | H : _.*1 = _ |- context [(_ ++ [?k]).*1] => destruct (kills_sent _ k _ H) as [-> ?]; naive_solver
  | H : _.*1 = _ |- context [(_ ++ [?k])] => destruct (kills_sent _ k _ H) as [_ ?]; naive_solver
  | H : _ \/ _ |- ?ks.*1 = _ =>
      destruct H as [->%fmap_nil_inv|]; [naive_solver|done]
  | |- _ -> _ -> _ -> _ \/ ((leader_running _ = false \/ _) /\ _) =>
      repeat match goal with
      | H : ?T |- _ =>
          lazymatch T with
          | (_ -> _ -> _ -> _ \/ (_ /\ _)) => fail
          | _ && _ = true => fail
          | _ => lazymatch type of T with Prop => clear H end
          end
      end;
      unfold group_left, leader_left, leader_running in *; simpl in *;
      repeat match goal with b : bool |- _ => clear b end;
      repeat match goal with b : bool |- _ => destruct b | p : proc_state |- _ => destruct p end;
      simpl in *; naive_solver
  | |- _ = true -> ?ip = false => destruct ip; naive_solver
  | H : _ -> _ -> _ -> _ \/ (_ /\ _) |- _ => clear H; naive_solver
  end.

Lemma pinv_step s l s' : pinv s -> pstep s l = Some s' -> pinv s'.
Proof.
  intros [H1 H2 H3 H4 H5 H6 H7 H8 H9 H10 H12 H11] Hs. destruct_pstate s. destruct l; open_pstep Hs.
  all: unfold locked, exits_of, leader_running in *; simpl in *.
  all: split; try done; simpl; try done.
  all: pinv_field.
Qed.

Lemma pinv_reachable pty win queue s : preachable pty win queue s -> pinv s.
Proof.
  intros Hr. refine (rtc_invariant _ pinv _ _ _ Hr (pinv_init pty win queue)).
  intros t t' Ht [l Hs]. by eapply pinv_step.
Qed.

Lemma ptyinv_init pty win queue : ptyinv win queue (initPState pty win queue).
Proof. split; simpl; naive_solver. Qed.

(** The size set with the master open, appended to the ones before. *)
Lemma sizes_snoc (sz : list (Winsize * bool)) win fc ws (all : list Window) :
  fc = false -> Forall (fun z => snd z = false) sz ->
  sz.*1 ++ (winsize <$> win :: ws) = winsize <$> all ->
  Forall (fun z => snd z = false) (sz ++ [(winsize win, fc)]) /\
  (sz ++ [(winsize win, fc)]).*1 ++ (winsize <$> ws) = winsize <$> all.
Proof.
  intros -> Hf <-. split; [by apply Forall_app; repeat constructor|].
  rewrite fmap_app, <-app_assoc. done.
Qed.

Lemma asked_snoc {r : resize_pc} (ask : list Window) (win w0 : Window) queue pre ws :
  (w0 :: queue) `prefix_of` ask ->
  pre ++ (winsize <$> pending r ++ ws) =
    winsize <$> match r with RIdle => tail ask | _ => ask end ->
  (w0 :: queue) `prefix_of` (ask ++ [win]) /\
  pre ++ (winsize <$> pending r ++ ws ++ [win]) =
    winsize <$> match r with RIdle => tail (ask ++ [win]) | _ => ask ++ [win] end.
Proof.
  intros Ha E. split; [by apply prefix_app_r|].
  destruct ask as [|a ask]; [by apply prefix_nil_not in Ha|].
  rewrite app_assoc, fmap_app, (assoc_L (++)), E. destruct r; by rewrite <-fmap_app.
Qed.

Ltac pty_field :=
  match goal with
  | |- context [_ `prefix_of` ?ask ++ [?w]] => eapply (asked_snoc ask w); eassumption
  | |- context [match _ with RIdle => tail (?ask ++ [?w]) | _ => _ end] =>
      eapply (asked_snoc ask w); eassumption
  | |- true = true -> ?r = RDone => destruct r; naive_solver
  | H : _ -> _ -> during_pty ?m = true |- _ -> _ -> during_pty ?m = true => intros; by apply H
  | |- _ => naive_solver
  end.

Lemma ptyinv_step win queue s l s' : ptyinv win queue s -> pstep s l = Some s' -> ptyinv win queue s'.
Proof.
  intros [H1 H2 H3 H4 H5 H6 H7 H8 H9] Hs. destruct_pstate s. destruct l; open_pstep Hs.
  all: simpl in *; split; try done; simpl; try done.
  all: try match goal with |- context [?sz ++ [(winsize _, ?fc)]] =>
    assert (fc = false) as Hfc by (clear -H2 H3; destruct fc; naive_solver);
    first [ apply (sizes_snoc sz _ fc _ _ Hfc H6 H9)
          | assert (Hidle : _ = RIdle) by (apply H2; by left);
            rewrite Hfc, (H7 Hidle) in *; rewrite Hidle in *; simpl in *;
            rewrite ?H9; by repeat constructor ]
    end.
  all: pty_field.
Qed.

Lemma ptyinv_reachable pty win queue s : preachable pty win queue s -> ptyinv win queue s.
Proof.
  intros Hr. refine (rtc_invariant _ (ptyinv win queue) _ _ _ Hr (ptyinv_init pty win queue)).
  intros t t' Ht [l Hs]. by eapply ptyinv_step.
Qed.

Lemma eof_inv_reachable pty win queue s : preachable pty win queue s -> eof_inv s.
Proof.
  intros Hr. refine (rtc_invariant _ eof_inv _ _ _ Hr _); [|done].
  intros t t' [H1 H2] [l Hs]. unfold eof_inv. destruct_pstate t. destruct l; open_pstep Hs.
  all: simpl in *; split; try done; naive_solver.
Qed.

(** * Termination measure *)

Definition main_rank (m : main_pc) : nat :=
  match m with
  | MStart => 26 | MSize => 14 | MCopy => 11 | MStopResize => 10 | MJoinResize => 9 | MCloseF => 8
  | MWait => 7 | MDrain => 6 | MMark => 5 | MExit => 4 | MStop => 3 | MJoin => 2
  | MReturned | MFailed => 0
  end.
Definition watch_rank (w : watch_pc) : nat :=
  match w with
  | WIdle => 8 | WSelect => 7 | WHup => 6 | WHupKill => 5 | WGrace => 4 | WKill => 3
  | WKillKill => 2 | WFinished => 0
  end.
Definition resize_rank (r : resize_pc) : nat :=
  match r with RIdle | RSelect => 1 | RSet _ => 2 | RDone => 0 end.
Definition group_rank (g : Group) : nat :=
  (match proc g with NoProc | Running => 1 | _ => 0 end) +
  (if dying g then Nat.b2n (bg g) else 1).

Definition rank (s : PState) : Z :=
  Z.of_nat (main_rank (main s) + watch_rank (watch s) + resize_rank (resize s) +
            group_rank (group s) + 2 * length (wins (tty s))).

(** Every step of the system lowers the rank; what the client and the processes
    do never raises it, but for a window change, which is worth two steps. *)
Lemma proc_rank_step s l s' :
  pstep s l = Some s' ->
  rank s' + Z.b2z (system_label l) <= rank s + 2 * Z.b2z (is_WinSend l).
Proof.
  intros Hs. destruct_pstate s. destruct l; open_pstep Hs; unfold rank, group_rank; simpl.
  all: rewrite ?length_app; simpl length.
  all: try match goal with |- context [group_left ?g] => destruct (group_left g) end.
  all: repeat match goal with b : bool |- _ => clear b end.
  all: repeat match goal with b : bool |- _ => destruct b; simpl in * end; (lia || done).
Qed.

Lemma proc_rank_run ls s s' :
  run pstep s ls = Some s' ->
  rank s' + count_if system_label ls <= rank s + 2 * count_if is_WinSend ls.
Proof.
  revert s. induction ls as [|l ls IH]; intros s; simpl; [intros [= <-]; lia|].
  destruct (pstep s l) as [t|] eqn:Hs; [|done]. intros Hr.
  pose proof (proc_rank_step _ _ _ Hs). specialize (IH _ Hr). lia.
Qed.

(** * Where a session without enabled steps is *)

Section stuck.
Context (pty : bool) (win : Window) (queue : list Window) (s : PState).
Hypothesis Hreach : preachable pty win queue s.
Hypothesis Hgone : ctxDone s = true.
Hypothesis Hstuck : forall l, system_label l = true -> pstep s l = None.

Lemma stuck_watch : watch s = WIdle \/ watch s = WFinished.
Proof using Hgone Hstuck.
  pose proof (Hstuck WatchGone eq_refl) as H1. pose proof (Hstuck WatchTimer eq_refl) as H2.
  pose proof (Hstuck WatchStep eq_refl) as H3. simpl in *. rewrite Hgone in *.
  destruct (watch s); naive_solver.
Qed.

(** Before the flag is set the watcher has sent both signals, and nothing that they
    reach is alive. *)
Lemma stuck_group :
  unstarted (main s) = false -> marked (main s) = false ->
  (leader_running (group s) = false \/ strayed (group s) = true) /\ bg (group s) = false /\
  watch s = WFinished /\ fst <$> kills s = [SIGHUP; SIGKILL].
Proof using All.
  intros Hu Hm. destruct (pinv_reachable _ _ _ _ Hreach) as [_ Hw Hre Hd _ _ _ _ _ He Hb _].
  assert (watch s = WFinished) as Hf
    by (destruct stuck_watch as [E|E]; [apply Hw in E; congruence|done]).
  assert (doneClosed s = false) as Hdc by (rewrite Hd; by destruct (main s)).
  assert (reaped s = false) as Hrc by by rewrite Hre.
  assert ((leader_running (group s) = false \/ strayed (group s) = true) /\ bg (group s) = false) as [? ?].
  { destruct (He Hf Hdc Hrc) as [Hdy|]; [|done].
    pose proof (Hstuck PKilled eq_refl) as H1. pose proof (Hstuck BgKilled eq_refl) as H2.
    simpl in *. unfold kernel_step, leader_running in *. rewrite Hdy, andb_true_r in *.
    destruct (proc (group s)), (bg (group s)), (strayed (group s)); naive_solver. }
  split_and!; auto.
Qed.

(** A session that waits although its client is gone: both signals were sent, nothing
    is left in the group, and a process outside it keeps the session. *)
Definition kept_from_outside : Prop :=
  held (group s) = true /\ exits s = [] /\ bg (group s) = false /\
  (leader_running (group s) = true -> strayed (group s) = true) /\
  watch s = WFinished /\ fst <$> kills s = [SIGHUP; SIGKILL].

Lemma stuck_kept :
  unstarted (main s) = false -> marked (main s) = false -> exits s = [] -> held (group s) = true ->
  kept_from_outside.
Proof using All.
  intros Hu Hm He Hh. destruct (stuck_group Hu Hm) as ([Hl|Hl] & ? & ? & ?); split_and!; try done.
  by rewrite Hl.
Qed.

Lemma proc_stuck_main : main s = MReturned \/ main s = MFailed \/ kept_from_outside.
Proof using All.
  pose proof (Hstuck MainStep eq_refl) as Hm. pose proof (Hstuck StartOk eq_refl) as H0.
  pose proof (Hstuck ResizeStop eq_refl) as H1. pose proof (Hstuck ResizeSet eq_refl) as H2.
  pose proof (pinv_reachable _ _ _ _ Hreach) as [Hl Hw _ _ He _ _ _ _ _ _ Hst].
  pose proof (ptyinv_reachable _ _ _ _ Hreach) as [Hp Hi _ _ Hsr _ _ Hask _].
  pose proof stuck_watch as Hsw. pose proof stuck_group as Hg. pose proof stuck_kept as Hk.
  unfold pstep, main_step, runWithPty_step, wait_step, finish_step, stopWatch_step,
    watchWindowSize_step, locked, held, exits_of in *.
  destruct (main s) eqn:Em; simpl in *; try done; try (by left); try (by right; left).
  - destruct (asked (tty s)); [by apply prefix_nil_not in Hask|done].
  - destruct (Hg eq_refl eq_refl) as ([Hrun|Hrun] & Hbg & _); [|by rewrite (Hst Hrun) in Hp; specialize (Hp eq_refl)].
    rewrite Hrun, Hbg in Hm. simpl in Hm. right. right. apply Hk; try done.
    by destruct (away (group s)).
  - rewrite (Hsr eq_refl) in H1. destruct (resize s); try done.
    destruct (proj1 Hi eq_refl); [done|]. rewrite (Hp eq_refl) in *. done.
  - right. right. apply Hk; try done. destruct (Hg eq_refl eq_refl) as (Hrun & _).
    clear -Hl Hm Hrun. unfold leader_running in *. destruct (proc (group s)); try naive_solver.
    destruct Hrun as [?| ->]; [done|]. by rewrite orb_true_r.
  - destruct (Hg eq_refl eq_refl) as (_ & Hbg & _). rewrite Hbg in Hm. simpl in Hm.
    right. right. apply Hk; try done. by destruct (away (group s)).
  - destruct Hsw as [E|E]; by rewrite E in Hm.
  - destruct Hsw as [E|E]; rewrite E in Hm; naive_solver.
Qed.
End stuck.

(** Facts that hold along a run. *)
Lemma isPty_reachable pty win queue s : preachable pty win queue s -> isPty s = pty.
Proof.
  intros Hr. refine (rtc_invariant _ (fun s => isPty s = pty) _ _ _ Hr eq_refl).
  intros t t' <- [l Hs]. destruct_pstate t. destruct l; open_pstep Hs; done.
Qed.

Lemma kills_stop s l s' :
  pinv s -> reaped s = true -> pstep s l = Some s' -> reaped s' = true /\ kills s' = kills s.
Proof.
  intros [_ _ _ _ _ Hlock _ _ _ _ _ _] Hre Hs. destruct_pstate s. simpl in Hre. subst.
  destruct l; open_pstep Hs; try done; unfold locked in Hlock; simpl in Hlock; naive_solver.
Qed.

(** * Properties *)

(** C8. A client that is gone leaves no session behind that the server could still end.
    Every run of a session takes at most 37 steps of its own, and two more for each
    window change, and when a session whose client is gone has no step left, then
    either it has returned, with its process reaped, its watcher and its resize
    goroutine ended and exactly one exit status sent; or SIGHUP and SIGKILL were both
    sent, nothing is left in the process group, and what keeps the session is a
    process outside the group, which holds its output or is the leader itself.  So no
    goroutine waits for another for ever, and a process that ignores SIGHUP does not
    keep the session as long as it stays in the group. *)
Theorem disconnect_ends_session pty win queue s :
  preachable pty win queue s -> ctxDone s = true ->
  (forall l, system_label l = true -> pstep s l = None) ->
  (((main s = MFailed \/
     main s = MReturned /\ proc (group s) = Reaped /\ watch s = WFinished /\
     (resize s = RDone \/ pty = false)) /\
    exists code, exits s = [code]) \/
   (held (group s) = true /\ exits s = [] /\ bg (group s) = false /\
    (leader_running (group s) = true -> strayed (group s) = true) /\
    watch s = WFinished /\ fst <$> kills s = [SIGHUP; SIGKILL])) /\
  (forall ls s', run pstep (initPState pty win queue) ls = Some s' ->
     count_if system_label ls <= 37 + 2 * (Z.of_nat (length queue) + count_if is_WinSend ls)).
Proof.
  intros Hr Hg Hs. pose proof (pinv_reachable _ _ _ _ Hr) as [Hl Hw _ _ He _ _ _ _ _ _ _].
  pose proof (ptyinv_reachable _ _ _ _ Hr) as [_ Hi _ Hrun _ _ _ _ _].
  assert (isPty s = pty) as Hp by by apply (isPty_reachable pty win queue).
  split.
  - destruct (proc_stuck_main _ _ _ _ Hr Hg Hs) as [E|[E|Hk]]; [left|left|by right];
      unfold exits_of in He; rewrite E in He, Hl, Hw, Hi, Hrun; simpl in *.
    + split; [|by eexists]. right. destruct (stuck_watch _ Hg Hs) as [E'|E']; [naive_solver|].
      split_and!; [done..|]. rewrite <-Hp. destruct (resize s); naive_solver.
    + split; [by left|]. destruct He as [?|[_ ?]]; by eexists.
  - intros ls s' Hls. pose proof (proc_rank_run _ _ _ Hls) as Hrk.
    assert (0 <= rank s') by (unfold rank; lia). unfold rank at 2 in Hrk. simpl in Hrk. lia.
Qed.

(** The run of a shell that ignores SIGHUP and whose client goes away. *)
Definition ignored_hangup : list plabel :=
  [StartOk; MainStep; Disconnect; WatchGone; WatchStep; WatchStep; WatchTimer; WatchStep; WatchStep;
   PKilled; MainStep; MainStep; ResizeStop; MainStep; MainStep; MainStep; MainStep; MainStep;
   MainStep; MainStep].

Definition killed_shell : PState :=
  mkPState true (mkGroup Reaped 9 false true false false) true false MReturned WFinished RDone
    (mkTty [] false true true [(mkWinsize 24 80, false)] [mkWindow 80 24]) true true [137]
    [(SIGHUP, true); (SIGKILL, true)].

Lemma killed_shell_reachable : preachable true (mkWindow 80 24) [] killed_shell.
Proof. apply (run_reachable pstep ignored_hangup). vm_compute. reflexivity. Qed.

Lemma disconnect_ends_session_witness :
  (main killed_shell = MReturned /\ proc (group killed_shell) = Reaped) /\
  (exists code, exits killed_shell = [code]).
Proof.
  destruct (disconnect_ends_session true (mkWindow 80 24) [] killed_shell killed_shell_reachable eq_refl)
    as [[[[H|H] He]|[H _]] _]; [intros []; done|discriminate H| |discriminate H].
  split; [split; [exact (proj1 H)|exact (proj1 (proj2 H))]|exact He].
Defined.

(** C24. A process outside the group does keep the session: a command that has daemonised
    itself with the output open is reached by neither signal, so that although the
    client is gone, the process the server started is reaped and nothing else is left
    to do, no status is sent and the session does not return. *)
Theorem escaped_process_keeps_session :
  exists s, preachable false (mkWindow 0 0) [] s /\ ctxDone s = true /\
    (forall l, system_label l = true -> pstep s l = None) /\
    fst <$> kills s = [SIGHUP; SIGKILL] /\ proc (group s) = Reaped /\ bg (group s) = false /\
    main s = MDrain /\ exits s = [].
Proof.
  eexists. split.
  - apply (run_reachable pstep
      [StartOk; Leave; PExit 0; MainStep; Disconnect; WatchGone; WatchStep; WatchStep; WatchTimer;
       WatchStep; WatchStep]).
    vm_compute. reflexivity.
  - split_and!; try reflexivity. intros []; done.
Qed.

(** C9. The client is told the truth, once: a session that returned after its process
    ran sent exactly one exit status, [exitCode] of that process's own wait
    status; one whose command did not start sent 1 or 127; before that nothing
    is sent. *)
Theorem session_exit_status pty win queue s :
  preachable pty win queue s ->
  match main s with
  | MReturned => exits s = [exitCode (CmdWait (word (group s)) (copyFailed s))] /\
                 proc (group s) = Reaped
  | MFailed => (exits s = [1] \/ (exits s = [127] /\ pty = false)) /\ proc (group s) = NoProc
  | MStop | MJoin => length (exits s) = 1%nat
  | _ => exits s = []
  end.
Proof.
  intros Hr. pose proof (pinv_reachable _ _ _ _ Hr) as [Hl _ _ _ He _ _ _ _ _ _ _].
  pose proof (isPty_reachable pty win queue s Hr) as Hp. unfold exits_of in He.
  destruct (main s); simpl in *; rewrite ?He; try done.
  rewrite Hp in He. naive_solver.
Qed.

Lemma session_exit_status_witness :
  exits killed_shell = [exitCode (CmdWait 9 false)] /\ proc (group killed_shell) = Reaped.
Proof. apply (session_exit_status true (mkWindow 80 24) [] _ killed_shell_reachable). Defined.

(** C26. Signals are ordered and stop with the flag: at most a SIGHUP
    and then a SIGKILL are sent, only to a session whose client is gone, and once
    [wait] has set [reaped] no signal is ever sent again. *)
Theorem signals_before_flag pty win queue s s' :
  preachable pty win queue s -> rtc (lts_step pstep) s s' ->
  (fst <$> kills s' = [] \/ fst <$> kills s' = [SIGHUP] \/ fst <$> kills s' = [SIGHUP; SIGKILL]) /\
  (kills s' <> [] -> ctxDone s' = true) /\
  (reaped s = true -> kills s' = kills s).
Proof.
  intros Hr Hs. assert (preachable pty win queue s') as Hr' by (unfold preachable in *; by etrans).
  pose proof (pinv_reachable _ _ _ _ Hr') as [_ _ _ _ _ _ Hk Hc _ _ _ _]. split_and!.
  - destruct (watch s'); simpl in Hk; naive_solver.
  - destruct (ctxDone s'); naive_solver.
  - intros Hre. apply pinv_reachable in Hr. clear Hr' Hk Hc.
    destruct (rtc_invariant (lts_step pstep)
      (fun t => pinv t /\ reaped t = true /\ kills t = kills s)) with s s' as (_ & _ & ?); try done.
    intros t t' (Ht & Hf & <-) [l Hl]. split; [by eapply pinv_step|]. by eapply kills_stop.
Qed.

Lemma signals_before_flag_witness :
  (fst <$> kills killed_shell = [] \/ fst <$> kills killed_shell = [SIGHUP] \/
   fst <$> kills killed_shell = [SIGHUP; SIGKILL]) /\
  (kills killed_shell <> [] -> ctxDone killed_shell = true) /\
  (reaped killed_shell = true -> kills killed_shell = kills killed_shell).
Proof.
  apply (signals_before_flag true (mkWindow 80 24) [] _ _ killed_shell_reachable).
  apply rtc_refl.
Defined.

(** C36. The flag does not cover the reap itself: [cmd.Wait] reaps
    outside the lock, so a run exists in which SIGHUP is sent to the group after
    its only process was reaped, when the kernel may have given its number to
    another process group. *)
Theorem signal_after_reap :
  exists s, preachable false (mkWindow 0 0) [] s /\ (SIGHUP, false) ∈ kills s /\
            proc (group s) = Reaped /\ reaped s = false.
Proof.
  eexists. split.
  - apply (run_reachable pstep
      [StartOk; PExit 0; MainStep; Disconnect; WatchGone; WatchStep; WatchStep]).
    vm_compute. reflexivity.
  - split_and!; [by left|reflexivity..].
Qed.

(** C25. Resizes are applied faithfully: every [pty.Setsize] of a session is applied to
    an open master; the sizes applied are, in order and each once, that of the pty
    request and those that came over the window channel, beginning with what was
    already on it; and while the session copies, a resize goroutine with nothing left
    to do has applied all of them. *)
Theorem resizes_before_close pty win queue s :
  preachable pty win queue s ->
  Forall (fun z => snd z = false) (sizes (tty s)) /\
  (win :: queue) `prefix_of` asked (tty s) /\
  (fst <$> sizes (tty s)) `prefix_of` (winsize <$> asked (tty s)) /\
  (main s = MCopy -> pstep s ResizeRecv = None -> pstep s ResizeSet = None ->
   fst <$> sizes (tty s) = winsize <$> asked (tty s)).
Proof.
  intros Hr. pose proof (ptyinv_reachable _ _ _ _ Hr) as [Hp Hi _ _ _ Hc Hn Ha Hz].
  destruct (eof_inv_reachable _ _ _ _ Hr) as [Hns Heof]. split_and!; [done|done| |].
  - destruct (resize s) eqn:E; [rewrite Hn by done; apply prefix_nil|rewrite <-Hz; by eexists..].
  - intros Em. rewrite Em in Hp, Hi, Hns. simpl in *. unfold watchWindowSize_step. intros H1 H2.
    destruct (resize s) eqn:E; simpl in Hz; [|..|done|].
    + destruct (proj1 Hi eq_refl) as [?|Hf]; [done|]. rewrite Hp in Hf by done. done.
    + destruct (wins (tty s)); [by rewrite app_nil_r in Hz|done].
    + destruct (Heof eq_refl (Hns eq_refl)) as [Hw _]. rewrite Hw in Hz. by rewrite app_nil_r in Hz.
Qed.

(** A library that has put the first size on the channel too, and one change. *)
Definition resized_shell : PState :=
  Eval vm_compute in default (initPState true (mkWindow 80 24) [mkWindow 80 24])
    (run pstep (initPState true (mkWindow 80 24) [mkWindow 80 24])
       [StartOk; MainStep; WinSend (mkWindow 100 30); ResizeRecv; ResizeSet; ResizeRecv; ResizeSet]).

Lemma resizes_before_close_witness :
  fst <$> sizes (tty resized_shell) = [mkWinsize 24 80; mkWinsize 24 80; mkWinsize 30 100].
Proof.
  apply (resizes_before_close true (mkWindow 80 24) [mkWindow 80 24] resized_shell); [|reflexivity..].
  apply (run_reachable pstep
    [StartOk; MainStep; WinSend (mkWindow 100 30); ResizeRecv; ResizeSet; ResizeRecv; ResizeSet]).
  vm_compute. reflexivity.
Defined.
