(* ===== verification/Shell.v ===== *)
(** The command of a session, [internal/sshserver/shell.go], and the way
    [handleSession] and [runWithPty] of [server.go] put it together: the shell
    and its arguments, the environment and the working directory. *)

From S2P Require Import Prelude GoStrings GoOs.

Open Scope string_scope.
Open Scope list_scope.

(** * Operations *)

Definition shellBash : string := "/bin/bash".
Definition shellSh : string := "/bin/sh".
Definition envHome : string := "HOME".
Definition envUser : string := "USER".
Definition envLogname : string := "LOGNAME".

(** [exec.Cmd] as far as the server fills it. *)
Record Cmd := mkCmd {
  cmdPath : string; cmdArgs : list string; cmdEnv : list string; cmdDir : string;
}.

Definition Command (path : string) (args : list string) : Cmd := mkCmd path args [] "".

Definition buildShellCommand (shell : string) (loginShell : bool) (rawCmd : string) : Cmd :=
  if (TrimSpace rawCmd =? "")%string then
    if loginShell then Command shell ["-l"] else Command shell []
  else if loginShell then Command shell ["-lc"; rawCmd]
  else Command shell ["-c"; rawCmd].

(** The loop over the candidates. *)
Fixpoint pickShell (stat : string -> option FileInfo) (candidates : list string) : string :=
  match candidates with
  | [] => shellSh
  | candidate :: rest =>
      if (candidate =? "")%string then pickShell stat rest
      else match stat candidate with
           | Some info => if IsDir info then pickShell stat rest else candidate
           | None => pickShell stat rest
           end
  end.

Definition resolveShell (sys : System) : string :=
  pickShell (Stat sys) [Getenv (environ sys) "SHELL"; shellBash; shellSh].

Definition entry (kv : string * string) : string := fst kv +:+ "=" +:+ snd kv.

(** The map [mergeEnv] builds: entries without [=] are dropped, later ones win. *)
Definition mergeEntry (merged : gmap string string) (e : string) : gmap string string :=
  match Cut e "=" with
  | Some (key, value) => <[key := value]> merged
  | None => merged
  end.

Definition mergedEnv (osEnviron sessionEnv : list string) : gmap string string :=
  fold_left mergeEntry (osEnviron ++ sessionEnv) ∅.

(** Go iterates over a map in an unspecified order: [iter] is one of them. *)
Class MapOrder (iter : gmap string string -> list (string * string)) :=
  map_order m : iter m ≡ₚ map_to_list m.

#[export] Instance map_to_list_order : MapOrder map_to_list.
Proof. by intros m. Qed.

Definition mergeEnv (iter : gmap string string -> list (string * string))
    (osEnviron sessionEnv : list string) : list string :=
  entry <$> iter (mergedEnv osEnviron sessionEnv).

Fixpoint lookupEnv (env : list string) (key : string) : option string :=
  match env with
  | [] => None
  | e :: env' =>
      let pre := key +:+ "=" in
      if HasPrefix e pre then Some (TrimPrefix e pre) else lookupEnv env' key
  end.

Definition has (env : list string) (key : string) : bool :=
  match lookupEnv env key with Some _ => true | None => false end.

Definition append_if (b : bool) (kv : string * string) (env : list string) : list string :=
  if b then env ++ [entry kv] else env.

Definition withPasswdFallback (sys : System) (env : list string) : list string :=
  let hasHome := has env envHome in
  let hasUser := has env envUser in
  let hasLogname := has env envLogname in
  if hasHome && hasUser && hasLogname then env
  else match currentUser sys with
  | None => env
  | Some current =>
      let env := append_if (negb hasHome && negb (HomeDir current =? "")%string)
                   (envHome, HomeDir current) env in
      if negb (Username current =? "")%string then
        let env := append_if (negb hasUser) (envUser, Username current) env in
        append_if (negb hasLogname) (envLogname, Username current) env
      else env
  end.

Definition sessionWorkingDir (sys : System) (env : list string) : string :=
  match lookupEnv env envHome with
  | None => ""
  | Some home =>
      if (home =? "")%string then ""
      else match Stat sys home with
           | Some info => if IsDir info then home else ""
           | None => ""
           end
  end.

(** The two variables [runWithPty] appends. *)
Definition ptyEnv (term : string) (env : list string) : list string :=
  env ++ [entry ("TERM", term); entry ("COLORTERM", "truecolor")].

(** The command of a session, from [handleSession] and, when the client asked for
    a terminal of type [pty], [runWithPty]. *)
Definition sessionCommand (sys : System) (iter : gmap string string -> list (string * string))
    (loginShell : bool) (osEnviron sessionEnv : list string) (rawCommand : string)
    (pty : option string) : Cmd :=
  let cmd := buildShellCommand (resolveShell sys) loginShell rawCommand in
  let env := withPasswdFallback sys (mergeEnv iter osEnviron sessionEnv) in
  let dir := sessionWorkingDir sys env in
  let env := match pty with Some term => ptyEnv term env | None => env end in
  mkCmd (cmdPath cmd) (cmdArgs cmd) env dir.

(** * Specification *)

(** The value of [key] a list of entries gives a process: [os/exec] keeps the last
    entry of each variable. *)
Fixpoint binding (key : string) (env : list string) : option string :=
  match env with
  | [] => None
  | e :: env' =>
      match binding key env' with
      | Some v => Some v
      | None =>
          match Cut e "=" with
          | Some (k, v) => if (k =? key)%string then Some v else None
          | None => None
          end
      end
  end.

Definition nonempty (s : string) : option string := if (s =? "")%string then None else Some s.

(** What the passwd entry says of an account variable. *)
Definition passwdVar (sys : System) (key : string) : option string :=
  match currentUser sys with
  | None => None
  | Some u =>
      if (key =? envHome)%string then nonempty (HomeDir u)
      else if (key =? envUser)%string || (key =? envLogname)%string then nonempty (Username u)
      else None
  end.

Definition or_else {A} (a b : option A) : option A := match a with Some _ => a | None => b end.

(** The variable [key] of a session: the client's, the server's, the passwd
    entry's. *)
Definition sessionVar (sys : System) (osEnviron sessionEnv : list string) (key : string)
    : option string :=
  or_else (binding key sessionEnv) (or_else (binding key osEnviron) (passwdVar sys key)).

(** * Lemmas *)

Lemma binding_app key env1 env2 :
  binding key (env1 ++ env2) = or_else (binding key env2) (binding key env1).
Proof.
  induction env1 as [|e env1 IH]; simpl; [by destruct (binding key env2)|].
  rewrite IH. by destruct (binding key env2).
Qed.

Lemma mergedEnv_lookup osEnviron sessionEnv key :
  mergedEnv osEnviron sessionEnv !! key = binding key (osEnviron ++ sessionEnv).
Proof.
  unfold mergedEnv. induction (osEnviron ++ sessionEnv) as [|e l IH] using rev_ind; [done|].
  rewrite fold_left_app, binding_app. simpl. unfold mergeEntry at 1.
  destruct (Cut e "=") as [[k v]|]; [|done].
  destruct (String.eqb_spec k key) as [->|Hne]; [by rewrite lookup_insert_eq|].
  by rewrite lookup_insert_ne.
Qed.

Lemma Cut_entry k v : contains_byte "=" k = false -> Cut (entry (k, v)) "=" = Some (k, v).
Proof. intros H. by apply Cut_app. Qed.

Lemma HasPrefix_entry k v key :
  contains_byte "=" k = false -> contains_byte "=" key = false ->
  HasPrefix (entry (k, v)) (key +:+ "=") = (k =? key)%string.
Proof.
  intros Hk Hkey. apply eq_true_iff_eq. rewrite HasPrefix_spec, String.eqb_eq. split.
  - intros [t E]. rewrite sapp_assoc in E. pose proof (Cut_entry k v Hk) as E1.
    rewrite E in E1. change ("=" +:+ t) with (String "=" t) in E1. rewrite (Cut_app key "=" t Hkey) in E1. congruence.
  - intros ->. exists v. unfold entry. simpl. by rewrite sapp_assoc.
Qed.

Lemma TrimPrefix_entry k v : TrimPrefix (entry (k, v)) (k +:+ "=") = v.
Proof. unfold entry. simpl. rewrite <-sapp_assoc. apply TrimPrefix_app. Qed.

(** [lookupEnv] and the last binding agree on entries with distinct names. *)
Section entries.
Context (key : string) (Hkey : contains_byte "=" key = false).

Definition names_ok (l : list (string * string)) : Prop :=
  Forall (fun kv => contains_byte "=" (fst kv) = false) l.

Lemma lookupEnv_entries l :
  names_ok l -> NoDup l.*1 -> lookupEnv (entry <$> l) key = (list_to_map l : gmap _ _) !! key.
Proof using Hkey.
  induction l as [|[k v] l IH]; [done|]. cbn [fmap list_fmap]. intros [Hk Hl]%Forall_cons [Hn Hd]%NoDup_cons.
  cbn [lookupEnv list_to_map foldr]. rewrite HasPrefix_entry by done. simpl.
  destruct (String.eqb_spec k key) as [->|Hne].
  - by rewrite TrimPrefix_entry, lookup_insert_eq.
  - rewrite lookup_insert_ne by done. by apply IH.
Qed.

Lemma binding_entries l :
  names_ok l -> NoDup l.*1 -> binding key (entry <$> l) = (list_to_map l : gmap _ _) !! key.
Proof using Hkey.
  induction l as [|[k v] l IH]; [done|]. cbn [fmap list_fmap]. intros [Hk Hl]%Forall_cons [Hn Hd]%NoDup_cons.
  cbn [binding list_to_map foldr]. rewrite IH, Cut_entry by done. simpl.
  destruct (String.eqb_spec k key) as [->|Hne].
  - rewrite lookup_insert_eq. by rewrite not_elem_of_list_to_map_1.
  - rewrite lookup_insert_ne by done. by destruct (list_to_map l !! key).
Qed.
End entries.

Lemma binding_name key env v : binding key env = Some v -> contains_byte "=" key = false.
Proof.
  induction env as [|e env IH]; simpl; [done|]. destruct (binding key env); [by intros [= ->]; auto|].
  destruct (Cut e "=") as [[k w]|] eqn:Hc; [|done].
  destruct (String.eqb_spec k key) as [->|]; [|done]. intros _. by apply Cut_inv in Hc as [_ ?].
Qed.

(** An environment whose first and last entry of a variable agree. *)
Definition agrees (env : list string) : Prop :=
  forall key, contains_byte "=" key = false -> lookupEnv env key = binding key env.

Section merge.
Context (iter : gmap string string -> list (string * string)) `{!MapOrder iter}.

Lemma iter_names osEnviron sessionEnv : names_ok (iter (mergedEnv osEnviron sessionEnv)).
Proof using All.
  apply Forall_forall. intros [k v]. rewrite map_order, elem_of_map_to_list, mergedEnv_lookup.
  apply binding_name.
Qed.

Lemma iter_nodup m : NoDup (iter m).*1.
Proof using All. rewrite map_order. apply NoDup_fst_map_to_list. Qed.

Lemma iter_list_to_map m : list_to_map (iter m) = m.
Proof using All.
  rewrite <-(list_to_map_to_list m) at 2. apply list_to_map_proper; [apply iter_nodup|apply map_order].
Qed.

(** Whatever the iteration order, the merged environment has each variable once,
    with the value of its last binding. *)
Lemma mergeEnv_lookup key osEnviron sessionEnv :
  contains_byte "=" key = false ->
  lookupEnv (mergeEnv iter osEnviron sessionEnv) key = binding key (osEnviron ++ sessionEnv) /\
  binding key (mergeEnv iter osEnviron sessionEnv) = binding key (osEnviron ++ sessionEnv).
Proof using All.
  intros Hk. unfold mergeEnv. rewrite lookupEnv_entries, binding_entries
    by (done || apply iter_names || apply iter_nodup).
  by rewrite iter_list_to_map, mergedEnv_lookup.
Qed.

Lemma mergeEnv_agrees osEnviron sessionEnv : agrees (mergeEnv iter osEnviron sessionEnv).
Proof using All. intros k Hk. by destruct (mergeEnv_lookup k osEnviron sessionEnv Hk) as [-> ->]. Qed.
End merge.

Lemma lookupEnv_snoc key k v env :
  contains_byte "=" key = false -> contains_byte "=" k = false ->
  lookupEnv (env ++ [entry (k, v)]) key =
  or_else (lookupEnv env key) (if (k =? key)%string then Some v else None).
Proof.
  intros Hkey Hk. induction env as [|e env IH]; cbn [app lookupEnv or_else].
  - rewrite HasPrefix_entry by done. destruct (String.eqb_spec k key) as [->|]; [|done].
    by rewrite TrimPrefix_entry.
  - destruct (HasPrefix e _); [done|apply IH].
Qed.

Lemma binding_snoc key k v env :
  contains_byte "=" k = false ->
  binding key (env ++ [entry (k, v)]) = or_else (if (k =? key)%string then Some v else None) (binding key env).
Proof. intros Hk. rewrite binding_app. cbn [binding]. by rewrite Cut_entry. Qed.

(** Appending a variable that is missing keeps the two readings equal. *)
Lemma append_if_missing b k v env :
  agrees env -> contains_byte "=" k = false -> (b = true -> lookupEnv env k = None) ->
  agrees (append_if b (k, v) env) /\
  forall key, contains_byte "=" key = false ->
    binding key (append_if b (k, v) env) =
    or_else (binding key env) (if b && (k =? key)%string then Some v else None).
Proof.
  intros Ha Hk Hm. destruct b; simpl; [|split; [done|]; intros; by destruct (binding _ _)].
  assert (forall key, contains_byte "=" key = false ->
    binding key (env ++ [entry (k, v)]) =
    or_else (binding key env) (if (k =? key)%string then Some v else None)) as Hb.
  { intros key Hkey. rewrite binding_snoc by done.
    destruct (String.eqb_spec k key) as [<-|]; [|by destruct (binding key env)].
    rewrite <-Ha, Hm by done. done. }
  split; [|done]. intros key Hkey. by rewrite lookupEnv_snoc, Hb, Ha.
Qed.

Lemma has_binding env key : agrees env -> contains_byte "=" key = false ->
  has env key = match binding key env with Some _ => true | None => false end.
Proof. intros Ha Hk. unfold has. by rewrite Ha. Qed.

Lemma or_else_assoc {A} (a b c : option A) : or_else (or_else a b) c = or_else a (or_else b c).
Proof. by destruct a. Qed.

Lemma or_else_none_r {A} (a : option A) : or_else a None = a.
Proof. by destruct a. Qed.

(** Several variables, each appended when it is flagged. *)
Definition appends (l : list (bool * (string * string))) (env : list string) : list string :=
  fold_left (fun env '(b, kv) => append_if b kv env) l env.

Fixpoint flagged (key : string) (l : list (bool * (string * string))) : option string :=
  match l with
  | [] => None
  | (b, (k, v)) :: l' => if b && (k =? key)%string then Some v else flagged key l'
  end.

Definition flaggable (env : list string) (x : bool * (string * string)) : Prop :=
  contains_byte "=" (fst (snd x)) = false /\ (fst x = true -> lookupEnv env (fst (snd x)) = None).

Lemma appends_missing l env :
  agrees env -> Forall (flaggable env) l -> NoDup (fst ∘ snd <$> l) ->
  agrees (appends l env) /\
  forall key, contains_byte "=" key = false ->
    binding key (appends l env) = or_else (binding key env) (flagged key l).
Proof.
  revert env. induction l as [|[b [k v]] l IH]; intros env Ha.
  { split; [done|]. intros. simpl. by rewrite or_else_none_r. }
  intros [[Hk Hb] Hl]%Forall_cons [Hn Hd]%NoDup_cons. simpl in *.
  destruct (append_if_missing b k v env Ha Hk Hb) as [Ha1 Hb1].
  destruct (IH (append_if b (k, v) env) Ha1) as [Ha2 Hb2]; [|done|].
  - apply Forall_forall. intros [b' [k' v']] Hin.
    destruct (proj1 (Forall_forall _ _) Hl _ Hin) as [Hk' Hb']. split; [done|]. simpl in *.
    intros E. rewrite Ha1, Hb1, <-Ha, Hb' by done. simpl.
    destruct (String.eqb_spec k k') as [<-|]; [|by rewrite andb_false_r].
    destruct Hn. apply list_elem_of_fmap. by exists (b', (k, v')).
  - split; [done|]. intros key Hkey. rewrite Hb2, Hb1, or_else_assoc by done.
    by destruct (b && (k =? key)%string).
Qed.

Lemma withPasswdFallback_appends sys env :
  withPasswdFallback sys env =
  match currentUser sys with
  | None => env
  | Some u =>
      let named := negb (Username u =? "")%string in
      appends [(negb (has env envHome) && negb (HomeDir u =? "")%string, (envHome, HomeDir u));
               (negb (has env envUser) && named, (envUser, Username u));
               (negb (has env envLogname) && named, (envLogname, Username u))] env
  end.
Proof.
  unfold withPasswdFallback, appends. destruct (currentUser sys) as [u|]; simpl.
  - by destruct (has env envHome), (has env envUser), (has env envLogname), (Username u =? "")%string.
  - by destruct (_ && _).
Qed.

(** The fallback adds exactly the passwd entry's variables that are missing. *)
Lemma withPasswdFallback_binding sys env :
  agrees env ->
  agrees (withPasswdFallback sys env) /\
  forall key, contains_byte "=" key = false ->
    binding key (withPasswdFallback sys env) = or_else (binding key env) (passwdVar sys key).
Proof.
  intros Ha. rewrite withPasswdFallback_appends. unfold passwdVar.
  destruct (currentUser sys) as [u|]; [|split; [done|]; intros; by rewrite or_else_none_r].
  assert (forall k b, has env k = false \/ b = false -> negb (has env k) && b = true ->
    lookupEnv env k = None) as Hno.
  { intros k b _ H. to_prop. unfold has in *. by destruct (lookupEnv env k). }
  destruct (appends_missing
    [(negb (has env envHome) && negb (HomeDir u =? "")%string, (envHome, HomeDir u));
     (negb (has env envUser) && negb (Username u =? "")%string, (envUser, Username u));
     (negb (has env envLogname) && negb (Username u =? "")%string, (envLogname, Username u))] env)
    as [Ha' Hb]; [done| |by repeat constructor; set_solver|].
  { repeat constructor; simpl; intros H; eapply Hno, H; left; by to_prop. }
  split; [done|]. intros key Hk. rewrite Hb by done. cbn [flagged]. unfold nonempty.
  rewrite !(String.eqb_sym key), !has_binding by done.
  destruct (String.eqb_spec envHome key) as [<-|].
  { destruct (binding envHome env), (HomeDir u =? "")%string; try done.
    cbn; by rewrite ?andb_false_r. }
  rewrite andb_false_r. destruct (String.eqb_spec envUser key) as [<-|].
  { destruct (binding envUser env), (Username u =? "")%string; try done.
    cbn; by rewrite ?andb_false_r. }
  rewrite andb_false_r. destruct (String.eqb_spec envLogname key) as [<-|].
  { by destruct (binding envLogname env), (Username u =? "")%string. }
  by rewrite andb_false_r.
Qed.

(** What [Stat] finds at a path: a file that is not a directory, or a directory. *)
Definition file_at (sys : System) (p : string) : bool :=
  match Stat sys p with Some info => negb (IsDir info) | None => false end.
Definition dir_at (sys : System) (p : string) : bool :=
  match Stat sys p with Some info => IsDir info | None => false end.

Lemma resolveShell_spec sys :
  resolveShell sys =
  let shell := Getenv (environ sys) "SHELL" in
  if negb (shell =? "")%string && file_at sys shell then shell
  else if file_at sys "/bin/bash" then "/bin/bash" else "/bin/sh".
Proof.
  unfold resolveShell, pickShell, file_at, shellBash, shellSh. cbv zeta.
  destruct (Getenv (environ sys) "SHELL" =? "")%string; cbn [negb andb String.eqb];
    repeat (destruct (Stat sys _) as [[[] ?]|]; cbn; try done).
Qed.

Lemma sessionWorkingDir_spec sys env :
  sessionWorkingDir sys env =
  match lookupEnv env envHome with
  | Some home => if negb (home =? "")%string && dir_at sys home then home else ""
  | None => ""
  end.
Proof.
  unfold sessionWorkingDir, dir_at. destruct (lookupEnv env envHome) as [home|]; [|done].
  destruct (home =? "")%string; [done|]. cbn. by destruct (Stat sys home) as [[[] ?]|].
Qed.

(** * Properties *)

(** C19. A session's environment: whatever order the merged map is iterated in, each
    variable of the process that is started is the terminal type for [TERM] and
    [truecolor] for [COLORTERM] when there is a terminal, and otherwise the
    client's last value, or else the server's, or else, for [HOME], [USER] and
    [LOGNAME] only, the passwd entry's. *)
Theorem session_environment sys iter login osEnviron sessionEnv raw pty key :
  MapOrder iter -> contains_byte "=" key = false ->
  binding key (cmdEnv (sessionCommand sys iter login osEnviron sessionEnv raw pty)) =
  match pty with
  | Some term =>
      if (key =? "TERM")%string then Some term
      else if (key =? "COLORTERM")%string then Some "truecolor"
      else sessionVar sys osEnviron sessionEnv key
  | None => sessionVar sys osEnviron sessionEnv key
  end.
Proof.
  intros Hiter Hkey. unfold sessionCommand, sessionVar. cbn [cmdEnv].
  destruct (withPasswdFallback_binding sys _ (mergeEnv_agrees iter osEnviron sessionEnv)) as [_ Hb]. specialize (Hb key Hkey).
  rewrite (proj2 (mergeEnv_lookup iter key _ _ Hkey)), binding_app, or_else_assoc in Hb.
  destruct pty as [term|]; [|done]. unfold ptyEnv.
  change [entry ("TERM", term); entry ("COLORTERM", "truecolor")]
    with ([entry ("TERM", term)] ++ [entry ("COLORTERM", "truecolor")]).
  rewrite app_assoc, !binding_snoc, Hb by done. rewrite !(String.eqb_sym key).
  destruct (String.eqb_spec "TERM" key) as [<-|]; [done|].
  by destruct (String.eqb_spec "COLORTERM" key) as [<-|].
Qed.

Definition exampleSystem : System :=
  mkSystem ∅ (Some (mkUser "/home/jovyan" "jovyan"))
    (fun p => if (p =? "/home/jovyan")%string then Some (mkFileInfo true None)
              else if (p =? "/bin/bash")%string then Some (mkFileInfo false None) else None).

Lemma session_environment_witness :
  binding "HOME" (cmdEnv (sessionCommand exampleSystem map_to_list true ["PATH=/bin"; "LANG=C"]
    ["LANG=de"] "" (Some "xterm"))) = Some "/home/jovyan".
Proof.
  rewrite (session_environment exampleSystem map_to_list true ["PATH=/bin"; "LANG=C"] ["LANG=de"] ""
    (Some "xterm") "HOME" _ eq_refl). reflexivity.
Defined.

(** C20. A session always has a command, and which one is determined on every branch: the
    shell is the server's own [$SHELL] when that names a file, or else bash when it is
    there, or else sh; what the client sent reaches it as one unmodified argument of
    [-c], and an empty or blank command starts it without one; the working directory
    is what [HOME] of the session's own environment names when that is a directory,
    and is left alone otherwise. *)
Theorem session_command sys iter login osEnviron sessionEnv raw pty :
  MapOrder iter ->
  let cmd := sessionCommand sys iter login osEnviron sessionEnv raw pty in
  let shell := Getenv (environ sys) "SHELL" in
  cmdPath cmd =
    (if negb (shell =? "")%string && file_at sys shell then shell
     else if file_at sys "/bin/bash" then "/bin/bash" else "/bin/sh") /\
  cmdArgs cmd = (if (TrimSpace raw =? "")%string then if login then ["-l"] else []
                 else [if login then "-lc" else "-c"; raw]) /\
  cmdDir cmd =
    match sessionVar sys osEnviron sessionEnv "HOME" with
    | Some home => if negb (home =? "")%string && dir_at sys home then home else ""
    | None => ""
    end.
Proof.
  intros Hiter cmd shell. split_and!.
  - assert (cmdPath cmd = resolveShell sys) as -> by (subst cmd; simpl; unfold buildShellCommand;
      by destruct (TrimSpace raw =? "")%string, login).
    apply resolveShell_spec.
  - subst cmd. simpl. unfold buildShellCommand. by destruct (TrimSpace raw =? "")%string, login.
  - subst cmd. cbn [cmdDir sessionCommand]. rewrite sessionWorkingDir_spec.
    destruct (withPasswdFallback_binding sys _ (mergeEnv_agrees iter osEnviron sessionEnv)) as [Ha Hb].
    rewrite Ha, Hb, (proj2 (mergeEnv_lookup iter envHome _ _ eq_refl)) by done.
    by rewrite binding_app, or_else_assoc.
Qed.

Lemma session_command_witness :
  let cmd := sessionCommand exampleSystem map_to_list false [] [] "echo 'a b' | wc" None in
  cmdPath cmd = "/bin/bash" /\ cmdArgs cmd = ["-c"; "echo 'a b' | wc"] /\ cmdDir cmd = "/home/jovyan".
Proof.
  destruct (session_command exampleSystem map_to_list false [] [] "echo 'a b' | wc" None _)
    as (H1 & H2 & H3).
  split; [exact H1|split; [exact H2|exact H3]].
Defined.
