(* ===== verification/SshSystem.v ===== *)
(** The SSH server with all its sessions: [handleSession] of
    [internal/sshserver/server.go] as a client of the session cap, any number of
    times at once, and [handleSFTP], which takes no slot.  A session either is
    turned away with a message and status 1, or builds its command, runs as in
    [SshProcess] and returns its slot in the deferred [releaseSession]. *)

From S2P Require Import Prelude GoOs SshSlots SlotPool Shell ExitCode SshProcess.

Open Scope string_scope.
Open Scope Z_scope.

(** * [handleSession] *)

(** What the client asked of the session: the command, its environment, and, when it
    asked for a terminal, its type, its window and what is on the channel of window
    changes by then. *)
Record session_request := mkSessionRequest {
  RawCommand : string; Environ : list string; Pty : option (string * Window * list Window);
}.

(** A call of [handleSession]: turned away, with what was written to the client's
    stderr and the statuses sent, or running its command; [sReleased] once the
    deferred [releaseSession] ran. *)
Inductive handling :=
| Rejected (stderr : string) (sent : list Z)
| Served (cmd : Cmd) (p : PState) (sReleased : bool).

(** The server around it: the machine, the iteration order of the merged map, the
    configuration's [LoginShell] and the server's own environment. *)
Record server_env := mkServerEnv {
  se_sys : System; se_iter : gmap string string -> list (string * string);
  se_login : bool; se_environ : list string;
}.

Section handler.
Context (e : server_env).

(** The command it builds. *)
Definition commandFor (r : session_request) : Cmd :=
  sessionCommand (se_sys e) (se_iter e) (se_login e) (se_environ e) (Environ r) (RawCommand r)
    ((fun p => fst (fst p)) <$> Pty r).

(** With a slot: the command, then [runWithPty] or [runWithoutPty]. *)
Definition openSession (r : session_request) : handling :=
  let cmd := commandFor r in
  match Pty r with
  | Some (_, win, winCh) => Served cmd (initPState true win winCh) false
  | None => Served cmd (initPState false (mkWindow 0 0) []) false
  end.

(** Without one. *)
Definition rejectSession (r : session_request) : handling :=
  Rejected ("remote access server at capacity" +:+ String (Ascii.ascii_of_nat 10) EmptyString)
    [exitCodeGeneralError].

Inductive handler_label := Proc (l : plabel) | DeferRelease.

(** [runWithPty] or [runWithoutPty] has returned. *)
Definition returned (p : PState) : bool :=
  match main p with MReturned | MFailed => true | _ => false end.

(** [handleSession] after the slot. *)
Definition handleSession_step (h : handling) (l : handler_label) : option handling :=
  match h, l with
  | Rejected _ _, _ => None
  | Served cmd p released, Proc l => p' ← pstep p l; Some (Served cmd p' released)
  | Served cmd p released, DeferRelease =>
      if returned p && negb released then Some (Served cmd p true) else None
  end.

Definition session_owes (h : handling) : bool :=
  match h with Rejected _ _ => false | Served _ _ released => negb released end.

#[local] Instance session_user : SlotUser session_request handling handler_label := {
  user_init := openSession;
  user_refused := rejectSession;
  user_step := handleSession_step;
  user_owes := session_owes;
}.

#[local] Instance session_user_laws : SlotUserLaws session_request handling handler_label.
Proof.
  split; simpl.
  - intros r. unfold openSession. by destruct (Pty r) as [[[]]|].
  - done.
  - intros [|cmd p rl] [l|] u'; simpl; try done.
    + destruct (pstep p l); [|done]. by intros [= <-].
    + destruct (returned p), rl; try done.
Qed.

(** * The server *)

Definition SshSystem : Type := SlotSystem Slots slot_pc session_request handling.

Definition ssh_reachable (max : Z) (s : SshSystem) : Prop :=
  sys_reachable (L := handler_label) (mkSlots max 0) s.

(** The steps that depend neither on the clients nor on the goodwill of the
    processes. *)
Definition ssh_label (l : sys_label session_request handler_label) : bool :=
  match l with
  | SysArrive _ => false
  | SysSlot _ => true
  | SysUser _ (Proc l) => system_label l
  | SysUser _ DeferRelease => true
  end.

Definition client_gone (r : Request slot_pc session_request handling) : Prop :=
  forall cmd p rl, req_user r = Some (Served cmd p rl) -> ctxDone p = true.

(** The session is over: refused with its message, or returned with one status, its
    process reaped if it ever ran, and its slot returned. *)
Definition session_over (r : Request slot_pc session_request handling) : Prop :=
  req_user r = Some (rejectSession (req_arg r)) \/
  exists p code, req_user r = Some (Served (commandFor (req_arg r)) p true) /\
    exits p = [code] /\ (main p = MFailed \/ main p = MReturned /\ proc (group p) = Reaped).

(** The session is kept by a process outside its process group (see [SshProcess]):
    both signals were sent, nothing is left in the group, and it has its slot. *)
Definition session_kept (r : Request slot_pc session_request handling) : bool :=
  match req_user r with
  | Some (Served _ p released) =>
      negb released && held (group p) && negb (bg (group p)) &&
      bool_decide (fst <$> kills p = [SIGHUP; SIGKILL])
  | _ => false
  end.

(** * Lemmas *)

Lemma Slots_ok max : max <= max_int64 -> slot_ok (mkSlots max 0) [].
Proof. intros H. exists max. split; [done|]. apply slots_inv_init. Qed.

(** A session that has returned stays so. *)
Lemma returned_stays p p' : rtc (lts_step pstep) p p' -> returned p = true -> returned p' = true.
Proof.
  intros Hr Hp. refine (rtc_invariant _ (fun p => returned p = true) _ _ _ Hr Hp).
  intros t t' Ht [l Hs]. unfold returned in *. destruct_pstate t.
  destruct m; try done; destruct l; open_pstep Hs; done.
Qed.

(** A session's own state is one [SshProcess] reaches. *)
Lemma handling_reachable h0 h :
  rtc (lts_step handleSession_step) h0 h ->
  match h0 with
  | Rejected _ _ => h = h0
  | Served cmd p0 rl0 =>
      exists p rl, h = Served cmd p rl /\ rtc (lts_step pstep) p0 p /\
        (rl = true -> rl0 = true \/ returned p = true)
  end.
Proof.
  induction 1 as [h|h h1 h2 [l Hs] _ IH].
  - destruct h; eauto 10 using rtc_refl.
  - destruct h as [|cmd p rl]; [done|]. destruct l as [l|]; simpl in Hs.
    + destruct (pstep p l) as [p1|] eqn:E; [|done]. injection Hs as <-.
      destruct IH as (p2 & rl2 & -> & Hr & Hrl). eexists _, _. split_and!; [done| |done].
      eapply rtc_l; [by exists l|done].
    + destruct (returned p && negb rl) eqn:E; [|done]. injection Hs as <-.
      destruct IH as (p2 & rl2 & -> & Hr & _). apply andb_true_iff in E as [E _].
      eexists _, _. split_and!; [done..|]. intros _. right. by eapply returned_stays.
Qed.

Lemma request_session (r : Request slot_pc session_request handling) u :
  request_ok (L := handler_label) r -> req_user r = Some u ->
  u = rejectSession (req_arg r) \/
  exists p rl pty win queue, u = Served (commandFor (req_arg r)) p rl /\
    preachable pty win queue p /\ (rl = true -> returned p = true).
Proof.
  intros Hr Hu. unfold request_ok in Hr. rewrite Hu in Hr. destruct Hr as (_ & _ & [Hr|Hr]).
  - apply handling_reachable in Hr. simpl in Hr. unfold openSession in Hr.
    destruct (Pty (req_arg r)) as [[[term win] queue]|]; destruct Hr as (p & rl & -> & Hr & Hrl);
      right; eexists p, rl, _, _, _; (split_and!; [done|done|]); intros Ht; by destruct (Hrl Ht).
  - left. apply (handling_reachable _ _ Hr).
Qed.

Section quiescent.
Context (max : Z) (s : SshSystem).
Hypothesis Hmax : max <= max_int64.
Hypothesis Hreach : ssh_reachable max s.
Hypothesis Hstuck : forall l, ssh_label l = true -> sys_step s l = None.

Lemma ssh_stuck_request i r :
  sys_requests s !! i = Some r -> client_gone r -> session_over r \/ session_kept r = true.
Proof using All.
  intros Hi Hgone. pose proof (sys_inv_reachable _ _ (Slots_ok max Hmax) Hreach) as Hinv.
  pose proof (Forall_lookup_1 _ _ _ _ (sys_inv_requests _ _ Hinv) Hi) as Hr.
  destruct (req_user r) as [u|] eqn:Hu.
  2: { destruct (sys_asking _ _ i r Hinv Hi Hu) as [s' Hs']. by rewrite (Hstuck (SysSlot i) eq_refl) in Hs'. }
  destruct (request_session _ _ Hr Hu) as [->|(p & rl & pty & win & queue & -> & Hp & Hrl)]; [by left; left|].
  assert (forall l u', handleSession_step (Served (commandFor (req_arg r)) p rl) l = Some u' ->
    ssh_label (SysUser i l) = false) as Hq.
  { intros l u' Hl. destruct (ssh_label (SysUser i l)) eqn:E; [|done].
    destruct (sys_user _ _ i r _ l u' Hinv Hi Hu Hl) as [s' Hs']. by rewrite (Hstuck _ E) in Hs'. }
  assert (forall l, system_label l = true -> pstep p l = None) as Hpq.
  { intros l Hl. destruct (pstep p l) as [p'|] eqn:E; [|done].
    specialize (Hq (Proc l) (Served (commandFor (req_arg r)) p' rl)). simpl in Hq.
    rewrite E, Hl in Hq. by specialize (Hq eq_refl). }
  assert (returned p = true -> rl = true) as Hrel.
  { intros Hm. destruct rl; [done|]. specialize (Hq DeferRelease (Served (commandFor (req_arg r)) p true)).
    simpl in Hq. rewrite Hm in Hq. by specialize (Hq eq_refl). }
  destruct (pinv_reachable _ _ _ _ Hp) as [Hl _ _ _ He _ _ _ _ _ _ _]. unfold exits_of, returned in *.
  destruct (proc_stuck_main _ _ _ _ Hp (Hgone _ _ _ Hu) Hpq) as [E|[E|(Hh & Hx & Hb & _ & _ & Hk)]].
  1, 2: rewrite E in *; rewrite (Hrel eq_refl) in *; left; right; naive_solver.
  right. unfold session_kept. rewrite Hu, Hh, Hb, bool_decide_eq_true_2 by done.
  destruct rl; [|done]. specialize (Hrl eq_refl). rewrite Hx in He. destruct (main p); naive_solver.
Qed.
End quiescent.

Lemma over_returned r : session_over r -> request_ok (L := handler_label) r -> counted (req_slot r) = false.
Proof.
  intros Ho Hr. unfold request_ok in Hr.
  destruct Ho as [E|(p & code & E & _)]; rewrite E in Hr; destruct Hr as (Hv & Hh & _);
    destruct (req_slot r); simpl in *; try done; discriminate Hh.
Qed.

Lemma over_kept r : session_over r -> session_kept r = false.
Proof. unfold session_kept. by intros [->|(p & code & -> & _)]. Qed.

(** A session that is kept has its slot. *)
Lemma kept_counted r :
  session_kept r = true -> request_ok (L := handler_label) r -> counted (req_slot r) = true.
Proof.
  unfold session_kept, request_ok. destruct (req_user r) as [[|cmd p []]|]; try done.
  intros _ (_ & Hh & _). by destruct (req_slot r).
Qed.

(** So the slots that are taken are those of the sessions that are kept. *)
Lemma settled_counted rs :
  Forall (fun r => session_over r \/ session_kept r = true) rs -> Forall (request_ok (L := handler_label)) rs ->
  count_if counted (req_slot <$> rs) = count_if session_kept rs.
Proof.
  intros Ho. induction Ho as [|r rs Hr _ IH]; [done|]. intros Hok. inversion Hok; subst.
  rewrite fmap_cons. cbn [count_if]. rewrite IH by done.
  destruct Hr as [Hr|Hr]; [by rewrite over_returned, over_kept|by rewrite kept_counted, Hr].
Qed.

(** The counter, from the invariant of the pool. *)
Lemma ssh_counter max (s : SshSystem) :
  0 < max <= max_int64 -> ssh_reachable max s -> Z.of_nat (length (sys_requests s)) <= max_int64 ->
  sessions (sys_pool s) = count_if counted (req_slot <$> sys_requests s).
Proof.
  intros Hmax Hr Hlen. destruct (sys_inv_reachable _ _ (Slots_ok max (proj2 Hmax)) Hr) as [Hok Hl _].
  simpl in *. destruct Hok as (m & Hm & E & _ & Hon). simpl in *. rewrite E in Hl.
  assert ((max <=? 0) = false) as Hf by lia. rewrite Hf in Hl.
  destruct (Z.leb_spec m 0); [done|]. injection Hl as ->. apply Hon; [lia|]. by rewrite length_fmap.
Qed.

(** * Properties *)

(** C4. The SSH server as a whole keeps its cap and frees every slot it can: with a cap
    of [max] at most that many sessions run at a time, however they interleave; and
    once the clients are gone and the server has nothing left to do, every session
    either was turned away with the message and status 1, or has run the command
    built for it to its end, with one status sent, its process reaped and its slot
    returned, or is kept by a process outside its process group, which neither SIGHUP
    nor SIGKILL reached; and the counter is the number of the latter, so that it is
    back at zero when every process that holds a session's output has stayed in the
    group of that session. *)
Theorem ssh_keeps_cap max (s : SshSystem) :
  0 < max <= max_int64 -> ssh_reachable max s -> Z.of_nat (length (sys_requests s)) <= max_int64 ->
  count_if (in_progress (L := handler_label)) (sys_requests s) <= max /\
  ((forall l, ssh_label l = true -> sys_step s l = None) -> Forall client_gone (sys_requests s) ->
   Forall (fun r => session_over r \/ session_kept r = true) (sys_requests s) /\
   sessions (sys_pool s) = count_if session_kept (sys_requests s)).
Proof.
  intros Hmax Hr Hlen. pose proof (Slots_ok max (proj2 Hmax)) as Hok. split.
  - apply (sys_capacity (mkSlots max 0) s max Hok Hr); [|done]. simpl.
    by assert ((max <=? 0) = false) as -> by lia.
  - intros Hs Hgone.
    assert (Forall (fun r => session_over r \/ session_kept r = true) (sys_requests s)) as Ho.
    { apply Forall_lookup_2. intros i r Hi. eapply ssh_stuck_request; [exact (proj2 Hmax)|done|done|done|].
      by eapply Forall_lookup_1. }
    split; [done|]. rewrite (ssh_counter max) by done.
    apply settled_counted; [done|]. apply (sys_inv_reachable _ _ Hok Hr).
Qed.
End handler.

Definition exampleServerEnv : server_env := mkServerEnv exampleSystem map_to_list true [].
#[local] Instance exampleUser : SlotUser session_request handling handler_label :=
  session_user exampleServerEnv.
Definition exampleShell : session_request := mkSessionRequest "" [] (Some ("xterm", mkWindow 80 24, [])).
Definition exampleExec : session_request := mkSessionRequest "ls" [] None.

(** A cap of one: a shell whose client goes away and that ignores the hangup, and a
    command that arrives meanwhile. *)
Definition exampleSshSystem : SshSystem :=
  mkSlotSystem (mkSlots 1 0)
    [mkRequest exampleShell Left
       (Some (Served (sessionCommand exampleSystem map_to_list true [] [] "" (Some "xterm")) killed_shell true));
     mkRequest exampleExec Turned (Some (rejectSession exampleExec))].

Lemma ssh_keeps_cap_witness :
  count_if (in_progress (L := handler_label)) (sys_requests exampleSshSystem) <= 1 /\
  Forall (fun r => session_over exampleServerEnv r \/ session_kept r = true) (sys_requests exampleSshSystem) /\
  sessions (sys_pool exampleSshSystem) = 0.
Proof.
  destruct (ssh_keeps_cap exampleServerEnv 1 exampleSshSystem) as [H1 H2].
  - unfold max_int64. lia.
  - apply (run_reachable (sys_step (L := handler_label))
      ([SysArrive exampleShell; SysSlot 0; SysArrive exampleExec; SysSlot 1; SysSlot 1] ++
       ((fun l => SysUser 0 (Proc l)) <$> ignored_hangup) ++ [SysUser 0 DeferRelease])%list).
    vm_compute. reflexivity.
  - vm_compute. discriminate.
  - split; [exact H1|]. apply H2.
    + intros [a|[|[|i]]|[|[|i]] [l|]]; try reflexivity; try discriminate.
      destruct l; (discriminate || reflexivity).
    + repeat constructor; intros cmd p rl E; [|discriminate E].
      injection E as <- <- <-. reflexivity.
Defined.

(** * [handleSFTP] *)

(** What the sftp library's [Serve] returns. *)
Inductive sftp_serve := SftpNil | SftpEOF | SftpError.

(** The statuses sent, and whether the sftp server was closed: [NewServer] fails
    or succeeds, and then [Serve] runs to its end. *)
Definition handleSFTP (created : bool) (serve : sftp_serve) : list Z * bool :=
  if negb created then ([exitCodeGeneralError], false)
  else match serve with
       | SftpError => ([exitCodeGeneralError], true)
       | SftpNil | SftpEOF => ([0], true)
       end.
