(* ===== verification/HostKey.v ===== *)
(** The host key, [internal/sshserver/hostkey.go]: [loadOrCreateHostKey] and the
    installation of a new key through a temporary file.

    The file system is a map from paths to files whose contents may or may not
    have reached the disk, with the directories whose entries have; every call that changes it appends the new state to a
    history, which is what a crash at that moment leaves.  Each call may fail. *)

From S2P Require Import Prelude GoStrings GoPath.

Open Scope string_scope.
Open Scope list_scope.

(** * The file system *)

(** [durable] when the contents were flushed. *)
Record File := mkFile { data : string; durable : bool; mode : Z }.

(** [synced]: the directories whose entries were flushed since they last changed. *)
Record FS := mkFS { files : gmap string File; dirs : gset string; synced : gset string }.

(** The file system now, and after each change so far. *)
Record World := mkWorld { fs : FS; history : list FS }.

Definition change (f : FS -> FS) (w : World) : World :=
  mkWorld (f (fs w)) (history w ++ [f (fs w)]).

(** A file whose entry stays, and one whose entry is new or gone. *)
Definition put (path : string) (f : File) (s : FS) : FS :=
  mkFS (<[path := f]> (files s)) (dirs s) (synced s).
Definition create (path : string) (f : File) (s : FS) : FS :=
  mkFS (<[path := f]> (files s)) (dirs s) (synced s ∖ {[Dir path]}).
Definition remove (path : string) (s : FS) : FS :=
  mkFS (delete path (files s)) (dirs s) (synced s ∖ {[Dir path]}).

(** [rename(2)]: the new name holds the file, whatever it held before. *)
Definition rename (old new : string) (s : FS) : FS :=
  match files s !! old with
  | Some f => mkFS (<[new := f]> (delete old (files s))) (dirs s) (synced s ∖ {[Dir old; Dir new]})
  | None => s
  end.

(** [fsync(2)] of a directory. *)
Definition flush (dir : string) (s : FS) : FS := mkFS (files s) (dirs s) (synced s ∪ {[dir]}).

(** A directory and its parents. *)
Fixpoint parents (fuel : nat) (dir : string) : gset string :=
  match fuel with
  | O => {[dir]}
  | S fuel' => {[dir]} ∪ parents fuel' (Dir dir)
  end.

Definition mkdirs (dir : string) (s : FS) : FS :=
  mkFS (files s) (dirs s ∪ parents (String.length dir) dir) (synced s ∖ parents (String.length dir) dir).

(** The calls that can fail. *)
Inductive syscall :=
| ReadFile | MkdirAll | CreateTemp | Chmod | Write | Sync | Close | Rename | Remove | OpenDir | SyncDir.

Inductive read_error := NotExist | ReadOther.

Inductive hostkey_error :=
| ErrUnreadable       (* existing host key is unreadable *)
| ErrRead             (* failed to read host key *)
| ErrGenerate         (* failed to generate or to marshal host key *)
| ErrMkdir            (* failed to create host key directory *)
| ErrCreateTemp       (* failed to create a temporary host key *)
| ErrWrite            (* failed to write host key *)
| ErrInstall          (* failed to install host key *)
| ErrParseGenerated.  (* failed to parse generated host key *)

Definition hostKeyFileMode : Z := 384.   (* 0o600 *)

(** [os.CreateTemp] joins the directory and the name it makes. *)
Definition joinPath (dir name : string) : string :=
  if match last_index_byte "/" dir with Some i => Nat.eqb (S i) (String.length dir) | None => false end
  then dir +:+ name else dir +:+ "/" +:+ name.

Section hostkey.
Local Open Scope go_scope.

(** The key types and the cryptographic libraries; the outcome of each call: which
    of them fail, how much of a failed write was written, and the random number of
    the temporary name. *)
Context {signer priv : Type}.
Context (ParsePrivateKey : string -> option signer).
Context (GenerateKey : option priv) (MarshalPKCS8 : priv -> option string).
Context (EncodeToMemory : string -> string).
Context (fails : syscall -> bool) (written : nat) (random : Z).

(** * Operations *)

Definition generateHostKeyPEM : result hostkey_error string :=
  match GenerateKey with
  | None => Err ErrGenerate
  | Some key =>
      match MarshalPKCS8 key with
      | None => Err ErrGenerate
      | Some der => Ok (EncodeToMemory der)
      end
  end.

Definition readFile (path : string) (s : FS) : result read_error string :=
  if fails ReadFile then Err ReadOther
  else match files s !! path with Some f => Ok (data f) | None => Err NotExist end.

(** The descriptor [file] names the file it was opened on. *)
Definition on_file (file : string) (g : File -> File) (w : World) : World :=
  match files (fs w) !! file with
  | Some f => change (put file (g f)) w
  | None => w
  end.

(** [writeAndSync]; the error is the first one, and the deferred [Close] reports
    its own only when there is none. *)
Definition writeAndSync (file contents : string) (w : World) : World * bool :=
  if fails Chmod then (w, false)
  else
    let w := on_file file (fun f => mkFile (data f) (durable f) hostKeyFileMode) w in
    if fails Write then
      (on_file file (fun f => mkFile (data f +:+ stake written contents) false (mode f)) w, false)
    else
      let w := on_file file (fun f => mkFile (data f +:+ contents) false (mode f)) w in
      if fails Sync then (w, false)
      else (on_file file (fun f => mkFile (data f) true (mode f)) w, negb (fails Close)).

(** [_ = os.Remove(path)]. *)
Definition discard (path : string) (w : World) : World :=
  if fails Remove then w else change (remove path) w.

(** The name [os.CreateTemp] gives the temporary file of [path]. *)
Definition tempPath (path : string) : string :=
  joinPath (Dir path) (Base path +:+ ".tmp-" +:+ Itoa random).

(** [os.CreateTemp]: exclusive, with mode 0600, in an existing directory, and not
    for a pattern with a separator. *)
Definition createTemp (path : string) (w : World) : option World :=
  if fails CreateTemp || contains_byte "/" (Base path) ||
     negb (bool_decide (Dir path ∈ dirs (fs w)))
  then None
  else match files (fs w) !! tempPath path with
       | Some _ => None
       | None => Some (change (create (tempPath path) (mkFile "" false hostKeyFileMode)) w)
       end.

(** [syncDir]: the entries are flushed; neither the error of opening the directory nor
    that of the flush is reported. *)
Definition syncDir (dir : string) (w : World) : World * option hostkey_error :=
  if fails OpenDir then (w, None)
  else if fails SyncDir then (w, None)
  else (change (flush dir) w, None).

Definition writeHostKeyAtomically (path contents : string) (w : World)
    : World * option hostkey_error :=
  match createTemp path w with
  | None => (w, Some ErrCreateTemp)
  | Some w =>
      let tmp := tempPath path in
      match writeAndSync tmp contents w with
      | (w, false) => (discard tmp w, Some ErrWrite)
      | (w, true) =>
          if fails Rename then (discard tmp w, Some ErrInstall)
          else syncDir (Dir path) (change (rename tmp path) w)
      end
  end.

Definition loadOrCreateHostKey (path : string) (w : World)
    : World * result hostkey_error (signer * bool) :=
  match readFile path (fs w) with
  | Ok pemBytes =>
      match ParsePrivateKey pemBytes with
      | None => (w, Err ErrUnreadable)
      | Some parsed => (w, Ok (parsed, false))
      end
  | Err ReadOther => (w, Err ErrRead)
  | Err NotExist =>
      match generateHostKeyPEM with
      | Err e => (w, Err e)
      | Ok generatedPEM =>
          if fails MkdirAll then (w, Err ErrMkdir)
          else
            let w := change (mkdirs (Dir path)) w in
            match writeHostKeyAtomically path generatedPEM w with
            | (w, Some e) => (w, Err e)
            | (w, None) =>
                match ParsePrivateKey generatedPEM with
                | None => (w, Err ErrParseGenerated)
                | Some parsed => (w, Ok (parsed, true))
                end
            end
      end
  end.

(** * Lemmas *)

(** A path and its temporary file never coincide. *)
Lemma joinPath_slash dir name : exists a, joinPath dir name = a +:+ String "/" name.
Proof.
  unfold joinPath. destruct (last_index_byte "/" dir) as [i|] eqn:Hi; [|by exists dir].
  destruct (Nat.eqb_spec (S i) (String.length dir)) as [E|]; [|by exists dir].
  apply last_index_byte_inv in Hi as (a & b & -> & <- & _). exists a.
  rewrite sapp_length in E. simpl in E. destruct b as [|c b]; [|simpl in E; lia].
  by rewrite sapp_assoc.
Qed.

Lemma tempPath_neq path : tempPath path <> path.
Proof.
  intros E. unfold tempPath in E.
  destruct (joinPath_slash (Dir path) (Base path +:+ ".tmp-" +:+ Itoa random)) as [a Ha].
  rewrite Ha in E. clear Ha.
  assert (forall x, contains_byte "/" x = false ->
    contains_byte "/" (x +:+ ".tmp-" +:+ Itoa random) = false) as Hs
    by (intros x Hx; rewrite !contains_byte_app, Hx; by rewrite (Itoa_contains "/")).
  destruct (slash_cases (Base path)) as [Hb|(x1 & x2 & Hx & Hx2)].
  - assert (Base path = Base path +:+ ".tmp-" +:+ Itoa random) as E'.
    { rewrite <-E at 1. apply Base_slash; [by destruct (Base path)|by apply Hs]. }
    apply (f_equal String.length) in E'. rewrite !sapp_length in E'. simpl in E'. lia.
  - assert (path = (a +:+ String "/" x1) +:+ String "/" (x2 +:+ ".tmp-" +:+ Itoa random)) as E2
      by (rewrite <-E, Hx; by repeat rewrite ?sapp_assoc, ?sapp_cons).
    assert (Base path = x2 +:+ ".tmp-" +:+ Itoa random) as E'
      by (rewrite E2; apply Base_slash; [by destruct x2|by apply Hs]).
    specialize (Hs x2 Hx2). rewrite <-E', Hx, contains_byte_app, contains_byte_cons in Hs.
    by rewrite orb_true_r in Hs.
Qed.

(** Two states that differ in the file [tmp] at most, and a run of calls that
    changes nothing else on the way. *)
Definition same_but (tmp : string) (s s' : FS) : Prop :=
  forall p, p <> tmp -> files s' !! p = files s !! p.

Definition confined (tmp : string) (w w' : World) : Prop :=
  exists new, history w' = history w ++ new /\ Forall (same_but tmp (fs w)) new /\
              same_but tmp (fs w) (fs w').

Lemma confined_refl tmp w : confined tmp w w.
Proof. exists []. split_and!; [by rewrite app_nil_r|done|by intros p]. Qed.

Lemma confined_trans tmp w1 w2 w3 : confined tmp w1 w2 -> confined tmp w2 w3 -> confined tmp w1 w3.
Proof.
  intros (n1 & H1 & F1 & S1) (n2 & H2 & F2 & S2). exists (n1 ++ n2). split_and!.
  - by rewrite H2, H1, app_assoc.
  - apply Forall_app. split; [done|]. eapply Forall_impl; [exact F2|].
    intros s Hs p Hp. by rewrite Hs, S1.
  - intros p Hp. by rewrite S2, S1.
Qed.

Lemma confined_change tmp g w :
  same_but tmp (fs w) (g (fs w)) -> confined tmp w (change g w).
Proof. intros H. exists [g (fs w)]. by repeat constructor. Qed.

Lemma confined_on_file tmp g w : confined tmp w (on_file tmp g w).
Proof.
  unfold on_file. destruct (files (fs w) !! tmp) as [f|]; [|apply confined_refl].
  apply confined_change. intros p Hp. simpl. by rewrite lookup_insert_ne.
Qed.

Lemma confined_discard tmp w : confined tmp w (discard tmp w).
Proof.
  unfold discard. destruct (fails Remove); [apply confined_refl|].
  apply confined_change. intros p Hp. simpl. by rewrite lookup_delete_ne.
Qed.

Lemma confined_createTemp path w w' :
  createTemp path w = Some w' ->
  confined (tempPath path) w w' /\ files (fs w) !! tempPath path = None /\
  files (fs w') !! tempPath path = Some (mkFile "" false hostKeyFileMode).
Proof.
  unfold createTemp. intros H. destruct (_ || _) eqn:Hc in H; [done|]. to_prop.
  destruct (files (fs w) !! tempPath path) eqn:Ht; [done|]. injection H as <-. split_and!.
  - apply confined_change. intros p Hp. simpl. by rewrite lookup_insert_ne.
  - done.
  - simpl. by rewrite lookup_insert_eq.
Qed.

Lemma on_file_at tmp g w f :
  files (fs w) !! tmp = Some f -> files (fs (on_file tmp g w)) !! tmp = Some (g f).
Proof. intros H. unfold on_file. rewrite H. simpl. by rewrite lookup_insert_eq. Qed.

Lemma writeAndSync_spec tmp contents w w' ok :
  writeAndSync tmp contents w = (w', ok) ->
  files (fs w) !! tmp = Some (mkFile "" false hostKeyFileMode) ->
  confined tmp w w' /\ (ok = true -> files (fs w') !! tmp = Some (mkFile contents true hostKeyFileMode)).
Proof.
  intros H Ht. unfold writeAndSync in H.
  assert (forall g w1, confined tmp w w1 -> confined tmp w (on_file tmp g w1)) as Hc
    by (intros; eapply confined_trans; [done|apply confined_on_file]).
  destruct (fails Chmod); [injection H as <- <-; split; [auto using confined_refl|done]|].
  destruct (fails Write); [injection H as <- <-; split; [auto 6 using confined_refl|done]|].
  destruct (fails Sync); injection H as <- <-; (split; [auto 6 using confined_refl|]); [done|].
  intros _. by rewrite (on_file_at _ _ _ _ (on_file_at _ _ _ _ (on_file_at _ _ _ _ Ht))).
Qed.

(** A discarded temporary file leaves no trace. *)
Lemma discard_restores tmp w w1 :
  confined tmp w w1 -> files (fs w) !! tmp = None -> fails Remove = false ->
  files (fs (discard tmp w1)) = files (fs w).
Proof.
  intros (_ & _ & _ & Hs) Hn Hr. unfold discard. rewrite Hr. simpl. apply map_eq. intros p.
  destruct (decide (p = tmp)) as [->|Hp]; [by rewrite lookup_delete_eq, Hn|].
  by rewrite lookup_delete_ne, Hs.
Qed.

(** The flush of the directory changes no file. *)
Lemma syncDir_spec dir w :
  exists w', syncDir dir w = (w', None) /\ files (fs w') = files (fs w) /\
    (exists new, history w' = history w ++ new /\ Forall (fun s => files s = files (fs w)) new) /\
    (fails OpenDir = false -> fails SyncDir = false -> dir ∈ synced (fs w')).
Proof.
  unfold syncDir. destruct (fails OpenDir), (fails SyncDir); eexists; (split_and!; [done|done|..]); try done.
  1-3: exists []; by rewrite app_nil_r.
  - eexists [_]. split; [done|]. by apply Forall_singleton.
  - intros _ _. simpl. set_solver.
Qed.

(** An installed key: the new file under the path, and its entry flushed if that could
    be done; [new] are the states since the rename. *)
Definition installed (path contents : string) (w w1 w' : World) : Prop :=
  exists new, history w' = history w1 ++ new /\ Forall (fun s => files s = files (fs w')) new /\
    files (fs w') = <[path := mkFile contents true hostKeyFileMode]> (files (fs w)) /\
    (fails OpenDir = false -> fails SyncDir = false -> Dir path ∈ synced (fs w')).

Lemma writeHostKeyAtomically_spec path contents w w' e :
  writeHostKeyAtomically path contents w = (w', e) ->
  match e with
  | Some _ => confined (tempPath path) w w' /\
              (fails Remove = false -> files (fs w') = files (fs w))
  | None => exists w1, confined (tempPath path) w w1 /\ installed path contents w w1 w'
  end.
Proof.
  unfold writeHostKeyAtomically. destruct (createTemp path w) as [w1|] eqn:Hc.
  2:{ intros [= <- <-]. split; [apply confined_refl|done]. }
  apply confined_createTemp in Hc as (Hw1 & Hn & Ht).
  destruct (writeAndSync (tempPath path) contents w1) as [w2 ok] eqn:Hw.
  apply writeAndSync_spec in Hw as [Hw2 Hok]; [|done].
  pose proof (confined_trans _ _ _ _ Hw1 Hw2) as Hw12.
  assert (confined (tempPath path) w (discard (tempPath path) w2) /\
    (fails Remove = false -> files (fs (discard (tempPath path) w2)) = files (fs w))) as Hd.
  { split; [|by apply discard_restores].
    eapply confined_trans; [exact Hw12|apply confined_discard]. }
  destruct ok; [|by intros [= <- <-]].
  destruct (fails Rename); [by intros [= <- <-]|].
  assert (files (rename (tempPath path) path (fs w2)) =
          <[path := mkFile contents true hostKeyFileMode]> (files (fs w))) as Hren.
  { specialize (Hok eq_refl). unfold rename. rewrite Hok. simpl.
    destruct Hw12 as (_ & _ & _ & Hs). apply map_eq. intros p.
    destruct (decide (p = path)) as [->|Hp]; [by rewrite !lookup_insert_eq|].
    rewrite !lookup_insert_ne by done. destruct (decide (p = tempPath path)) as [->|Hp'].
    - by rewrite lookup_delete_eq, Hn.
    - by rewrite lookup_delete_ne, Hs. }
  destruct (syncDir_spec (Dir path) (change (rename (tempPath path) path) w2))
    as (w3 & -> & Hf & (new & Hh & Hnew) & Hsy).
  intros [= <- <-]. exists w2. split; [done|]. simpl in Hf, Hh, Hnew. exists (rename (tempPath path) path (fs w2) :: new).
  rewrite Hf. split_and!; [by rewrite Hh, <-app_assoc|by constructor|done|done].
Qed.

Lemma loadOrCreateHostKey_existing path w f :
  files (fs w) !! path = Some f ->
  loadOrCreateHostKey path w =
  (w, if fails ReadFile then Err ErrRead
      else match ParsePrivateKey (data f) with
           | Some k => Ok (k, false) | None => Err ErrUnreadable end).
Proof.
  intros Hf. unfold loadOrCreateHostKey, readFile. rewrite Hf.
  destruct (fails ReadFile); [done|]. by destruct (ParsePrivateKey (data f)).
Qed.

(** What a first use does, by its outcome. *)
Lemma loadOrCreateHostKey_new path w w' r :
  files (fs w) !! path = None -> loadOrCreateHostKey path w = (w', r) ->
  (exists e, r = Err e /\ e <> ErrParseGenerated /\
     confined (tempPath path) w w' /\ (fails Remove = false -> files (fs w') = files (fs w))) \/
  (exists pem w1, generateHostKeyPEM = Ok pem /\ confined (tempPath path) w w1 /\
     installed path pem w w1 w' /\
     r = match ParsePrivateKey pem with Some k => Ok (k, true) | None => Err ErrParseGenerated end).
Proof.
  intros Hn H. unfold loadOrCreateHostKey, readFile in H. rewrite Hn in H.
  assert (forall (e : hostkey_error) w', e <> ErrParseGenerated -> confined (tempPath path) w w' ->
    (fails Remove = false -> files (fs w') = files (fs w)) -> exists e', Err (A := signer * bool) e = Err e' /\
     e' <> ErrParseGenerated /\ confined (tempPath path) w w' /\
     (fails Remove = false -> files (fs w') = files (fs w))) as Herr by eauto 6.
  destruct (fails ReadFile).
  { injection H as <- <-. left. by apply (Herr ErrRead w); [|apply confined_refl|]. }
  destruct generateHostKeyPEM as [pem|e] eqn:Hg.
  2:{ injection H as <- <-. left. apply (Herr e w); [|apply confined_refl|done].
      unfold generateHostKeyPEM in Hg. repeat case_match; congruence. }
  destruct (fails MkdirAll).
  { injection H as <- <-. left. by apply (Herr ErrMkdir w); [|apply confined_refl|]. }
  assert (confined (tempPath path) w (change (mkdirs (Dir path)) w)) as Hm
    by (apply confined_change; by intros p).
  destruct (writeHostKeyAtomically path pem _) as [w2 [e|]] eqn:Hw;
    pose proof (writeHostKeyAtomically_spec _ _ _ _ _ Hw) as Hspec.
  - injection H as <- <-. left. destruct Hspec as [Hc Hr].
    apply (Herr e w2); [|by eapply confined_trans|done].
    unfold writeHostKeyAtomically, syncDir in Hw. repeat case_match; congruence.
  - right. destruct Hspec as (w1 & Hc & Hin). exists pem, w1.
    split_and!; [done|by eapply confined_trans| |].
    all: by destruct (ParsePrivateKey pem); injection H as <- <-.
Qed.
End hostkey.

(** * Properties *)

Section properties.
Context {signer priv : Type} (parse : string -> option signer).
Context (gen : option priv) (marshal : priv -> option string) (encode : string -> string).

(** What the path may hold: its first contents, or the whole new key. *)
Definition intact (random : Z) (path : string) (s0 s : FS) : Prop :=
  (files s !! path = files s0 !! path \/
   exists pem, generateHostKeyPEM gen marshal encode = Ok pem /\
               files s !! path = Some (mkFile pem true hostKeyFileMode)) /\
  forall p, p <> path -> p <> tempPath random path -> files s !! p = files s0 !! p.

Lemma intact_same random path s0 s : same_but (tempPath random path) s0 s -> intact random path s0 s.
Proof. intros H. split; [left; apply H, not_eq_sym, tempPath_neq|]. intros p _. apply H. Qed.

(** C10. The key file is never partial: whichever calls fail and at whatever moment
    the process or the node stops, the host key path holds what it held before,
    or the complete new key, flushed and readable by its owner only; no file but
    the key and its temporary file is ever touched. *)
Theorem hostkey_atomic fails written random path s0 :
  let '(w', _) := loadOrCreateHostKey parse gen marshal encode fails written random path
                    (mkWorld s0 []) in
  Forall (intact random path s0) (history w' ++ [fs w']).
Proof.
  destruct (files s0 !! path) as [f|] eqn:Hf.
  { rewrite (loadOrCreateHostKey_existing _ _ _ _ _ _ _ _ _ f) by done.
    apply Forall_singleton, intact_same. by intros p. }
  destruct (loadOrCreateHostKey _ _ _ _ _ _ _ _ _) as [w' r] eqn:Hl.
  assert (forall new, Forall (same_but (tempPath random path) s0) new ->
    Forall (intact random path s0) new) as Hsame.
  { intros new Hnew. eapply Forall_impl; [exact Hnew|apply intact_same]. }
  destruct (loadOrCreateHostKey_new _ _ _ _ _ _ _ path (mkWorld s0 []) w' r Hf Hl) as
    [(e & -> & _ & (new & Hh & Hnew & Hs) & _)|
     (pem & w1 & Hg & (new & Hh1 & Hnew & _) & (after & Hh & Hafter & Hfs & _) & _)].
  - rewrite Hh. apply Forall_app. split; [by apply Hsame|]. by apply Forall_singleton, intact_same.
  - assert (forall s, files s = files (fs w') -> intact random path s0 s) as Hin.
    { intros s Hs. unfold intact. rewrite Hs, Hfs. split; [right; exists pem; by rewrite lookup_insert_eq|].
      intros p Hp _. by rewrite lookup_insert_ne. }
    simpl in Hh1. rewrite Hh, Hh1, <-app_assoc. apply Forall_app. split; [by apply Hsame|].
    apply Forall_app. split; [|by apply Forall_singleton, Hin].
    eapply Forall_impl; [exact Hafter|exact Hin].
Qed.

(** A start that returned a key left a file every later start reads it from. *)
Lemma loadOrCreateHostKey_again fails written random path w w' k generated :
  loadOrCreateHostKey parse gen marshal encode fails written random path w = (w', Ok (k, generated)) ->
  (exists f, files (fs w') !! path = Some f /\ parse (data f) = Some k) /\
  (forall gen' fails' written' random', fails' ReadFile = false ->
     loadOrCreateHostKey (priv := priv) parse gen' marshal encode fails' written' random' path w' =
     (w', Ok (k, false))).
Proof.
  intros H.
  assert (exists f, files (fs w') !! path = Some f /\ parse (data f) = Some k) as (f & Hf & Hp).
  { destruct (files (fs w) !! path) as [f|] eqn:Hf.
    - rewrite (loadOrCreateHostKey_existing _ _ _ _ _ _ _ _ _ f Hf) in H.
      destruct (fails ReadFile); [done|]. destruct (parse (data f)) eqn:Hp; [|done].
      injection H as <- <- <-. by exists f.
    - destruct (loadOrCreateHostKey_new _ _ _ _ _ _ _ _ _ _ _ Hf H) as
        [(e & ? & _)|(pem & w1 & Hg & _ & (_ & _ & _ & Hfs & _) & Hr)]; [done|].
      destruct (parse pem) eqn:Hp; [|done]. injection Hr as <- ->.
      exists (mkFile pem true hostKeyFileMode). by rewrite Hfs, lookup_insert_eq. }
  split; [by exists f|]. intros gen' fails' written' random' Hr.
  by rewrite (loadOrCreateHostKey_existing _ _ _ _ _ _ _ _ _ f Hf), Hr, Hp.
Qed.

(** C11. A host key survives restarts: once a start returned a key, every later start
    that can read the file returns the same key without generating one or
    touching a file; the entry of a key that was generated is flushed to the disk with
    the key, unless the file system refuses to flush directories; and a key that
    exists is never overwritten, not even when it cannot be parsed. *)
Theorem hostkey_persistent fails written random path w w' r :
  loadOrCreateHostKey parse gen marshal encode fails written random path w = (w', r) ->
  (forall k generated, r = Ok (k, generated) ->
     (generated = false <-> exists f, files (fs w) !! path = Some f) /\
     forall gen' fails' written' random', fails' ReadFile = false ->
       loadOrCreateHostKey (priv := priv) parse gen' marshal encode fails' written' random' path w' =
       (w', Ok (k, false))) /\
  (forall k, r = Ok (k, true) -> fails OpenDir = false -> fails SyncDir = false ->
     Dir path ∈ synced (fs w') /\ exists f, files (fs w') !! path = Some f /\ durable f = true) /\
  (forall f, files (fs w) !! path = Some f -> w' = w).
Proof.
  intros H. split_and!.
  - intros k generated ->. split; [|by apply (loadOrCreateHostKey_again _ _ _ _ _ _ _ _ H)].
    destruct (files (fs w) !! path) as [f|] eqn:Hf.
    + rewrite (loadOrCreateHostKey_existing _ _ _ _ _ _ _ _ _ f Hf) in H.
      destruct (fails ReadFile); [done|]. destruct (parse (data f)); [|done]. naive_solver.
    + destruct (loadOrCreateHostKey_new _ _ _ _ _ _ _ _ _ _ _ Hf H) as
        [(e & ? & _)|(pem & w1 & _ & _ & _ & Hr)]; [done|].
      destruct (parse pem); naive_solver.
  - intros k -> Ho Hs. destruct (files (fs w) !! path) as [f|] eqn:Hf.
    { rewrite (loadOrCreateHostKey_existing _ _ _ _ _ _ _ _ _ f Hf) in H.
      destruct (fails ReadFile); [done|]. by destruct (parse (data f)). }
    destruct (loadOrCreateHostKey_new _ _ _ _ _ _ _ _ _ _ _ Hf H) as
      [(e & ? & _)|(pem & w1 & _ & _ & (_ & _ & _ & Hfs & Hsy) & _)]; [done|].
    split; [by apply Hsy|]. rewrite Hfs, lookup_insert_eq. by eexists.
  - intros f Hf. rewrite (loadOrCreateHostKey_existing _ _ _ _ _ _ _ _ _ f Hf) in H. by injection H.
Qed.

(** A first start that fails leaves nothing behind: on any error the host key is
    still absent (unless the generated key itself does not parse), and when the
    temporary file can be removed no file has changed at all; when no call fails
    and the generated key parses, the start succeeds with it. *)
Theorem hostkey_first_start fails written random path s0 :
  files s0 !! path = None ->
  let '(w', r) := loadOrCreateHostKey parse gen marshal encode fails written random path
                    (mkWorld s0 []) in
  (forall e, r = Err e -> e <> ErrParseGenerated ->
     files (fs w') !! path = None /\ (fails Remove = false -> files (fs w') = files s0)) /\
  (forall pem k, (forall c, fails c = false) ->
     generateHostKeyPEM gen marshal encode = Ok pem -> parse pem = Some k ->
     contains_byte "/" (Base path) = false -> files s0 !! tempPath random path = None ->
     r = Ok (k, true)).
Proof.
  intros Hn. destruct (loadOrCreateHostKey _ _ _ _ _ _ _ _ _) as [w' r] eqn:Hl. split.
  - intros e -> He.
    destruct (loadOrCreateHostKey_new _ _ _ _ _ _ _ path (mkWorld s0 []) w' (Err e) Hn Hl) as
      [(e' & [= <-] & _ & (_ & _ & _ & Hs) & Hr)|(pem & _ & _ & _ & _ & Hp)].
    + split; [|done]. rewrite <-Hn. apply Hs, not_eq_sym, tempPath_neq.
    + destruct (parse pem); congruence.
  - intros pem k Hf Hg Hp Hb Ht. unfold loadOrCreateHostKey, readFile in Hl.
    cbn [fs] in Hl. rewrite Hn, !Hf, Hg in Hl. unfold writeHostKeyAtomically, syncDir, createTemp in Hl.
    rewrite !Hf, Hb in Hl. cbn [orb] in Hl.
    rewrite bool_decide_eq_true_2 in Hl by (simpl; destruct (String.length (Dir path)); set_solver).
    cbn [negb] in Hl. simpl files in Hl. rewrite Ht in Hl. unfold writeAndSync in Hl. rewrite !Hf in Hl.
    cbn [negb] in Hl. rewrite Hp in Hl. by injection Hl as _ <-.
Qed.
End properties.

(** ** An instance *)

Definition exampleParse (pem : string) : option string :=
  if HasPrefix pem "PEM " then Some (sdrop 4 pem) else None.
Definition exampleWorld : World := mkWorld (mkFS ∅ ∅ ∅) [].
Definition noFaults (_ : syscall) : bool := false.

Definition exampleLoad (w : World) : World * result hostkey_error (string * bool) :=
  loadOrCreateHostKey exampleParse (Some tt) (fun _ => Some "key") (fun der => "PEM " +:+ der)
    noFaults 0 7 "/home/jovyan/.ssh/ssh_host_ed25519_key" w.

Lemma hostkey_persistent_witness :
  let w' := fst (exampleLoad exampleWorld) in exampleLoad w' = (w', Ok ("key", false)).
Proof.
  destruct (hostkey_persistent exampleParse (Some tt) (fun _ => Some "key") (fun der => "PEM " +:+ der)
    noFaults 0 7 "/home/jovyan/.ssh/ssh_host_ed25519_key" exampleWorld
    (fst (exampleLoad exampleWorld)) (Ok ("key", true))) as [H _].
  - vm_compute. reflexivity.
  - exact (proj2 (H "key" true eq_refl) (Some tt) noFaults 0%nat 7%Z eq_refl).
Defined.

Lemma hostkey_first_start_witness :
  let '(w', r) := exampleLoad exampleWorld in
  (forall e, r = Err e -> e <> ErrParseGenerated ->
     files (fs w') !! "/home/jovyan/.ssh/ssh_host_ed25519_key" = None /\
     (noFaults Remove = false -> files (fs w') = ∅)) /\ r = Ok ("key", true).
Proof.
  pose proof (hostkey_first_start exampleParse (Some tt) (fun _ => Some "key")
    (fun der => "PEM " +:+ der) noFaults 0 7 "/home/jovyan/.ssh/ssh_host_ed25519_key"
    (mkFS ∅ ∅ ∅) eq_refl) as H.
  change (loadOrCreateHostKey _ _ _ _ _ _ _ _ _) with (exampleLoad exampleWorld) in H.
  destruct (exampleLoad exampleWorld) as [w' r]. destruct H as [H1 H2]. split; [exact H1|].
  apply (H2 "PEM key"); reflexivity.
Defined.
