(* ===== verification/Metrics.v ===== *)
(** The metrics of the proxy, [NewMetrics] of [internal/proxy/metrics.go]: the six
    collectors and their registration.  The Prometheus client is a parameter; what
    is relied on is its documented contract: which descriptions it builds a collector
    from, that a registry takes one whose name is new, and that a vector takes as many
    label values as it has labels. *)

From S2P Require Import Prelude.

Open Scope string_scope.
Open Scope Z_scope.

(** * Descriptions *)

Inductive metric_kind := Counter | Gauge | Histogram (buckets : list Z).

(** A collector: its name, its help text, its kind and its label names. *)
Record Collector := mkCollector {
  c_name : string; c_help : string; c_kind : metric_kind; c_labels : list string;
}.

Definition connectionsTotal : Collector :=
  mkCollector "ws_proxy_connections_total" "Total number of WebSocket connections established" Counter [].
Definition activeConnections : Collector :=
  mkCollector "ws_proxy_active_connections" "Number of currently active WebSocket connections" Gauge [].
Definition connectionErrors : Collector :=
  mkCollector "ws_proxy_connection_errors_total" "Total connection errors by type" Counter ["reason"].
Definition bytesTransferred : Collector :=
  mkCollector "ws_proxy_bytes_transferred_total" "Total bytes transferred by direction" Counter
    ["direction"].
Definition connectionDuration : Collector :=
  mkCollector "ws_proxy_connection_duration_seconds" "Connection duration in seconds"
    (Histogram [1; 10; 60; 300; 600; 1800; 3600; 7200; 14400; 28800; 43200]) [].
Definition targetReachable : Collector :=
  mkCollector "ws_proxy_target_reachable"
    ("Whether the most recent background probe connected to the target and saw " +:+
     "its expected greeting (1) or failed (0). Does not verify that an SSH " +:+
     "handshake would complete.") Gauge [].

(** The label values the code counts errors and bytes under. *)
Definition errorReasons : list string :=
  ["capacity_exceeded"; "upgrade_failed"; "tcp_dial_failed"; "max_duration"; "ping_failed"].
Definition directions : list string := ["ws_to_tcp"; "tcp_to_ws"].

(** * The Prometheus client *)

(** [build] is the constructor of a collector, [None] for its panic; [register]
    adds one to a registry, [None] for the panic of [MustRegister]; and
    [withLabelValues] picks the counter of a vector, [None] for its panic. *)
Record Client (registry built : Type) := mkClient {
  emptyRegistry : registry;
  build : Collector -> option built;
  register : registry -> built -> option registry;
  described : built -> Collector;
  registered : registry -> list built;
  withLabelValues : built -> list string -> option unit;
}.
Arguments emptyRegistry {registry built}.
Arguments build {registry built}.
Arguments register {registry built}.
Arguments described {registry built}.
Arguments registered {registry built}.
Arguments withLabelValues {registry built}.
Arguments mkClient {registry built}.

Definition letter (c : ascii) : bool :=
  let n := Z.of_N (Ascii.N_of_ascii c) in
  ((97 <=? n) && (n <=? 122)) || ((65 <=? n) && (n <=? 90)) || (n =? 95).
Definition colon (c : ascii) : bool := Z.of_N (Ascii.N_of_ascii c) =? 58.
Definition digit (c : ascii) : bool :=
  let n := Z.of_N (Ascii.N_of_ascii c) in (48 <=? n) && (n <=? 57).

(** A metric name, [[a-zA-Z_:][a-zA-Z0-9_:]*], and a label name,
    [[a-zA-Z_][a-zA-Z0-9_]*] without two underscores in front. *)
Definition validName (s : string) : bool :=
  match list_ascii_of_string s with
  | [] => false
  | c :: cs => (letter c || colon c) && forallb (fun c => letter c || colon c || digit c) cs
  end.
Definition validLabel (s : string) : bool :=
  match list_ascii_of_string s with
  | [] => false
  | c :: cs => letter c && forallb (fun c => letter c || digit c) cs
  end && negb (String.prefix "__" s).

Fixpoint increasing (l : list Z) : bool :=
  match l with
  | a :: (b :: _) as rest => (a <? b) && increasing rest
  | _ => true
  end.

(** A description the client accepts: a valid name, label names that are valid and
    distinct, for a histogram not [le], and buckets in order. *)
Definition validCollector (c : Collector) : bool :=
  validName (c_name c) && forallb validLabel (c_labels c) && bool_decide (NoDup (c_labels c)) &&
  match c_kind c with
  | Histogram buckets => increasing buckets && negb (bool_decide ("le" ∈ c_labels c))
  | _ => true
  end.

Definition ascii_text (s : string) : bool :=
  forallb (fun c => Z.of_N (Ascii.N_of_ascii c) <? 128) (list_ascii_of_string s).

(** The documented contract of the client. *)
Class ClientLaws {registry built : Type} (cl : Client registry built) := {
  client_empty : registered cl (emptyRegistry cl) = [];
  client_build c : validCollector c = true -> exists b, build cl c = Some b /\ described cl b = c;
  client_register r b :
    (forall b', b' ∈ registered cl r -> c_name (described cl b') <> c_name (described cl b)) ->
    exists r', register cl r b = Some r' /\ registered cl r' = (registered cl r ++ [b])%list;
  client_labels b vs :
    Forall (fun v => ascii_text v = true) vs ->
    length vs = length (c_labels (described cl b)) <-> withLabelValues cl b vs = Some tt;
}.

(** * [NewMetrics] *)

Section new.
Context {registry built : Type} (cl : Client registry built).

(** [MustRegister] of several collectors, one after the other. *)
Fixpoint MustRegister (r : registry) (bs : list built) : option registry :=
  match bs with
  | [] => Some r
  | b :: bs' => r' ← register cl r b; MustRegister r' bs'
  end.

Record Metrics := mkMetrics {
  ConnectionsTotal : built; ActiveConnections : built; ConnectionErrors : built;
  BytesTransferred : built; ConnectionDuration : built; TargetReachable : built;
  Registry : registry;
}.

Definition NewMetrics : option Metrics :=
  let registry := emptyRegistry cl in
  connectionsTotal ← build cl connectionsTotal;
  activeConnections ← build cl activeConnections;
  connectionErrors ← build cl connectionErrors;
  bytesTransferred ← build cl bytesTransferred;
  connectionDuration ← build cl connectionDuration;
  targetReachable ← build cl targetReachable;
  registry ← MustRegister registry
    [connectionsTotal; activeConnections; connectionErrors; bytesTransferred; connectionDuration;
     targetReachable];
  Some (mkMetrics connectionsTotal activeConnections connectionErrors bytesTransferred
          connectionDuration targetReachable registry).

Context `{!ClientLaws cl}.

Lemma register_all bs r :
  NoDup (c_name <$> (described cl <$> registered cl r ++ bs)%list) ->
  exists r', MustRegister r bs = Some r' /\ registered cl r' = (registered cl r ++ bs)%list.
Proof using All.
  revert r. induction bs as [|b bs IH]; intros r Hnd; simpl; [exists r; by rewrite app_nil_r|].
  destruct (client_register r b) as (r1 & -> & Hr1).
  - intros b' Hb' E. rewrite !fmap_app, !fmap_cons in Hnd.
    apply NoDup_app in Hnd as (_ & Hnd & _).
    apply (Hnd (c_name (described cl b))); [|by left].
    rewrite <- E. by do 2 apply list_elem_of_fmap_2.
  - simpl. destruct (IH r1) as (r2 & -> & Hr2).
    + by rewrite Hr1, <- app_assoc.
    + exists r2. by rewrite Hr2, Hr1, <- app_assoc.
Qed.

(** The proxy starts with all its metrics: with every client that keeps its contract,
    [NewMetrics] does not panic, each field holds the collector it is named after, the
    registry the metrics endpoint serves holds all of them and nothing else, and the
    two vectors take the label values the code gives them. *)
Theorem NewMetrics_registers :
  exists m, NewMetrics = Some m /\
    described cl (ConnectionsTotal m) = connectionsTotal /\
    described cl (ActiveConnections m) = activeConnections /\
    described cl (ConnectionErrors m) = connectionErrors /\
    described cl (BytesTransferred m) = bytesTransferred /\
    described cl (ConnectionDuration m) = connectionDuration /\
    described cl (TargetReachable m) = targetReachable /\
    registered cl (Registry m) =
      [ConnectionsTotal m; ActiveConnections m; ConnectionErrors m; BytesTransferred m;
       ConnectionDuration m; TargetReachable m] /\
    Forall (fun v => withLabelValues cl (ConnectionErrors m) [v] = Some tt) errorReasons /\
    Forall (fun v => withLabelValues cl (BytesTransferred m) [v] = Some tt) directions.
Proof using All.
  destruct (client_build connectionsTotal eq_refl) as (b1 & E1 & D1).
  destruct (client_build activeConnections eq_refl) as (b2 & E2 & D2).
  destruct (client_build connectionErrors eq_refl) as (b3 & E3 & D3).
  destruct (client_build bytesTransferred eq_refl) as (b4 & E4 & D4).
  destruct (client_build connectionDuration eq_refl) as (b5 & E5 & D5).
  destruct (client_build targetReachable eq_refl) as (b6 & E6 & D6).
  destruct (register_all [b1; b2; b3; b4; b5; b6] (emptyRegistry cl)) as (r & Er & Hr).
  { rewrite client_empty, app_nil_l. rewrite !fmap_cons, D1, D2, D3, D4, D5, D6.
    by apply (bool_decide_unpack _). }
  exists (mkMetrics b1 b2 b3 b4 b5 b6 r). unfold NewMetrics.
  rewrite E1, E2, E3, E4, E5, E6. simpl. simpl in Er. rewrite Er. simpl. rewrite client_empty in Hr.
  split_and!; try done; repeat constructor; (apply client_labels; [by repeat constructor|]); by rewrite ?D3, ?D4.
Qed.
End new.
Arguments ConnectionsTotal {registry built}.
Arguments Registry {registry built}.

(** A registry as the list of what it holds, which refuses a name it has. *)
Definition listClient : Client (list Collector) Collector :=
  mkClient [] (fun c => if validCollector c then Some c else None)
    (fun r c => if bool_decide (c_name c ∈ c_name <$> r) then None else Some (r ++ [c])%list)
    id id (fun c vs => if Nat.eqb (length vs) (length (c_labels c)) then Some tt else None).

#[export] Instance listClient_laws : ClientLaws listClient.
Proof.
  split; simpl; [done| | |].
  - intros c ->. by exists c.
  - intros r c Hnew. rewrite bool_decide_false; [by eexists|].
    intros (b & E & Hb)%list_elem_of_fmap. by apply (Hnew b Hb).
  - intros c vs _. destruct (Nat.eqb_spec (length vs) (length (c_labels c))); split; try done; by intros [].
Qed.

Lemma NewMetrics_registers_witness :
  exists m, NewMetrics listClient = Some m /\ length (Registry m) = 6%nat.
Proof.
  destruct (NewMetrics_registers listClient) as (m & H1 & _ & _ & _ & _ & _ & _ & H2 & _).
  exists m. split; [exact H1|]. simpl in H2. unfold id in H2. by rewrite H2.
Defined.
