(* ===== verification/ProxySession.v ===== *)
(** One proxied connection from its upgrade to the release of its slot:
    [handleWebSocket] of [internal/proxy/server.go], [Session.Run] and [pingLoop]
    of [session.go], and [Bridge.Run], [copyWSToTCP], [copyTCPToWS],
    [WriteMessage] and [WriteControl] of [bridge.go].

    Up to seven goroutines share the two connections: the handler's own, which
    runs [Session.Run], the one of [Bridge.Run] with its two pumps, [pingLoop],
    and the callbacks of the two timers of the maximal duration.  Each of their
    atomic actions (a channel operation, a lock, a close, a read or a write) is a
    step of one transition system; what arrives from the peers, and time, are
    labels of it. *)

From S2P Require Import Prelude.

Open Scope Z_scope.

Definition bytes : Type := list ascii.

(** The size of the buffer [copyTCPToWS] reads into. *)
Definition tcpReadBufferSize : Z := 32 * 1024.

(** * State *)

(** The errors the goroutines pass on; [NoErr] is Go's nil. *)
Inductive serr := NoErr | EWsRead | ETcpWrite | ETcpRead | EWsWrite | ECanceled | EDeadline | EDial.

(** The handler: the upgrade, the first read deadline, the dial, starting the
    bridge, the [select], the two closes of its context case, and the deferred
    calls of [Run] and of [handleWebSocket] in the order they run. *)
Inductive main_pc :=
| HUpgrade | RDeadline | RDial | RSpawn | RSelect | RCloseWs | RCloseTcp
| RStopTimer | RCancel | RJoin | RTcpClose | RObserve | HDec | HWsClose | HRelease | HDone.

(** [Bridge.Run]. *)
Inductive bridge_pc :=
| BIdle | BStart | BWait | BCloseWs (e : serr) | BCloseTcp (e : serr) | BSend (e : serr) | BDone.

(** [copyWSToTCP]: in [ReadMessage], in [tcp.Write], sending its result. *)
Inductive read_pc := PIdle | PRead | PWrite (data : bytes) | PSend (e : serr) | PDone.

(** [copyTCPToWS]: in [tcp.Read], at the lock of [WriteMessage], writing under it,
    sending its result. *)
Inductive write_pc := QIdle | QRead | QLock (data : bytes) | QWrite (data : bytes) | QSend (e : serr) | QDone.

(** [pingLoop]: its [select], the lock of [WriteControl], writing under it, and
    [s.cancel] after a failure. *)
Inductive ping_pc := GIdle | GSelect | GLock | GWrite | GCancel | GDone.

(** The two timers of the maximal duration. *)
Inductive timer_pc := TIdle | TArmed | TLock | TWrite | TGrace | TDone | TStopped.

(** The holder of [writeMu]. *)
Inductive holder := HPump | HPing | HTimer.

Record Net := mkNet {
  wsClosed : bool; tcpClosed : bool;
  wsIn : bytes;         (* payloads of the binary messages read from the client *)
  tcpOut : bytes;       (* bytes written to the target *)
  tcpIn : bytes;        (* bytes read from the target *)
  wsOut : list bytes;   (* binary messages written to the client *)
}.

(** [Metrics], as far as one connection moves them. *)
Record Metrics := mkMetrics {
  ConnectionsTotal : Z; ActiveConnections : Z; ConnectionErrors : list string;
  wsToTcp : Z; tcpToWs : Z; Durations : Z;
}.

Record Sess := mkSess {
  main : main_pc; bridge : bridge_pc; rp : read_pc; wp : write_pc;
  ping : ping_pc; timer : timer_pc;
  dialed : bool; ctxDone : bool; writeMu : option holder;
  errChan : list serr; bridgeErr : list serr; outcome : option serr;
  net : Net; metrics : Metrics; released : Z;
  taken : bool;         (* the upgrade has hijacked the connection *)
}.

(** [Acquire] succeeded. *)
Definition initSess : Sess :=
  mkSess HUpgrade BIdle PIdle QIdle GIdle TIdle false false None [] [] None
    (mkNet false false [] [] [] []) (mkMetrics 0 0 [] 0 0 0) 0 false.

Inductive slabel :=
| UpgradeOk | UpgradeFail (hijacked : bool) | DeadlineOk | DeadlineFail | DialOk | DialFail
| MainStep | SelBridge | SelCtx
| BridgeStep
| WsMsg (binary : bool) (data : bytes) | WsControl | WsErr (normal : bool) | ReadClosed
| PWriteOk | PWriteFail (n : nat) | PWriteClosed (n : nat) | PumpSend
| TcpData (chunk : bytes) | TcpEOF | TcpErr | TcpReadClosed
| QAcquire | QWriteOk | QWriteFail | QPumpSend
| Tick | PingCtx | PingAcquire | PingOk | PingFail | PingCancel
| TimerFire | TimerAcquire | TimerWritten | GraceElapsed
| ParentCancel.

(** * Updates *)

Definition set_main (s : Sess) (m : main_pc) : Sess :=
  mkSess m (bridge s) (rp s) (wp s) (ping s) (timer s) (dialed s) (ctxDone s) (writeMu s)
    (errChan s) (bridgeErr s) (outcome s) (net s) (metrics s) (released s) (taken s).
Definition set_bridge (s : Sess) (b : bridge_pc) : Sess :=
  mkSess (main s) b (rp s) (wp s) (ping s) (timer s) (dialed s) (ctxDone s) (writeMu s)
    (errChan s) (bridgeErr s) (outcome s) (net s) (metrics s) (released s) (taken s).
Definition set_rp (s : Sess) (p : read_pc) (n : Net) (m : Metrics) : Sess :=
  mkSess (main s) (bridge s) p (wp s) (ping s) (timer s) (dialed s) (ctxDone s) (writeMu s)
    (errChan s) (bridgeErr s) (outcome s) n m (released s) (taken s).
Definition set_wp (s : Sess) (q : write_pc) (mu : option holder) (n : Net) (m : Metrics) : Sess :=
  mkSess (main s) (bridge s) (rp s) q (ping s) (timer s) (dialed s) (ctxDone s) mu
    (errChan s) (bridgeErr s) (outcome s) n m (released s) (taken s).
Definition set_ping (s : Sess) (g : ping_pc) (mu : option holder) (m : Metrics) : Sess :=
  mkSess (main s) (bridge s) (rp s) (wp s) g (timer s) (dialed s) (ctxDone s) mu
    (errChan s) (bridgeErr s) (outcome s) (net s) m (released s) (taken s).
Definition set_timer (s : Sess) (t : timer_pc) (mu : option holder) (m : Metrics) : Sess :=
  mkSess (main s) (bridge s) (rp s) (wp s) (ping s) t (dialed s) (ctxDone s) mu
    (errChan s) (bridgeErr s) (outcome s) (net s) m (released s) (taken s).
Definition set_net (s : Sess) (n : Net) : Sess :=
  mkSess (main s) (bridge s) (rp s) (wp s) (ping s) (timer s) (dialed s) (ctxDone s) (writeMu s)
    (errChan s) (bridgeErr s) (outcome s) n (metrics s) (released s) (taken s).
Definition set_metrics (s : Sess) (m : Metrics) : Sess :=
  mkSess (main s) (bridge s) (rp s) (wp s) (ping s) (timer s) (dialed s) (ctxDone s) (writeMu s)
    (errChan s) (bridgeErr s) (outcome s) (net s) m (released s) (taken s).
Definition set_outcome (s : Sess) (e : serr) : Sess :=
  mkSess (main s) (bridge s) (rp s) (wp s) (ping s) (timer s) (dialed s) (ctxDone s) (writeMu s)
    (errChan s) (bridgeErr s) (Some e) (net s) (metrics s) (released s) (taken s).
Definition set_chans (s : Sess) (ec be : list serr) : Sess :=
  mkSess (main s) (bridge s) (rp s) (wp s) (ping s) (timer s) (dialed s) (ctxDone s) (writeMu s)
    ec be (outcome s) (net s) (metrics s) (released s) (taken s).
Definition cancel (s : Sess) : Sess :=
  mkSess (main s) (bridge s) (rp s) (wp s) (ping s) (timer s) (dialed s) true (writeMu s)
    (errChan s) (bridgeErr s) (outcome s) (net s) (metrics s) (released s) (taken s).
Definition release (s : Sess) : Sess :=
  mkSess (main s) (bridge s) (rp s) (wp s) (ping s) (timer s) (dialed s) (ctxDone s) (writeMu s)
    (errChan s) (bridgeErr s) (outcome s) (net s) (metrics s) (released s + 1) (taken s).
Definition hijack (s : Sess) (b : bool) : Sess :=
  mkSess (main s) (bridge s) (rp s) (wp s) (ping s) (timer s) (dialed s) (ctxDone s) (writeMu s)
    (errChan s) (bridgeErr s) (outcome s) (net s) (metrics s) (released s) b.

Definition closeWs (n : Net) : Net := mkNet true (tcpClosed n) (wsIn n) (tcpOut n) (tcpIn n) (wsOut n).
Definition closeTcp (n : Net) : Net := mkNet (wsClosed n) true (wsIn n) (tcpOut n) (tcpIn n) (wsOut n).

Definition countError (m : Metrics) (reason : string) : Metrics :=
  mkMetrics (ConnectionsTotal m) (ActiveConnections m) (ConnectionErrors m ++ [reason])
    (wsToTcp m) (tcpToWs m) (Durations m).
Definition addActive (m : Metrics) (d : Z) : Metrics :=
  mkMetrics (ConnectionsTotal m) (ActiveConnections m + d) (ConnectionErrors m)
    (wsToTcp m) (tcpToWs m) (Durations m).
Definition incTotal (m : Metrics) : Metrics :=
  mkMetrics (ConnectionsTotal m + 1) (ActiveConnections m) (ConnectionErrors m)
    (wsToTcp m) (tcpToWs m) (Durations m).
Definition addBytes (m : Metrics) (up down : Z) : Metrics :=
  mkMetrics (ConnectionsTotal m) (ActiveConnections m) (ConnectionErrors m)
    (wsToTcp m + up) (tcpToWs m + down) (Durations m).
Definition observe (m : Metrics) : Metrics :=
  mkMetrics (ConnectionsTotal m) (ActiveConnections m) (ConnectionErrors m)
    (wsToTcp m) (tcpToWs m) (Durations m + 1).

(** * The pumps *)

(** [copyWSToTCP]: binary messages are written to the target whole and in order,
    others are skipped; a normal close of the client is no error.  A failed write
    may have written some of the bytes.  [WsControl] is a control frame that the
    library handles inside [ReadMessage]: the pong handler of [Session.Run] (see
    [Keepalive]), or its default handlers, which answer a ping or a close with the
    library's own [WriteControl], without [writeMu]; the library allows that call
    concurrently with all others.  A write is one step with the counter that follows
    it. *)
Definition copyWSToTCP_step (s : Sess) (l : slabel) : option Sess :=
  let n := net s in
  match l, rp s with
  | WsMsg binary data, PRead =>
      if binary
      then Some (set_rp s (PWrite data)
             (mkNet (wsClosed n) (tcpClosed n) (wsIn n ++ data) (tcpOut n) (tcpIn n) (wsOut n))
             (metrics s))
      else Some (set_rp s PRead n (metrics s))
  | WsControl, PRead => Some (set_rp s PRead n (metrics s))
  | WsErr normal, PRead => Some (set_rp s (PSend (if normal then NoErr else EWsRead)) n (metrics s))
  | ReadClosed, PRead => if wsClosed n then Some (set_rp s (PSend EWsRead) n (metrics s)) else None
  | PWriteOk, PWrite data =>
      Some (set_rp s PRead
             (mkNet (wsClosed n) (tcpClosed n) (wsIn n) (tcpOut n ++ data) (tcpIn n) (wsOut n))
             (addBytes (metrics s) (Z.of_nat (length data)) 0))
  | PWriteFail k, PWrite data =>
      Some (set_rp s (PSend ETcpWrite)
             (mkNet (wsClosed n) (tcpClosed n) (wsIn n) (tcpOut n ++ take k data) (tcpIn n) (wsOut n))
             (metrics s))
  | PWriteClosed k, PWrite data =>
      if tcpClosed n
      then Some (set_rp s (PSend ETcpWrite)
             (mkNet (wsClosed n) (tcpClosed n) (wsIn n) (tcpOut n ++ take k data) (tcpIn n) (wsOut n))
             (metrics s))
      else None
  | _, _ => None
  end.

(** [writeMu.Lock] by [h]: waits while another goroutine holds it. *)
Definition lockWriteMu (h : holder) (mu : option holder) : option (option holder) :=
  match mu with None => Some (Some h) | Some _ => None end.

(** [WriteMessage] once it has the lock: the deadline and the write succeed on an
    open connection, or one of them fails; either way the deferred unlock runs, so
    that the lock is free in the second component. *)
Definition WriteMessage (n : Net) (data : bytes) (ok : bool) : option (Net * option holder) :=
  if ok then
    if wsClosed n then None
    else Some (mkNet (wsClosed n) (tcpClosed n) (wsIn n) (tcpOut n) (tcpIn n) (wsOut n ++ [data]), None)
  else Some (n, None).

(** [WriteControl] once it has the lock: a control frame carries no data of the
    session. *)
Definition WriteControl (n : Net) (ok : bool) : option (option holder) :=
  if ok && wsClosed n then None else Some None.

(** [copyTCPToWS], with [WriteMessage] under [writeMu]: a write either succeeds or
    fails by its deadline. *)
Definition copyTCPToWS_step (s : Sess) (l : slabel) : option Sess :=
  let n := net s in
  match l, wp s with
  | TcpData chunk, QRead =>
      if Z.of_nat (length chunk) <=? tcpReadBufferSize
      then Some (set_wp s (QLock chunk) (writeMu s)
             (mkNet (wsClosed n) (tcpClosed n) (wsIn n) (tcpOut n) (tcpIn n ++ chunk) (wsOut n))
             (metrics s))
      else None
  | TcpEOF, QRead => Some (set_wp s (QSend NoErr) (writeMu s) n (metrics s))
  | TcpErr, QRead => Some (set_wp s (QSend ETcpRead) (writeMu s) n (metrics s))
  | TcpReadClosed, QRead =>
      if tcpClosed n then Some (set_wp s (QSend ETcpRead) (writeMu s) n (metrics s)) else None
  | QAcquire, QLock data =>
      match lockWriteMu HPump (writeMu s) with
      | Some mu => Some (set_wp s (QWrite data) mu n (metrics s))
      | None => None
      end
  | QWriteOk, QWrite data =>
      match WriteMessage n data true with
      | Some (n', mu) =>
          Some (set_wp s QRead mu n' (addBytes (metrics s) 0 (Z.of_nat (length data))))
      | None => None
      end
  | QWriteFail, QWrite data =>
      match WriteMessage n data false with
      | Some (n', mu) => Some (set_wp s (QSend EWsWrite) mu n' (metrics s))
      | None => None
      end
  | _, _ => None
  end.

(** The results of the pumps go to a channel of capacity two. *)
Definition pump_send (s : Sess) (l : slabel) : option Sess :=
  if Nat.ltb (length (errChan s)) 2 then
    match l, rp s, wp s with
    | PumpSend, PSend e, _ =>
        Some (set_chans (set_rp s PDone (net s) (metrics s)) (errChan s ++ [e]) (bridgeErr s))
    | QPumpSend, _, QSend e =>
        Some (set_chans (set_wp s QDone (writeMu s) (net s) (metrics s)) (errChan s ++ [e])
                (bridgeErr s))
    | _, _, _ => None
    end
  else None.

(** * [Bridge.Run] *)

Definition bridge_step (s : Sess) : option Sess :=
  match bridge s with
  | BStart =>
      Some (set_bridge (set_wp (set_rp s PRead (net s) (metrics s)) QRead (writeMu s) (net s) (metrics s))
              BWait)
  | BWait =>
      match errChan s with
      | e :: rest => Some (set_bridge (set_chans s rest (bridgeErr s)) (BCloseWs e))
      | [] => None
      end
  | BCloseWs e => Some (set_bridge (set_net s (closeWs (net s))) (BCloseTcp e))
  | BCloseTcp e => Some (set_bridge (set_net s (closeTcp (net s))) (BSend e))
  | BSend e =>
      match bridgeErr s with
      | [] => Some (set_bridge (set_chans s (errChan s) [e]) BDone)
      | _ => None
      end
  | BIdle | BDone => None
  end.

(** * [pingLoop] *)

Definition pingLoop_step (s : Sess) (l : slabel) : option Sess :=
  match l, ping s with
  | Tick, GSelect => Some (set_ping s GLock (writeMu s) (metrics s))
  | PingCtx, GSelect => if ctxDone s then Some (set_ping s GDone (writeMu s) (metrics s)) else None
  | PingAcquire, GLock =>
      match lockWriteMu HPing (writeMu s) with
      | Some mu => Some (set_ping s GWrite mu (metrics s))
      | None => None
      end
  | PingOk, GWrite =>
      match WriteControl (net s) true with
      | Some mu => Some (set_ping s GSelect mu (metrics s))
      | None => None
      end
  | PingFail, GWrite =>
      match WriteControl (net s) false with
      | Some mu => Some (set_ping s GCancel mu (countError (metrics s) "ping_failed"))
      | None => None
      end
  | PingCancel, GCancel => Some (cancel (set_ping s GDone (writeMu s) (metrics s)))
  | _, _ => None
  end.

(** * The timers *)

(** The callback of the duration limit drops the result of [WriteControl], so that
    [TimerWritten] is its return, whatever the result. *)
Definition timer_step (s : Sess) (l : slabel) : option Sess :=
  match l, timer s with
  | TimerFire, TArmed => Some (set_timer s TLock (writeMu s) (countError (metrics s) "max_duration"))
  | TimerAcquire, TLock =>
      match lockWriteMu HTimer (writeMu s) with
      | Some mu => Some (set_timer s TWrite mu (metrics s))
      | None => None
      end
  | TimerWritten, TWrite =>
      match WriteControl (net s) false with
      | Some mu => Some (set_timer s TGrace mu (metrics s))
      | None => None
      end
  | GraceElapsed, TGrace => Some (cancel (set_timer s TDone (writeMu s) (metrics s)))
  | _, _ => None
  end.

(** * [Session.Run] in [handleWebSocket] *)

Definition dial (s : Sess) : Sess :=
  mkSess RSpawn (bridge s) (rp s) (wp s) GSelect (timer s) true (ctxDone s) (writeMu s)
    (errChan s) (bridgeErr s) (outcome s) (net s) (metrics s) (released s) (taken s).

(** [Session.Run]: the read deadline, the dial and the ping loop, the timer and the
    bridge, the [select], and the deferred calls in the order they run. *)
Definition Run_step (s : Sess) (l : slabel) : option Sess :=
  match l, main s with
  | DeadlineOk, RDeadline => Some (set_main s RDial)
  | DeadlineFail, RDeadline => Some (set_main (set_outcome s EDeadline) RObserve)
  | DialOk, RDial => Some (dial s)
  | DialFail, RDial =>
      Some (set_main (set_outcome (set_metrics s (countError (metrics s) "tcp_dial_failed")) EDial)
              RObserve)
  | MainStep, RSpawn =>
      Some (set_main (set_bridge (set_timer s TArmed (writeMu s) (metrics s)) BStart) RSelect)
  | SelBridge, RSelect =>
      match bridgeErr s with
      | e :: rest => Some (set_main (set_outcome (set_chans s (errChan s) rest) e) RStopTimer)
      | [] => None
      end
  | SelCtx, RSelect => if ctxDone s then Some (set_main s RCloseWs) else None
  | MainStep, RCloseWs => Some (set_main (set_net s (closeWs (net s))) RCloseTcp)
  | MainStep, RCloseTcp =>
      Some (set_main (set_outcome (set_net s (closeTcp (net s))) ECanceled) RStopTimer)
  | MainStep, RStopTimer =>
      Some (set_main
              (match timer s with TArmed => set_timer s TStopped (writeMu s) (metrics s) | _ => s end)
              RCancel)
  | MainStep, RCancel => Some (set_main (cancel s) RJoin)
  | MainStep, RJoin => match ping s with GDone => Some (set_main s RTcpClose) | _ => None end
  | MainStep, RTcpClose => Some (set_main (set_net s (closeTcp (net s))) RObserve)
  | MainStep, RObserve => Some (set_main (set_metrics s (observe (metrics s))) HDec)
  | _, _ => None
  end.

(** [handleWebSocket] around it, once it has a slot: the upgrade, which may fail before
    or after it has hijacked the connection, and its own deferred calls. *)
Definition handleWebSocket_step (s : Sess) (l : slabel) : option Sess :=
  match l, main s with
  | UpgradeOk, HUpgrade =>
      Some (set_main (set_metrics (hijack s true) (addActive (incTotal (metrics s)) 1)) RDeadline)
  | UpgradeFail hijacked, HUpgrade =>
      Some (set_main (set_metrics (hijack s hijacked) (countError (metrics s) "upgrade_failed")) HRelease)
  | MainStep, HDec => Some (set_main (set_metrics s (addActive (metrics s) (-1))) HWsClose)
  | MainStep, HWsClose => Some (set_main (set_net s (closeWs (net s))) HRelease)
  | MainStep, HRelease => Some (set_main (release s) HDone)
  | _, _ => None
  end.

Definition handler_step (s : Sess) (l : slabel) : option Sess :=
  match main s with
  | HUpgrade | HDec | HWsClose | HRelease | HDone => handleWebSocket_step s l
  | _ => Run_step s l
  end.

(** * All the goroutines *)

Definition sstep (s : Sess) (l : slabel) : option Sess :=
  match l with
  | UpgradeOk | UpgradeFail _ | DeadlineOk | DeadlineFail | DialOk | DialFail
  | MainStep | SelBridge | SelCtx => handler_step s l
  | BridgeStep => bridge_step s
  | WsMsg _ _ | WsControl | WsErr _ | ReadClosed | PWriteOk | PWriteFail _ | PWriteClosed _ =>
      copyWSToTCP_step s l
  | TcpData _ | TcpEOF | TcpErr | TcpReadClosed | QAcquire | QWriteOk | QWriteFail =>
      copyTCPToWS_step s l
  | PumpSend | QPumpSend => pump_send s l
  | Tick | PingCtx | PingAcquire | PingOk | PingFail | PingCancel => pingLoop_step s l
  | TimerFire | TimerAcquire | TimerWritten | GraceElapsed => timer_step s l
  | ParentCancel => if ctxDone s then None else Some (cancel s)
  end.

(** The steps the proxy takes without the peers: its own statements, and the
    bounded waits (a dial, a write to the client, the grace period). *)
Definition system_label (l : slabel) : bool :=
  match l with
  | UpgradeFail _ | DeadlineFail | DialFail
  | WsMsg _ _ | WsControl | WsErr _ | PWriteOk | PWriteFail _ | TcpData _ | TcpEOF | TcpErr
  | QWriteOk | PingOk | Tick | TimerFire | ParentCancel => false
  | _ => true
  end.

(** A chunk read from the target and a tick of the ping are worth two more steps. *)
Definition work_label (l : slabel) : bool :=
  match l with TcpData _ | Tick => true | _ => false end.

Definition sreachable (s : Sess) : Prop := rtc (lts_step sstep) initSess s.

(** * Invariants *)

Definition before_dial (m : main_pc) : bool :=
  match m with HUpgrade | RDeadline | RDial => true | _ => false end.
Definition in_run (m : main_pc) : bool :=
  match m with
  | RSpawn | RSelect | RCloseWs | RCloseTcp | RStopTimer | RCancel | RJoin | RTcpClose => true
  | _ => false
  end.
(** The handler has left the [select], and then, of its deferred calls, stopped
    the timer, cancelled the context and joined the ping loop. *)
Definition past_select (m : main_pc) : bool :=
  match m with
  | RStopTimer | RCancel | RJoin | RTcpClose | RObserve | HDec | HWsClose | HRelease | HDone => true
  | _ => false
  end.
Definition past_stop (m : main_pc) : bool :=
  past_select m && match m with RStopTimer => false | _ => true end.
Definition past_cancel (m : main_pc) : bool :=
  past_stop m && match m with RCancel => false | _ => true end.
Definition past_join (m : main_pc) : bool :=
  past_cancel m && match m with RJoin => false | _ => true end.
Definition is_RSpawn (m : main_pc) : bool := match m with RSpawn => true | _ => false end.
Definition is_RSelect (m : main_pc) : bool := match m with RSelect => true | _ => false end.
Definition before_close (m : main_pc) : bool :=
  match m with RSpawn | RSelect => true | _ => before_dial m end.
Definition closed_first (m : main_pc) : bool := match m with RCloseTcp => true | _ => past_select m end.

Definition is_BIdle (b : bridge_pc) : bool := match b with BIdle => true | _ => false end.
Definition is_BDone (b : bridge_pc) : bool := match b with BDone => true | _ => false end.
Definition unpumped (b : bridge_pc) : bool := match b with BIdle | BStart => true | _ => false end.
Definition took (b : bridge_pc) : bool :=
  match b with BCloseWs _ | BCloseTcp _ | BSend _ | BDone => true | _ => false end.
Definition ws_shut (b : bridge_pc) : bool :=
  match b with BCloseTcp _ | BSend _ | BDone => true | _ => false end.
Definition tcp_shut (b : bridge_pc) : bool := match b with BSend _ | BDone => true | _ => false end.

Definition is_PIdle (p : read_pc) : bool := match p with PIdle => true | _ => false end.
Definition is_PDone (p : read_pc) : bool := match p with PDone => true | _ => false end.
Definition is_QIdle (q : write_pc) : bool := match q with QIdle => true | _ => false end.
Definition is_QDone (q : write_pc) : bool := match q with QDone => true | _ => false end.
Definition is_QWrite (q : write_pc) : bool := match q with QWrite _ => true | _ => false end.
Definition is_GIdle (g : ping_pc) : bool := match g with GIdle => true | _ => false end.
Definition is_GDone (g : ping_pc) : bool := match g with GDone => true | _ => false end.
Definition is_GWrite (g : ping_pc) : bool := match g with GWrite => true | _ => false end.
Definition is_TIdle (t : timer_pc) : bool := match t with TIdle => true | _ => false end.
Definition is_TArmed (t : timer_pc) : bool := match t with TArmed => true | _ => false end.
Definition is_TWrite (t : timer_pc) : bool := match t with TWrite => true | _ => false end.
Definition is_TDone (t : timer_pc) : bool := match t with TDone => true | _ => false end.
Definition is_TStopped (t : timer_pc) : bool := match t with TStopped => true | _ => false end.

Definition holds (h : holder) (mu : option holder) : bool :=
  match h, mu with HPump, Some HPump | HPing, Some HPing | HTimer, Some HTimer => true | _, _ => false end.

Definition spawned (s : Sess) : bool := dialed s && negb (is_RSpawn (main s)).

(** Which goroutines exist, and who holds the lock. *)
Record linv (s : Sess) : Prop := mkLinv {
  linv_before : before_dial (main s) = true -> dialed s = false;
  linv_run : in_run (main s) = true -> dialed s = true;
  linv_ping : is_GIdle (ping s) = negb (dialed s);
  linv_bridge : is_BIdle (bridge s) = negb (spawned s);
  linv_timer : is_TIdle (timer s) = negb (spawned s);
  linv_rp : is_PIdle (rp s) = unpumped (bridge s);
  linv_wp : is_QIdle (wp s) = unpumped (bridge s);
  linv_pump : holds HPump (writeMu s) = is_QWrite (wp s);
  linv_pinger : holds HPing (writeMu s) = is_GWrite (ping s);
  linv_timed : holds HTimer (writeMu s) = is_TWrite (timer s);
}.

(** Which messages are in the channels, what is closed and what is cancelled. *)
Record cinv (s : Sess) : Prop := mkCinv {
  cinv_err : (length (errChan s) + Nat.b2n (took (bridge s)) =
              Nat.b2n (is_PDone (rp s)) + Nat.b2n (is_QDone (wp s)))%nat;
  cinv_none : is_BDone (bridge s) = false -> bridgeErr s = [];
  cinv_some : is_BDone (bridge s) = true -> is_RSelect (main s) = true -> length (bridgeErr s) = 1%nat;
  cinv_ws : ws_shut (bridge s) = true -> wsClosed (net s) = true;
  cinv_tcp : tcp_shut (bridge s) = true -> tcpClosed (net s) = true;
  cinv_main_ws : dialed s = true -> closed_first (main s) = true -> wsClosed (net s) = true;
  cinv_main_tcp : dialed s = true -> past_select (main s) = true -> tcpClosed (net s) = true;
  cinv_open : before_close (main s) = true -> ws_shut (bridge s) = false -> wsClosed (net s) = false;
  cinv_open_tcp : before_close (main s) = true -> tcp_shut (bridge s) = false -> tcpClosed (net s) = false;
  cinv_cancel : dialed s = true -> past_cancel (main s) = true -> ctxDone s = true;
  cinv_ping : is_GDone (ping s) = true -> ctxDone s = true;
  cinv_grace : is_TDone (timer s) = true -> ctxDone s = true;
  cinv_armed : dialed s = true -> past_stop (main s) = true -> is_TArmed (timer s) = false;
  cinv_stopped : is_TStopped (timer s) = true -> past_stop (main s) = true;
  cinv_join : dialed s = true -> past_join (main s) = true -> is_GDone (ping s) = true;
}.

Ltac destruct_sess s :=
  destruct s as [?m ?b ?p ?q ?g ?t ?dl ?cd ?mu ?ec ?be ?oc [?wc ?tc ?wi ?to ?ti ?wo] ?me ?rl ?tk].
Ltac open_sstep H :=
  unfold sstep, handler_step, handleWebSocket_step, Run_step, bridge_step, copyWSToTCP_step, copyTCPToWS_step, pump_send,
    pingLoop_step, timer_step, lockWriteMu, WriteMessage, WriteControl, dial, cancel, release, hijack in H;
  simpl in H; branches H; injection H as <-.

(** Closes a goal about the flags of a state after a step: the equations of the
    invariant, with a case analysis on one program counter where they need it. *)
Ltac flags := intuition (congruence || lia || done).
Ltac solve_flags :=
  rewrite ?andb_true_r, ?andb_false_r, ?length_app in *; simpl length in *;
  first [ flags
        | match goal with dl : bool |- _ => destruct dl; simpl in *; flags end
        | match goal with g : ping_pc |- _ => destruct g; simpl in *; flags end
        | match goal with t : timer_pc |- _ => destruct t; simpl in *; flags end
        | match goal with b : bridge_pc |- _ => destruct b; simpl in *; flags end
        | match goal with mu : option holder |- _ => destruct mu as [[]|]; simpl in *; flags end
        | match goal with m : main_pc |- _ => destruct m; simpl in *; flags end
        | match goal with p : read_pc |- _ => destruct p; simpl in *; flags end
        | match goal with q : write_pc |- _ => destruct q; simpl in *; flags end
        | match goal with p : read_pc, q : write_pc |- _ => destruct p, q; simpl in *; flags end
        | match goal with dl : bool, g : ping_pc |- _ => destruct dl, g; simpl in *; flags end ].

Lemma linv_init : linv initSess.
Proof. by split. Qed.

Lemma linv_step s l s' : linv s -> sstep s l = Some s' -> linv s'.
Proof.
  intros [H1 H2 H3 H4 H5 H6 H7 H8 H9 H10] Hs. destruct_sess s. destruct l; open_sstep Hs.
  all: unfold spawned in *; simpl in *; split; simpl; try done.
  all: solve_flags.
Qed.

Lemma linv_reachable s : sreachable s -> linv s.
Proof.
  intros Hr. refine (rtc_invariant _ linv _ _ _ Hr linv_init).
  intros t t' Ht [l Hs]. by eapply linv_step.
Qed.

Lemma cinv_init : cinv initSess.
Proof. by split. Qed.

Lemma cinv_step s l s' : linv s -> cinv s -> sstep s l = Some s' -> cinv s'.
Proof.
  intros [L1 L2 L3 L4 L5 L6 L7 _ _ _] [H1 H2 H3 H4 H5 H6 H7 H8 H9 H10 H11 H12 H13 H14 H15] Hs.
  destruct_sess s. destruct l; open_sstep Hs.
  all: unfold spawned in *; simpl in *; split; simpl; try done.
  all: solve_flags.
Qed.

Lemma cinv_reachable s : sreachable s -> cinv s.
Proof.
  intros Hr. assert (linv s /\ cinv s) as [_ ?]; [|done].
  refine (rtc_invariant _ (fun s => linv s /\ cinv s) _ _ _ Hr (conj linv_init cinv_init)).
  intros t t' [Hl Hc] [l Hs]. split; [by eapply linv_step|by eapply cinv_step].
Qed.

(** What the connection has added to the metrics, and the slot. *)
Definition counts_active (m : main_pc) : bool :=
  match m with HUpgrade | HWsClose | HRelease | HDone => false | _ => true end.
Definition is_HDone (m : main_pc) : bool := match m with HDone => true | _ => false end.
Definition observed (m : main_pc) : bool := match m with HDec | HWsClose => true | _ => false end.
Definition ending (m : main_pc) : bool := match m with HRelease | HDone => true | _ => false end.
Definition is_HUpgrade (m : main_pc) : bool := match m with HUpgrade => true | _ => false end.

Record minv (s : Sess) : Prop := mkMinv {
  minv_released : released s = Z.b2z (is_HDone (main s));
  minv_active : ActiveConnections (metrics s) = Z.b2z (counts_active (main s));
  minv_start : is_HUpgrade (main s) = true -> ConnectionErrors (metrics s) = [] /\ dialed s = false;
  minv_total : ending (main s) = false ->
    ConnectionsTotal (metrics s) = Z.b2z (negb (is_HUpgrade (main s))) /\
    Durations (metrics s) = Z.b2z (observed (main s));
  minv_outcome : ending (main s) = false ->
    match outcome s with Some _ => true | None => false end = past_select (main s);
  minv_end : ending (main s) = true ->
    (ConnectionsTotal (metrics s) = 0 /\ Durations (metrics s) = 0 /\ dialed s = false /\
     ConnectionErrors (metrics s) = ["upgrade_failed"%string]) \/
    (ConnectionsTotal (metrics s) = 1 /\ Durations (metrics s) = 1 /\ wsClosed (net s) = true /\
     outcome s <> None);
}.

Lemma minv_init : minv initSess.
Proof. split; simpl; naive_solver. Qed.

Ltac destruct_metrics :=
  match goal with me : Metrics |- _ => destruct me as [?ct ?ac ?ce ?wb ?tb ?du] end.

Lemma minv_step s l s' : linv s -> minv s -> sstep s l = Some s' -> minv s'.
Proof.
  intros [L1 L2 L3 L4 L5 L6 L7 _ _ _] [H1 H2 H3 H4 H5 H6] Hs.
  destruct_sess s. destruct_metrics. destruct l; open_sstep Hs.
  all: clear L4 L6 L7; unfold spawned in L5; simpl in *; split; simpl; try done.
  all: solve [ solve_flags
             | clear -H3 H4 H5 H6; match goal with oc : option serr |- _ => destruct oc end; naive_solver ].
Qed.

Lemma minv_reachable s : sreachable s -> minv s.
Proof.
  intros Hr. assert (linv s /\ minv s) as [_ ?]; [|done].
  refine (rtc_invariant _ (fun s => linv s /\ minv s) _ _ _ Hr (conj linv_init minv_init)).
  intros t t' [Hl Hc] [l Hs]. split; [by eapply linv_step|by eapply minv_step].
Qed.

(** What was copied so far, in each direction. *)
Definition up_ok (p : read_pc) (win tout : bytes) (counted : Z) : Prop :=
  match p with
  | PIdle | PRead => tout = win /\ counted = Z.of_nat (length tout)
  | PWrite data => win = tout ++ data /\ counted = Z.of_nat (length tout)
  | PSend _ | PDone => tout `prefix_of` win /\ 0 <= counted <= Z.of_nat (length tout)
  end.

Definition down_ok (q : write_pc) (tin : bytes) (wout : list bytes) (counted : Z) : Prop :=
  counted = Z.of_nat (length (concat wout)) /\
  match q with
  | QIdle | QRead => concat wout = tin
  | QLock data | QWrite data => tin = concat wout ++ data /\ Z.of_nat (length data) <= tcpReadBufferSize
  | QSend _ | QDone => concat wout `prefix_of` tin
  end.

Record dinv (s : Sess) : Prop := mkDinv {
  dinv_up : up_ok (rp s) (wsIn (net s)) (tcpOut (net s)) (wsToTcp (metrics s));
  dinv_down : down_ok (wp s) (tcpIn (net s)) (wsOut (net s)) (tcpToWs (metrics s));
  dinv_chunks : Forall (fun c => Z.of_nat (length c) <= tcpReadBufferSize) (wsOut (net s));
}.

Lemma dinv_init : dinv initSess.
Proof. split; [done| |constructor]. by split. Qed.

Lemma up_ok_write win tout data counted :
  up_ok (PWrite data) win tout counted ->
  up_ok PRead win (tout ++ data) (counted + Z.of_nat (length data)) /\
  forall k e, up_ok (PSend e) win (tout ++ take k data) counted.
Proof.
  simpl. intros [-> ->]. split; [split; [done|]; rewrite length_app; lia|].
  intros k e. split; [|rewrite length_app; lia].
  apply prefix_app. exists (drop k data). by rewrite take_drop.
Qed.

Lemma up_ok_stop e win tout counted :
  up_ok PRead win tout counted -> up_ok (PSend e) win tout counted.
Proof. simpl. intros [-> ->]. split; [done|lia]. Qed.

Lemma up_ok_read win tout counted data :
  up_ok PRead win tout counted -> up_ok (PWrite data) (win ++ data) tout counted.
Proof. simpl. by intros [-> ->]. Qed.

Lemma down_ok_stop e tin wout counted :
  down_ok QRead tin wout counted -> down_ok (QSend e) tin wout counted.
Proof. intros [? <-]. by split. Qed.

Lemma down_ok_read chunk tin wout counted :
  down_ok QRead tin wout counted -> Z.of_nat (length chunk) <= tcpReadBufferSize ->
  down_ok (QLock chunk) (tin ++ chunk) wout counted.
Proof. intros [? <-] ?. by split. Qed.

Lemma down_ok_write data tin wout counted :
  down_ok (QWrite data) tin wout counted ->
  down_ok QRead tin (wout ++ [data]) (counted + Z.of_nat (length data)) /\
  forall e, down_ok (QSend e) tin wout counted.
Proof.
  simpl. intros (-> & -> & _). unfold down_ok. rewrite !concat_app, !length_app. simpl.
  rewrite !app_nil_r. split; [split; [lia|done]|]. intros e. split; [done|]. by eexists.
Qed.

Lemma dinv_step s l s' : linv s -> dinv s -> sstep s l = Some s' -> dinv s'.
Proof.
  intros [_ _ _ _ _ L6 L7 _ _ _] [H1 H2 H3] Hs.
  destruct_sess s. destruct_metrics. destruct l; open_sstep Hs.
  all: simpl in *; split; simpl; rewrite ?Z.add_0_r; try done.
  all: first
    [ match goal with p : read_pc |- _ => by destruct p end
    | match goal with q : write_pc |- _ => by destruct q end
    | exact (up_ok_stop NoErr _ _ _ H1) | apply (up_ok_read _ _ _ _ H1)
    | apply (up_ok_write _ _ _ _ H1); exact NoErr | apply (up_ok_write _ _ _ _ H1)
    | exact (down_ok_stop _ _ _ _ H2) | apply (down_ok_write _ _ _ _ H2)
    | apply (down_ok_read _ _ _ _ H2); by apply Z.leb_le
    | apply Forall_app; split; [done|]; apply Forall_singleton; apply H2 ].
Qed.

Lemma dinv_reachable s : sreachable s -> dinv s.
Proof.
  intros Hr. assert (linv s /\ dinv s) as [_ ?]; [|done].
  refine (rtc_invariant _ (fun s => linv s /\ dinv s) _ _ _ Hr (conj linv_init dinv_init)).
  intros t t' [Hl Hc] [l Hs]. split; [by eapply linv_step|by eapply dinv_step].
Qed.

(** * Termination measure *)

Definition main_rank (m : main_pc) : nat :=
  match m with
  | HUpgrade => 24 | RDeadline => 23 | RDial => 22 | RSpawn => 19 | RSelect => 12 | RCloseWs => 11
  | RCloseTcp => 10 | RStopTimer => 9 | RCancel => 8 | RJoin => 7 | RTcpClose => 6 | RObserve => 5
  | HDec => 4 | HWsClose => 3 | HRelease => 2 | HDone => 0
  end.
Definition bridge_rank (b : bridge_pc) : nat :=
  match b with
  | BIdle => 0 | BStart => 6 | BWait => 5 | BCloseWs _ => 4 | BCloseTcp _ => 3 | BSend _ => 2 | BDone => 0
  end.
Definition read_rank (p : read_pc) : nat :=
  match p with PIdle | PRead | PWrite _ => 2 | PSend _ => 1 | PDone => 0 end.
Definition write_rank (q : write_pc) : nat :=
  match q with QLock _ => 4 | QWrite _ => 3 | QIdle | QRead => 2 | QSend _ => 1 | QDone => 0 end.
Definition ping_rank (g : ping_pc) : nat :=
  match g with GLock => 4 | GWrite => 3 | GIdle | GSelect => 2 | GCancel => 1 | GDone => 0 end.
Definition timer_rank (t : timer_pc) : nat :=
  match t with TIdle | TArmed => 4 | TLock => 3 | TWrite => 2 | TGrace => 1 | TDone | TStopped => 0 end.

Definition rank (s : Sess) : Z :=
  Z.of_nat (main_rank (main s) + bridge_rank (bridge s) + read_rank (rp s) + write_rank (wp s) +
            ping_rank (ping s) + timer_rank (timer s)).

(** Every step of the proxy itself lowers the rank; no event raises it but a chunk
    from the target and a tick, which are worth two steps. *)
Lemma rank_step s l s' :
  linv s -> sstep s l = Some s' ->
  rank s' + Z.b2z (system_label l) <= rank s + 2 * Z.b2z (work_label l).
Proof.
  intros [_ _ L3 L4 L5 L6 L7 _ _ _] Hs. unfold spawned in *.
  destruct_sess s. destruct l; open_sstep Hs; unfold rank; simpl in *; try lia.
  all: rewrite ?andb_false_r in *; simpl in *.
  all: repeat match goal with
    | H : is_PIdle ?p = true |- _ => destruct p; try discriminate H; clear H
    | H : is_QIdle ?p = true |- _ => destruct p; try discriminate H; clear H
    | H : is_BIdle ?p = true |- _ => destruct p; try discriminate H; clear H
    | H : is_TIdle ?p = true |- _ => destruct p; try discriminate H; clear H
    end; simpl; try lia.
Qed.

Lemma rank_run ls s s' :
  linv s -> run sstep s ls = Some s' ->
  rank s' + count_if system_label ls <= rank s + 2 * count_if work_label ls.
Proof.
  revert s. induction ls as [|l ls IH]; intros s Hl; simpl; [intros [= <-]; lia|].
  destruct (sstep s l) as [t|] eqn:Hs; [|done]. intros Hr.
  pose proof (rank_step _ _ _ Hl Hs). specialize (IH _ (linv_step _ _ _ Hl Hs) Hr). lia.
Qed.

(** * Quiescent states *)

(** The connection is over: everything returned, both connections are closed. *)
Definition finished (s : Sess) : Prop :=
  main s = HDone /\
  (dialed s = true ->
     bridge s = BDone /\ rp s = PDone /\ wp s = QDone /\ ping s = GDone /\
     (timer s = TDone \/ timer s = TStopped) /\ wsClosed (net s) = true /\ tcpClosed (net s) = true) /\
  (dialed s = false -> bridge s = BIdle /\ ping s = GIdle /\ timer s = TIdle /\ rp s = PIdle /\ wp s = QIdle).

(** The connection is up and waits for the peers or for time. *)
Definition idle (s : Sess) : Prop :=
  main s = RSelect /\ bridge s = BWait /\ (rp s = PRead \/ exists data, rp s = PWrite data) /\
  wp s = QRead /\ ping s = GSelect /\ timer s = TArmed /\ ctxDone s = false /\
  wsClosed (net s) = false /\ tcpClosed (net s) = false.

Section quiescent.
Context (s : Sess).
Hypothesis Hreach : sreachable s.
Hypothesis Hstuck : forall l, system_label l = true -> sstep s l = None.

(** Nobody holds the write lock, so nobody waits for it. *)
Lemma stuck_mu : writeMu s = None.
Proof using All.
  pose proof (Hstuck QWriteFail eq_refl) as H1. pose proof (Hstuck PingFail eq_refl) as H2.
  pose proof (Hstuck TimerWritten eq_refl) as H3.
  pose proof (linv_reachable _ Hreach) as [_ _ _ _ _ _ _ L8 L9 L10].
  unfold sstep, copyTCPToWS_step, pingLoop_step, timer_step in *.
  destruct (writeMu s) as [[]|]; [| | |done]; simpl in *.
  - by destruct (wp s).
  - by destruct (ping s).
  - by destruct (timer s).
Qed.

Lemma stuck_ping : ping s = GIdle \/ ping s = GSelect /\ ctxDone s = false \/ ping s = GDone.
Proof using All.
  pose proof (Hstuck PingFail eq_refl) as H1. pose proof (Hstuck PingCtx eq_refl) as H2.
  pose proof (Hstuck PingAcquire eq_refl) as H3. pose proof (Hstuck PingCancel eq_refl) as H4.
  unfold sstep, pingLoop_step in *. rewrite stuck_mu in *.
  destruct (ping s), (ctxDone s); auto; discriminate.
Qed.

Lemma stuck_timer : timer s = TIdle \/ timer s = TArmed \/ timer s = TDone \/ timer s = TStopped.
Proof using All.
  pose proof (Hstuck TimerWritten eq_refl) as H1. pose proof (Hstuck TimerAcquire eq_refl) as H2.
  pose proof (Hstuck GraceElapsed eq_refl) as H3.
  unfold sstep, timer_step in *. rewrite stuck_mu in *. destruct (timer s); auto; discriminate.
Qed.

(** A pump that still runs waits for a peer on an open connection. *)
Lemma stuck_pumps :
  (rp s = PIdle \/ rp s = PDone \/
   (rp s = PRead /\ wsClosed (net s) = false \/
    exists data, rp s = PWrite data /\ tcpClosed (net s) = false)) /\
  (wp s = QIdle \/ wp s = QDone \/ wp s = QRead /\ tcpClosed (net s) = false).
Proof using All.
  pose proof (cinv_err _ (cinv_reachable _ Hreach)) as Herr.
  pose proof (Hstuck ReadClosed eq_refl) as H1. pose proof (Hstuck (PWriteClosed 0) eq_refl) as H2.
  pose proof (Hstuck PumpSend eq_refl) as H3. pose proof (Hstuck TcpReadClosed eq_refl) as H4.
  pose proof (Hstuck QAcquire eq_refl) as H5. pose proof (Hstuck QWriteFail eq_refl) as H6.
  pose proof (Hstuck QPumpSend eq_refl) as H7.
  unfold sstep, copyWSToTCP_step, copyTCPToWS_step, pump_send in *. rewrite stuck_mu in *.
  split.
  - destruct (rp s) eqn:E; auto.
    + destruct (wsClosed (net s)); [done|auto].
    + destruct (tcpClosed (net s)); [done|eauto 6].
    + exfalso. destruct (Nat.ltb_spec (length (errChan s)) 2); [done|]. simpl in Herr.
      destruct (is_QDone (wp s)); simpl in Herr; lia.
  - destruct (wp s) eqn:E; auto; try done.
    + destruct (tcpClosed (net s)); [done|auto].
    + exfalso. destruct (Nat.ltb_spec (length (errChan s)) 2); [by destruct (rp s)|]. simpl in Herr.
      destruct (is_PDone (rp s)); simpl in Herr; lia.
Qed.

Lemma stuck_bridge : bridge s = BIdle \/ bridge s = BDone \/ bridge s = BWait /\ errChan s = [].
Proof using All.
  pose proof (cinv_none _ (cinv_reachable _ Hreach)) as Hno.
  pose proof (Hstuck BridgeStep eq_refl) as H1. unfold sstep, bridge_step in *.
  destruct (bridge s); auto; try done; simpl in *.
  - destruct (errChan s); [auto|done].
  - by rewrite Hno in H1.
Qed.

Lemma stuck_idle : main s = RSelect -> idle s.
Proof using All.
  intros Em. pose proof (Hstuck SelBridge eq_refl) as H1. pose proof (Hstuck SelCtx eq_refl) as H2.
  pose proof (linv_reachable _ Hreach) as [_ L2 L3 L4 L5 L6 L7 _ _ _].
  pose proof (cinv_reachable _ Hreach) as [C1 _ C3 _ _ _ _ C8 C9 _ C11 C12 _ C14 _].
  pose proof stuck_bridge as Hb. pose proof stuck_pumps as [Hp Hq].
  pose proof stuck_ping as Hg. pose proof stuck_timer as Ht.
  unfold spawned, sstep, handler_step, Run_step in *. rewrite Em in *. simpl in *.
  rewrite L2, andb_true_r in * by done. simpl in *.
  assert (ctxDone s = false) as Hctx by (destruct (ctxDone s); done). rewrite Hctx in *.
  destruct Hb as [E|[E|[E Ec]]]; rewrite E in *; simpl in *; [done| |].
  { specialize (C3 eq_refl eq_refl). by destruct (bridgeErr s). }
  rewrite Ec in C1. simpl in C1.
  unfold idle. rewrite Em, E, Hctx, C8, C9 by done. split_and!; try done.
  - destruct Hp as [Hp|[Hp|[[Hp _]|(d & Hp & _)]]]; rewrite Hp in *; simpl in *; eauto; (done || lia).
  - destruct Hq as [Hq|[Hq|[Hq _]]]; rewrite Hq in *; simpl in *; (done || lia).
  - destruct Hg as [Hg|[[Hg _]|Hg]]; rewrite Hg in *; simpl in *; try done. by specialize (C11 eq_refl).
  - destruct Ht as [Ht|[Ht|[Ht|Ht]]]; rewrite Ht in *; simpl in *; try done.
    + by specialize (C12 eq_refl).
    + by specialize (C14 eq_refl).
Qed.

Lemma stuck_finished : main s = HDone -> finished s.
Proof using All.
  intros Em. pose proof (linv_reachable _ Hreach) as [_ _ L3 L4 L5 L6 L7 _ _ _].
  pose proof (cinv_reachable _ Hreach) as [C1 _ _ _ _ C6 C7 _ _ _ _ _ C13 _ C15].
  pose proof stuck_bridge as Hb. pose proof stuck_pumps as [Hp Hq].
  pose proof stuck_ping as Hg. pose proof stuck_timer as Ht.
  unfold finished, spawned in *. rewrite Em in *. simpl in *. rewrite andb_true_r in *.
  split; [done|]. split; intros Hd; rewrite Hd in *; simpl in *.
  - specialize (C6 eq_refl eq_refl). specialize (C7 eq_refl eq_refl).
    specialize (C13 eq_refl eq_refl). specialize (C15 eq_refl eq_refl).
    rewrite C6, C7 in *.
    assert (bridge s = BDone) as E.
    { destruct Hb as [E|[E|[E Ec]]]; rewrite E in *; [done|done|]. rewrite Ec in C1.
      destruct Hp as [Hp|[Hp|[[_ Hp]|(d & _ & Hp)]]]; rewrite ?Hp in *; simpl in *; done || lia. }
    rewrite E in *. simpl in *. split_and!; try done.
    + destruct Hp as [Hp|[Hp|[[_ Hp]|(d & _ & Hp)]]]; rewrite ?Hp in *; done.
    + destruct Hq as [Hq|[Hq|[_ Hq]]]; rewrite ?Hq in *; done.
    + by destruct (ping s).
    + destruct Ht as [Ht|[Ht|[Ht|Ht]]]; rewrite Ht in *; auto; done.
  - destruct (bridge s); try done. destruct (ping s); try done. destruct (timer s); try done.
    destruct (rp s); try done. by destruct (wp s).
Qed.

Lemma stuck_main : main s = HDone \/ main s = RSelect.
Proof using All.
  pose proof (Hstuck MainStep eq_refl) as H1. pose proof (Hstuck UpgradeOk eq_refl) as H2.
  pose proof (Hstuck DeadlineOk eq_refl) as H3. pose proof (Hstuck DialOk eq_refl) as H4.
  pose proof (linv_reachable _ Hreach) as [_ L2 L3 _ _ _ _ _ _ _].
  pose proof (cinv_reachable _ Hreach) as [_ _ _ _ _ _ _ _ _ C10 _ _ _ _ _].
  pose proof stuck_ping as Hg.
  unfold sstep, handler_step, handleWebSocket_step, Run_step in *. destruct (main s); simpl in *; auto; try done.
  specialize (L2 eq_refl). rewrite L2 in *. specialize (C10 eq_refl eq_refl).
  destruct Hg as [Hg|[[Hg Hc]|Hg]]; rewrite Hg in *; simpl in *; congruence.
Qed.
End quiescent.

(** * Properties *)

(** C1. A proxied connection cannot hang: in every reachable state in which the proxy
    itself has nothing left to do, either the connection is up with both ends open
    and waits for its peers, its ping or its duration limit, or it is finished:
    the handler has returned, every goroutine it started has ended and both
    connections are closed.  In particular the order of the deferred calls cannot
    deadlock, the write lock is never held for good, and once the duration limit
    was reached, a ping failed, the context was cancelled or a pump ended, the
    connection comes to its end; and it takes at most 34 steps of its own, and two
    for each chunk and each ping. *)
Theorem proxy_session_no_deadlock s :
  sreachable s -> (forall l, system_label l = true -> sstep s l = None) ->
  (idle s \/ finished s) /\
  (forall ls s', run sstep initSess ls = Some s' ->
     count_if system_label ls <= 34 + 2 * count_if work_label ls).
Proof.
  intros Hr Hs. split.
  - destruct (stuck_main s Hr Hs); [right; by apply stuck_finished|left; by apply stuck_idle].
  - intros ls s' Hls. pose proof (rank_run _ _ _ linv_init Hls) as H.
    assert (0 <= rank s') by (unfold rank; lia). change (rank initSess) with 34 in H. lia.
Qed.

(** The life of a connection that reaches its duration limit: an echo, the limit,
    the grace period, teardown. *)
Definition exampleLife : list slabel :=
  [UpgradeOk; DeadlineOk; DialOk; MainStep; BridgeStep;
   WsMsg true ["a"; "b"]%char; PWriteOk; TcpData ["a"; "b"]%char; QAcquire; QWriteOk;
   TimerFire; TimerAcquire; TimerWritten; GraceElapsed; PingCtx; SelCtx; MainStep; MainStep;
   MainStep; MainStep; MainStep; MainStep; MainStep; MainStep; MainStep; MainStep;
   ReadClosed; PumpSend; TcpReadClosed; QPumpSend; BridgeStep; BridgeStep; BridgeStep; BridgeStep].

Definition exampleEnd : Sess :=
  mkSess HDone BDone PDone QDone GDone TDone true true None [ETcpRead] [EWsRead] (Some ECanceled)
    (mkNet true true ["a"; "b"]%char ["a"; "b"]%char ["a"; "b"]%char [["a"; "b"]%char])
    (mkMetrics 1 0 ["max_duration"%string] 2 2 1) 1 true.

Lemma exampleEnd_reachable : sreachable exampleEnd.
Proof. apply (run_reachable sstep exampleLife). vm_compute. reflexivity. Qed.

Lemma proxy_session_no_deadlock_witness :
  (idle exampleEnd \/ finished exampleEnd) /\
  (forall ls s', run sstep initSess ls = Some s' ->
     count_if system_label ls <= 34 + 2 * count_if work_label ls).
Proof. apply (proxy_session_no_deadlock exampleEnd exampleEnd_reachable). intros []; done. Defined.

(** C14. Nothing leaks from a connection: whatever happened to it, when its handler is
    done it has released its slot exactly once and left the gauge of active
    connections where it was; a connection that was upgraded counted once, has its
    duration recorded, a result, and its WebSocket closed, and its target
    connection too if it was dialled; one that was not counted only an error.
    Before that the slot is still held and the gauge counts it at most once. *)
Theorem proxy_session_accounting s :
  sreachable s ->
  match main s with
  | HDone =>
      released s = 1 /\ ActiveConnections (metrics s) = 0 /\
      ((ConnectionsTotal (metrics s) = 1 /\ Durations (metrics s) = 1 /\ wsClosed (net s) = true /\
        outcome s <> None /\ (dialed s = true -> tcpClosed (net s) = true)) \/
       (ConnectionsTotal (metrics s) = 0 /\ Durations (metrics s) = 0 /\ dialed s = false /\
        ConnectionErrors (metrics s) = ["upgrade_failed"%string]))
  | _ => released s = 0 /\ 0 <= ActiveConnections (metrics s) <= 1
  end.
Proof.
  intros Hr. pose proof (minv_reachable _ Hr) as [M1 M2 _ _ _ M6].
  pose proof (cinv_main_tcp _ (cinv_reachable _ Hr)) as C.
  rewrite M1, M2. destruct (main s); simpl in *; try lia.
  do 2 (split; [done|]). destruct (M6 eq_refl) as [H|H]; [by right|left]. naive_solver.
Qed.

Lemma proxy_session_accounting_witness :
  released exampleEnd = 1 /\ ActiveConnections (metrics exampleEnd) = 0 /\
  ((ConnectionsTotal (metrics exampleEnd) = 1 /\ Durations (metrics exampleEnd) = 1 /\
    wsClosed (net exampleEnd) = true /\ outcome exampleEnd <> None /\
    (dialed exampleEnd = true -> tcpClosed (net exampleEnd) = true)) \/
   (ConnectionsTotal (metrics exampleEnd) = 0 /\ Durations (metrics exampleEnd) = 0 /\
    dialed exampleEnd = false /\ ConnectionErrors (metrics exampleEnd) = ["upgrade_failed"%string])).
Proof. apply (proxy_session_accounting _ exampleEnd_reachable). Defined.

(** C2. The bridge is transparent: at every moment the target has received a prefix
    of the concatenated binary messages of the client, and the client, message by
    message, a prefix of what the target sent, with nothing reordered, duplicated
    or invented; a pump that is back at reading has passed on everything it read,
    the byte counters never exceed what was written, and no message exceeds the
    read buffer. *)
Theorem bridge_transparent s :
  sreachable s ->
  tcpOut (net s) `prefix_of` wsIn (net s) /\
  concat (wsOut (net s)) `prefix_of` tcpIn (net s) /\
  (rp s = PRead -> tcpOut (net s) = wsIn (net s) /\
     wsToTcp (metrics s) = Z.of_nat (length (wsIn (net s)))) /\
  (wp s = QRead -> concat (wsOut (net s)) = tcpIn (net s)) /\
  wsToTcp (metrics s) <= Z.of_nat (length (tcpOut (net s))) /\
  tcpToWs (metrics s) = Z.of_nat (length (concat (wsOut (net s)))) /\
  Forall (fun c => Z.of_nat (length c) <= tcpReadBufferSize) (wsOut (net s)).
Proof.
  intros Hr. destruct (dinv_reachable _ Hr) as [Hu [Hc Hd] Hf]. split_and!; try done.
  - destruct (rp s); simpl in Hu; destruct Hu as [-> ?] || destruct Hu; try done. by eexists.
  - destruct (wp s); try done; first [by rewrite Hd|destruct Hd as [-> _]; by eexists].
  - intros E. rewrite E in Hu. simpl in Hu. destruct Hu as [-> ->]. done.
  - intros E. by rewrite E in Hd.
  - destruct (rp s); simpl in Hu; destruct Hu; lia.
Qed.

Lemma bridge_transparent_witness :
  tcpOut (net exampleEnd) `prefix_of` wsIn (net exampleEnd) /\
  concat (wsOut (net exampleEnd)) `prefix_of` tcpIn (net exampleEnd).
Proof.
  destruct (bridge_transparent _ exampleEnd_reachable) as (H1 & H2 & _). exact (conj H1 H2).
Defined.

(** The goroutine is in [WriteMessage] or [WriteControl] of the bridge, past the lock. *)
Definition writing (s : Sess) (h : holder) : bool :=
  match h with HPump => is_QWrite (wp s) | HPing => is_GWrite (ping s) | HTimer => is_TWrite (timer s) end.

(** C27. The bridge's lock does what it is for: the pump, the ping loop and the callback
    of the duration limit are in the middle of a write to the WebSocket exactly while
    they are the ones that hold it, so that never two of them are; and whoever holds it
    can give it back by a step that waits for no peer, so that no one waits for it for
    ever.  (The replies that the library writes from inside [ReadMessage] do not take
    it; they are the library's own, and it allows them at any time.) *)
Theorem ws_single_writer s :
  sreachable s ->
  (forall h, writing s h = true <-> writeMu s = Some h) /\
  (forall h, writeMu s = Some h ->
     exists l s', system_label l = true /\ sstep s l = Some s' /\ writeMu s' = None).
Proof.
  intros Hr. destruct (linv_reachable _ Hr) as [_ _ _ _ _ _ _ H1 H2 H3].
  assert (forall h, writing s h = true <-> writeMu s = Some h) as Hw.
  { intros h. destruct h; simpl; rewrite <-?H1, <-?H2, <-?H3; by destruct (writeMu s) as [[]|]. }
  split; [done|]. intros h Hh. apply Hw in Hh. destruct h; simpl in Hh.
  - exists QWriteFail. simpl. unfold copyTCPToWS_step. destruct (wp s); try done. by eexists.
  - exists PingFail. simpl. unfold pingLoop_step, WriteControl. destruct (ping s); try done. by eexists.
  - exists TimerWritten. simpl. unfold timer_step, WriteControl. destruct (timer s); try done. by eexists.
Qed.

(** A ping is being written when the target has sent something: the pump waits. *)
Definition exampleWriting : Sess :=
  Eval vm_compute in default initSess
    (run sstep initSess
       [UpgradeOk; DeadlineOk; DialOk; MainStep; BridgeStep; Tick; PingAcquire; TcpData ["a"]%char]).

Lemma ws_single_writer_witness :
  writing exampleWriting HPing = true /\ writing exampleWriting HPump = false /\
  exists l s', system_label l = true /\ sstep exampleWriting l = Some s' /\ writeMu s' = None.
Proof.
  destruct (ws_single_writer exampleWriting) as [H1 H2].
  { apply (run_reachable sstep
      [UpgradeOk; DeadlineOk; DialOk; MainStep; BridgeStep; Tick; PingAcquire; TcpData ["a"]%char]).
    vm_compute. reflexivity. }
  split; [apply H1; reflexivity|]. split; [reflexivity|apply (H2 HPing); reflexivity].
Defined.
