(* ===== verification/Keepalive.v ===== *)
(** The keepalive of a proxied connection in time: the read deadline, the pong
    handler and the read limit [Session.Run] sets ([internal/proxy/session.go]), the
    ticker of [pingLoop], and the loop of [copyWSToTCP] ([bridge.go]) under them, with
    the time its writes to the target take.

    The WebSocket library is a parameter: an abstract connection with the operations
    the code calls, and the documented laws of its deadline, its limit and its pong
    handler.  Times and durations are nanoseconds. *)

From S2P Require Import Prelude ProxyConfig.

Open Scope Z_scope.

(** * The library *)

(** What arrives from the client. *)
Inductive frame := FPong | FMessage (binary : bool) (size : Z) | FClose (normal : bool).

(** When it arrives, and whether the library has read it from the network ahead of the
    call that asks for it. *)
Record arrival := mkArrival { at_ : Z; buffered : bool }.

(** What a read makes of it: a pong is handled and reading goes on, a message is
    returned, or an error is. *)
Inductive read_outcome := RPong | RMessage (binary : bool) (size : Z) | RError (normal : bool).

(** [read h now a f w]: a read that is called at [now], with the pong handler [h], of
    the frame [f] that arrives as [a]; its result and the time it returns. *)
Record WsLib (W : Type) := mkWsLib {
  SetReadDeadline : Z -> W -> W;
  SetReadLimit : Z -> W -> W;
  deadline : W -> Z;
  limit : W -> Z;
  read : (Z -> W -> W) -> Z -> arrival -> frame -> W -> W * read_outcome * Z;
}.
Arguments mkWsLib {W}.
Arguments SetReadDeadline {W}.
Arguments SetReadLimit {W}.
Arguments deadline {W}.
Arguments limit {W}.
Arguments read {W}.

(** When the frame is there for a read called at [now], and whether that is not after
    the deadline, which only matters for what comes from the network. *)
Definition there (now : Z) (a : arrival) : Z := Z.max now (at_ a).
Definition in_time (now : Z) (a : arrival) (due : Z) : Prop := buffered a = true \/ there now a <= due.

(** Its documentation: the setters set; a read that has to wait for the network fails
    at the deadline, or at once when that has passed; a pong runs the handler; and a
    message is returned if it is within the limit, and is an error otherwise. *)
Class WsLaws {W : Type} (ws : WsLib W) := {
  ws_deadline t w : deadline ws (SetReadDeadline ws t w) = t;
  ws_deadline_limit t w : limit ws (SetReadDeadline ws t w) = limit ws w;
  ws_limit n w : limit ws (SetReadLimit ws n w) = n;
  ws_timeout h now a f w :
    buffered a = false -> deadline ws w < there now a ->
    exists w', read ws h now a f w = (w', RError false, Z.max now (deadline ws w));
  ws_pong h now a w :
    in_time now a (deadline ws w) -> read ws h now a FPong w = (h (there now a) w, RPong, there now a);
  ws_message h now a b n w :
    in_time now a (deadline ws w) -> n <= limit ws w ->
    exists w', read ws h now a (FMessage b n) w = (w', RMessage b n, there now a) /\
      deadline ws w' = deadline ws w /\ limit ws w' = limit ws w;
  ws_too_large h now a b n w :
    in_time now a (deadline ws w) -> limit ws w < n ->
    exists w', read ws h now a (FMessage b n) w = (w', RError false, there now a);
  ws_close h now a normal w :
    in_time now a (deadline ws w) ->
    exists w', read ws h now a (FClose normal) w = (w', RError normal, there now a);
}.

(** * The code *)

(** [tcp.Write]: how long it takes, and after how many bytes it fails if it does. *)
Record write := mkWrite { takes : Z; fails : option Z }.

(** What the loop meets: a frame, and what the write to the target does if it is to be
    forwarded. *)
Record event := mkEvent { ev_arrival : arrival; ev_frame : frame; ev_write : write }.

(** How the loop ends. *)
Inductive ending := ReadFailed (normal : bool) | WriteFailed.

Section keepalive.
Context {W : Type} (ws : WsLib W) (c : Config).

(** The handler [Session.Run] installs. *)
Definition pongHandler (now : Z) (w : W) : W := SetReadDeadline ws (now + PingTimeout c) w.

(** What it sets before the dial, at time [now]. *)
Definition Run_setup (now : Z) (w : W) : W :=
  SetReadDeadline ws (now + PingTimeout c) (SetReadLimit ws (ReadLimit c) w).

(** The times [pingLoop] sends its pings, for a ticker made at [start]. *)
Definition tick (start n : Z) : Z := start + (n + 1) * PingInterval c.

(** [copyWSToTCP] from [now] on: the bytes of each write to the target, when and how
    the loop ended if it did, and the connection. *)
Fixpoint copyWSToTCP_loop (now : Z) (evs : list event) (w : W) : list Z * option (Z * ending) * W :=
  match evs with
  | [] => ([], None, w)
  | ev :: rest =>
      match read ws pongHandler now (ev_arrival ev) (ev_frame ev) w with
      | (w', RPong, t) => copyWSToTCP_loop t rest w'
      | (w', RMessage false n, t) => copyWSToTCP_loop t rest w'
      | (w', RMessage true n, t) =>
          let t' := t + takes (ev_write ev) in
          match fails (ev_write ev) with
          | Some k => ([k], Some (t', WriteFailed), w')
          | None => let '(sizes, e, w'') := copyWSToTCP_loop t' rest w' in (n :: sizes, e, w'')
          end
      | (w', RError normal, t) => ([], Some (t, ReadFailed normal), w')
      end
  end.

(** * The environment *)

(** When the loop is back at its read after an event, as long as nothing fails. *)
Definition after (now : Z) (ev : event) : Z :=
  let t := there now (ev_arrival ev) in
  match ev_frame ev with FMessage true _ => t + takes (ev_write ev) | _ => t end.
Definition clock (now : Z) (evs : list event) : Z := fold_left after evs now.

(** The frames with the times they are read at then. *)
Fixpoint read_times (now : Z) (evs : list event) : list (Z * frame) :=
  match evs with
  | [] => []
  | ev :: rest => (there now (ev_arrival ev), ev_frame ev) :: read_times (after now ev) rest
  end.

(** Frames are read in the order of their times, none after [upto]. *)
Fixpoint in_order (from upto : Z) (frames : list (Z * frame)) : Prop :=
  match frames with
  | [] => from <= upto
  | (t, _) :: rest => from <= t /\ in_order t upto rest
  end.

(** Writes take time forwards only. *)
Definition causal (evs : list event) : Prop := Forall (fun ev => 0 <= takes (ev_write ev)) evs.

(** The client sends only messages within the limit, and does not close. *)
Definition acceptable (evs : list event) : Prop :=
  Forall (fun ev =>
    match ev_frame ev with FPong => True | FMessage _ n => n <= ReadLimit c | FClose _ => False end) evs.

(** The target takes all that is written. *)
Definition target_reads (evs : list event) : Prop := Forall (fun ev => fails (ev_write ev) = None) evs.

(** No frame waits longer than [lag] for the loop, which may be busy writing those
    before it. *)
Definition keeps_up (lag now : Z) (evs : list event) : Prop :=
  Forall2 (fun x ev => fst x <= at_ (ev_arrival ev) + lag) (read_times now evs) evs.

(** For every ping sent after [after], as far as the answer is due by [upto], there is
    a pong in [frames] within [latency]. *)
Definition answered (start latency after upto : Z) (frames : list (Z * frame)) : Prop :=
  forall n, 0 <= n -> after < tick start n -> tick start n + latency <= upto ->
    exists t, (t, FPong) ∈ frames /\ tick start n <= t <= tick start n + latency.

(** The client answers every ping: its pongs arrive within [latency]. *)
Definition answers (start latency after upto : Z) (evs : list event) : Prop :=
  answered start latency after upto ((fun ev => (at_ (ev_arrival ev), ev_frame ev)) <$> evs).

Definition binary_sizes (evs : list event) : list Z :=
  omap (fun ev => match ev_frame ev with FMessage true n => Some n | _ => None end) evs.

Definition no_pong (evs : list event) : Prop := Forall (fun ev => ev_frame ev <> FPong) evs.

(** * Lemmas *)

(** The first ping after a time comes at most an interval later. *)
Lemma next_tick start p :
  0 < PingInterval c ->
  exists n, 0 <= n /\ p < tick start n /\ tick start n <= Z.max start p + PingInterval c.
Proof.
  intros Hi. unfold tick. destruct (Z.le_gt_cases (start + PingInterval c) p) as [Hle|Hgt].
  - exists ((p - start) / PingInterval c).
    pose proof (Z.div_pos (p - start) (PingInterval c)).
    pose proof (Z.mod_pos_bound (p - start) (PingInterval c) Hi).
    pose proof (Z.div_mod (p - start) (PingInterval c)). nia.
  - exists 0. lia.
Qed.

Lemma in_order_lower from upto frames t f :
  in_order from upto frames -> (t, f) ∈ frames -> from <= t.
Proof.
  revert from. induction frames as [|[t0 f0] rest IH]; intros from; simpl; [set_solver|].
  intros [Hle Hr] [[= -> ->]|Hin]%elem_of_cons; [done|]. specialize (IH t0 Hr Hin). lia.
Qed.

Lemma in_order_upto from upto frames : in_order from upto frames -> from <= upto.
Proof.
  revert from. induction frames as [|[t0 f0] rest IH]; intros from; simpl; [done|].
  intros [? Hr]. specialize (IH _ Hr). lia.
Qed.

Lemma after_le now ev : 0 <= takes (ev_write ev) -> there now (ev_arrival ev) <= after now ev.
Proof. unfold after. destruct (ev_frame ev) as [|[]|]; lia. Qed.

Lemma there_le now a : now <= there now a.
Proof. unfold there. lia. Qed.

Lemma in_time_or_late now a due : in_time now a due \/ buffered a = false /\ due < there now a.
Proof.
  unfold in_time. destruct (buffered a); [by left; left|].
  destruct (Z.le_gt_cases (there now a) due); auto.
Qed.

Lemma clock_le evs : forall now, causal evs -> now <= clock now evs.
Proof.
  induction evs as [|ev evs IH]; intros now Hc; simpl; [lia|]. apply Forall_cons in Hc as [Ht Hc].
  specialize (IH (after now ev) Hc). pose proof (after_le now ev Ht). pose proof (there_le now (ev_arrival ev)).
  lia.
Qed.

Lemma in_order_mono from from' upto frames :
  from <= from' -> in_order from' upto frames -> in_order from upto frames.
Proof. destruct frames as [|[t f] rest]; simpl; intros; [lia|]. intuition lia. Qed.

Lemma read_times_in_order evs : forall now upto,
  causal evs -> clock now evs <= upto -> in_order now upto (read_times now evs).
Proof.
  induction evs as [|ev evs IH]; intros now upto Hc Hu; simpl; [done|]. apply Forall_cons in Hc as [Ht Hc].
  split; [apply there_le|]. eapply in_order_mono; [by apply after_le|]. by apply IH.
Qed.

(** A pong that arrives in time is read in time by a loop that keeps up. *)
Lemma answers_read lag evs : forall start latency from upto now,
  0 <= lag -> keeps_up lag now evs -> answers start latency from upto evs ->
  answered start (latency + lag) from upto (read_times now evs).
Proof.
  intros start latency from upto now Hl Hk Ha n Hn Hafter Hdue.
  destruct (Ha n Hn Hafter ltac:(lia)) as (t & Hin & Ht). clear Ha Hafter Hdue.
  unfold keeps_up in Hk. revert now Hk. induction evs as [|ev evs IH]; intros now Hk; [by apply elem_of_nil in Hin|].
  simpl in *. apply Forall2_cons in Hk as [Hd Hk]. simpl in Hd.
  apply elem_of_cons in Hin as [[= -> E]|Hin].
  - exists (there now (ev_arrival ev)). split; [rewrite <-E; left|]. unfold there in *. lia.
  - destruct (IH Hin _ Hk) as (t' & Hin' & Ht'). exists t'. split; [by right|done].
Qed.

(** Dropping a frame that is read no later than [after'] keeps the answers due after
    that. *)
Lemma answers_rest start latency from from' upto t f rest :
  answered start latency from upto ((t, f) :: rest) ->
  from <= from' -> f <> FPong \/ t <= from' -> answered start latency from' upto rest.
Proof.
  intros Ha Hle Hf n Hn Hafter Hdue.
  destruct (Ha n Hn ltac:(lia) Hdue) as (t' & [[= <- <-]|Hin]%elem_of_cons & Ht'); [|eauto].
  exfalso. destruct Hf as [Hf|Hf]; [done|lia].
Qed.

(** With a pong handled at [p] and every later ping answered in time, the deadline is
    still ahead when the next frame is read. *)
Lemma deadline_ahead start latency p from upto frames :
  0 < PingInterval c -> answered start latency p upto frames -> in_order from upto frames ->
  Z.max start p + PingInterval c + latency < p + PingTimeout c ->
  from <= upto /\
  match frames with
  | (t, _) :: _ => t < p + PingTimeout c
  | [] => upto < p + PingTimeout c
  end.
Proof.
  intros Hi Ha Ho Hb. split; [by eapply in_order_upto|].
  destruct (next_tick start p Hi) as (n & Hn & Hp & Hle).
  destruct (decide (tick start n + latency <= upto)) as [Hdue|Hdue].
  - destruct (Ha n Hn Hp Hdue) as (q & Hq & Hqt). destruct frames as [|[t f] rest]; [set_solver|].
    destruct Ho as [_ Ho]. apply elem_of_cons in Hq as [[= <- _]|Hq]; [lia|].
    pose proof (in_order_lower _ _ _ _ _ Ho Hq). lia.
  - destruct frames as [|[t f] rest]; [lia|].
    destruct Ho as [_ Ho]. apply in_order_upto in Ho. lia.
Qed.

Context `{!WsLaws ws}.

Lemma loop_alive start latency evs : forall p now upto w,
  0 < PingInterval c -> Z.max start p + PingInterval c + latency < p + PingTimeout c ->
  PingInterval c + latency < PingTimeout c ->
  deadline ws w = p + PingTimeout c -> limit ws w = ReadLimit c ->
  causal evs -> clock now evs <= upto -> acceptable evs -> target_reads evs ->
  answered start latency p upto (read_times now evs) -> p <= now ->
  exists w', copyWSToTCP_loop now evs w = (binary_sizes evs, None, w') /\ upto < deadline ws w'.
Proof using All.
  induction evs as [|ev evs IH]; intros p now upto w Hi Hb Hb2 Hd Hl Hc Hu Hacc Htr Ha Hp;
    pose proof (read_times_in_order _ _ _ Hc Hu) as Ho;
    destruct (deadline_ahead start latency p now upto _ Hi Ha Ho Hb) as [_ Ht].
  - exists w. split; [done|]. by rewrite Hd.
  - simpl in Ht. set (t := there now (ev_arrival ev)) in *.
    assert (in_time now (ev_arrival ev) (deadline ws w)) as Hin by (right; rewrite Hd; lia).
    pose proof (there_le now (ev_arrival ev)) as Hnt. fold t in Hnt.
    apply Forall_cons in Hc as [Hev Hc]. apply Forall_cons in Hacc as [Hf Hacc].
    apply Forall_cons in Htr as [Hw Htr]. simpl in Hu, Ha. simpl.
    pose proof (after_le now ev Hev) as Haf. fold t in Haf.
    destruct (ev_frame ev) as [|b n|normal] eqn:Ef; [| |done].
    + rewrite (ws_pong _ now _ w) by done. fold t.
      assert (after now ev = t) as Et by (unfold after; by rewrite Ef). rewrite Et in *.
      destruct (IH t t upto (pongHandler t w)) as (w' & E & Hw'); try done; try lia.
      * apply ws_deadline.
      * unfold pongHandler. by rewrite ws_deadline_limit.
      * eapply answers_rest; [done|lia|right; lia].
      * exists w'. by rewrite E.
    + destruct (ws_message pongHandler now (ev_arrival ev) b n w) as (w1 & E1 & Ed & El); [done|lia|].
      rewrite E1. fold t.
      destruct (IH p (after now ev) upto w1) as (w' & E & Hw'); try done; try lia; try congruence.
      * eapply answers_rest; [done|lia|by left].
      * exists w'. split; [|done]. unfold after in E. rewrite Ef in E. fold t in E. destruct b; [rewrite Hw|]; by rewrite E.
Qed.

(** The loop without a pong, up to an event that needs the network after the deadline:
    it ends with a read or write before, or there. *)
Lemma loop_silent pre : forall now w ev post,
  causal pre -> no_pong pre -> buffered (ev_arrival ev) = false ->
  deadline ws w < there (clock now pre) (ev_arrival ev) ->
  exists sizes t why w', copyWSToTCP_loop now (pre ++ ev :: post) w = (sizes, Some (t, why), w') /\
    t <= Z.max (clock now pre) (deadline ws w).
Proof using All.
  induction pre as [|x pre IH]; intros now w ev post Hc Hn Hb Hlate; cbn [app copyWSToTCP_loop].
  - destruct (ws_timeout pongHandler now (ev_arrival ev) (ev_frame ev) w Hb Hlate) as [w' ->].
    eexists _, _, _, _. split; [done|]. simpl. lia.
  - apply Forall_cons in Hc as [Hx Hc]. apply Forall_cons in Hn as [Hf Hn]. simpl in Hlate. simpl.
    pose proof (clock_le pre (after now x) Hc) as Hcl. pose proof (after_le now x Hx) as Haf.
    pose proof (there_le now (ev_arrival x)) as Hth.
    destruct (in_time_or_late now (ev_arrival x) (deadline ws w)) as [Hin|[Hxb Hxt]].
    2: { destruct (ws_timeout pongHandler now (ev_arrival x) (ev_frame x) w Hxb Hxt) as [w' ->].
         eexists _, _, _, _. split; [done|]. lia. }
    unfold after in *. destruct (ev_frame x) as [|b n|normal]; [done| |].
    + destruct (Z.le_gt_cases n (limit ws w)) as [Hl|Hl].
      * destruct (ws_message pongHandler now (ev_arrival x) b n w Hin Hl) as (w1 & -> & Ed & _).
        destruct b; [destruct (fails (ev_write x)) as [k|]|].
        -- eexists _, _, _, _. split; [done|]. lia.
        -- destruct (IH _ w1 ev post Hc Hn Hb ltac:(rewrite Ed; exact Hlate)) as (sz & t & why & w' & E & Ht).
           rewrite E. eexists _, _, _, _. split; [done|]. lia.
        -- destruct (IH _ w1 ev post Hc Hn Hb ltac:(rewrite Ed; exact Hlate)) as (sz & t & why & w' & E & Ht).
           rewrite E. eexists _, _, _, _. split; [done|]. lia.
      * destruct (ws_too_large pongHandler now (ev_arrival x) b n w Hin ltac:(lia)) as [w' ->].
        eexists _, _, _, _. split; [done|]. lia.
    + destruct (ws_close pongHandler now (ev_arrival x) normal w Hin) as [w' ->].
      eexists _, _, _, _. split; [done|]. lia.
Qed.

(** Without a pong a loop that goes on has not moved the deadline. *)
Lemma loop_silent_deadline evs : forall now w sizes w',
  no_pong evs -> copyWSToTCP_loop now evs w = (sizes, None, w') -> deadline ws w' = deadline ws w.
Proof using All.
  induction evs as [|x evs IH]; intros now w sizes w' Hn; cbn [copyWSToTCP_loop]; [by intros [= _ <-]|].
  apply Forall_cons in Hn as [Hf Hn].
  destruct (in_time_or_late now (ev_arrival x) (deadline ws w)) as [Hin|[Hxb Hxt]].
  2: { by destruct (ws_timeout pongHandler now (ev_arrival x) (ev_frame x) w Hxb Hxt) as [w1 ->]. }
  destruct (ev_frame x) as [|b n|normal]; [done| |].
  - destruct (Z.le_gt_cases n (limit ws w)) as [Hl|Hl].
    + destruct (ws_message pongHandler now (ev_arrival x) b n w Hin Hl) as (w1 & -> & Ed & _).
      destruct b; [destruct (fails (ev_write x)) as [k|]; [done|]|].
      * destruct (copyWSToTCP_loop _ evs w1) as [[sz e] w2] eqn:E. intros [= <- -> ->].
        rewrite <-Ed. by eapply IH.
      * rewrite <-Ed. by apply IH.
    + by destruct (ws_too_large pongHandler now (ev_arrival x) b n w Hin ltac:(lia)) as [w1 ->].
  - by destruct (ws_close pongHandler now (ev_arrival x) normal w Hin) as [w1 ->].
Qed.

(** * Properties *)

(** C32. A client that answers is kept, and all it sends is forwarded.  Suppose the dial took
    at most [dial], the pong for every ping arrives within [latency], and no frame
    waits longer than [lag] for the loop, which cannot read while it writes to the
    target; and suppose there is room for these and a ping interval within
    [PingTimeout], and the target takes what is written to it.  Then no read ever fails,
    whatever messages within the limit come in between: every binary message is
    written to the target whole, in order, none skipped, and at the end the deadline
    is still ahead. *)
Theorem keepalive_keeps_live_client w0 t0 start dial latency lag upto evs :
  0 < PingInterval c -> t0 <= start <= t0 + dial -> 0 <= dial -> 0 <= lag ->
  dial + PingInterval c + latency + lag < PingTimeout c ->
  causal evs -> clock t0 evs <= upto -> keeps_up lag t0 evs ->
  acceptable evs -> target_reads evs -> answers start latency t0 upto evs ->
  exists w', copyWSToTCP_loop t0 evs (Run_setup t0 w0) = (binary_sizes evs, None, w') /\
    upto < deadline ws w'.
Proof using All.
  intros Hi Hst Hdl Hlag Hb Hc Hu Hk Hacc Htr Ha.
  apply (loop_alive start (latency + lag) evs t0 t0 upto (Run_setup t0 w0)); try done; try lia.
  - apply ws_deadline.
  - unfold Run_setup. by rewrite ws_deadline_limit, ws_limit.
  - by apply answers_read.
Qed.

(** C33. A client that no longer answers is cut: from the last pong on, handled at [p],
    the first time the loop needs the network for a frame that is not there by
    [p + PingTimeout], it ends, however much data came before; it ends at
    [p + PingTimeout], or, when it is writing to the target at that time, as soon as
    that write returns.  While it goes on, the deadline stays where the last pong put
    it. *)
Theorem keepalive_cuts_silent_client w p now pre ev post :
  causal pre -> no_pong pre -> buffered (ev_arrival ev) = false ->
  p + PingTimeout c < there (clock now pre) (ev_arrival ev) ->
  (exists sizes t why w',
     copyWSToTCP_loop now (pre ++ ev :: post) (pongHandler p w) = (sizes, Some (t, why), w') /\
     t <= Z.max (clock now pre) (p + PingTimeout c)) /\
  (forall sizes w', copyWSToTCP_loop now pre (pongHandler p w) = (sizes, None, w') ->
     deadline ws w' = p + PingTimeout c).
Proof using All.
  intros Hc Hn Hb Hlate. assert (deadline ws (pongHandler p w) = p + PingTimeout c) as Hd by apply ws_deadline.
  split.
  - rewrite <-Hd in Hlate. rewrite <-Hd. by apply loop_silent.
  - intros sizes w' E. rewrite <-Hd. by eapply loop_silent_deadline.
Qed.
End keepalive.

(** * A connection *)

(** The library as its documentation has it: the deadline and the limit. *)
Definition plainWs : WsLib (Z * Z) :=
  mkWsLib (fun t w => (t, snd w)) (fun n w => (fst w, n)) fst snd
    (fun h now a f w =>
       let t := there now a in
       if negb (buffered a) && (fst w <? t) then (w, RError false, Z.max now (fst w))
       else match f with
            | FPong => (h t w, RPong, t)
            | FMessage b n => if n <=? snd w then (w, RMessage b n, t) else (w, RError false, t)
            | FClose normal => (w, RError normal, t)
            end).

#[export] Instance plainWs_laws : WsLaws plainWs.
Proof.
  assert (forall now a due, in_time now a due -> negb (buffered a) && (due <? there now a) = false) as Hit.
  { intros now a due [->|H]; [done|]. rewrite (proj2 (Z.ltb_ge _ _) H). apply andb_false_r. }
  split; simpl; try done.
  - intros h now a f w -> H. rewrite (proj2 (Z.ltb_lt _ _) H). by eexists.
  - intros h now a w H. by rewrite Hit.
  - intros h now a b n w H Hn. rewrite Hit, (proj2 (Z.leb_le _ _) Hn) by done. by exists w.
  - intros h now a b n w H Hn. rewrite Hit, (proj2 (Z.leb_gt _ _) Hn) by done. by eexists.
  - intros h now a normal w H. rewrite Hit by done. by eexists.
Qed.

(** The defaults: pings every thirty seconds, a dial of two, a client that takes
    three to answer, and a target that takes a second to read a message. *)
Definition second (n : Z) : Z := n * 1000000000.
Definition frame_at (t : Z) (f : frame) : event :=
  mkEvent (mkArrival (second t) false) f (mkWrite (second 1) None).
Definition exampleFrames : list event :=
  [frame_at 5 (FMessage true 64); frame_at 5 (FMessage true 32); frame_at 35 FPong; frame_at 65 FPong;
   frame_at 70 (FMessage true 9)].

Lemma keepalive_keeps_live_client_witness :
  exists w', copyWSToTCP_loop plainWs (readConfig ∅) 0 exampleFrames
      (Run_setup plainWs (readConfig ∅) 0 (0, 0)) = ([64; 32; 9], None, w') /\
    second 71 < deadline plainWs w'.
Proof.
  apply (keepalive_keeps_live_client plainWs (readConfig ∅) (0, 0) 0 (second 2) (second 2) (second 3)
           (second 1) (second 71) exampleFrames).
  - vm_compute. reflexivity.
  - vm_compute. split; discriminate.
  - vm_compute. discriminate.
  - vm_compute. discriminate.
  - vm_compute. reflexivity.
  - repeat constructor; vm_compute; discriminate.
  - vm_compute. discriminate.
  - repeat constructor; vm_compute; discriminate.
  - repeat constructor; vm_compute; discriminate.
  - repeat constructor.
  - intros n Hn _ Hle. change (PingInterval (readConfig ∅)) with (second 30) in *.
    assert (tick (readConfig ∅) (second 2) n = second 32 + n * second 30) as E.
    { unfold tick. change (PingInterval (readConfig ∅)) with (second 30). unfold second. lia. }
    rewrite E in *. unfold second in *. assert (n = 0 \/ n = 1) as [->| ->] by lia.
    + exists (second 35). split; [|unfold second; lia]. vm_compute. right. right. left.
    + exists (second 65). split; [|unfold second; lia]. vm_compute. right. right. right. left.
Defined.

(** A silent client that goes on sending: the message of second 59 takes the target a
    second to read, so the read that follows is cut at second 60. *)
Lemma keepalive_cuts_silent_client_witness :
  exists sizes t why w',
    copyWSToTCP_loop plainWs (readConfig ∅) 0
      ([frame_at 59 (FMessage true 1)] ++ frame_at 61 (FMessage true 1) :: [])
      (pongHandler plainWs (readConfig ∅) 0 (0, 65536)) = (sizes, Some (t, why), w') /\
    t <= second 60.
Proof.
  refine (proj1 (keepalive_cuts_silent_client plainWs (readConfig ∅) (0, 65536) 0 0
    [frame_at 59 (FMessage true 1)] (frame_at 61 (FMessage true 1)) [] _ _ _ _)).
  - repeat constructor; vm_compute; discriminate.
  - repeat constructor; discriminate.
  - reflexivity.
  - vm_compute. reflexivity.
Defined.

(** The check of [LoadConfig] alone does not keep a client that answers: the deadline
    runs from before the dial and the ticker from after it, so with an interval one
    second below the timeout, which is accepted, and a dial of two seconds, a client
    that answers every ping at once is cut before the first one is sent. *)
Lemma keepalive_interval_too_close :
  exists env c evs, LoadConfig env = Ok c /\ 0 < PingInterval c < PingTimeout c /\
    answers c (second 2) 0 0 (second 61) evs /\ acceptable c evs /\ target_reads evs /\ keeps_up 0 0 evs /\
    snd (fst (copyWSToTCP_loop plainWs c 0 evs (Run_setup plainWs c 0 (0, 0)))) =
      Some (second 60, ReadFailed false).
Proof.
  exists {["PING_INTERVAL"%string := "59s"%string]}. eexists. exists [frame_at 61 FPong].
  split_and!; [vm_compute; reflexivity|vm_compute; done..| | | | |vm_compute; reflexivity].
  2-4: repeat constructor; vm_compute; discriminate.
  intros n Hn _ Hle. exists (second 61). split; [left|].
  match goal with |- tick ?c _ _ <= _ <= _ => set (cfg := c) in * end.
  assert (PingInterval cfg = second 59) as E by (vm_compute; reflexivity).
  unfold tick in *. rewrite E in *. unfold second in *. nia.
Qed.
