(* ===== verification/TargetHealth.v ===== *)
(** The health of the target, [internal/proxy/targethealth.go] and, of
    [internal/proxy/server.go], [probeTarget], [handleTargetHealth] and
    [Shutdown]: one probe, the last result and what is reported of it, and the
    background prober with its start and its stop as a transition system. *)

From S2P Require Import Prelude GoStrings GoTime ProxyConfig.

Open Scope Z_scope.

(** * One probe *)

Definition targetBannerReadLimit : nat := 255.
#[global] Arguments targetBannerReadLimit : simpl never.
Definition newline : ascii := Ascii.ascii_of_nat 10.

Inductive probe_error :=
| ErrDial                      (* the error of dialTCP *)
| ErrReadDeadline              (* failed to set read deadline *)
| ErrNoGreeting                (* connected but read no greeting *)
| ErrGreeting (banner : string).  (* greeting does not start with the prefix *)

(** What a probe meets: whether the dial and [SetReadDeadline] succeed, and the
    bytes the target sends before it closes, fails or the deadline passes. *)
Record Probe := mkProbe { dials : bool; sets_deadline : bool; greeting : string }.

(** [bufio.NewReader(io.LimitReader(conn, limit)).ReadString('\n')]: up to the first
    newline of the first [limit] bytes; otherwise those bytes, with an error. *)
Definition ReadString (limit : nat) (stream : string) : string * bool :=
  let limited := stake limit stream in
  match index_byte newline limited with
  | Some i => (stake (S i) limited, false)
  | None => (limited, true)
  end.

Definition probeTarget (p : Probe) (bannerPrefix : string) : result probe_error unit :=
  (fail_if negb (dials p) with ErrDial;
   if (bannerPrefix =? "")%string then Ok tt
   else
     fail_if negb (sets_deadline p) with ErrReadDeadline;
     let '(banner, err) := ReadString targetBannerReadLimit (greeting p) in
     fail_if err && (banner =? "")%string with ErrNoGreeting;
     fail_if negb (HasPrefix banner bannerPrefix) with ErrGreeting banner;
     Ok tt)%go.

(** * The last result *)

(** [targetHealth]; [h_err] is [None] for the empty string. *)
Record targetHealth := mkHealth { checked : bool; reachable : bool; at_ : Z; h_err : option probe_error }.

Definition zeroHealth : targetHealth := mkHealth false false 0 None.

Definition err_of (r : result probe_error unit) : option probe_error :=
  match r with Ok _ => None | Err e => Some e end.

(** [record], at time [now]. *)
Definition record (r : result probe_error unit) (now : Z) : targetHealth :=
  mkHealth true (is_ok r) now (err_of r).

(** [snapshot]: the fields copied under the read lock. *)
Record targetHealthSnapshot := mkSnapshot {
  sn_checked : bool; sn_reachable : bool; sn_at : Z; sn_err : option probe_error;
}.

Definition snapshot (h : targetHealth) : targetHealthSnapshot :=
  mkSnapshot (checked h) (reachable h) (at_ h) (h_err h).

(** What [handleTargetHealth] answers: the status code and the fields of the
    body. *)
Inductive health_status := StatusUnknown | StatusOk | StatusUnreachable.
Record HealthReply := mkReply {
  code : Z; status : health_status; target : string;
  checkedAt : option Z; error : option probe_error;
}.

Definition handleTargetHealth (c : Config) (h : targetHealth) : HealthReply :=
  let target := TargetAddr c in
  let result := snapshot h in
  if negb (sn_checked result) then mkReply 503 StatusUnknown target None None
  else if sn_reachable result then mkReply 200 StatusOk target (Some (sn_at result)) None
  else mkReply 503 StatusUnreachable target (Some (sn_at result)) (sn_err result).

(** * The prober *)

(** The interval [startTargetProber] uses. *)
Definition proberInterval (c : Config) : Z :=
  if TargetHealthInterval c <=? 0 then defaultTargetHealthInterval else TargetHealthInterval c.

(** The goroutine: not started, started by a call that has left the lock but not
    spawned it yet, in [probeTarget], at the check of the context, at [record], at
    the metric, in the [select], returned. *)
Inductive prober_pc :=
| NotStarted | Spawning | Probing | Checking (p : Probe) | Recording (p : Probe) | Setting (p : Probe)
| Selecting | Returned.

(** The first call of [stopTargetProber], the one that stops it: not made, about to
    cancel, waiting for the goroutine when there is one, returned.  Any later call
    finds [proberStopped] set and returns at once, also while the first still waits. *)
Inductive stop_pc := NotCalled | Cancelling (wait : bool) | Joining (wait : bool) | Stopped.

Record Prober := mkProber {
  config : Config;
  proberStopped : bool;
  proberDone : bool;          (* the channel exists *)
  prober : prober_pc;
  stopper : stop_pc;
  cancelled : bool;           (* proberCtx *)
  health : targetHealth;
  TargetReachable : option bool;  (* the gauge, once set *)
  starts : nat;               (* goroutines started *)
  last : option Probe;        (* the probe behind the last record *)
}.

Definition initProber (c : Config) : Prober :=
  mkProber c false false NotStarted NotCalled false zeroHealth None 0 None.

Inductive hlabel :=
| StartCall | Spawn
| ProbeDone (p : Probe) | CheckCtx (expired : bool) | RecordAt (now : Z) | SetGauge | SelectDone | SelectTick
| StopCall | Cancel | Join.

Definition set_prober (s : Prober) (pc : prober_pc) : Prober :=
  mkProber (config s) (proberStopped s) (proberDone s) pc (stopper s) (cancelled s) (health s)
    (TargetReachable s) (starts s) (last s).
Definition set_stopper (s : Prober) (pc : stop_pc) : Prober :=
  mkProber (config s) (proberStopped s) (proberDone s) (prober s) pc (cancelled s) (health s)
    (TargetReachable s) (starts s) (last s).

(** [startTargetProber]: the section under the lock, then the [go] statement. *)
Definition startTargetProber_step (s : Prober) (l : hlabel) : option Prober :=
  match l with
  | StartCall =>
      if proberStopped s || proberDone s then Some s
      else Some (mkProber (config s) (proberStopped s) true Spawning (stopper s) (cancelled s)
                   (health s) (TargetReachable s) (S (starts s)) (last s))
  | Spawn => match prober s with Spawning => Some (set_prober s Probing) | _ => None end
  | _ => None
  end.

(** The result of the probe the server makes. *)
Definition probeResult (s : Prober) (p : Probe) : result probe_error unit :=
  probeTarget p (TargetHealthBannerPrefix (config s)).

(** [probeOnce] and the loop around it.  The context it checks is the probe's own, made
    of [proberCtx] with a timeout, whose error is [Canceled] only if [proberCtx] was
    cancelled before the timeout had [expired]. *)
Definition prober_step (s : Prober) (l : hlabel) : option Prober :=
  match l, prober s with
  | ProbeDone p, Probing => Some (set_prober s (Checking p))
  | CheckCtx expired, Checking p =>
      Some (set_prober s (if cancelled s && negb expired then Selecting else Recording p))
  | RecordAt now, Recording p =>
      Some (mkProber (config s) (proberStopped s) (proberDone s) (Setting p) (stopper s)
              (cancelled s) (record (probeResult s p) now) (TargetReachable s) (starts s) (Some p))
  | SetGauge, Setting p =>
      Some (mkProber (config s) (proberStopped s) (proberDone s) Selecting (stopper s)
              (cancelled s) (health s) (Some (is_ok (probeResult s p))) (starts s) (last s))
  | SelectDone, Selecting => if cancelled s then Some (set_prober s Returned) else None
  | SelectTick, Selecting => Some (set_prober s Probing)
  | _, _ => None
  end.

(** [stopTargetProber]: the section under the lock, the cancellation, the wait. *)
Definition stopTargetProber_step (s : Prober) (l : hlabel) : option Prober :=
  match l, stopper s with
  | StopCall, NotCalled =>
      Some (mkProber (config s) true (proberDone s) (prober s) (Cancelling (proberDone s))
              (cancelled s) (health s) (TargetReachable s) (starts s) (last s))
  | StopCall, _ => Some s
  | Cancel, Cancelling wait =>
      Some (mkProber (config s) (proberStopped s) (proberDone s) (prober s) (Joining wait) true
              (health s) (TargetReachable s) (starts s) (last s))
  | Join, Joining wait =>
      if wait then match prober s with Returned => Some (set_stopper s Stopped) | _ => None end
      else Some (set_stopper s Stopped)
  | _, _ => None
  end.

Definition hstep (s : Prober) (l : hlabel) : option Prober :=
  match l with
  | StartCall | Spawn => startTargetProber_step s l
  | StopCall | Cancel | Join => stopTargetProber_step s l
  | _ => prober_step s l
  end.

(** What the server itself does next, without a new call, a tick or a probe that
    is still under its deadline. *)
Definition system_label (l : hlabel) : bool :=
  match l with StartCall | StopCall | SelectTick => false | _ => true end.

Definition hreachable (c : Config) (s : Prober) : Prop := rtc (lts_step hstep) (initProber c) s.

(** * Invariant *)

Definition is_NotStarted (pc : prober_pc) : bool := match pc with NotStarted => true | _ => false end.
Definition is_NotCalled (pc : stop_pc) : bool := match pc with NotCalled => true | _ => false end.
Definition past_cancel (pc : stop_pc) : bool :=
  match pc with Joining _ | Stopped => true | _ => false end.

(** The wait of the stopper is for the goroutine there is. *)
Definition waits_right (s : Prober) : Prop :=
  match stopper s with
  | NotCalled => True
  | Cancelling wait | Joining wait => wait = proberDone s
  | Stopped => proberDone s = true -> prober s = Returned
  end.

(** The health and the gauge say what the last recorded probe found; the gauge is
    set right after the health. *)
Definition reports (s : Prober) : Prop :=
  match last s with
  | None => health s = zeroHealth /\ TargetReachable s = None
  | Some p =>
      (exists now, health s = record (probeResult s p) now) /\
      (prober s <> Setting p -> TargetReachable s = Some (is_ok (probeResult s p)))
  end.

Record hinv (c : Config) (s : Prober) : Prop := mkHinv {
  hinv_config : config s = c;
  hinv_done : proberDone s = negb (is_NotStarted (prober s));
  hinv_starts : starts s = Nat.b2n (proberDone s);
  hinv_stopped : proberStopped s = negb (is_NotCalled (stopper s));
  hinv_cancel : cancelled s = past_cancel (stopper s);
  hinv_wait : waits_right s;
  hinv_setting : forall p, prober s = Setting p -> last s = Some p;
  hinv_reports : reports s;
}.

Lemma hinv_init c : hinv c (initProber c).
Proof. by split. Qed.

Lemma hinv_step c s l s' : hinv c s -> hstep s l = Some s' -> hinv c s'.
Proof.
  intros [H1 H2 H3 H4 H5 H6 H7 H8] Hs.
  destruct s as [cf ps pd pr st ca he ga sn la]. unfold waits_right, reports, probeResult in *. simpl in *.
  destruct l; unfold hstep, startTargetProber_step, prober_step, stopTargetProber_step in Hs;
    simpl in Hs; branches Hs; injection Hs as <-; simpl in *.
  all: split; unfold waits_right, reports, probeResult; simpl; try done.
  all: repeat match goal with H : _ || _ = false |- _ => apply orb_false_iff in H as [? ?] end; subst.
  all: solve [ naive_solver
    | match goal with st : stop_pc |- _ => destruct st; naive_solver end
    | match goal with la : option Probe |- _ => destruct la; naive_solver end
    | match goal with pr : prober_pc |- _ => destruct pr; naive_solver end
    | match goal with pr : prober_pc, la : option Probe |- _ => destruct la, pr; naive_solver end ].
Qed.

Lemma hinv_reachable c s : hreachable c s -> hinv c s.
Proof.
  intros Hr. refine (rtc_invariant _ (hinv c) _ _ _ Hr (hinv_init c)).
  intros t t' Ht [l Hs]. by eapply hinv_step.
Qed.

(** * Lemmas *)

Lemma stake_app_ge n (a b : string) :
  (String.length a <= n)%nat -> stake n (a +:+ b) = a +:+ stake (n - String.length a) b.
Proof.
  revert n. induction a as [|c a IH]; intros n Hn; [by rewrite !sapp_nil_l, Nat.sub_0_r|].
  destruct n as [|n]; simpl in Hn; [lia|]. rewrite !sapp_cons, stake_cons, IH by lia. done.
Qed.

Lemma HasPrefix_stake n s pre : HasPrefix (stake n s) pre = true -> HasPrefix s pre = true.
Proof.
  rewrite !HasPrefix_spec. intros [t E]. exists (t +:+ sdrop n s).
  by rewrite <-sapp_assoc, <-E, stake_sdrop.
Qed.

(** Within the limit the greeting is judged by its own first bytes. *)
Lemma ReadString_prefix limit stream pre :
  contains_byte newline pre = false -> (String.length pre <= limit)%nat ->
  HasPrefix (fst (ReadString limit stream)) pre = HasPrefix stream pre.
Proof.
  intros Hn Hl. apply eq_true_iff_eq. unfold ReadString. split.
  - destruct (index_byte newline _); cbn [fst]; [|apply HasPrefix_stake].
    intros H%HasPrefix_stake. by apply HasPrefix_stake in H.
  - intros [t ->]%HasPrefix_spec. rewrite stake_app_ge by done.
    set (rest := stake _ t). destruct (index_byte newline (pre +:+ rest)) as [i|] eqn:Hi.
    + rewrite index_byte_app_r in Hi by done. destruct (index_byte newline rest) as [j|]; [|done].
      injection Hi as <-. cbn [fst]. rewrite stake_app_ge by lia. apply HasPrefix_app.
    + apply HasPrefix_app.
Qed.

Lemma ReadString_length limit stream :
  (String.length (fst (ReadString limit stream)) <= limit)%nat.
Proof.
  unfold ReadString. destruct (index_byte newline _); cbn [fst]; rewrite !length_stake; lia.
Qed.

Lemma HasPrefix_length s pre : HasPrefix s pre = true -> (String.length pre <= String.length s)%nat.
Proof. intros [t ->]%HasPrefix_spec. rewrite sapp_length. lia. Qed.

Lemma probeTarget_ok p pre :
  probeTarget p pre = Ok tt <->
  dials p = true /\ (pre = ""%string \/
    sets_deadline p = true /\ HasPrefix (fst (ReadString targetBannerReadLimit (greeting p))) pre = true).
Proof.
  unfold probeTarget. rewrite guard_err_ok, negb_false_iff.
  destruct (String.eqb_spec pre "") as [->|Hne]; [naive_solver|].
  rewrite guard_err_ok, negb_false_iff. destruct (ReadString targetBannerReadLimit (greeting p)) as [banner err].
  rewrite !guard_err_ok, negb_false_iff. simpl. split; [naive_solver|].
  intros (Hd & [?|[Hs Hp]]); [done|]. split_and!; try done.
  destruct (String.eqb_spec banner "") as [->|]; [|by rewrite andb_false_r].
  apply HasPrefix_length in Hp. destruct pre; [done|simpl in Hp; lia].
Qed.

(** After the stop nothing moves. *)
Lemma stopped_step c s l s' :
  hinv c s -> stopper s = Stopped -> hstep s l = Some s' ->
  stopper s' = Stopped /\ health s' = health s /\ TargetReachable s' = TargetReachable s.
Proof.
  intros [H1 H2 H3 H4 H5 H6 H7 H8] Hst Hs.
  destruct s as [cf ps pd pr st ca he ga sn la]. unfold waits_right in *. simpl in *. subst.
  destruct l; unfold hstep, startTargetProber_step, prober_step, stopTargetProber_step in Hs;
    simpl in Hs; branches Hs; injection Hs as <-; try done; by specialize (H6 eq_refl).
Qed.

(** A stop that was called does not hang: with nothing left to do it has returned.
    [ProbeDone] is enabled for every probe as soon as it is for one. *)
Lemma stop_returns c s :
  hinv c s -> stopper s <> NotCalled -> (forall l, system_label l = true -> hstep s l = None) ->
  stopper s = Stopped.
Proof.
  intros [H1 H2 H3 H4 H5 H6 H7 H8] Hn Hstuck. unfold waits_right in H6.
  pose proof (Hstuck Cancel eq_refl) as Q1. pose proof (Hstuck Join eq_refl) as Q2.
  pose proof (Hstuck Spawn eq_refl) as Q3.
  pose proof (Hstuck (ProbeDone (mkProbe false false "")) eq_refl) as Q4.
  pose proof (Hstuck (CheckCtx false) eq_refl) as Q5. pose proof (Hstuck (RecordAt 0) eq_refl) as Q6.
  pose proof (Hstuck SetGauge eq_refl) as Q7. pose proof (Hstuck SelectDone eq_refl) as Q8.
  unfold hstep, startTargetProber_step, prober_step, stopTargetProber_step in *.
  destruct (stopper s) as [|w|w|]; try done. rewrite H5 in Q8. simpl in Q8. subst w.
  rewrite H2 in Q2. by destruct (prober s).
Qed.

(** After it the goroutine is not running. *)
Lemma stopped_prober c s :
  hinv c s -> stopper s = Stopped -> prober s = NotStarted \/ prober s = Returned.
Proof.
  intros [_ H2 _ _ _ H6 _ _] Hst. unfold waits_right in H6. rewrite Hst in H6.
  destruct (prober s); simpl in *; auto; by specialize (H6 H2).
Qed.

(** * Properties *)

(** A probe succeeds exactly when the target is reachable and greets as expected:
    with an empty prefix when the dial succeeds, and with a prefix of at most 255
    bytes on one line when the bytes the target sends start with it; a longer
    prefix can never be seen. *)
Theorem probeTarget_exact p pre :
  (pre = ""%string -> probeTarget p pre = Ok tt <-> dials p = true) /\
  (pre <> ""%string -> contains_byte newline pre = false ->
   (String.length pre <= targetBannerReadLimit)%nat ->
   probeTarget p pre = Ok tt <->
   dials p = true /\ sets_deadline p = true /\ HasPrefix (greeting p) pre = true) /\
  ((targetBannerReadLimit < String.length pre)%nat -> probeTarget p pre <> Ok tt).
Proof.
  split_and!.
  - intros ->. rewrite probeTarget_ok. naive_solver.
  - intros Hne Hn Hl. rewrite probeTarget_ok, ReadString_prefix by done. naive_solver.
  - intros Hl [_ [->|[_ Hp]]]%probeTarget_ok; [simpl in Hl; lia|].
    apply HasPrefix_length in Hp. pose proof (ReadString_length targetBannerReadLimit (greeting p)). lia.
Qed.

Lemma probeTarget_exact_witness :
  probeTarget (mkProbe true true "SSH-2.0-Go") "SSH-2.0-" = Ok tt <->
  true = true /\ true = true /\ HasPrefix "SSH-2.0-Go" "SSH-2.0-" = true.
Proof.
  destruct (probeTarget_exact (mkProbe true true "SSH-2.0-Go") "SSH-2.0-") as (_ & H & _).
  apply H; [discriminate|reflexivity|unfold targetBannerReadLimit; simpl; lia].
Defined.

(** C21. The health endpoint tells what the last recorded probe found: unknown before
    the first one, 200 exactly when it succeeded, and 503 with its error
    otherwise; the metric agrees as soon as that probe is through. *)
Theorem target_health_reported c s :
  hreachable c s ->
  let reply := handleTargetHealth c (health s) in
  match last s with
  | None => code reply = 503 /\ status reply = StatusUnknown /\ TargetReachable s = None
  | Some p =>
      (code reply = 200 <-> probeTarget p (TargetHealthBannerPrefix c) = Ok tt) /\
      (forall e, probeTarget p (TargetHealthBannerPrefix c) = Err e ->
         code reply = 503 /\ status reply = StatusUnreachable /\ error reply = Some e) /\
      (prober s <> Setting p ->
         TargetReachable s = Some (is_ok (probeTarget p (TargetHealthBannerPrefix c))))
  end.
Proof.
  intros Hr. destruct (hinv_reachable _ _ Hr) as [H1 _ _ _ _ _ _ H8].
  unfold reports, probeResult in *. rewrite H1 in *. simpl.
  destruct (last s) as [p|]; [|by destruct H8 as [-> ->]]. destruct H8 as [[now ->] Hg].
  split_and!; [| |done]; destruct (probeTarget p _) as [[]|e]; simpl; naive_solver.
Qed.

Definition exampleConfig : Config := readConfig ∅.
Definition exampleProbe : Probe := mkProbe true true "SSH-2.0-OpenSSH_9.6".

Definition exampleHealth : Prober :=
  mkProber exampleConfig true true Returned Stopped true (record (Ok tt) 1000) (Some true) 1
    (Some exampleProbe).

Lemma exampleHealth_reachable : hreachable exampleConfig exampleHealth.
Proof.
  apply (run_reachable hstep [StartCall; Spawn; ProbeDone exampleProbe; CheckCtx false; RecordAt 1000;
    SetGauge; StopCall; Cancel; SelectDone; Join]). vm_compute. reflexivity.
Qed.

Lemma target_health_reported_witness :
  code (handleTargetHealth exampleConfig (health exampleHealth)) = 200 <->
  probeTarget exampleProbe (TargetHealthBannerPrefix exampleConfig) = Ok tt.
Proof. apply (target_health_reported _ _ exampleHealth_reachable). Defined.

(** C15. One prober, and none after the stop: however often it is started and stopped,
    at most one goroutine is started; the stop, which is the first call of
    [stopTargetProber], never hangs (with nothing left to do it has returned), and
    once it has returned the prober is not running and neither the health nor the metric ever changes again. *)
Theorem prober_stop c s :
  hreachable c s ->
  (starts s <= 1)%nat /\
  (stopper s <> NotCalled -> (forall l, system_label l = true -> hstep s l = None) ->
   stopper s = Stopped) /\
  (stopper s = Stopped ->
   (prober s = NotStarted \/ prober s = Returned) /\
   forall s', rtc (lts_step hstep) s s' ->
     health s' = health s /\ TargetReachable s' = TargetReachable s).
Proof.
  intros Hr. pose proof (hinv_reachable _ _ Hr) as Hi. pose proof Hi as [H1 H2 H3 H4 H5 H6 H7 H8].
  split_and!.
  - rewrite H3. destruct (proberDone s); simpl; lia.
  - by eapply stop_returns.
  - intros Hst. split.
    + by eapply stopped_prober.
    + intros s' Hs'. destruct (rtc_invariant (lts_step hstep) (fun t => hinv c t /\
        stopper t = Stopped /\ health t = health s /\ TargetReachable t = TargetReachable s))
        with s s' as (_ & _ & ? & ?); try done.
      intros t t' (Ht & E & <- & <-) [l Hl]. split; [by eapply hinv_step|].
      by apply (stopped_step c t l t').
Qed.

Lemma prober_stop_witness :
  (starts exampleHealth <= 1)%nat /\
  (prober exampleHealth = NotStarted \/ prober exampleHealth = Returned).
Proof.
  destruct (prober_stop _ _ exampleHealth_reachable) as (H1 & _ & H3).
  split; [exact H1|]. apply H3. reflexivity.
Defined.
