(* ===== verification/SshServer.v ===== *)
(** The SSH server before it runs: [New] of [internal/sshserver/server.go], and the
    flags of [main] and [isFlagSet] of [cmd/remote-access-server/main.go].  The
    configuration is the one of [SshConfig], the host key the one of [HostKey]; the
    process itself is in [SshMain]. *)

From S2P Require Import Prelude GoStrings GoNet GoPath GoOs SshConfig HostKey.

Open Scope Z_scope.
Open Scope string_scope.

(** * Flags *)

(** The parsed flags; [visited] are the names given on the command line. *)
Record Flags := mkFlags {
  fPort : Z; fHostKey : string; fLoginShell : bool; visited : list string;
}.

Definition isFlagSet (f : Flags) (name : string) : bool :=
  fold_left (fun found n => if (n =? name)%string then true else found) (visited f) false.

(** The overrides of [main], in its order. *)
Definition applyFlags (f : Flags) (c : Config) : Config :=
  let c := if negb (fPort f =? 0)%Z
           then mkConfig ("127.0.0.1:" +:+ Itoa (fPort f)) (HostKeyPath c) (IdleTimeout c)
                  (MaxSessions c) (LoginShell c) (AllowNonLoopback c)
           else c in
  let c := if negb (fHostKey f =? "")%string
           then mkConfig (ListenAddr c) (fHostKey f) (IdleTimeout c)
                  (MaxSessions c) (LoginShell c) (AllowNonLoopback c)
           else c in
  if isFlagSet f "login-shell"
  then mkConfig (ListenAddr c) (HostKeyPath c) (IdleTimeout c)
         (MaxSessions c) (fLoginShell f) (AllowNonLoopback c)
  else c.

(** * [New] *)

(** [ssh.Server], with the names of the handlers it is given. *)
Record Server (signer : Type) := mkServer {
  Addr : string;
  HostSigner : signer;
  sIdleTimeout : Z;
  ChannelHandlers : list string;
  RequestHandlers : list string;
  SubsystemHandlers : list string;
  warnsEphemeral : bool;
}.
Arguments mkServer {signer}.
Arguments Addr {signer}.
Arguments HostSigner {signer}.

Inductive new_error := ErrConfig (e : validate_error) | ErrHostKey (e : hostkey_error).

Section new.
Context {signer priv : Type} (parse : string -> option signer).
Context (gen : option priv) (marshal : priv -> option string) (encode : string -> string).

Definition New (sys : System) (fails : syscall -> bool) (written : nat) (random : Z)
    (c : Config) (w : World) : World * result new_error (Server signer) :=
  match validate c with
  | Err e => (w, Err (ErrConfig e))
  | Ok _ =>
      match loadOrCreateHostKey parse gen marshal encode fails written random (HostKeyPath c) w with
      | (w', Err e) => (w', Err (ErrHostKey e))
      | (w', Ok (key, _)) =>
          (w', Ok (mkServer (ListenAddr c) key (IdleTimeout c) ["session"; "direct-tcpip"]
                     ["tcpip-forward"; "cancel-tcpip-forward"] ["sftp"]
                     (hasEphemeralHostKeyPath sys c)))
      end
  end.
End new.

(** * Results of the SSH library *)

(** What [ssh.Server.Shutdown] returns. *)
Inductive drain_result := Drained | DeadlineExceeded | Canceled | DrainFailed.

(** What its [ListenAndServe] returns. *)
Inductive serve_result := ServeNil | ServerClosed | ServeFailed.

(** * Lemmas *)

Lemma isFlagSet_spec f name : isFlagSet f name = true <-> name ∈ visited f.
Proof.
  unfold isFlagSet. cut (forall b, fold_left (fun found n => if (n =? name)%string then true else found)
    (visited f) b = true <-> b = true \/ name ∈ visited f).
  { intros H. rewrite H. naive_solver. }
  induction (visited f) as [|n l IH]; intros b; simpl; [set_solver|]. rewrite IH.
  destruct (String.eqb_spec n name) as [->|Hne]; set_solver.
Qed.

Lemma applyFlags_port f c :
  fPort f <> 0%Z -> ListenAddr (applyFlags f c) = "127.0.0.1:" +:+ Itoa (fPort f).
Proof.
  intros Hne%Z.eqb_neq. unfold applyFlags. rewrite Hne.
  by destruct (fHostKey f =? "")%string, (isFlagSet f _).
Qed.

Lemma loopback_port p : SplitHostPort ("127.0.0.1:" +:+ Itoa p) = Ok ("127.0.0.1", Itoa p).
Proof. exact (SplitHostPort_dotted 127 0 0 1 p). Qed.

(** * Properties *)

(** The flags win, and the port flag stays inside the pod: whatever the
    environment says of the listen address, with [--port] the server binds
    127.0.0.1 and that port, and a port that is not one is refused; [--host-key]
    and [--login-shell] override exactly when given, [--login-shell=false]
    included, and nothing else changes. *)
Theorem flags_override sys f :
  min_int64 <= fPort f <= max_int64 ->
  let c := LoadConfig sys in
  let c' := applyFlags f c in
  (fPort f <> 0 ->
     SplitHostPort (ListenAddr c') = Ok (loopbackIPv4, Itoa (fPort f)) /\
     isLoopback loopbackIPv4 = true /\
     (~ (1 <= fPort f <= 65535) -> validate c' = Err (ErrPort (Itoa (fPort f))))) /\
  (fPort f = 0 -> ListenAddr c' = ListenAddr c) /\
  HostKeyPath c' = (if (fHostKey f =? "")%string then HostKeyPath c else fHostKey f) /\
  LoginShell c' = (if bool_decide ("login-shell" ∈ visited f) then fLoginShell f else LoginShell c) /\
  AllowNonLoopback c' = AllowNonLoopback c /\ MaxSessions c' = MaxSessions c /\
  IdleTimeout c' = IdleTimeout c.
Proof.
  intros Hp c c'. subst c'. split_and!.
  - intros Hne. rewrite applyFlags_port by done. split_and!.
    + apply loopback_port.
    + reflexivity.
    + intros Hr. unfold validate. rewrite applyFlags_port, loopback_port by done.
      unfold bad_port. rewrite Atoi_Itoa by done.
      assert (((fPort f <? 1) || (65535 <? fPort f))%Z = true) as -> by lia. done.
  - intros E. unfold applyFlags. rewrite E. by destruct (fHostKey f =? "")%string, (isFlagSet f _).
  - unfold applyFlags. by destruct (fPort f =? 0)%Z, (fHostKey f =? "")%string, (isFlagSet f _).
  - pose proof (isFlagSet_spec f "login-shell") as Hs. unfold applyFlags.
    destruct (isFlagSet f "login-shell"), (fPort f =? 0)%Z, (fHostKey f =? "")%string; simpl;
      case_bool_decide; naive_solver.
  - unfold applyFlags. by destruct (fPort f =? 0)%Z, (fHostKey f =? "")%string, (isFlagSet f _).
  - unfold applyFlags. by destruct (fPort f =? 0)%Z, (fHostKey f =? "")%string, (isFlagSet f _).
  - unfold applyFlags. by destruct (fPort f =? 0)%Z, (fHostKey f =? "")%string, (isFlagSet f _).
Qed.

Lemma flags_override_witness :
  SplitHostPort (ListenAddr (applyFlags (mkFlags 2200 "" false ["port"])
    (LoadConfig (mkSystem {["SSH_LISTEN_ADDR" := "0.0.0.0:22"]} None (fun _ => None))))) =
  Ok (loopbackIPv4, "2200").
Proof.
  refine (proj1 (proj1 (flags_override _ (mkFlags 2200 "" false ["port"]) _) _)).
  - unfold min_int64, max_int64. simpl. lia.
  - discriminate.
Defined.

(** C22. A server that starts is safe to start: an invalid configuration is refused
    before any file is touched; a server that was built listens on the validated
    address, on loopback unless the override is set, forwards nothing but the
    handled requests, and its host key is the one every later start with a
    readable key file presents. *)
Theorem New_safe {signer priv} (parse : string -> option signer) (gen : option priv) marshal encode
    sys fails written random c w w' r :
  New parse gen marshal encode sys fails written random c w = (w', r) ->
  (forall e, validate c = Err e -> w' = w /\ r = Err (ErrConfig e)) /\
  (forall srv, r = Ok srv ->
     validate c = Ok tt /\ Addr srv = ListenAddr c /\
     (AllowNonLoopback c = false -> exists host port,
        SplitHostPort (Addr srv) = Ok (host, port) /\ isLoopback host = true) /\
     forall sys' gen' fails' written' random', fails' ReadFile = false ->
       exists srv', New (priv := priv) parse gen' marshal encode sys' fails' written' random' c w' =
                    (w', Ok srv') /\ HostSigner srv' = HostSigner srv).
Proof.
  unfold New. intros H. split.
  - intros e He. rewrite He in H. by injection H as <- <-.
  - intros srv ->. destruct (validate c) as [[]|e] eqn:Hv; [|done].
    destruct (loadOrCreateHostKey _ _ _ _ _ _ _ _ _) as [w1 [[key g]|e]] eqn:Hl; [|done].
    injection H as -> <-. split_and!; [done|done| |].
    + intros Ha. apply validate_Ok_iff in Hv as (host & port & Hs & _ & _ & _ & _ & _ & [Hx|Hx]);
        [congruence|]. by exists host, port.
    + intros sys' gen' fails' written' random' Hr.
      apply loadOrCreateHostKey_again in Hl as [_ Hl]. rewrite (Hl gen' fails' written' random' Hr).
      eexists. split; reflexivity.
Qed.

Definition exampleStart (c : Config) (w : World) : World * result new_error (Server string) :=
  New exampleParse (Some tt) (fun _ => Some "key") (fun der => "PEM " +:+ der)
    (mkSystem ∅ None (fun _ => None)) noFaults 0 7 c w.

Definition publicConfig : Config := mkConfig "0.0.0.0:2222" "/keys/host_key" 0 10 false false.

Lemma New_safe_witness :
  fst (exampleStart publicConfig exampleWorld) = exampleWorld /\
  snd (exampleStart publicConfig exampleWorld) = Err (ErrConfig (ErrNonLoopback "0.0.0.0:2222")).
Proof.
  apply (New_safe exampleParse (Some tt) (fun _ => Some "key") (fun der => "PEM " +:+ der)
    (mkSystem ∅ None (fun _ => None)) noFaults 0 7 publicConfig exampleWorld
    (fst (exampleStart publicConfig exampleWorld)) (snd (exampleStart publicConfig exampleWorld))
    (surjective_pairing _)).
  vm_compute. reflexivity.
Defined.
