(* ===== verification/SshMain.v ===== *)
(** The life of the SSH server process: [main] of [cmd/remote-access-server/main.go]
    with [ListenAndServe] and [Shutdown] of [internal/sshserver/server.go].

    Two goroutines run concurrently: [main], which waits for a signal or for the end
    of the server, and the one that runs [ListenAndServe].  The SSH library is a
    parameter: which results its [ListenAndServe], [Shutdown] and [Close] may give,
    with what its documentation says of them as hypotheses. *)

From S2P Require Import Prelude GoOs SshConfig HostKey SshServer.

Open Scope Z_scope.

(** * State *)

(** The goroutine of [ListenAndServe]: in the library, sending its result to
    [errCh], closing [errCh], done. *)
Inductive serve_pc := SvServing | SvSend (r : serve_result) | SvClose | SvDone.

(** [main]: its [select], in the library's [Shutdown], in its [Close] (with the
    error of the drain), and the end of the process. *)
Inductive main_pc := MnSelect | MnDrain | MnClose | MnExit (code : Z).

Record Proc := mkProc {
  serve : serve_pc; mainp : main_pc;
  shuttingDown : bool;               (* Shutdown of the library was called *)
  conns : nat;                       (* open connections *)
  errCh : option serve_result;       (* the channel has room for one *)
  errClosed : bool;
  signalled : bool;
  closes : nat;                      (* calls of the library's Close *)
}.

Inductive mlabel :=
| Sig
| ConnOpen | ConnEnd
| ServeReturns (r : serve_result)    (* the library's ListenAndServe *)
| ServeStep
| MainSignal | MainErr
| DrainReturns (d : drain_result)    (* the library's Shutdown *)
| CloseReturns (ok : bool).          (* the library's Close *)

(** The start of [main], up to the [select]. *)
Definition main_init {signer} (created : result new_error (Server signer)) : Proc :=
  match created with
  | Err _ => mkProc SvDone (MnExit 1) false 0 None true false 0
  | Ok _ => mkProc SvServing MnSelect false 0 None false false 0
  end.

Definition set_serve (s : Proc) (v : serve_pc) (e : option serve_result) (c : bool) : Proc :=
  mkProc v (mainp s) (shuttingDown s) (conns s) e c (signalled s) (closes s).
Definition set_mainp (s : Proc) (m : main_pc) : Proc :=
  mkProc (serve s) m (shuttingDown s) (conns s) (errCh s) (errClosed s) (signalled s) (closes s).
Definition set_conns (s : Proc) (n : nat) : Proc :=
  mkProc (serve s) (mainp s) (shuttingDown s) n (errCh s) (errClosed s) (signalled s) (closes s).

Definition exited (m : main_pc) : bool := match m with MnExit _ => true | _ => false end.
Definition status (ok : bool) : Z := if ok then 0 else 1.

Section process.
(** The results the library may give: of [ListenAndServe], given whether it is being
    shut down; of [Shutdown], given the connections that are open; of [Close]. *)
Context (serve_returns : bool -> serve_result -> bool).
Context (drain_returns : nat -> drain_result -> bool).
Context (close_returns : bool -> bool).

(** * Steps *)

(** [ListenAndServe] and its goroutine. *)
Definition ListenAndServe_step (s : Proc) (l : mlabel) : option Proc :=
  match l, serve s with
  | ServeReturns r, SvServing =>
      if serve_returns (shuttingDown s) r then Some (set_serve s (SvSend r) (errCh s) (errClosed s))
      else None
  | ServeStep, SvSend r =>
      match errCh s with
      | None => Some (set_serve s SvClose (Some r) (errClosed s))
      | Some _ => None
      end
  | ServeStep, SvClose => Some (set_serve s SvDone (errCh s) true)
  | _, _ => None
  end.

(** [Shutdown]: the library drains; when the drain was cut short by its context,
    what is left is closed. *)
Definition Shutdown_step (s : Proc) (l : mlabel) : option Proc :=
  match l, mainp s with
  | DrainReturns d, MnDrain =>
      if drain_returns (conns s) d then
        match d with
        | DeadlineExceeded | Canceled =>
            Some (mkProc (serve s) MnClose (shuttingDown s) (conns s) (errCh s) (errClosed s)
                    (signalled s) (S (closes s)))
        | Drained => Some (set_mainp s (MnExit (status true)))
        | DrainFailed => Some (set_mainp s (MnExit (status false)))
        end
      else None
  | CloseReturns ok, MnClose =>
      if close_returns ok then Some (set_mainp (set_conns s 0) (MnExit (status ok))) else None
  | _, _ => None
  end.

(** The [select] of [main]; receiving from a closed and empty channel gives nil. *)
Definition main_step (s : Proc) (l : mlabel) : option Proc :=
  match l, mainp s with
  | MainSignal, MnSelect =>
      if signalled s
      then Some (mkProc (serve s) MnDrain true (conns s) (errCh s) (errClosed s) (signalled s) (closes s))
      else None
  | MainErr, MnSelect =>
      match errCh s with
      | Some r =>
          Some (set_mainp (set_serve s (serve s) None (errClosed s))
                  (MnExit (match r with ServeFailed => 1 | ServeNil | ServerClosed => 0 end)))
      | None => if errClosed s then Some (set_mainp s (MnExit 0)) else None
      end
  | _, _ => Shutdown_step s l
  end.

(** The process: nothing happens after its end. *)
Definition mstep (s : Proc) (l : mlabel) : option Proc :=
  if exited (mainp s) then None
  else match l with
  | Sig =>
      Some (mkProc (serve s) (mainp s) (shuttingDown s) (conns s) (errCh s) (errClosed s) true (closes s))
  | ConnOpen =>
      match serve s with
      | SvServing => if shuttingDown s then None else Some (set_conns s (S (conns s)))
      | _ => None
      end
  | ConnEnd => match conns s with S n => Some (set_conns s n) | O => None end
  | ServeReturns _ | ServeStep => ListenAndServe_step s l
  | MainSignal | MainErr | DrainReturns _ | CloseReturns _ => main_step s l
  end.

(** What the process does without its clients; the drain ends at its deadline at
    the latest, and [Close] and, once shut down, [ListenAndServe] return. *)
Definition system_label (l : mlabel) : bool :=
  match l with
  | Sig | ConnOpen | ConnEnd | ServeReturns _ => false
  | ServeStep | MainSignal | MainErr | DrainReturns _ | CloseReturns _ => true
  end.

Definition mreachable {signer} (created : result new_error (Server signer)) (s : Proc) : Prop :=
  rtc (lts_step mstep) (main_init created) s.

(** * Invariant *)

Definition is_select (m : main_pc) : bool := match m with MnSelect => true | _ => false end.

Record minv (s : Proc) : Prop := mkMinv {
  minv_shut : exited (mainp s) = false -> shuttingDown s = negb (is_select (mainp s));
  minv_signal : exited (mainp s) = false -> is_select (mainp s) = false -> signalled s = true;
  minv_closes : exited (mainp s) = false ->
    closes s = match mainp s with MnClose => 1%nat | _ => 0%nat end;
  (* before a shutdown the server ends with a failure only *)
  minv_end : is_select (mainp s) = true ->
    match serve s with
    | SvServing => errCh s = None /\ errClosed s = false
    | SvSend r => r = ServeFailed /\ errCh s = None /\ errClosed s = false
    | SvClose => errCh s = Some ServeFailed /\ errClosed s = false
    | SvDone => errCh s = Some ServeFailed
    end;
  minv_send : match serve s with
    | SvServing | SvSend _ => exited (mainp s) = false -> errCh s = None
    | _ => True
    end;
  minv_exit : forall code, mainp s = MnExit code ->
    (code = 0 \/ code = 1) /\
    (code = 0 -> signalled s = true /\ shuttingDown s = true /\ conns s = 0%nat) /\
    (closes s <= 1)%nat;
}.

(** Its documentation: [ListenAndServe] always returns an error, [ErrServerClosed]
    only after a shutdown; [Shutdown] returns nil only when no connection is left. *)
Hypothesis serve_not_nil : forall b, serve_returns b ServeNil = false.
Hypothesis serve_closed : serve_returns false ServerClosed = false.
Hypothesis drain_empty : forall n, drain_returns n Drained = true -> n = 0%nat.

Lemma process_inv_step s l s' : minv s -> mstep s l = Some s' -> minv s'.
Proof using serve_not_nil serve_closed drain_empty.
  intros [H1 H2 H3 H4 H5 H6]. unfold mstep. destruct (exited (mainp s)) eqn:Hx; [done|].
  specialize (H1 eq_refl). specialize (H2 eq_refl). specialize (H3 eq_refl).
  assert (serve_returns (shuttingDown s) ServeNil = false) as Hn by apply serve_not_nil.
  destruct s as [sv mp sd cn ec ecl sg cl]. simpl in *. intros Hs.
  destruct l as [| | |r| | | |d|ok];
    unfold ListenAndServe_step, main_step, Shutdown_step in Hs; simpl in Hs;
    branches Hs; injection Hs as <-; split; simpl in *; try done; subst; simpl in *; try done.
  all: try (by intuition congruence).
  all: try (intros code [= <-]; simpl; split_and!; try (by auto); try (by intuition congruence); try lia).
  all: try (by intros code ->).
  all: try (by destruct sv; intuition congruence).
  - intros E. rewrite E in *. simpl in *. destruct r; intuition congruence.
  - destruct ok; auto.
Qed.

Lemma process_inv_reachable {signer} (created : result new_error (Server signer)) s :
  is_ok created = true -> mreachable created s -> minv s.
Proof using serve_not_nil serve_closed drain_empty.
  intros Hc Hr. refine (rtc_invariant _ minv _ _ _ Hr _).
  - intros t t' Ht [l Hs]. by eapply process_inv_step.
  - destruct created; [|done]. by split.
Qed.

(** The calls of the library that end the process return: the drain at its deadline,
    and [Close]. *)
Hypothesis drain_deadline : forall n, drain_returns n DeadlineExceeded = true.
Hypothesis close_ends : exists ok, close_returns ok = true.

Lemma stuck_waits s :
  minv s -> exited (mainp s) = false -> (forall l, system_label l = true -> mstep s l = None) ->
  mainp s = MnSelect /\ signalled s = false /\ serve s = SvServing.
Proof using drain_deadline close_ends.
  intros [H1 H2 _ H4 _ _] Hx Hs. destruct close_ends as [ok Hok].
  pose proof (Hs MainSignal eq_refl) as Q1. pose proof (Hs MainErr eq_refl) as Q2.
  pose proof (Hs ServeStep eq_refl) as Q3. pose proof (Hs (DrainReturns DeadlineExceeded) eq_refl) as Q4.
  pose proof (Hs (CloseReturns ok) eq_refl) as Q5.
  unfold mstep in *. rewrite Hx in *. unfold main_step, Shutdown_step, ListenAndServe_step in *.
  destruct (mainp s); simpl in *; try done.
  - specialize (H4 eq_refl). destruct (signalled s); [done|].
    destruct (serve s); [done|..]; intuition; simplify_eq/=; repeat case_match; congruence.
  - by rewrite drain_deadline in Q4.
  - by rewrite Hok in Q5.
Qed.

(** * Properties *)

(** C29. The SSH server's process ends, and its status tells how: it exits with status 0
    only on a signal, with no connection left, all of them drained or severed by the
    one [Close] that follows a drain cut short by its deadline; a server that fails
    by itself gives status 1; and with nothing left to do the process has exited or
    it serves and no signal has come, so a session that never ends cannot hold it.
    A server that could not be created ends it with status 1 at once. *)
Theorem ssh_process_exit {signer} (created : result new_error (Server signer)) s :
  mreachable created s ->
  if is_ok created then
    (forall code, mainp s = MnExit code ->
       (code = 0 \/ code = 1) /\
       (code = 0 -> signalled s = true /\ shuttingDown s = true /\ conns s = 0%nat) /\
       (closes s <= 1)%nat) /\
    (mainp s = MnDrain -> closes s = 0%nat) /\
    ((forall l, system_label l = true -> mstep s l = None) ->
     exited (mainp s) = true \/ (mainp s = MnSelect /\ signalled s = false /\ serve s = SvServing))
  else mainp s = MnExit 1 /\ closes s = 0%nat.
Proof using All.
  intros Hr. destruct (is_ok created) eqn:Hc.
  - pose proof (process_inv_reachable _ _ Hc Hr) as Hi. split_and!.
    + apply Hi.
    + intros E. rewrite (minv_closes _ Hi); by rewrite E.
    + intros Hs. destruct (exited (mainp s)) eqn:Hx; [by left|right]. by apply stuck_waits.
  - destruct created as [|e]; [done|].
    assert (s = main_init (Err e : result new_error (Server signer))) as ->; [|done].
    refine (rtc_invariant _ (fun t => t = main_init (Err e)) _ _ _ Hr eq_refl).
    by intros t t' -> [l Hs].
Qed.
End process.

(** A library that keeps its documentation. *)
Definition exampleServe (shutting : bool) (r : serve_result) : bool :=
  match r with ServeNil => false | ServerClosed => shutting | ServeFailed => true end.
Definition exampleDrain (n : nat) (d : drain_result) : bool :=
  match d with Drained => Nat.eqb n 0 | _ => true end.

Definition exampleCreated : result new_error (Server unit) :=
  Ok (mkServer "127.0.0.1:2222" tt 0 [] [] [] false).

(** A session that outlives the drain: its connection is severed. *)
Definition exampleSevered : Proc := mkProc SvServing (MnExit 0) true 0 None false true 1.

Lemma ssh_process_exit_witness :
  signalled exampleSevered = true /\ shuttingDown exampleSevered = true /\ conns exampleSevered = 0%nat.
Proof.
  pose proof (ssh_process_exit exampleServe exampleDrain (fun _ => true)) as H.
  destruct (H ltac:(by intros []) eq_refl) with (signer := unit) (created := exampleCreated)
    (s := exampleSevered) as [H1 _].
  - intros n E. by apply Nat.eqb_eq.
  - done.
  - by exists true.
  - apply (run_reachable (mstep exampleServe exampleDrain (fun _ => true))
      [ConnOpen; Sig; MainSignal; DrainReturns DeadlineExceeded; CloseReturns true]). reflexivity.
  - apply (H1 0); reflexivity.
Defined.
