(* ===== verification/SshWhole.v ===== *)
(** The SSH server as one system: the process of [SshMain] together with the sessions
    of [SshSystem] and the reverse forwards of [Forward].  [SshMain] only counts
    connections; here every session and every forward came on one of them, and learns
    that its client is gone when that connection has ended or was severed by [Close].
    The library's [Shutdown] waits for connections, not for the handlers of their
    sessions. *)

From S2P Require Import Prelude GoOs SshSlots SlotPool Shell SshConfig HostKey.
From S2P Require Import Forward.
From S2P Require Import SshProcess SshSystem SshServer SshMain.

Open Scope Z_scope.

(** * State *)

(** The connection each session came on, which connections are open, and the handler
    of the forwards. *)
Record Whole := mkWhole {
  w_proc : SshMain.Proc; w_sys : SshSystem; w_conn : list nat; w_open : list bool; w_fwd : FState;
}.

Inductive wlabel :=
| WProc (l : mlabel)                                  (* a step of the process itself *)
| WConnOpen | WConnEnd (i : nat)                      (* connections *)
| WSession (i : nat) (r : session_request)            (* a session on a connection *)
| WSys (l : sys_label session_request handler_label)  (* a session moves *)
| WFwd (l : flabel).                                  (* a forward is asked for or moves *)

Definition is_open (w : Whole) (i : nat) : bool := default false (w_open w !! i).

(** The connection of a session has ended. *)
Definition conn_ended (w : Whole) (j : nat) : bool :=
  match w_conn w !! j with Some i => negb (is_open w i) | None => false end.

(** Whether a session may take a step: its context is done only once its connection
    has ended. *)
Definition may_step (w : Whole) (l : sys_label session_request handler_label) : bool :=
  match l with
  | SysArrive _ => false
  | SysUser j (SshSystem.Proc Disconnect) => conn_ended w j
  | _ => true
  end.

(** The same for the forwards: a request comes on a connection, and its context is
    done only once that connection has ended. *)
Definition may_forward (w : Whole) (l : flabel) : bool :=
  match l with
  | LListen conn _ _ => bool_decide (conn < length (w_open w))%nat
  | LDisconnect conn => bool_decide (conn < length (w_open w))%nat && negb (is_open w conn)
  | _ => true
  end.

Section whole.
Context (e : server_env).
Context (serve_returns : bool -> serve_result -> bool).
Context (drain_returns : nat -> drain_result -> bool).
Context (close_returns : bool -> bool).
#[local] Hint Extern 0 (SlotUser _ _ _) => exact (session_user e) : typeclass_instances.
#[local] Hint Extern 0 (SlotUserLaws _ _ _) => exact (session_user_laws e) : typeclass_instances.
Local Abbreviation mstep := (mstep serve_returns drain_returns close_returns).
Local Abbreviation sys_step := (sys_step (L := handler_label)).

Definition wstep (w : Whole) (l : wlabel) : option Whole :=
  match l with
  | WProc l =>
      match l with
      | ConnOpen | ConnEnd => None
      | _ =>
          p' ← mstep (w_proc w) l;
          Some (mkWhole p' (w_sys w) (w_conn w)
                  (match l with CloseReturns _ => (fun _ => false) <$> w_open w | _ => w_open w end) (w_fwd w))
      end
  | WConnOpen =>
      p' ← mstep (w_proc w) ConnOpen; Some (mkWhole p' (w_sys w) (w_conn w) (w_open w ++ [true])%list (w_fwd w))
  | WConnEnd i =>
      if is_open w i then
        p' ← mstep (w_proc w) ConnEnd;
        Some (mkWhole p' (w_sys w) (w_conn w) (<[i := false]> (w_open w)) (w_fwd w))
      else None
  | WSession i r =>
      if exited (mainp (w_proc w)) || negb (is_open w i) then None
      else s' ← sys_step (w_sys w) (SysArrive r);
           Some (mkWhole (w_proc w) s' (w_conn w ++ [i])%list (w_open w) (w_fwd w))
  | WSys l =>
      if exited (mainp (w_proc w)) || negb (may_step w l) then None
      else s' ← sys_step (w_sys w) l; Some (mkWhole (w_proc w) s' (w_conn w) (w_open w) (w_fwd w))
  | WFwd l =>
      if exited (mainp (w_proc w)) || negb (may_forward w l) then None
      else f' ← fstep (w_fwd w) l; Some (mkWhole (w_proc w) (w_sys w) (w_conn w) (w_open w) f')
  end.

Definition whole_init {signer} (created : result new_error (Server signer)) (max : Z) : Whole :=
  mkWhole (main_init created) (sys_init (mkSlots max 0)) [] [] initFState.

Definition whole_reachable {signer} (created : result new_error (Server signer)) (max : Z) (w : Whole) : Prop :=
  rtc (lts_step wstep) (whole_init created max) w.

(** Nothing of a process that has exited moves. *)
Lemma wstep_exited w l : exited (mainp (w_proc w)) = true -> wstep w l = None.
Proof.
  intros Hx. assert (forall l, mstep (w_proc w) l = None) as Hm by (intros l'; unfold SshMain.mstep; by rewrite Hx).
  destruct l as [l| |i|i r|l|l]; cbn [wstep]; rewrite ?Hm, ?Hx; try done.
  - destruct l; rewrite ?Hm; done.
  - by destruct (is_open w i).
Qed.

(** * Invariant *)

(** The session has seen that its client is gone. *)
Definition ctx_done (r : Request slot_pc session_request handling) : bool :=
  match req_user r with Some (Served _ p _) => ctxDone p | _ => false end.

(** The connections that have asked for a forward whose goroutines are still to run. *)
Definition fwd_conns (f : FState) : list nat :=
  ((fun o => fst (fst (fst o))) <$> opening f) ++ (fst <$> starting f) ++ (fst <$> watchers f).

Record sw_inv {signer} (created : result new_error (Server signer)) (max : Z) (w : Whole) : Prop := mkSwInv {
  sw_inv_proc : mreachable serve_returns drain_returns close_returns created (w_proc w);
  sw_inv_sys : ssh_reachable e max (w_sys w);
  sw_inv_conns : Z.of_nat (conns (w_proc w)) = count_if id (w_open w);
  sw_inv_len : length (w_conn w) = length (sys_requests (w_sys w));
  sw_inv_range : Forall (fun i => (i < length (w_open w))%nat) (w_conn w);
  sw_inv_fwd : freachable (w_fwd w);
  sw_inv_gone : forall i, i ∈ gone (w_fwd w) -> (i < length (w_open w))%nat /\ is_open w i = false;
  sw_inv_asked : forall i, i ∈ fwd_conns (w_fwd w) -> (i < length (w_open w))%nat;
  sw_inv_ctx : forall j r, sys_requests (w_sys w) !! j = Some r -> ctx_done r = true -> conn_ended w j = true;
}.

(** What a step of the process does to the number of connections. *)
Lemma mstep_conns p l p' :
  mstep p l = Some p' ->
  match l with
  | ConnOpen => conns p' = S (conns p)
  | ConnEnd => conns p = S (conns p')
  | CloseReturns _ => conns p' = 0%nat
  | _ => conns p' = conns p
  end.
Proof.
  unfold SshMain.mstep. destruct (exited (mainp p)); [done|]. intros Hs.
  destruct l; unfold ListenAndServe_step, main_step, Shutdown_step in Hs; simpl in Hs;
    branches Hs; by simplify_eq.
Qed.

(** Only the end of its client tells a session that it is gone. *)
Lemma pstep_ctxDone p l p' : pstep p l = Some p' -> l <> Disconnect -> ctxDone p' = ctxDone p.
Proof.
  intros Hs Hl. destruct l; try done;
    unfold pstep, SshProcess.main_step, runWithPty_start, runWithoutPty_start, runWithPty_step, wait_step, finish_step,
      stopWatch_step, kernel_step, terminateOnDisconnect_step, watchWindowSize_step, signalGroup_check,
      signalGroup_kill in Hs; branches Hs; by simplify_eq.
Qed.

Lemma handle_ctx u l u' :
  handleSession_step u l = Some u' -> l <> SshSystem.Proc Disconnect ->
  match u, u' with
  | Served _ p _, Served _ p' _ => ctxDone p' = ctxDone p
  | _, _ => False
  end.
Proof.
  destruct u as [|cmd p rl]; [done|]. destruct l as [l|]; simpl.
  - destruct (pstep p l) as [p'|] eqn:E; [|done]. intros [= <-] Hl. eapply pstep_ctxDone; [done|congruence].
  - destruct (_ && _); [|done]. by intros [= <-].
Qed.

(** A session that moves: only a [Disconnect] makes its context done. *)
Lemma sys_step_ctx s l s' :
  sys_step s l = Some s' ->
  match l with
  | SysArrive a => sys_requests s' = (sys_requests s ++ [mkRequest a slot_enter None])%list
  | SysSlot i | SysUser i _ =>
      exists r r', sys_requests s !! i = Some r /\ sys_requests s' = <[i := r']> (sys_requests s) /\
        (ctx_done r' = true -> ctx_done r = true \/ l = SysUser i (SshSystem.Proc Disconnect))
  end.
Proof.
  destruct l as [a|i|i l]; simpl.
  - by intros [= <-].
  - destruct (sys_requests s !! i) as [r|]; [|done]. simpl. destruct (req_user r); [done|].
    destruct (match req_slot r with Entering | BackingOut => _ | _ => _ end) as [[p' c']|]; [|done].
    simpl. intros [= <-]. simpl. eexists r, _. split_and!; [done|done|].
    unfold ctx_done, admitted. simpl. destruct c'; simpl; try done.
    unfold openSession. by destruct (Pty (req_arg r)) as [[[]]|].
  - destruct (sys_requests s !! i) as [r|]; [|done]. simpl. destruct (req_user r) as [u|] eqn:Hu; [|done]. simpl.
    destruct (handleSession_step u l) as [u'|] eqn:E; [|done]. simpl.
    assert (forall c, ctx_done (mkRequest (req_arg r) c (Some u')) = true ->
              ctx_done r = true \/ SysUser i l = SysUser (A := session_request) i (SshSystem.Proc Disconnect)) as Hc.
    { intros c Hd.
      assert (l = SshSystem.Proc Disconnect \/ l <> SshSystem.Proc Disconnect) as [->|Hne]
        by (destruct l as [[]|]; first [by left|by right]); [by right|left].
      pose proof (handle_ctx _ _ _ E Hne) as Hp. unfold ctx_done in *. rewrite Hu. simpl in Hd.
      destruct u, u'; try done. congruence. }
    destruct (_ && _).
    + destruct (match req_slot r with Holding => _ | _ => _ end) as [[p' c']|]; [|done].
      intros [= <-]. simpl. eauto 10.
    + intros [= <-]. simpl. eauto 10.
Qed.

(** Only a request brings a connection to the forwards, and only the end of one its
    end. *)
Lemma fstep_conns f l f' i :
  fstep f l = Some f' -> i ∈ fwd_conns f' -> i ∈ fwd_conns f \/ exists p b, l = LListen i p b.
Proof.
  assert (Hd : forall A (l : list A) j x, x ∈ delete j l -> x ∈ l) by (intros *; apply elem_of_delete_sub).
  unfold fwd_conns. intros Hs. rewrite !elem_of_app, !list_elem_of_fmap.
  destruct l as [c p b|j|j|j|p|j|c|j|j r|j]; cbn [fstep] in Hs.
  - destruct (openListener _ _ _ _) as [[[h' id] port]|]; [|done]. injection Hs as <-. simpl.
    intros [(o & -> & [->|Ho]%elem_of_cons)|H]; [right; eauto|left; eauto|auto].
  - destruct (opening f !! j) as [[[[c p] id] port]|] eqn:E; [|done]. injection Hs as <-. simpl.
    assert ((c, p, id, port) ∈ opening f) by (apply list_elem_of_lookup; eauto).
    intros [(o & -> & Ho%Hd)|[(o & -> & [->|Ho]%elem_of_cons)|H']]; left; eauto 6.
    left. by exists (c, p, id, port).
  - destruct (starting f !! j) as [[c g]|] eqn:E; [|done]. injection Hs as <-. simpl.
    assert ((c, g) ∈ starting f) by (apply list_elem_of_lookup; eauto).
    intros [H'|[(o & -> & Ho%Hd)|(o & -> & [->|Ho]%elem_of_cons)]]; left; eauto 6.
    right. left. by exists (c, g).
  - destruct (starting f !! j) as [[c g]|] eqn:E; [|done].
    destruct (takeForward _ _) as [[h' id]|]; injection Hs as <-; simpl;
      intros [H'|[(o & -> & Ho%Hd)|H']]; left; eauto 6.
  - destruct (takeForward _ _) as [[h' id]|]; injection Hs as <-; auto.
  - destruct (closing f !! j); [|done]. injection Hs as <-. auto.
  - injection Hs as <-. auto.
  - destruct (watchers f !! j) as [[c key]|]; [|done]. destruct (negb _); [done|].
    destruct (takeForward _ _) as [[h' id]|]; injection Hs as <-; simpl;
      intros [H'|[H'|(o & -> & Ho%Hd)]]; left; eauto 6.
  - destruct (loops f !! j) as [[c g]|]; [|done]. destruct (listeners _ !! _); [|done].
    destruct (negb _); [done|]. injection Hs as <-. auto.
  - destruct (loops f !! j) as [[c g]|]; [|done]. injection Hs as <-. auto.
Qed.

Lemma fstep_gone f l f' i :
  fstep f l = Some f' -> i ∈ gone f' -> i ∈ gone f \/ l = LDisconnect i.
Proof.
  intros Hs. destruct l; cbn [fstep] in Hs;
    repeat match type of Hs with context [match ?x with _ => _ end] => destruct x end;
    simplify_eq/=; auto. rewrite elem_of_cons. intros [->|?]; auto.
Qed.

Section invariant.
Context {signer : Type} (created : result new_error (Server signer)) (max : Z).
Local Abbreviation sw_inv := (sw_inv created max).

Lemma mreach_step p l p' :
  mreachable serve_returns drain_returns close_returns created p -> mstep p l = Some p' ->
  mreachable serve_returns drain_returns close_returns created p'.
Proof. intros H Hs. eapply rtc_r; [exact H|by exists l]. Qed.

(** A connection that has ended stays so while others come and go. *)
Lemma ended_mono w w' j :
  w_conn w' = w_conn w -> (forall i, (i < length (w_open w))%nat -> is_open w i = false -> is_open w' i = false) ->
  Forall (fun i => (i < length (w_open w))%nat) (w_conn w) ->
  conn_ended w j = true -> conn_ended w' j = true.
Proof.
  intros Hc Ho Hr. unfold conn_ended. rewrite Hc. destruct (w_conn w !! j) as [i|] eqn:Hj; [|done].
  intros Hi%negb_true_iff. apply negb_true_iff, Ho; [|done]. exact (Forall_lookup_1 _ _ _ _ Hr Hj).
Qed.

(** The process, or a connection, moves. *)
Lemma sw_inv_move w p' open' :
  sw_inv w -> mreachable serve_returns drain_returns close_returns created p' ->
  Z.of_nat (conns p') = count_if id open' -> (length (w_open w) <= length open')%nat ->
  (forall i, (i < length (w_open w))%nat -> is_open w i = false -> default false (open' !! i) = false) ->
  sw_inv (mkWhole p' (w_sys w) (w_conn w) open' (w_fwd w)).
Proof.
  intros [H1 H2 H3 H4 H5 H7 H8 H9 H6] Hp Hn Hl Ho. split; simpl; try done.
  - eapply Forall_impl; [done|]. simpl. lia.
  - intros i [Hi Hc]%H8. split; [lia|by apply Ho].
  - intros i Hi%H9. lia.
  - intros j r Hj Hc. eapply (ended_mono w); [done|exact Ho|done|]. by eapply H6.
Qed.

Lemma count_closed (l : list bool) : count_if id ((fun _ => false) <$> l) = 0.
Proof. induction l as [|b l IH]; [done|]. rewrite fmap_cons. simpl. lia. Qed.

(** A session arrives. *)
Lemma sw_inv_arrive w i r s' :
  sw_inv w -> is_open w i = true -> sys_step (w_sys w) (SysArrive r) = Some s' ->
  sw_inv (mkWhole (w_proc w) s' (w_conn w ++ [i])%list (w_open w) (w_fwd w)).
Proof.
  intros [H1 H2 H3 H4 H5 H7 H8 H9 H6] Hi Hs. pose proof (sys_step_ctx _ _ _ Hs) as E. simpl in E.
  assert (i < length (w_open w))%nat as Hlt.
  { unfold is_open in Hi. destruct (w_open w !! i) eqn:E'; [|done]. by eapply lookup_lt_Some. }
  split; simpl; try done.
  - eapply rtc_r; [exact H2|by exists (SysArrive r)].
  - rewrite E, !length_app, H4. done.
  - apply Forall_app. by repeat constructor.
  - intros j q Hj Hc. rewrite E in Hj. apply lookup_app_Some in Hj as [Hj|[Hge Hj]].
    + specialize (H6 j q Hj Hc). unfold conn_ended in *. simpl.
      destruct (w_conn w !! j) as [k|] eqn:Hk; [|done]. by rewrite (lookup_app_l_Some _ _ _ _ Hk).
    + apply list_lookup_singleton_Some in Hj as [_ <-]. done.
Qed.

(** A session moves. *)
Lemma sw_inv_session w l s' :
  sw_inv w -> may_step w l = true -> sys_step (w_sys w) l = Some s' ->
  sw_inv (mkWhole (w_proc w) s' (w_conn w) (w_open w) (w_fwd w)).
Proof.
  intros [H1 H2 H3 H4 H5 H7 H8 H9 H6] Hm Hs. pose proof (sys_step_ctx _ _ _ Hs) as E.
  destruct l as [a|i|i l]; [done|..]; destruct E as (r & r' & Hi & E & Hc); split; simpl; try done.
  all: try (eapply rtc_r; [exact H2|by eexists]).
  all: try (rewrite E, length_insert; exact H4).
  all: intros j q Hj Hd; rewrite E in Hj; change (conn_ended w j = true).
  all: destruct (decide (i = j)) as [<-|Hne]; [|rewrite list_lookup_insert_ne in Hj by done; by eapply H6].
  all: rewrite list_lookup_insert_eq in Hj by (by eapply lookup_lt_Some); injection Hj as <-.
  all: destruct (Hc Hd) as [Hr|El]; [by eapply H6|]; simplify_eq/=. done.
Qed.

(** A forward is asked for or moves. *)
Lemma sw_inv_forward w l f' :
  sw_inv w -> may_forward w l = true -> fstep (w_fwd w) l = Some f' ->
  sw_inv (mkWhole (w_proc w) (w_sys w) (w_conn w) (w_open w) f').
Proof.
  intros [H1 H2 H3 H4 H5 H7 H8 H9 H6] Hm Hs. split; simpl; try done.
  - eapply rtc_r; [exact H7|by exists l].
  - intros i Hi. destruct (fstep_gone _ _ _ i Hs Hi) as [?| ->]; [by apply H8|].
    simpl in Hm. apply andb_true_iff in Hm as [?%bool_decide_eq_true ?%negb_true_iff]. done.
  - intros i Hi. destruct (fstep_conns _ _ _ i Hs Hi) as [?|(p & b & ->)]; [by apply H9|].
    simpl in Hm. by apply bool_decide_eq_true in Hm.
Qed.

Lemma sw_inv_step w l w' : sw_inv w -> wstep w l = Some w' -> sw_inv w'.
Proof.
  intros Hi. pose proof (sw_inv_conns _ _ _ Hi) as Hn. pose proof (sw_inv_proc _ _ _ Hi) as Hp.
  destruct l as [l| |i|i r|l|l]; simpl.
  - intros Hs. assert (exists p', mstep (w_proc w) l = Some p' /\ l <> ConnOpen /\ l <> ConnEnd /\
      w' = mkWhole p' (w_sys w) (w_conn w)
             (match l with CloseReturns _ => (fun _ => false) <$> w_open w | _ => w_open w end) (w_fwd w))
      as (p' & E & Hl1 & Hl2 & ->).
    { destruct l; try done; destruct (mstep (w_proc w) _) as [p'|] eqn:E; try done; simplify_eq/=;
        by exists p'. }
    pose proof (mstep_conns _ _ _ E) as Hc. pose proof (mreach_step _ _ _ Hp E).
    destruct l; try done; apply sw_inv_move; try done; try lia; rewrite ?Hc; try done.
    + by rewrite count_closed.
    + by rewrite length_fmap.
    + intros i _ _. rewrite list_lookup_fmap. by destruct (w_open w !! i).
  - destruct (mstep (w_proc w) ConnOpen) as [p'|] eqn:E; [|done]. intros [= <-].
    pose proof (mstep_conns _ _ _ E) as Hc. simpl in Hc. pose proof (mreach_step _ _ _ Hp E).
    apply sw_inv_move; try done.
    + rewrite count_if_app. simpl. lia.
    + rewrite length_app. lia.
    + intros i Hlt. unfold is_open. by rewrite lookup_app_l.
  - destruct (is_open w i) eqn:Eo; [|done]. destruct (mstep (w_proc w) ConnEnd) as [p'|] eqn:E; [|done].
    intros [= <-]. pose proof (mstep_conns _ _ _ E) as Hc. simpl in Hc. pose proof (mreach_step _ _ _ Hp E).
    unfold is_open in Eo. destruct (w_open w !! i) as [b|] eqn:Eb; [|done]. simpl in Eo. subst b.
    apply sw_inv_move; try done.
    + rewrite (count_if_insert _ _ _ _ _ Eb). simpl. lia.
    + by rewrite length_insert.
    + intros k Hlt. unfold is_open. destruct (decide (i = k)) as [<-|Hne].
      * by rewrite list_lookup_insert_eq.
      * by rewrite list_lookup_insert_ne.
  - destruct (exited _); [done|]. destruct (is_open w i) eqn:Eo; [|done]. cbn [orb negb].
    destruct (sys_step (w_sys w) (SysArrive r)) as [s'|] eqn:E; [|done]. intros [= <-]. by eapply sw_inv_arrive.
  - destruct (exited _); [done|]. destruct (may_step w l) eqn:Em; [|done]. cbn [orb negb].
    destruct (sys_step (w_sys w) l) as [s'|] eqn:E; [|done]. intros [= <-]. by eapply sw_inv_session.
  - destruct (exited _); [done|]. destruct (may_forward w l) eqn:Em; [|done]. cbn [orb negb].
    destruct (fstep (w_fwd w) l) as [f'|] eqn:E; [|done]. intros [= <-]. by eapply sw_inv_forward.
Qed.

Lemma sw_inv_reachable w : whole_reachable created max w -> sw_inv w.
Proof.
  intros Hr. refine (rtc_invariant _ sw_inv _ _ _ Hr _).
  - intros t t' Ht [l Hs]. by eapply sw_inv_step.
  - split; simpl; try done; try apply rtc_refl; try (by intros i ?%elem_of_nil). by destruct created.
Qed.
End invariant.

(** Only a session whose connection has ended is signalled. *)
Lemma open_unsignalled {signer} (created : result new_error (Server signer)) max w :
  sw_inv created max w -> max <= max_int64 -> forall j r cmd p rl,
  sys_requests (w_sys w) !! j = Some r -> req_user r = Some (Served cmd p rl) ->
  conn_ended w j = false -> kills p = [].
Proof.
  intros Hinv Hmax j r cmd p rl Hj Hu Hc. destruct Hinv as [_ Hr _ _ _ _ _ _ Hctx].
  pose proof (sys_inv_reachable _ _ (Slots_ok max Hmax) Hr) as Hsi.
  pose proof (Forall_lookup_1 _ _ _ _ (sys_inv_requests _ _ Hsi) Hj) as Hok.
  destruct (request_session _ _ _ Hok Hu) as [?|(p' & rl' & pty & win & queue & E & Hp & _)]; [done|].
  injection E as _ <- <-.
  apply (pinv_gone _ (pinv_reachable _ _ _ _ Hp)). destruct (ctxDone p) eqn:Hd; [|done].
  specialize (Hctx j r Hj). unfold ctx_done in Hctx. rewrite Hu, Hc in Hctx. by specialize (Hctx Hd).
Qed.

(** * The server left to itself *)

(** What happens without the clients and without the goodwill of the processes: the
    sessions go on, the contexts of ended connections become done, and so do the
    goroutines of the forwards. *)
Definition whole_system (w : Whole) (l : wlabel) : bool :=
  match l with
  | WSys (SysUser _ (SshSystem.Proc Disconnect)) => true
  | WSys l => ssh_label l
  | WFwd (LDisconnect conn) => negb (bool_decide (conn ∈ gone (w_fwd w)))
  | WFwd l => own_step (w_fwd w) l
  | _ => false
  end.

(** Nothing of it is left to do. *)
Definition whole_idle (w : Whole) : Prop := forall l, whole_system w l = true -> wstep w l = None.

(** A step in which an accept fails only because its listener is closed. *)
Definition whole_accept_ok (w : Whole) (l : wlabel) : bool :=
  match l with WFwd l => accept_ok (w_fwd w) l | _ => true end.

Definition wstep_clean (w w' : Whole) : Prop :=
  exists l, whole_accept_ok w l = true /\ wstep w l = Some w'.

Lemma wstep_clean_step w w' : wstep_clean w w' -> lts_step wstep w w'.
Proof. intros (l & _ & Hs). by exists l. Qed.

Lemma wstep_clean_fwd w w' :
  wstep_clean w w' -> w_fwd w' = w_fwd w \/ fstep_clean (w_fwd w) (w_fwd w').
Proof.
  intros (l & Ha & Hs). destruct l as [l| |i|i r|l|l]; cbn [wstep] in Hs.
  6: { destruct (exited _); [done|]. destruct (may_forward w l); [|done]. simpl in Hs.
       destruct (fstep (w_fwd w) l) as [f'|] eqn:E; [|done]. injection Hs as <-. right. by exists l. }
  all: left; repeat match type of Hs with context [match ?x with _ => _ end] => destruct x eqn:? end;
    by simplify_option_eq.
Qed.

Lemma clean_fwd w0 w : rtc wstep_clean w0 w -> rtc fstep_clean (w_fwd w0) (w_fwd w).
Proof.
  induction 1 as [w|w0 w1 w Hs _ IH]; [apply rtc_refl|].
  destruct (wstep_clean_fwd _ _ Hs) as [<-|Hf]; [done|]. by eapply rtc_l.
Qed.

Section idle.
Context {signer : Type} (created : result new_error (Server signer)) (max : Z) (w : Whole).
Hypothesis Hinv : sw_inv created max w.
Hypothesis Hclean : rtc fstep_clean initFState (w_fwd w).
Hypothesis Hlive : exited (mainp (w_proc w)) = false.
Hypothesis Hidle : whole_idle w.

Lemma idle_sys l : may_step w l = true -> whole_system w (WSys l) = true -> sys_step (w_sys w) l = None.
Proof using Hlive Hidle.
  intros Hm Hl. pose proof (Hidle (WSys l) Hl) as H. cbn [wstep] in H. rewrite Hlive, Hm in H.
  cbn [orb negb] in H. by destruct (sys_step (w_sys w) l).
Qed.

Lemma idle_fwd l : may_forward w l = true -> whole_system w (WFwd l) = true -> fstep (w_fwd w) l = None.
Proof using Hlive Hidle.
  intros Hm Hl. pose proof (Hidle (WFwd l) Hl) as H. cbn [wstep] in H. rewrite Hlive, Hm in H.
  cbn [orb negb] in H. by destruct (fstep (w_fwd w) l).
Qed.

Lemma idle_sessions l : ssh_label l = true -> sys_step (w_sys w) l = None.
Proof using Hlive Hidle.
  intros Hl. apply idle_sys; destruct l as [|i|i [[]|]]; try done; discriminate Hl.
Qed.

Lemma idle_forwards l : own_step (w_fwd w) l = true -> fstep (w_fwd w) l = None.
Proof using Hlive Hidle. intros Hl. apply idle_fwd; destruct l; try done; discriminate Hl. Qed.

(** An idle server has told every session whose connection has ended. *)
Lemma idle_session j r :
  max <= max_int64 -> sys_requests (w_sys w) !! j = Some r -> conn_ended w j = true ->
  session_over e r \/ session_kept r = true.
Proof using Hinv Hlive Hidle.
  intros Hmax Hj Hc. destruct Hinv as [_ Hr _ _ _ _ _ _ _].
  eapply (ssh_stuck_request e max (w_sys w)); [done|done|exact idle_sessions|done|].
  intros cmd p rl Hu. destruct (ctxDone p) eqn:Hd; [done|].
  pose proof (sys_inv_reachable _ _ (Slots_ok max Hmax) Hr) as Hsi.
  destruct (sys_user _ _ j r _ (SshSystem.Proc Disconnect)
    (Served cmd (mkPState (isPty p) (group p) (reaped p) (copyFailed p) (main p) (watch p)
       (resize p) (tty p) true (doneClosed p) (exits p) (kills p)) rl) Hsi Hj Hu) as [s' Hs].
  { simpl. by rewrite Hd. }
  pose proof (idle_sys (SysUser j (SshSystem.Proc Disconnect)) Hc eq_refl). congruence.
Qed.

(** And it has told every forward. *)
Lemma idle_watcher conn key : (conn, key) ∈ watchers (w_fwd w) -> is_open w conn = true.
Proof using Hinv Hlive Hidle.
  intros Hw. destruct (is_open w conn) eqn:Ho; [done|].
  assert (conn < length (w_open w))%nat as Hlt.
  { apply (sw_inv_asked _ _ _ Hinv). unfold fwd_conns. rewrite !elem_of_app, !list_elem_of_fmap.
    right. right. by exists (conn, key). }
  pose proof (quiet_watcher _ idle_forwards _ _ Hw) as Hg.
  pose proof (idle_fwd (LDisconnect conn)) as H. simpl in H.
  rewrite Ho, bool_decide_eq_true_2, bool_decide_eq_false_2 in H by done. by specialize (H eq_refl eq_refl).
Qed.

Lemma idle_listener id l :
  listener_at (w_fwd w) id = Some l -> l_open l = true ->
  exists conn key, forwards (handler (w_fwd w)) !! key = Some id /\ (conn, key) ∈ watchers (w_fwd w) /\
    is_open w conn = true.
Proof using Hinv Hclean Hlive Hidle.
  intros Hl Ho. destruct (quiet_listener _ Hclean idle_forwards id l Hl Ho) as (conn & key & Hk & Hw & _).
  exists conn, key. split_and!; [done|done|by eapply idle_watcher].
Qed.

(** With no connection left there is nothing left at all. *)
Lemma none_open i : conns (w_proc w) = 0%nat -> is_open w i = false.
Proof using Hinv.
  intros Hc. pose proof (sw_inv_conns _ _ _ Hinv) as Hn. rewrite Hc in Hn. unfold is_open.
  destruct (w_open w !! i) as [[]|] eqn:Eo; [|done..]. pose proof (count_if_pos id _ _ _ Eo eq_refl). lia.
Qed.

Lemma none_conn j r :
  conns (w_proc w) = 0%nat -> sys_requests (w_sys w) !! j = Some r -> conn_ended w j = true.
Proof using Hinv.
  intros Hc Hj. assert (is_Some (w_conn w !! j)) as [i Hi].
  { apply lookup_lt_is_Some. rewrite (sw_inv_len _ _ _ Hinv). by eapply lookup_lt_Some. }
  unfold conn_ended. rewrite Hi. by apply negb_true_iff, none_open.
Qed.

Lemma idle_no_forward :
  conns (w_proc w) = 0%nat ->
  forwards (handler (w_fwd w)) = ∅ /\ Forall (fun l => l_open l = false) (listeners (handler (w_fwd w))) /\
  frank (w_fwd w) = 0%nat.
Proof using Hinv Hclean Hlive Hidle.
  intros Hc.
  assert (Hcl : forall id l, listener_at (w_fwd w) id = Some l -> l_open l = false).
  { intros id l Hl. destruct (l_open l) eqn:Ho; [|done].
    destruct (idle_listener id l Hl Ho) as (conn & key & _ & _ & Hco). by rewrite none_open in Hco. }
  split_and!.
  - apply map_empty. intros key. destruct (forwards _ !! key) as [id|] eqn:Hk; [|done].
    destruct (inv_table _ (finv_reachable _ (clean_reachable _ Hclean)) _ _ Hk) as (a & p & l & _ & Hl & Ho & _).
    by rewrite (Hcl _ _ Hl) in Ho.
  - apply Forall_lookup_2. exact Hcl.
  - destruct (quiet_nothing _ idle_forwards) as (E1 & E2 & E3). unfold frank. rewrite E1, E2, E3.
    destruct (watchers (w_fwd w)) as [|[conn key] ws] eqn:Ew.
    2: { pose proof (idle_watcher conn key) as H. rewrite Ew, none_open in H by done.
         by specialize (H ltac:(left)). }
    destruct (loops (w_fwd w)) as [|[conn g] gs] eqn:El; [done|].
    destruct (quiet_loop _ Hclean idle_forwards conn g) as (l & Hl & Ho); [rewrite El; left|].
    by rewrite (Hcl _ _ Hl) in Ho.
Qed.
End idle.

(** * Properties *)

(** C30. The end of a connection frees what it held, sessions and forwards alike.  In a
    process that lives and has done all that does not depend on its clients or on
    processes outside the sessions' process groups, and whose accepts have failed only
    on closed listeners: every session whose connection has ended was turned away, or
    has run to its end, with one status sent, its process reaped and its slot
    returned, or is kept by a process outside its group that neither signal reached;
    a session whose connection is open was sent no signal;
    every listener that is open is in the table, for a connection that is open; and
    when no connection is left the counter of sessions is the number of those that are
    kept so, the table is empty, every listener is closed and no goroutine of a forward
    is left. *)
Theorem ssh_connection_end_frees {signer} (created : result new_error (Server signer)) max w :
  0 < max <= max_int64 -> rtc wstep_clean (whole_init created max) w ->
  Z.of_nat (length (sys_requests (w_sys w))) <= max_int64 ->
  exited (mainp (w_proc w)) = false -> whole_idle w ->
  (forall j r, sys_requests (w_sys w) !! j = Some r -> conn_ended w j = true ->
     session_over e r \/ session_kept r = true) /\
  (forall j r cmd p released, sys_requests (w_sys w) !! j = Some r ->
     req_user r = Some (Served cmd p released) -> conn_ended w j = false -> kills p = []) /\
  (forall id l, listener_at (w_fwd w) id = Some l -> l_open l = true ->
     exists conn key, forwards (handler (w_fwd w)) !! key = Some id /\ (conn, key) ∈ watchers (w_fwd w) /\
       is_open w conn = true) /\
  (conns (w_proc w) = 0%nat ->
   sessions (sys_pool (w_sys w)) = count_if session_kept (sys_requests (w_sys w)) /\
   forwards (handler (w_fwd w)) = ∅ /\ Forall (fun l => l_open l = false) (listeners (handler (w_fwd w))) /\
   opening (w_fwd w) = [] /\ starting (w_fwd w) = [] /\ closing (w_fwd w) = [] /\ watchers (w_fwd w) = [] /\
   loops (w_fwd w) = []).
Proof.
  intros Hmax Hc Hlen Hx Hid. pose proof (clean_fwd _ _ Hc) as Hf. cbn [whole_init w_fwd] in Hf.
  assert (whole_reachable created max w) as Hr by (eapply rtc_subrel; [apply wstep_clean_step|exact Hc]).
  pose proof (sw_inv_reachable _ _ _ Hr) as Hinv. split_and!.
  - intros j r. apply (idle_session created max w); [done..|lia].
  - intros j r cmd p rl. apply (open_unsignalled created max w Hinv). lia.
  - by apply (idle_listener created max w).
  - intros H0. destruct (idle_no_forward created max w Hinv Hf Hx Hid H0) as (E1 & E2 & E3).
    unfold frank in E3. split_and!; [|done|done|apply nil_length_inv; lia..].
    pose proof (sw_inv_sys _ _ _ Hinv) as Hs. rewrite (ssh_counter e max) by done.
    apply (settled_counted e); [|apply (sys_inv_reachable _ _ (Slots_ok max (proj2 Hmax)) Hs)].
    apply Forall_lookup_2. intros j r Hj.
    apply (idle_session created max w Hinv Hx Hid j); [lia|done|by eapply none_conn].
Qed.

End whole.

(** A command that runs when the drain ends: its connection is severed and the process
    is gone before the watcher has sent a signal, with the command still running. *)
Definition exampleStep : Whole -> wlabel -> option Whole :=
  wstep exampleServerEnv exampleServe exampleDrain (fun _ => true).
Definition exampleRun : list wlabel :=
  [WConnOpen; WSession 0 exampleExec; WSys (SysSlot 0); WSys (SysUser 0 (SshSystem.Proc StartOk));
   WProc Sig; WProc MainSignal; WProc (DrainReturns DeadlineExceeded); WProc (CloseReturns true)].
Definition exampleWhole : Whole :=
  default (whole_init exampleCreated 1) (run exampleStep (whole_init exampleCreated 1) exampleRun).

(** The process of a session and the signals it was sent. *)
Definition session_process (w : Whole) (j : nat) : option (proc_state * list (signal * bool)) :=
  r ← sys_requests (w_sys w) !! j;
  match req_user r with Some (Served _ p _) => Some (proc (group p), kills p) | _ => None end.

(** C31. [Shutdown] does not end the sessions it cuts off: a run exists in which the drain
    deadline passes, the connections are severed and the process exits with status 0
    while the command of a session runs and was sent no signal; and since the
    watcher of that session was a goroutine of the process, nothing of the server
    moves in that state any more, so that none is ever sent. *)
Theorem shutdown_abandons_session :
  exists w, whole_reachable exampleServerEnv exampleServe exampleDrain (fun _ => true) exampleCreated 1 w /\
    mainp (w_proc w) = MnExit 0 /\ conn_ended w 0 = true /\
    session_process w 0 = Some (Running, []) /\
    (forall l, exampleStep w l = None).
Proof.
  exists exampleWhole. split_and!; [|vm_compute; reflexivity..|].
  - apply (run_reachable exampleStep exampleRun). vm_compute. reflexivity.
  - intros l. apply wstep_exited. vm_compute. reflexivity.
Qed.

(** Two clients: the first has a shell that ignores the hangup and a forward, and goes
    away; the second has a forward and stays. *)
Definition exampleEnds : list wlabel :=
  ([WConnOpen; WConnOpen; WSession 0 exampleShell; WSys (SysSlot 0);
    WSys (SysUser 0 (SshSystem.Proc StartOk)); WSys (SysUser 0 (SshSystem.Proc MainStep));
    WFwd (LListen 0 (mkForwardRequest "" 0) 5000); WFwd (LListen 1 (mkForwardRequest "localhost" 0) 6000);
    WFwd (LRecord 0); WFwd (LRecord 0); WFwd (LSpawn 0); WFwd (LSpawn 0); WConnEnd 0; WFwd (LDisconnect 0);
    WFwd (LTeardown 1); WFwd (LClose 0); WFwd (LAcceptErr 1)] ++
   ((fun l => WSys (SysUser 0 (SshSystem.Proc l))) <$> drop 2 ignored_hangup) ++
   [WSys (SysUser 0 DeferRelease)])%list.
Definition exampleEndsWhole : Whole :=
  Eval vm_compute in default (whole_init exampleCreated 1) (run exampleStep (whole_init exampleCreated 1) exampleEnds).

Fixpoint whole_clean_run (w : Whole) (ls : list wlabel) : option Whole :=
  match ls with
  | [] => Some w
  | l :: ls => if whole_accept_ok w l then w' ← exampleStep w l; whole_clean_run w' ls else None
  end.

Lemma whole_clean_run_reachable ls w w' :
  whole_clean_run w ls = Some w' ->
  rtc (wstep_clean exampleServerEnv exampleServe exampleDrain (fun _ => true)) w w'.
Proof.
  revert w. induction ls as [|l ls IH]; intros w; simpl; [by intros [= <-]|].
  destruct (whole_accept_ok w l) eqn:Ha; [|done]. destruct (exampleStep w l) as [t|] eqn:Hs; [|done].
  intros H. eapply rtc_l; [by exists l|by apply IH].
Qed.

Lemma ssh_connection_end_frees_witness :
  (exists r, sys_requests (w_sys exampleEndsWhole) !! 0%nat = Some r /\
     (session_over exampleServerEnv r \/ session_kept r = true)) /\
  (exists conn key, forwards (handler (w_fwd exampleEndsWhole)) !! key = Some 1%nat /\
     (conn, key) ∈ watchers (w_fwd exampleEndsWhole) /\ is_open exampleEndsWhole conn = true).
Proof.
  destruct (ssh_connection_end_frees exampleServerEnv exampleServe exampleDrain (fun _ => true)
    exampleCreated 1 exampleEndsWhole) as (H1 & _ & H2 & _).
  - unfold max_int64. lia.
  - apply (whole_clean_run_reachable exampleEnds). vm_compute. reflexivity.
  - vm_compute. discriminate.
  - vm_compute. reflexivity.
  - intros [l| |i|i r|[a|[|i]|[|i] [l|]]|l] E; try discriminate E.
    1, 2, 4, 6: vm_compute; reflexivity.
    1, 2: destruct l; try discriminate E; vm_compute; reflexivity.
    + destruct l as [conn p b|[|i]|[|i]|[|i]|p|[|i]|[|[|conn]]|[|[|i]]|[|i] r|[|[|i]]]; try discriminate E;
        vm_compute; reflexivity.
  - split.
    + eexists. split; [vm_compute; reflexivity|]. by apply (H1 0%nat).
    + apply (H2 1%nat (mkListener "localhost" 6000 true)); vm_compute; reflexivity.
Defined.
