(* ===== verification/ProxyServer.v ===== *)
(** The proxy as a program: [NewServer], the routes, [handleHealth] and the
    admission of [handleWebSocket] of [internal/proxy/server.go], the ticker of
    [pingLoop] and [NewSessionManager] of [session.go] on a loaded configuration,
    [NoOpRevalidator], and [main] of [cmd/ws-proxy/main.go]. *)

From S2P Require Import Prelude GoStrings GoNet GoOs GoTime ProxyConfig Keepalive SessionManager TargetHealth.

Open Scope string_scope.
Open Scope Z_scope.

(** * The server *)

Definition healthPath : string := "/health".
Definition targetHealthPath : string := "/health/target".
Definition metricsPath : string := "/metrics".
Definition capacityRetryAfterSeconds : string := "5".

Record Server := mkServer {
  s_config : Config; s_manager : SessionManager; s_prober : Prober; s_addr : string;
  s_errors : list string;   (* metrics.ConnectionErrors, by reason *)
}.

Definition set_manager (s : Server) (sm : SessionManager) : Server :=
  mkServer (s_config s) sm (s_prober s) (s_addr s) (s_errors s).

(** [metrics.ConnectionErrors.WithLabelValues(reason).Inc()]. *)
Definition count_error (s : Server) (reason : string) : Server :=
  mkServer (s_config s) (s_manager s) (s_prober s) (s_addr s) (s_errors s ++ [reason])%list.

Definition NewServer (c : Config) : Server :=
  mkServer c (NewSessionManager (MaxConnections c)) (initProber c) (ListenAddr c) [].

(** The handlers and the mux: exact paths, and everything else the WebSocket. *)
Inductive route := RouteHealth | RouteTargetHealth | RouteMetrics | RouteWebSocket.

Definition mux (path : string) : route :=
  if (path =? healthPath)%string then RouteHealth
  else if (path =? targetHealthPath)%string then RouteTargetHealth
  else if (path =? metricsPath)%string then RouteMetrics
  else RouteWebSocket.

(** An HTTP answer: status code, [Retry-After] and body. *)
Record HttpReply := mkHttpReply { h_code : Z; h_retryAfter : option string; h_body : string }.

Definition quote : string := String (Ascii.ascii_of_nat 34) EmptyString.
Definition quoted (s : string) : string := quote +:+ s +:+ quote.

Definition handleHealth (s : Server) : HttpReply :=
  mkHttpReply 200 None
    ("{" +:+ quoted "status" +:+ ":" +:+ quoted "ok" +:+ "," +:+ quoted "activeConnections" +:+ ":" +:+
     Itoa (ActiveCount (s_manager s)) +:+ "}").

(** The answer of a server at capacity: [http.Error] ends the message with a
    newline. *)
Definition capacityReply : HttpReply :=
  mkHttpReply 429 (Some capacityRetryAfterSeconds)
    ("Too many concurrent connections" +:+ String newline EmptyString).

(** The start of [handleWebSocket]: a slot, or that answer. *)
Definition admission (s : Server) : Server * option HttpReply :=
  match Acquire 3 (s_manager s) AtLoad with
  | Some (sm, true) => (set_manager s sm, None)
  | Some (sm, false) =>
      (count_error (set_manager s sm) "capacity_exceeded",
       Some capacityReply)
  | None => (s, None)
  end.

(** The deferred [Release]. *)
Definition leave (s : Server) : Server :=
  set_manager s (Release (s_manager s)).

(** [n] connections, one after the other, that stay. *)
Fixpoint admit_all (n : nat) (s : Server) : Server * nat :=
  match n with
  | O => (s, 0%nat)
  | S n' =>
      match admission s with
      | (s', None) => let '(s'', k) := admit_all n' s' in (s'', S k)
      | (s', Some _) => admit_all n' s'
      end
  end.

(** * [pingLoop] *)

Inductive panic := NonPositiveTicker.

(** [time.NewTicker] panics on an interval that is not positive. *)
Definition NewTicker (d : Z) : result panic Z := if 0 <? d then Ok d else Err NonPositiveTicker.

Definition pingLoop_start (c : Config) : result panic Z := NewTicker (PingInterval c).

(** * Revalidation *)

(** The [Revalidator] interface, with its only implementation. *)
Class Revalidator (R E : Type) := Revalidate : R -> result E unit.
Inductive NoOpRevalidator := mkNoOpRevalidator.
#[export] Instance noop_revalidator {E} : Revalidator NoOpRevalidator E := fun _ => Ok tt.

(** * [main] *)

(** The address of [--healthcheck]. *)
Definition healthcheckURL (env : gmap string string) : string :=
  let addr := Getenv env "LISTEN_ADDR" in
  let addr := if (addr =? "")%string then ":8080" else addr in
  let port := match last_index_byte ":" addr with Some idx => sdrop idx addr | None => addr end in
  "http://127.0.0.1" +:+ port +:+ "/health".

(** Its exit status: the code of the answer, if there is one. *)
Definition healthcheckExit (resp : option Z) : Z :=
  match resp with Some code => if code =? 200 then 0 else 1 | None => 1 end.

(** * Lemmas *)

Lemma admit_below s :
  active (s_manager s) < maxConnections (s_manager s) ->
  admission s = (set_manager s
    (mkSessionManager (maxConnections (s_manager s)) (int32 (active (s_manager s) + 1))), None).
Proof.
  intros H. unfold admission, Acquire, Acquire_step, Load, CompareAndSwap.
  assert ((maxConnections (s_manager s) <=? active (s_manager s)) = false) as -> by lia.
  by rewrite Z.eqb_refl.
Qed.

Lemma admit_full s :
  maxConnections (s_manager s) <= active (s_manager s) ->
  admission s = (count_error s "capacity_exceeded", Some capacityReply).
Proof.
  intros H. unfold admission, Acquire, Acquire_step, Load.
  assert ((maxConnections (s_manager s) <=? active (s_manager s)) = true) as -> by lia.
  by destruct s as [c [m a] p ad es].
Qed.

Lemma admit_all_count n s cap a :
  s_manager s = mkSessionManager cap a -> 0 <= a <= cap -> cap <= max_int32 ->
  Z.of_nat (snd (admit_all n s)) = Z.min (Z.of_nat n) (cap - a) /\
  active (s_manager (fst (admit_all n s))) = a + Z.min (Z.of_nat n) (cap - a).
Proof.
  revert s a. induction n as [|n IH]; intros s a Hs Ha Hc; cbn [admit_all fst snd];
    [rewrite Hs; cbn [active]; lia|].
  destruct (decide (a < cap)) as [Hlt|Hge].
  - rewrite admit_below by (rewrite Hs; done). rewrite Hs. cbn [maxConnections active].
    rewrite int32_small by (unfold min_int32, max_int32 in *; lia).
    set (s' := set_manager s (mkSessionManager cap (a + 1))).
    destruct (IH s' (a + 1) eq_refl) as [E1 E2]; [lia..|].
    destruct (admit_all n s') as [s'' k]. cbn [fst snd] in *. lia.
  - rewrite admit_full by (rewrite Hs; cbn; lia).
    destruct (IH (count_error s "capacity_exceeded") a Hs) as [E1 E2]; lia.
Qed.

Lemma admit_max s : maxConnections (s_manager (fst (admission s))) = maxConnections (s_manager s).
Proof.
  destruct (decide (active (s_manager s) < maxConnections (s_manager s))).
  - by rewrite admit_below.
  - by rewrite admit_full by lia.
Qed.

Lemma admit_all_max n s : maxConnections (s_manager (fst (admit_all n s))) = maxConnections (s_manager s).
Proof.
  revert s. induction n as [|n IH]; intros s; [done|]. cbn [admit_all].
  pose proof (admit_max s) as Hm. destruct (admission s) as [s' [r|]]; cbn [fst] in *.
  - by rewrite IH.
  - specialize (IH s'). destruct (admit_all n s'). cbn [fst] in *. congruence.
Qed.

(** * Properties *)

(** The proxy admits exactly as many connections as configured: with a cap from 0
    to 2^31-1, of [n] connections that stay [min n cap] get a slot, the health
    endpoint reports their number, the next one is refused with 429 and
    [Retry-After: 5], which changes nothing but the error count, and after one
    leaves there is room for one again. *)
Theorem admission_exact c n :
  0 <= MaxConnections c <= max_int32 ->
  let '(s, admitted) := admit_all n (NewServer c) in
  Z.of_nat admitted = Z.min (Z.of_nat n) (MaxConnections c) /\
  ActiveCount (s_manager s) = Z.of_nat admitted /\
  (Z.of_nat admitted = MaxConnections c ->
     exists reply, admission s = (count_error s "capacity_exceeded", Some reply) /\
                   h_code reply = 429 /\ h_retryAfter reply = Some "5") /\
  (Z.of_nat admitted = MaxConnections c -> 0 < MaxConnections c -> snd (admission (leave s)) = None).
Proof.
  intros Hc. assert (s_manager (NewServer c) = mkSessionManager (MaxConnections c) 0) as Hs.
  { simpl. unfold NewSessionManager. by rewrite int32_small by (unfold min_int32; lia). }
  destruct (admit_all_count n _ _ _ Hs) as [E1 E2]; [lia..|].
  pose proof (admit_all_max n (NewServer c)) as E3. rewrite Hs in E3. cbn [maxConnections] in E3.
  destruct (admit_all n (NewServer c)) as [s k]. cbn [fst snd] in *.
  unfold ActiveCount, Load. rewrite E2. split_and!; [lia..| |].
  - intros Hk. rewrite admit_full by lia. eexists. split; [done|]. by split.
  - intros Hk Hpos. rewrite admit_below; [done|]. unfold leave, Release, AtomicAdd. cbn.
    rewrite int32_small; unfold min_int32, max_int32 in *; lia.
Qed.

Lemma admission_exact_witness :
  let '(s, admitted) := admit_all 3 (NewServer (readConfig {["MAX_CONNECTIONS" := "2"]})) in
  Z.of_nat admitted = Z.min 3 2 /\ ActiveCount (s_manager s) = Z.of_nat admitted.
Proof.
  pose proof (admission_exact (readConfig {["MAX_CONNECTIONS" := "2"]}) 3) as H.
  destruct (admit_all 3 _) as [s k]. destruct H as (H1 & H2 & _).
  - vm_compute. split; discriminate.
  - split; [exact H1|exact H2].
Defined.

(** The configured cap is narrowed to 32 bits without a check: an environment that
    asks for 4294967296 connections is accepted, and the server it starts refuses
    its first connection. *)
Lemma max_connections_truncated :
  exists env c, LoadConfig env = Ok c /\ MaxConnections c = 2 ^ 32 /\
    exists reply, admission (NewServer c) = (count_error (NewServer c) "capacity_exceeded", Some reply) /\
                  h_code reply = 429.
Proof.
  exists {["MAX_CONNECTIONS" := "4294967296"]}. eexists. split_and!.
  - vm_compute. reflexivity.
  - vm_compute. reflexivity.
  - eexists. split; vm_compute; reflexivity.
Qed.

(** The ping interval is not checked to be positive: an environment that sets it to
    zero is accepted, and the ping loop of the first connection panics. *)
Lemma ping_interval_panics :
  exists env c, LoadConfig env = Ok c /\ pingLoop_start c = Err NonPositiveTicker.
Proof.
  exists {["PING_INTERVAL" := "0s"]}. eexists. split; vm_compute; reflexivity.
Qed.

(** C39. What [LoadConfig] does not check.  It accepts a cap that narrows to zero, so that
    every connection is refused; a ping interval of zero, on which the ping loop
    panics; an interval so close to the timeout that, after a dial of two seconds, a
    client that answers every ping at once is cut before the first is sent; and a
    host with colons, whose address does not split into host and port. *)
Theorem LoadConfig_gaps :
  (exists env c, LoadConfig env = Ok c /\ MaxConnections c = 2 ^ 32 /\
     exists reply, admission (NewServer c) = (count_error (NewServer c) "capacity_exceeded", Some reply) /\
                   h_code reply = 429) /\
  (exists env c, LoadConfig env = Ok c /\ pingLoop_start c = Err NonPositiveTicker) /\
  (exists env c evs, LoadConfig env = Ok c /\ 0 < PingInterval c < PingTimeout c /\
     answers c (second 2) 0 0 (second 61) evs /\ acceptable c evs /\ target_reads evs /\ keeps_up 0 0 evs /\
     snd (fst (copyWSToTCP_loop plainWs c 0 evs (Run_setup plainWs c 0 (0, 0)))) =
       Some (second 60, ReadFailed false)) /\
  (exists env c, LoadConfig env = Ok c /\ SplitHostPort (TargetAddr c) = Err TooManyColons).
Proof.
  split; [exact max_connections_truncated|]. split; [exact ping_interval_panics|].
  split; [exact keepalive_interval_too_close|].
  exists {["TARGET_HOST" := "::1"]}, (readConfig {["TARGET_HOST" := "::1"]}).
  split; [vm_compute; reflexivity|]. by rewrite TargetAddr_split.
Qed.

(** The health check asks the port the server listens on: for every environment
    whose listen address ends in a colon and a port, and for none, the probe goes
    to that port on 127.0.0.1 and succeeds exactly on the answer of
    [handleHealth]. *)
Theorem healthcheck_port env c host port :
  LoadConfig env = Ok c -> ListenAddr c = host +:+ ":" +:+ port -> contains_byte ":" port = false ->
  healthcheckURL env = "http://127.0.0.1:" +:+ port +:+ healthPath /\ mux healthPath = RouteHealth /\
  healthcheckExit (Some (h_code (handleHealth (NewServer c)))) = 0 /\ healthcheckExit None = 1.
Proof.
  intros Hl Ha Hp. split_and!; [|done..].
  assert ((if (Getenv env "LISTEN_ADDR" =? "")%string then ":8080" else Getenv env "LISTEN_ADDR") =
          host +:+ ":" +:+ port) as E.
  { rewrite <-Ha. apply LoadConfig_Ok_iff in Hl as [-> _]. cbn [readConfig ListenAddr]. unfold getEnv.
    by destruct (Getenv env "LISTEN_ADDR" =? "")%string. }
  unfold healthcheckURL. rewrite E. change (":" +:+ port) with (String ":" port).
  rewrite last_index_byte_split, sdrop_app by done.
  change ("http://127.0.0.1:") with ("http://127.0.0.1" +:+ ":"). rewrite sapp_assoc. done.
Qed.

Lemma healthcheck_port_witness :
  healthcheckURL {["LISTEN_ADDR" := "0.0.0.0:9090"]} = "http://127.0.0.1:9090/health".
Proof.
  refine (proj1 (healthcheck_port {["LISTEN_ADDR" := "0.0.0.0:9090"]}
    (readConfig {["LISTEN_ADDR" := "0.0.0.0:9090"]}) "0.0.0.0" "9090" _ _ _));
    vm_compute; reflexivity.
Defined.
