(* ===== verification/HttpMux.v ===== *)
(** The routes of the proxy, the [http.ServeMux] that [NewServer] of
    [internal/proxy/server.go] builds.  [cleanPath] and the choice of a handler
    follow [net/http], for the four patterns that are registered and for every
    method but CONNECT, whose path is not cleaned. *)

From S2P Require Import Prelude GoStrings GoPath SessionManager ProxyConfig TargetHealth ProxyServer.

Open Scope string_scope.
Open Scope list_scope.

(** * [cleanPath] *)

Fixpoint last_byte (s : string) : option ascii :=
  match s with
  | EmptyString => None
  | String c EmptyString => Some c
  | String _ s' => last_byte s'
  end.

(** [cleanPath]: [path.Clean], with a slash in front and the slash at the end
    kept. *)
Definition cleanPath (p : string) : string :=
  if p =? "" then "/"
  else
    let p := if IsAbs p then p else String "/" p in
    let np := Clean p in
    if bool_decide (last_byte p = Some "/"%char) && negb (np =? "/") then np +:+ "/" else np.

(** * The handlers *)

(** [url.PathUnescape]: [None] for a percent sign without two hexadecimal
    digits. *)
Fixpoint PathUnescape (s : string) : option string :=
  match s with
  | EmptyString => Some ""
  | String c s' =>
      if Ascii.eqb c "%" then
        match s' with
        | String h (String l s'') =>
            match hex_val h, hex_val l with
            | Some a, Some b => String (ascii_of_nat (16 * a + b)) <$> PathUnescape s''
            | _, _ => None
            end
        | _ => None
        end
      else String c <$> PathUnescape s'
  end.

(** A segment as the routing tree compares it: unescaped when it can be. *)
Definition segment (k : string) : string := default k (PathUnescape k).
Definition segments (path : string) : list string := segment <$> tail (components path).

(** The calls of [Handle] and [HandleFunc].  A pattern that does not end in a
    slash is its literal segments; the pattern "/" matches every path. *)
Definition registered : list (string * route) :=
  [(healthPath, RouteHealth); (targetHealthPath, RouteTargetHealth); (metricsPath, RouteMetrics);
   ("/", RouteWebSocket)].

Definition matches (pattern path : string) : bool :=
  if pattern =? "/" then true else bool_decide (segments path = tail (components pattern)).

(** The most specific pattern wins, which for these patterns is a literal one
    before "/". *)
Definition match_path (path : string) : option route :=
  snd <$> List.find (fun pr => matches (fst pr) path) registered.

Inductive mux_result := Serve (r : route) | RedirectTo (path : string) | NotFound.

(** [ServeMux.findHandler] on an escaped path.  The redirect to a pattern with a
    slash at the end never applies: the only such pattern is "/". *)
Definition findHandler (escapedPath : string) : mux_result :=
  let path := cleanPath escapedPath in
  match match_path path with
  | None => NotFound
  | Some r => if path =? escapedPath then Serve r else RedirectTo path
  end.

(** * Canonical paths *)

(** A component that [Clean] keeps in an absolute path. *)
Definition plain (k : string) : bool := negb ((k =? "") || (k =? ".") || (k =? "..")).

(** The reference definition: a slash, then components that are not empty and not
    dots, of which only the last may be missing. *)
Fixpoint plain_but_last (ks : list string) : bool :=
  match ks with
  | [] => false
  | [k] => (k =? "") || plain k
  | k :: ks' => plain k && plain_but_last ks'
  end.

Definition canonical (p : string) : bool :=
  match components p with
  | k :: ks => (k =? "") && plain_but_last ks
  | [] => false
  end.

(** * Cleaning a path *)

Lemma plain_spec k : plain k = true <-> k <> "" /\ k <> "." /\ k <> "..".
Proof. unfold plain. rewrite negb_true_iff, !orb_false_iff, !String.eqb_neq. tauto. Qed.

Lemma clean_push_plain stack k : plain k = true -> clean_push true stack k = k :: stack.
Proof.
  intros (H1 & H2 & H3)%plain_spec. unfold clean_push.
  by rewrite (proj2 (String.eqb_neq _ _) H1), (proj2 (String.eqb_neq _ _) H2),
    (proj2 (String.eqb_neq _ _) H3).
Qed.

(** The stack of an absolute path holds components of it, none of them empty or
    dots. *)
Lemma clean_push_kept stack k :
  Forall (fun k => plain k = true) stack -> Forall (fun k => plain k = true) (clean_push true stack k).
Proof.
  intros Hs. unfold clean_push. destruct (k =? "") eqn:E1; [done|]. destruct (k =? ".") eqn:E2; [done|].
  simpl. destruct (k =? "..") eqn:E3.
  - destruct Hs as [|top below Ht Hb]; [constructor|].
    apply plain_spec in Ht as (_ & _ & Ht). by rewrite (proj2 (String.eqb_neq _ _) Ht).
  - constructor; [|done]. unfold plain. by rewrite E1, E2, E3.
Qed.

Lemma clean_push_incl (P : string -> Prop) stack k :
  P k -> Forall P stack -> Forall P (clean_push true stack k).
Proof.
  intros Hk Hs. unfold clean_push. destruct (_ || _); [done|]. destruct (k =? "..") eqn:E; [|by constructor].
  apply String.eqb_eq in E as ->. destruct Hs as [|top below Ht Hb]; [constructor|].
  destruct (top =? ".."); [by repeat constructor|done].
Qed.

Lemma clean_stack_inv (P : list string -> Prop) ks stack :
  P stack -> (forall stack k, k ∈ ks -> P stack -> P (clean_push true stack k)) ->
  P (fold_left (clean_push true) ks stack).
Proof.
  revert stack. induction ks as [|k ks IH]; intros stack Hs Hp; simpl; [done|].
  apply IH; [apply Hp; [left|done]|]. intros. apply Hp; [by right|done].
Qed.

Lemma clean_stack_plain ks :
  Forall (fun k => plain k = true) (clean_stack true ks).
Proof. unfold clean_stack. apply clean_stack_inv; [constructor|]. intros. by apply clean_push_kept. Qed.

Lemma clean_stack_no_slash s :
  Forall (fun k => contains_byte "/" k = false) (clean_stack true (components s)).
Proof.
  unfold clean_stack. apply clean_stack_inv; [constructor|]. intros stack k Hk Hs. apply clean_push_incl; [|done].
  by apply (proj1 (Forall_forall _ _) (components_no_slash s)).
Qed.

(** Components that are all plain are kept as they are. *)
Lemma clean_stack_keeps ks :
  Forall (fun k => plain k = true) ks -> forall stack, fold_left (clean_push true) ks stack = rev ks ++ stack.
Proof.
  induction 1 as [|k ks Hk Hks IH]; intros stack; [done|]. simpl.
  rewrite clean_push_plain, IH by done. by rewrite <-(assoc_L (++)).
Qed.

Lemma plain_but_last_spec ks :
  plain_but_last ks = true <->
  exists init l, ks = init ++ [l] /\ Forall (fun k => plain k = true) init /\ (l = "" \/ plain l = true).
Proof.
  split.
  - induction ks as [|k [|k' ks] IH]; cbn [plain_but_last]; [done| |].
    + intros [->%String.eqb_eq|H]%orb_true_iff; [by exists [], ""; auto|].
      exists [], k. auto.
    + intros [Hk H]%andb_true_iff. destruct (IH H) as (init & l & -> & Hi & Hl).
      exists (k :: init), l. split_and!; [done|by constructor|done].
  - intros (init & l & -> & Hi & Hl). induction Hi as [|k init Hk Hi IH]; simpl.
    + destruct Hl as [->| ->]; [done|by rewrite orb_true_r].
    + rewrite Hk. destruct (init ++ [l]) eqn:E; [by destruct init|]. exact IH.
Qed.

Lemma last_byte_slash s init l :
  components s = init ++ [l] -> s <> "" -> last_byte s = Some "/"%char <-> l = "".
Proof.
  revert init l. induction s as [|c s IH]; intros init l E Hne; [done|]. clear Hne.
  destruct s as [|c' s].
  - cbn in *. destruct (Ascii.eqb_spec c "/") as [->|Hc].
    + destruct init as [|? [|? [|]]]; simplify_eq/=; done.
    + destruct init as [|? [|]]; simplify_eq/=. split; [by intros [= ->]|done].
  - change (last_byte (String c (String c' s))) with (last_byte (String c' s)).
    destruct (components_cons (String c' s)) as (k & ks & Ek).
    assert (Hk : ks = [] -> k <> "").
    { intros -> ->. by pose proof (join_components (String c' s)) as Hj; rewrite Ek in Hj. }
    remember (String c' s) as s' eqn:Es. cbn [components] in E. rewrite Ek in E.
    assert (s' <> "") as Hne by (by subst s'). clear Es.
    destruct (Ascii.eqb c "/").
    + destruct init as [|i init]; simplify_eq/=. apply (IH init); [by rewrite Ek|done].
    + destruct init as [|i init]; simplify_eq/=.
      * rewrite (IH [] k Ek Hne). split; [|done]. intros ->. by destruct Hk.
      * by apply (IH (k :: init)).
Qed.

(** What [cleanPath] makes of an absolute path, in components. *)
Lemma cleanPath_components q :
  let stack := rev (clean_stack true (components q)) in
  components (cleanPath (String "/" q)) =
    "" :: stack ++ (if bool_decide (last_byte (String "/" q) = Some "/"%char /\ stack <> [] \/ stack = [])
                   then [""] else []).
Proof.
  intros stack. unfold cleanPath. cbn [String.eqb IsAbs HasPrefix Ascii.eqb Bool.eqb andb].
  unfold Clean. cbn [IsAbs HasPrefix Ascii.eqb Bool.eqb andb].
  change (clean_stack true (components (String "/" q))) with (clean_stack true (components q)).
  fold stack.
  assert (Hs : Forall (fun k => contains_byte "/" k = false) stack)
    by (unfold stack; apply List.Forall_rev, clean_stack_no_slash).
  assert (Hp : Forall (fun k => plain k = true) stack) by (unfold stack; apply List.Forall_rev, clean_stack_plain).
  clearbody stack. destruct stack as [|k ks].
  - cbn [join_slash]. rewrite String.eqb_refl, andb_false_r.
    by rewrite (bool_decide_true (_ \/ _)) by auto.
  - assert ((String "/" (join_slash (k :: ks)) =? "/") = false) as ->.
    { apply Forall_cons in Hp as [(Hk & _)%plain_spec _]. apply String.eqb_neq.
      destruct k as [|c k]; [done|]. by destruct ks. }
    rewrite andb_true_r. pose proof (components_join k ks Hs) as Hj.
    destruct (bool_decide (last_byte _ = _)) eqn:El.
    + rewrite components_snoc_slash. cbn [components Ascii.eqb Bool.eqb]. rewrite Hj.
      rewrite bool_decide_true; [done|]. left. split; [by apply bool_decide_eq_true in El|done].
    + cbn [components Ascii.eqb Bool.eqb]. rewrite Hj, bool_decide_false; [by rewrite app_nil_r|].
      apply bool_decide_eq_false in El. by intros [[? _]|].
Qed.

Lemma cleanPath_canonical p : canonical (cleanPath p) = true.
Proof.
  assert (H : forall q, canonical (cleanPath (String "/" q)) = true).
  { intros q. unfold canonical. rewrite cleanPath_components. cbv zeta.
    assert (Hp : Forall (fun k => plain k = true) (rev (clean_stack true (components q))))
      by apply List.Forall_rev, clean_stack_plain.
    set (stack := rev _) in *. clearbody stack. simpl. apply plain_but_last_spec.
    destruct (bool_decide _) eqn:E; [by exists stack, ""; auto|].
    apply bool_decide_eq_false in E. destruct stack as [|k stack] using rev_ind; [by destruct E; right|].
    apply Forall_app in Hp as [Hi [Hl _]%Forall_cons]. exists stack, k. rewrite app_nil_r. auto. }
  destruct p as [|c p]; [done|]. destruct (Ascii.eqb c "/") eqn:E.
  - apply Ascii.eqb_eq in E as ->. apply H.
  - replace (cleanPath (String c p)) with (cleanPath (String "/" (String c p))); [apply H|].
    unfold cleanPath, IsAbs. cbn [String.eqb HasPrefix]. by rewrite (Ascii.eqb_sym "/" c), E.
Qed.

Lemma canonical_fixed p : canonical p = true -> cleanPath p = p.
Proof.
  intros Hc. unfold canonical in Hc. destruct p as [|c q]; [done|].
  destruct (Ascii.eqb_spec c "/") as [->|Hne].
  - cbn [components Ascii.eqb Bool.eqb] in Hc. apply andb_true_iff in Hc as [_ Hc].
    apply plain_but_last_spec in Hc as (init & l & Eq & Hi & Hl).
    apply components_inj. rewrite cleanPath_components. cbv zeta.
    change (components (String "/" q)) with ("" :: components q). f_equal.
    assert (Hb : last_byte (String "/" q) = Some "/"%char <-> l = "")
      by (apply (last_byte_slash _ ("" :: init)); [cbn; by rewrite Eq|done]).
    rewrite Eq. unfold clean_stack. rewrite fold_left_app, (clean_stack_keeps init) by done.
    rewrite app_nil_r. cbn [fold_left]. destruct Hl as [->|Hl].
    + change (clean_push true (rev init) "") with (rev init). rewrite rev_involutive.
      rewrite bool_decide_true; [done|]. destruct init; [by right|left; by rewrite Hb].
    + rewrite clean_push_plain by done. cbn [rev]. rewrite rev_involutive.
      rewrite bool_decide_false; [by rewrite app_nil_r|].
      apply plain_spec in Hl as (Hl & _). intros [[?%Hb _]|E]; [done|by destruct init].
  - exfalso. cbn [components] in Hc. destruct (Ascii.eqb_spec c "/"); [done|].
    destruct (components_cons q) as (k & ks & E). by rewrite E in Hc.
Qed.

(** [cleanPath] leaves a path alone exactly when it is canonical. *)
Lemma cleanPath_fixed p : cleanPath p = p <-> canonical p = true.
Proof.
  split; [|apply canonical_fixed]. intros <-. apply cleanPath_canonical.
Qed.

(** Every path has a handler: "/" matches whatever no other pattern does. *)
Lemma match_path_exact p :
  match_path p = Some (
    if bool_decide (segments p = ["health"]) then RouteHealth
    else if bool_decide (segments p = ["health"; "target"]) then RouteTargetHealth
    else if bool_decide (segments p = ["metrics"]) then RouteMetrics
    else RouteWebSocket).
Proof.
  unfold match_path, registered, matches. cbn [List.find fst].
  change (tail (components healthPath)) with ["health"].
  change (tail (components targetHealthPath)) with ["health"; "target"].
  change (tail (components metricsPath)) with ["metrics"].
  cbn [String.eqb healthPath targetHealthPath metricsPath Ascii.eqb Bool.eqb].
  by repeat destruct (bool_decide _).
Qed.

(** A segment without a percent sign stands for itself. *)
Lemma segment_plain k : contains_byte "%" k = false -> segment k = k.
Proof.
  intros H. unfold segment. enough (PathUnescape k = Some k) as -> by done.
  induction k as [|c k IH]; [done|]. rewrite contains_byte_cons in H.
  apply orb_false_iff in H as [Hc Hk]. simpl. by rewrite (Ascii.eqb_sym c), Hc, (IH Hk).
Qed.

Lemma segments_plain p : contains_byte "%" p = false -> segments p = tail (components p).
Proof.
  intros H. unfold segments. assert (Forall (fun k => contains_byte "%" k = false) (components p)) as Hc.
  { induction p as [|c p IH]; [by repeat constructor|]. rewrite contains_byte_cons in H.
    apply orb_false_iff in H as [Hp H]. specialize (IH H). cbn [components].
    destruct (Ascii.eqb c "/"); [by constructor|]. destruct IH as [|k ks Hk Hks]; constructor; [|done|..].
    - by rewrite contains_byte_cons, Hp.
    - by rewrite contains_byte_cons, Hp, Hk.
    - done. }
  destruct Hc as [|k ks _ Hks]; [done|]. simpl. induction Hks as [|k' ks' Hk' _ IH]; [done|].
  rewrite fmap_cons, segment_plain by done. by f_equal.
Qed.

Lemma canonical_components p q :
  canonical p = true -> canonical q = true -> tail (components p) = tail (components q) <-> p = q.
Proof.
  unfold canonical. intros Hp Hq. split; [|by intros ->]. intros E. apply components_inj.
  destruct (components p) as [|k ks]; [done|]. destruct (components q) as [|k' ks']; [done|].
  apply andb_true_iff in Hp as [->%String.eqb_eq _]. apply andb_true_iff in Hq as [->%String.eqb_eq _].
  simpl in E. by rewrite E.
Qed.

(** Without escapes the tree is the choice by the whole path. *)
Lemma match_path_mux p :
  canonical p = true -> contains_byte "%" p = false -> match_path p = Some (mux p).
Proof.
  intros Hc Hp. rewrite match_path_exact, segments_plain by done. unfold mux. f_equal.
  assert (E : forall q ks, canonical q = true -> tail (components q) = ks ->
            bool_decide (tail (components p) = ks) = (p =? q)).
  { intros q ks Hq <-. destruct (String.eqb_spec p q) as [->|Hne]; [by apply bool_decide_true|].
    apply bool_decide_false. by rewrite canonical_components. }
  by rewrite (E healthPath), (E targetHealthPath), (E metricsPath).
Qed.

(** * Properties *)

(** C35. Every request of the proxy is answered by one handler, after at most one
    redirect.  A path is served as it is exactly when it is canonical (a slash,
    then components that are neither empty nor dots, the last of which may be
    missing); any other is redirected to its cleaned form, which is canonical and
    therefore served, so that redirects never loop.  "/health", "/health/target"
    and "/metrics", compared segment by segment after unescaping, reach the handler
    of that name and every other canonical path reaches the WebSocket handler; for
    paths without escapes that is the choice by the whole path. *)
Theorem proxy_routing p :
  (canonical p = true ->
     findHandler p = Serve (
       if bool_decide (segments p = ["health"]) then RouteHealth
       else if bool_decide (segments p = ["health"; "target"]) then RouteTargetHealth
       else if bool_decide (segments p = ["metrics"]) then RouteMetrics
       else RouteWebSocket)) /\
  (canonical p = false ->
     findHandler p = RedirectTo (cleanPath p) /\ cleanPath p <> p /\
     exists r, findHandler (cleanPath p) = Serve r) /\
  (canonical p = true -> contains_byte "%" p = false -> findHandler p = Serve (mux p)).
Proof.
  unfold findHandler. split_and!.
  - intros Hc. by rewrite canonical_fixed, match_path_exact, String.eqb_refl.
  - intros Hc. assert (cleanPath p <> p) as Hne by (intros E%cleanPath_fixed; congruence).
    rewrite match_path_exact, (proj2 (String.eqb_neq _ _) Hne). split_and!; [done..|].
    rewrite canonical_fixed, match_path_exact, String.eqb_refl by apply cleanPath_canonical. eauto.
  - intros Hc Hp. by rewrite canonical_fixed, match_path_mux, String.eqb_refl.
Qed.

(** A path with dots and doubled slashes is redirected to the health endpoint; a
    slash after it leads to the WebSocket handler. *)
Lemma proxy_routing_witness :
  (findHandler "/a/..//health" = RedirectTo "/health" /\ exists r, findHandler "/health" = Serve r) /\
  findHandler "/health/" = Serve RouteWebSocket /\ findHandler "/%68ealth" = Serve RouteHealth.
Proof.
  split; [|split].
  - destruct (proj1 (proj2 (proxy_routing "/a/..//health")) eq_refl) as (H1 & _ & H3).
    split; [exact H1|exact H3].
  - exact (proj2 (proj2 (proxy_routing "/health/")) eq_refl eq_refl).
  - exact (proj1 (proxy_routing "/%68ealth") eq_refl).
Defined.
