(* ===== verification/HealthBody.v ===== *)
(** The bodies of the health endpoints of [internal/proxy/server.go], as the bytes
    [handleHealth] and [handleTargetHealth] print, read back with the reference
    parser of [Json].  The texts of errors that come from the network library and
    the table of printable code points are parameters. *)

From S2P Require Import Prelude GoStrings GoTime GoDate GoFmt Json SessionManager ProxyConfig TargetHealth ProxyServer.

Open Scope string_scope.
Open Scope Z_scope.

(** The two bytes that [TrimRight] removes from a greeting. *)
Definition crlf : string := String (byte_of 13) (String newline EmptyString).

Section bodies.
Context (isPrintTable : Z -> bool) (cause : probe_error -> string).
Local Abbreviation Quote := (Quote isPrintTable).
Local Abbreviation json_safe := (json_safe isPrintTable).
Local Abbreviation json_safe_app := (json_safe_app isPrintTable).

(** [err.Error()] of [probeTarget]. *)
Definition probeErrorText (c : Config) (e : probe_error) : string :=
  match e with
  | ErrDial => cause e
  | ErrReadDeadline => "failed to set read deadline: " +:+ cause e
  | ErrNoGreeting => "connected but read no greeting: " +:+ cause e
  | ErrGreeting banner =>
      "greeting " +:+ Quote (TrimRight banner crlf) +:+ " does not start with " +:+
      Quote (TargetHealthBannerPrefix c)
  end.

(** The field [err] of the snapshot, the empty string after a success. *)
Definition errText (c : Config) (e : option probe_error) : string :=
  match e with Some e => probeErrorText c e | None => "" end.

(** [result.at.UTC().Format(time.RFC3339)], for a time in nanoseconds. *)
Definition formatAt (at_ : Z) : string := FormatRFC3339 (at_ / Second).

(** [handleTargetHealth] with the text it writes. *)
Definition writeTargetHealth (c : Config) (h : targetHealth) : HttpReply :=
  let target := TargetAddr c in
  let result := snapshot h in
  if negb (sn_checked result) then
    mkHttpReply 503 None
      ("{" +:+ quoted "status" +:+ ":" +:+ quoted "unknown" +:+ "," +:+
       quoted "target" +:+ ":" +:+ Quote target +:+ "}")
  else if sn_reachable result then
    mkHttpReply 200 None
      ("{" +:+ quoted "status" +:+ ":" +:+ quoted "ok" +:+ "," +:+
       quoted "target" +:+ ":" +:+ Quote target +:+ "," +:+
       quoted "checkedAt" +:+ ":" +:+ Quote (formatAt (sn_at result)) +:+ "}")
  else
    mkHttpReply 503 None
      ("{" +:+ quoted "status" +:+ ":" +:+ quoted "unreachable" +:+ "," +:+
       quoted "target" +:+ ":" +:+ Quote target +:+ "," +:+
       quoted "checkedAt" +:+ ":" +:+ Quote (formatAt (sn_at result)) +:+ "," +:+
       quoted "error" +:+ ":" +:+ Quote (errText c (sn_err result)) +:+ "}").

(** * What a client is meant to read *)

Definition status_name (s : health_status) : string :=
  match s with StatusUnknown => "unknown" | StatusOk => "ok" | StatusUnreachable => "unreachable" end.

(** The fields of an answer: the error only of a target that was not reached. *)
Definition reply_rest (c : Config) (r : HealthReply) : list (string * json) :=
  (("target", JStr (target r)) ::
   (match checkedAt r with Some t => [("checkedAt", JStr (formatAt t))] | None => [] end) ++
   (match status r with StatusUnreachable => [("error", JStr (errText c (error r)))] | _ => [] end))%list.

Definition reply_fields (c : Config) (r : HealthReply) : list (string * json) :=
  ("status", JStr (status_name (status r))) :: reply_rest c r.

(** The strings in it that are not the program's own. *)
Definition reply_safe (c : Config) (r : HealthReply) : bool :=
  json_safe (target r) &&
  match status r with StatusUnreachable => json_safe (errText c (error r)) | _ => true end.

(** * Lemmas *)

Lemma pad_safe n z : json_safe (pad n z) = true.
Proof.
  apply printable_safe. induction n as [|n IH]; [done|]. cbn [pad]. apply printable_digit; [|done].
  pose proof (Z.mod_pos_bound (z / 10 ^ Z.of_nat n) 10 ltac:(lia)). lia.
Qed.

Lemma itoa_safe z : json_safe (Itoa z) = true.
Proof. apply printable_safe, Itoa_printable. Qed.

Lemma appendInt_safe n z : json_safe (appendInt n z) = true.
Proof.
  unfold appendInt. destruct (z <? 0).
  - apply (json_safe_app "-"); [done|]. destruct (_ <? _); [apply pad_safe|apply itoa_safe].
  - destruct (_ <? _); [apply pad_safe|apply itoa_safe].
Qed.

Lemma FormatRFC3339_safe sec : json_safe (FormatRFC3339 sec) = true.
Proof.
  unfold FormatRFC3339. destruct (civil _) as [[y m] d].
  repeat first [apply appendInt_safe | done | apply json_safe_app].
Qed.

(** Whatever a target sends, the text that quotes it is safe. *)
Lemma greeting_safe c banner : json_safe (probeErrorText c (ErrGreeting banner)) = true.
Proof.
  assert (Hq : forall s, json_safe (Quote s) = true) by (intros; apply printable_safe, Quote_printable).
  cbn [probeErrorText]. apply json_safe_app; [done|]. apply json_safe_app; [apply Hq|].
  apply json_safe_app; [done|apply Hq].
Qed.

(** The answer is the printed object of its fields. *)
Lemma writeTargetHealth_text c h :
  let reply := handleTargetHealth c h in
  h_code (writeTargetHealth c h) = code reply /\
  h_body (writeTargetHealth c h) =
    object_text isPrintTable ("status", JStr (status_name (status reply))) (reply_rest c reply).
Proof.
  unfold writeTargetHealth, handleTargetHealth, reply_rest. cbv zeta.
  destruct (sn_checked (snapshot h)); [destruct (sn_reachable (snapshot h))|]; cbn [negb];
    (split; [done|]); cbn [h_body status target checkedAt error status_name app];
    unfold object_text; cbn [members_text]; unfold member_text; cbn [fst snd text_of].
  all: rewrite !sapp_assoc; reflexivity.
Qed.

Lemma reply_members_safe c r :
  forallb (member_safe isPrintTable) (reply_fields c r) = reply_safe c r.
Proof.
  unfold reply_fields, reply_rest, reply_safe, member_safe.
  cbn [forallb fst snd value_safe].
  change (json_safe "status") with true. change (json_safe "target") with true.
  assert (json_safe (status_name (status r)) = true) as -> by (by destruct (status r)).
  cbn [andb]. f_equal. rewrite forallb_app.
  destruct (checkedAt r) as [t|]; cbn [forallb fst snd value_safe andb].
  - unfold formatAt. rewrite FormatRFC3339_safe. change (json_safe "checkedAt") with true. cbn [andb].
    destruct (status r); [done..|]. cbn [forallb fst snd value_safe].
    change (json_safe "error") with true. cbn [andb]. apply andb_true_r.
  - destruct (status r); [done..|]. cbn [forallb fst snd value_safe].
    change (json_safe "error") with true. cbn [andb]. apply andb_true_r.
Qed.

(** * Properties *)

(** C34. The health endpoints answer in JSON.  The body of [/health] is the object with
    the number of connections.  The body of [/health/target] is the object with
    exactly the fields of the answer (status, target, time of the last probe, error)
    when the address of the target and the text of the error have only characters
    whose escapes in Go and in JSON agree, and is not JSON otherwise.  In
    particular, with such an address it is JSON whatever bytes a target sends as its
    greeting.  The timestamp names the second of the last probe. *)
Theorem health_bodies_json c h s :
  json_object (h_body (handleHealth s)) =
    Some [("status", JStr "ok"); ("activeConnections", JNum (ActiveCount (s_manager s)))] /\
  let reply := handleTargetHealth c h in
  h_code (writeTargetHealth c h) = code reply /\
  json_object (h_body (writeTargetHealth c h)) =
    (if reply_safe c reply then Some (reply_fields c reply) else None) /\
  (forall banner, json_safe (TargetAddr c) = true -> h_err h = Some (ErrGreeting banner) ->
     json_object (h_body (writeTargetHealth c h)) = Some (reply_fields c reply)) /\
  (forall t, checkedAt reply = Some t ->
     ("checkedAt", JStr (formatAt t)) ∈ reply_fields c reply /\
     (four_digit_year (t / Second) -> ParseRFC3339 (formatAt t) = Some (t / Second))).
Proof.
  assert (Hj : json_object (h_body (writeTargetHealth c h)) =
    (if reply_safe c (handleTargetHealth c h) then Some (reply_fields c (handleTargetHealth c h)) else None)).
  { destruct (writeTargetHealth_text c h) as [_ ->]. by rewrite json_object_text, <-reply_members_safe. }
  split; [|cbv zeta; split_and!].
  - exact (json_object_text isPrintTable ("status", JStr "ok")
             [("activeConnections", JNum (ActiveCount (s_manager s)))]).
  - apply writeTargetHealth_text.
  - exact Hj.
  - intros banner Ht He. rewrite Hj. enough (reply_safe c (handleTargetHealth c h) = true) as -> by done.
    unfold reply_safe, handleTargetHealth, snapshot. cbn.
    destruct (checked h); [destruct (reachable h)|]; cbn [negb target status error]; rewrite Ht; cbn [andb]; [done| |done].
    rewrite He. apply greeting_safe.
  - intros t Ht. split.
    + unfold reply_fields, reply_rest. rewrite Ht. simpl. rewrite !elem_of_cons. auto.
    + apply RFC3339_roundtrip.
Qed.
End bodies.

(** A target that greets with bytes that are not UTF-8, quotes and a bell, probed
    at 2026-03-01T12:00:00Z; and a host name with a bell, for which the body is not
    JSON. *)
Lemma health_bodies_json_witness :
  let c := readConfig ∅ in
  let h := mkHealth true false 1772366400000000000 (Some (ErrGreeting (String (byte_of 255) (String dquote (byte1 7))))) in
  (json_object (h_body (writeTargetHealth (fun _ => false) (fun _ => "dial") c h)) =
     Some (reply_fields (fun _ => false) (fun _ => "dial") c (handleTargetHealth c h)) /\
   ParseRFC3339 (formatAt 1772366400000000000) = Some 1772366400) /\
  formatAt 1772366400000000000 = "2026-03-01T12:00:00Z" /\
  json_object (h_body (writeTargetHealth (fun _ => false) (fun _ => "dial")
    (readConfig {["TARGET_HOST" := byte1 7]}) zeroHealth)) = None.
Proof.
  cbv zeta. set (h := mkHealth _ _ _ _). split; [|split].
  - destruct (health_bodies_json (fun _ => false) (fun _ => "dial") (readConfig ∅) h (NewServer (readConfig ∅)))
      as (_ & _ & _ & H3 & H4).
    split.
    + refine (H3 _ _ _); [vm_compute; reflexivity|reflexivity].
    + refine (proj2 (H4 _ eq_refl) _). vm_compute. split; [discriminate|reflexivity].
  - vm_compute. reflexivity.
  - rewrite (proj1 (proj2 (proj2 (health_bodies_json (fun _ => false) (fun _ => "dial")
      (readConfig {["TARGET_HOST" := byte1 7]}) zeroHealth (NewServer (readConfig ∅)))))).
    vm_compute. reflexivity.
Defined.
