(* ===== verification/ProxySystem.v ===== *)
(** The proxy with all its connections: [handleWebSocket] of
    [internal/proxy/server.go] as a client of the connection cap, any number of
    times at once.  A connection either is turned away with the answer of a full
    server, or runs as in [ProxySession] and returns its slot at the end. *)

From S2P Require Import Prelude SessionManager SlotPool TargetHealth ProxyServer ProxySession.

Open Scope Z_scope.

(** * One call of [handleWebSocket] *)

Inductive Conn := TurnedAway (reply : HttpReply) | Proxied (s : Sess).

Definition handleWebSocket (c : Conn) (l : slabel) : option Conn :=
  match c with
  | TurnedAway _ => None
  | Proxied s => match sstep s l with Some s' => Some (Proxied s') | None => None end
  end.

Definition conn_owes (c : Conn) : bool :=
  match c with TurnedAway _ => false | Proxied s => negb (is_HDone (main s)) end.

#[export] Instance Conn_user : SlotUser unit Conn slabel := {
  user_init _ := Proxied initSess;
  user_refused _ := TurnedAway capacityReply;
  user_step := handleWebSocket;
  user_owes := conn_owes;
}.

Lemma HDone_stays s l s' : sstep s l = Some s' -> main s = HDone -> main s' = HDone.
Proof. intros Hs Hm. destruct_sess s. simpl in Hm. subst. destruct l; open_sstep Hs; done. Qed.

#[export] Instance Conn_laws : SlotUserLaws unit Conn slabel.
Proof.
  split; [done..|]. intros [r|s] l u'; simpl; [done|].
  destruct (sstep s l) as [s'|] eqn:Hs; [|done]. intros [= <-]. simpl. intros Hm.
  rewrite (HDone_stays _ _ _ Hs); [done|]. by destruct (main s).
Qed.

(** * The proxy *)

Definition ProxySystem : Type := SlotSystem SessionManager acquire_pc unit Conn.

Definition proxy_reachable (max : Z) (s : ProxySystem) : Prop :=
  sys_reachable (L := slabel) (NewSessionManager max) s.

(** The steps the proxy takes without the peers. *)
Definition proxy_label (l : sys_label unit slabel) : bool :=
  match l with SysArrive _ => false | SysSlot _ => true | SysUser _ l => system_label l end.

(** What one request adds to the gauge of active connections, and the gauge. *)
Definition conn_gauge (r : Request acquire_pc unit Conn) : Z :=
  match req_user r with Some (Proxied s) => ActiveConnections (metrics s) | _ => 0 end.

Definition gauge (rs : list (Request acquire_pc unit Conn)) : Z := foldr Z.add 0 (conn_gauge <$> rs).

Definition is_idle (r : Request acquire_pc unit Conn) : Prop :=
  exists s, req_user r = Some (Proxied s) /\ idle s.
Definition is_over (r : Request acquire_pc unit Conn) : Prop :=
  req_user r = Some (TurnedAway capacityReply) \/
  exists s, req_user r = Some (Proxied s) /\ finished s.

(** * Lemmas *)

Lemma NewSessionManager_ok max : slot_ok (NewSessionManager max) [].
Proof. exists max. apply pool_inv_init. Qed.

(** A connection's own state is one [ProxySession] reaches. *)
Lemma conn_reachable c0 c :
  rtc (lts_step handleWebSocket) c0 c ->
  match c0 with
  | TurnedAway _ => c = c0
  | Proxied s0 => exists s, c = Proxied s /\ rtc (lts_step sstep) s0 s
  end.
Proof.
  induction 1 as [c|c c1 c2 [l Hs] _ IH].
  - destruct c; eauto using rtc_refl.
  - destruct c as [|s]; [done|]. simpl in Hs. destruct (sstep s l) as [s1|] eqn:E; [|done].
    injection Hs as <-. destruct IH as (s2 & -> & Hr). exists s2. split; [done|].
    eapply rtc_l; [by exists l|done].
Qed.

Lemma request_conn (r : Request acquire_pc unit Conn) u :
  request_ok (L := slabel) r -> req_user r = Some u ->
  u = TurnedAway capacityReply \/ exists s, u = Proxied s /\ sreachable s.
Proof.
  intros Hr Hu. unfold request_ok in Hr. rewrite Hu in Hr. destruct Hr as (_ & _ & [Hr|Hr]).
  - destruct (conn_reachable _ _ Hr) as (s & -> & Hs). right. by exists s.
  - left. apply (conn_reachable _ _ Hr).
Qed.

Lemma gauge_in_progress rs :
  Forall (request_ok (L := slabel)) rs -> 0 <= gauge rs <= count_if (in_progress (L := slabel)) rs.
Proof.
  induction 1 as [|r rs Hr _ IH]; [done|]. change (gauge (r :: rs)) with (conn_gauge r + gauge rs).
  cbn [count_if]. assert (0 <= conn_gauge r <= Z.b2z (in_progress (L := slabel) r)); [|lia].
  unfold conn_gauge, in_progress. destruct (req_user r) as [u|] eqn:Hu; [|done].
  destruct (request_conn _ _ Hr Hu) as [->|(s & -> & Hs)]; [done|].
  pose proof (minv_active _ (minv_reachable _ Hs)) as ->. simpl.
  destruct (main s); simpl; lia.
Qed.

(** The counter of the cap counts the handlers in progress. *)
Lemma ActiveCount_in_progress max (s : ProxySystem) :
  proxy_reachable max s ->
  count_if (in_progress (L := slabel)) (sys_requests s) = ActiveCount (sys_pool s) /\
  0 <= ActiveCount (sys_pool s) <= Z.max 0 (int32 max).
Proof.
  intros Hr. destruct (sys_inv_reachable _ _ (NewSessionManager_ok max) Hr) as [Hok Hl Hreq].
  rewrite count_in_progress by done. rewrite (count_if_ext _ SessionManager.holds) by apply SessionManager_held.
  simpl in Hl. destruct Hok as (m & Hm & Ha & Hle & _). simpl in *. injection Hl as Hl.
  rewrite Hm in Hl. unfold ActiveCount, Load. rewrite Ha in *.
  pose proof (count_if_range SessionManager.holds (req_slot <$> sys_requests s)). lia.
Qed.

Section quiescent.
Context (max : Z) (s : ProxySystem).
Hypothesis Hreach : proxy_reachable max s.
Hypothesis Hstuck : forall l, proxy_label l = true -> sys_step s l = None.

Lemma proxy_stuck_request i r : sys_requests s !! i = Some r -> is_idle r \/ is_over r.
Proof using All.
  intros Hi. pose proof (sys_inv_reachable _ _ (NewSessionManager_ok max) Hreach) as Hinv.
  pose proof (Forall_lookup_1 _ _ _ _ (sys_inv_requests _ _ Hinv) Hi) as Hr.
  destruct (req_user r) as [u|] eqn:Hu.
  - destruct (request_conn _ _ Hr Hu) as [->|(t & -> & Ht)]; [right; by left|].
    assert (forall l, system_label l = true -> sstep t l = None) as Hq.
    { intros l Hl. destruct (sstep t l) as [t'|] eqn:E; [|done].
      destruct (sys_user _ _ i r _ l (Proxied t') Hinv Hi Hu) as [s' Hs']; [by simpl; rewrite E|].
      by rewrite (Hstuck (SysUser i l) Hl) in Hs'. }
    destruct (stuck_main t Ht Hq) as [Hm|Hm].
    + right. right. exists t. split; [done|]. by apply stuck_finished.
    + left. exists t. split; [done|]. by apply stuck_idle.
  - destruct (sys_asking _ _ i r Hinv Hi Hu) as [s' Hs']. by rewrite (Hstuck (SysSlot i) eq_refl) in Hs'.
Qed.

End quiescent.

Lemma over_gauge rs :
  Forall is_over rs -> Forall (request_ok (L := slabel)) rs ->
  count_if (in_progress (L := slabel)) rs = 0.
Proof.
  intros Ho. induction Ho as [|r rs Hr _ IH]; [done|]. intros Hok. simpl.
  rewrite IH by by inversion Hok. unfold in_progress.
  destruct Hr as [->|(t & -> & Ht & _)]; [done|]. simpl. by rewrite Ht.
Qed.

(** * Properties *)

(** C3. The proxy as a whole keeps its cap and gives everything back: with any number
    of connections at any point of their lives, the handlers in progress are the
    ones the cap counts, at most [MaxConnections], and the gauge of active
    connections is at most that; and once the proxy has nothing left to do, every
    request was turned away with 429, is up and waits for its peers, or is
    finished with both ends closed, and when none is up any more, the counter and
    the gauge are back at zero. *)
Theorem proxy_keeps_cap max (s : ProxySystem) :
  proxy_reachable max s ->
  count_if (in_progress (L := slabel)) (sys_requests s) = ActiveCount (sys_pool s) /\
  0 <= gauge (sys_requests s) <= ActiveCount (sys_pool s) /\
  ActiveCount (sys_pool s) <= Z.max 0 (int32 max) /\
  ((forall l, proxy_label l = true -> sys_step s l = None) ->
   Forall (fun r => is_idle r \/ is_over r) (sys_requests s) /\
   (Forall (fun r => ~ is_idle r) (sys_requests s) ->
    ActiveCount (sys_pool s) = 0 /\ gauge (sys_requests s) = 0)).
Proof.
  intros Hr. destruct (ActiveCount_in_progress _ _ Hr) as [E Hle].
  pose proof (sys_inv_requests _ _ (sys_inv_reachable _ _ (NewSessionManager_ok max) Hr)) as Hok.
  pose proof (gauge_in_progress _ Hok) as Hg. rewrite E in Hg. split_and!; try done; try lia.
  intros Hs. assert (Forall (fun r => is_idle r \/ is_over r) (sys_requests s)) as Hall.
  { apply Forall_lookup_2. intros i r. by eapply proxy_stuck_request. }
  split; [done|]. intros Hno.
  assert (Forall is_over (sys_requests s)) as Hover.
  { eapply Forall_impl; [apply Forall_and; split; [exact Hall|exact Hno]|]. naive_solver. }
  pose proof (over_gauge _ Hover Hok). lia.
Qed.

(** A cap of one: the first connection lives and ends, a second one arrives while it
    is up and is turned away. *)
Definition exampleSystem : ProxySystem :=
  mkSlotSystem (mkSessionManager 1 0)
    [mkRequest tt Released (Some (Proxied exampleEnd));
     mkRequest tt Refused (Some (TurnedAway capacityReply))].

Lemma proxy_keeps_cap_witness :
  count_if (in_progress (L := slabel)) (sys_requests exampleSystem) = 0 /\
  ActiveCount (sys_pool exampleSystem) = 0 /\ gauge (sys_requests exampleSystem) = 0.
Proof.
  destruct (proxy_keeps_cap 1 exampleSystem) as (E & _ & _ & H).
  - apply (run_reachable sys_step
      ([SysArrive tt; SysSlot 0; SysSlot 0; SysArrive tt; SysSlot 1] ++ (SysUser 0 <$> exampleLife))).
    vm_compute. reflexivity.
  - destruct H as [_ H].
    + intros [a|[|[|i]]|[|[|i]] l]; try reflexivity; try discriminate.
      destruct l; (discriminate || reflexivity).
    + destruct H as [H1 H2].
      * repeat constructor; intros (t & Ht & Hi & _); [|discriminate Ht].
        injection Ht as <-. discriminate Hi.
      * split; [rewrite E; exact H1|split; [exact H1|exact H2]].
Defined.
