(* ===== verification/ProxyMain.v ===== *)
(** The life of the proxy process: [main] of [cmd/ws-proxy/main.go] with
    [ListenAndServe] and [Shutdown] of [internal/proxy/server.go], over the prober
    of [TargetHealth] and the parts of [http.Server] they use.

    Two goroutines and the prober run concurrently: [main], which waits for a
    signal or for the end of the server, and the one that runs [ListenAndServe].
    Of the connections only their number counts here: [plain] requests, which
    [http.Server.Shutdown] waits for, and [hijacked] ones, the WebSockets, which
    it does not. *)

From S2P Require Import Prelude GoOs ProxyConfig TargetHealth.

Open Scope Z_scope.

(** * State *)

(** The goroutine of [ListenAndServe]: the lock and the spawn of
    [startTargetProber], the check of [http.Server.ListenAndServe] and the bind,
    the registration of the listener, accepting, returning an error (whether it is
    [ErrServerClosed]), and [close(errCh)]. *)
Inductive serve_pc :=
| SvStart | SvSpawn | SvListen | SvTrack | SvAccept | SvEnd (closed : bool) | SvClose | SvDone.

(** [main]: its [select]; in [Shutdown], the three parts of [stopTargetProber], the
    close of the listener, the wait for [Serve] to return and the drain; and the
    end of the process with its status. *)
Inductive main_pc :=
| MnSelect | MnStop | MnCancel | MnJoin | MnHttp | MnServe (lnErr : bool) | MnDrain (lnErr : bool)
| MnExit (code : Z).

Record Proc := mkProc {
  prb : Prober;
  serve : serve_pc; mainp : main_pc;
  listening : bool;       (* a listener is open *)
  inShutdown : bool;      (* http.Server.inShutdown *)
  plain : nat; hijacked : nat;
  errCh : bool;           (* an error is in the channel *)
  errClosed : bool;       (* close(errCh) *)
  signalled : bool;       (* the context of signal.NotifyContext is done *)
}.

(** [main] up to the [select]: a refused configuration ends the process, otherwise
    the server is created and its goroutine started. *)
Definition main_init (env : gmap string string) : Proc :=
  match LoadConfig env with
  | Err _ => mkProc (initProber (readConfig env)) SvDone (MnExit 1) false false 0 0 false true false
  | Ok c => mkProc (initProber c) SvStart MnSelect false false 0 0 false false false
  end.

Inductive nlabel :=
| Sig                      (* SIGINT or SIGTERM *)
| ServeStep                (* the next statement of ListenAndServe *)
| ListenFail | AcceptFail  (* net.Listen or Accept fail for good *)
| ConnNew | ConnDone | Hijack | WsDone
| MainSignal | MainErr | MainStep
| CloseErr                 (* closing the listener fails *)
| DrainTimeout             (* the thirty seconds of main *)
| Prb (l : hlabel).        (* the prober's own goroutine *)

(** * Updates *)

Definition set_serve (s : Proc) (v : serve_pc) : Proc :=
  mkProc (prb s) v (mainp s) (listening s) (inShutdown s) (plain s) (hijacked s) (errCh s)
    (errClosed s) (signalled s).
Definition set_mainp (s : Proc) (m : main_pc) : Proc :=
  mkProc (prb s) (serve s) m (listening s) (inShutdown s) (plain s) (hijacked s) (errCh s)
    (errClosed s) (signalled s).
Definition set_prb (s : Proc) (p : Prober) : Proc :=
  mkProc p (serve s) (mainp s) (listening s) (inShutdown s) (plain s) (hijacked s) (errCh s)
    (errClosed s) (signalled s).
Definition set_listening (s : Proc) (b : bool) : Proc :=
  mkProc (prb s) (serve s) (mainp s) b (inShutdown s) (plain s) (hijacked s) (errCh s)
    (errClosed s) (signalled s).
Definition set_conns (s : Proc) (p h : nat) : Proc :=
  mkProc (prb s) (serve s) (mainp s) (listening s) (inShutdown s) p h (errCh s) (errClosed s)
    (signalled s).
Definition set_err (s : Proc) (e c : bool) : Proc :=
  mkProc (prb s) (serve s) (mainp s) (listening s) (inShutdown s) (plain s) (hijacked s) e c
    (signalled s).

(** * [ListenAndServe] and its goroutine *)

(** [startTargetProber], then [http.Server.ListenAndServe]; its error goes to
    [errCh] unless it is [ErrServerClosed]. *)
Definition ListenAndServe_step (s : Proc) (l : nlabel) : option Proc :=
  match l, serve s with
  | ServeStep, SvStart =>
      p' ← hstep (prb s) StartCall;
      Some (set_serve (set_prb s p') (match prober p' with Spawning => SvSpawn | _ => SvListen end))
  | ServeStep, SvSpawn => p' ← hstep (prb s) Spawn; Some (set_serve (set_prb s p') SvListen)
  | ServeStep, SvListen => Some (set_serve s (if inShutdown s then SvEnd true else SvTrack))
  | ListenFail, SvListen => if inShutdown s then None else Some (set_serve s (SvEnd false))
  | ServeStep, SvTrack =>
      if inShutdown s then Some (set_serve s (SvEnd true))
      else Some (set_serve (set_listening s true) SvAccept)
  | ServeStep, SvAccept => if inShutdown s then Some (set_serve s (SvEnd true)) else None
  | AcceptFail, SvAccept =>
      if inShutdown s then None else Some (set_serve (set_listening s false) (SvEnd false))
  | ServeStep, SvEnd closed =>
      Some (set_serve (if closed then s else set_err s true (errClosed s)) SvClose)
  | ServeStep, SvClose => Some (set_serve (set_err s (errCh s) true) SvDone)
  | _, _ => None
  end.

(** * [Shutdown] and [main] *)

Definition is_SvAccept (v : serve_pc) : bool := match v with SvAccept => true | _ => false end.

(** [stopTargetProber], then [http.Server.Shutdown]: the flag is set and the
    listener closed, [Serve] is waited for, and the requests in progress are, until
    the deadline. *)
Definition Shutdown_step (s : Proc) (l : nlabel) : option Proc :=
  match l, mainp s with
  | MainStep, MnStop => p' ← hstep (prb s) StopCall; Some (set_mainp (set_prb s p') MnCancel)
  | MainStep, MnCancel => p' ← hstep (prb s) Cancel; Some (set_mainp (set_prb s p') MnJoin)
  | MainStep, MnJoin => p' ← hstep (prb s) Join; Some (set_mainp (set_prb s p') MnHttp)
  | (MainStep | CloseErr), MnHttp =>
      Some (mkProc (prb s) (serve s) (MnServe (match l with CloseErr => true | _ => false end)) false true
              (plain s) (hijacked s) (errCh s) (errClosed s) (signalled s))
  | MainStep, MnServe lnErr => if is_SvAccept (serve s) then None else Some (set_mainp s (MnDrain lnErr))
  | MainStep, MnDrain lnErr =>
      match plain s with O => Some (set_mainp s (MnExit (if lnErr then 1 else 0))) | S _ => None end
  | DrainTimeout, MnDrain _ => Some (set_mainp s (MnExit 1))
  | _, _ => None
  end.

(** The [select] of [main], with [Shutdown] in its first case; receiving from a
    closed and empty channel gives nil. *)
Definition main_step (s : Proc) (l : nlabel) : option Proc :=
  match l, mainp s with
  | MainSignal, MnSelect => if signalled s then Some (set_mainp s MnStop) else None
  | MainErr, MnSelect =>
      if errCh s then Some (set_mainp (set_err s false (errClosed s)) (MnExit 1))
      else if errClosed s then Some (set_mainp s (MnExit 0)) else None
  | _, _ => Shutdown_step s l
  end.

(** The steps of the prober's own goroutine. *)
Definition prober_label (l : hlabel) : bool :=
  match l with
  | ProbeDone _ | CheckCtx _ | RecordAt _ | SetGauge | SelectDone | SelectTick => true
  | _ => false
  end.

Definition exited (m : main_pc) : bool := match m with MnExit _ => true | _ => false end.

(** The process: nothing happens after its end. *)
Definition nstep (s : Proc) (l : nlabel) : option Proc :=
  if exited (mainp s) then None
  else match l with
  | Sig =>
      Some (mkProc (prb s) (serve s) (mainp s) (listening s) (inShutdown s) (plain s) (hijacked s)
              (errCh s) (errClosed s) true)
  | ServeStep | ListenFail | AcceptFail => ListenAndServe_step s l
  | ConnNew => if listening s then Some (set_conns s (S (plain s)) (hijacked s)) else None
  | ConnDone => match plain s with S n => Some (set_conns s n (hijacked s)) | O => None end
  | Hijack => match plain s with S n => Some (set_conns s n (S (hijacked s))) | O => None end
  | WsDone => match hijacked s with S n => Some (set_conns s (plain s) n) | O => None end
  | MainSignal | MainErr | MainStep | CloseErr | DrainTimeout => main_step s l
  | Prb l => if prober_label l then p' ← hstep (prb s) l; Some (set_prb s p') else None
  end.

(** What the process does by itself. *)
Definition system_label (l : nlabel) : bool :=
  match l with
  | ServeStep | MainSignal | MainErr | MainStep | DrainTimeout => true
  | Prb l => TargetHealth.system_label l
  | _ => false
  end.

Definition nreachable (env : gmap string string) (s : Proc) : Prop :=
  rtc (lts_step nstep) (main_init env) s.

(** * Invariant *)

(** How far [Shutdown] is with the prober, and with the HTTP server. *)
Definition stop_of (m : main_pc) (st : stop_pc) : Prop :=
  match m with
  | MnSelect | MnStop => st = NotCalled
  | MnCancel => exists w, st = Cancelling w
  | MnJoin => exists w, st = Joining w
  | MnHttp | MnServe _ | MnDrain _ => st = Stopped
  | MnExit code => code = 0 -> st = Stopped
  end.
Definition shutting (m : main_pc) : bool :=
  match m with MnServe _ | MnDrain _ => true | _ => false end.
Definition draining (m : main_pc) : bool := match m with MnDrain _ => true | _ => false end.

Record ninv (c : Config) (s : Proc) : Prop := mkNinv {
  ninv_prober : hreachable c (prb s);
  ninv_spawn : prober (prb s) = Spawning <-> serve s = SvSpawn;
  ninv_start : serve s = SvStart -> prober (prb s) = NotStarted;
  ninv_stop : stop_of (mainp s) (stopper (prb s));
  ninv_signal : mainp s <> MnSelect -> exited (mainp s) = false -> signalled s = true;
  ninv_shut : exited (mainp s) = false -> inShutdown s = shutting (mainp s);
  (* the server returns [ErrServerClosed] only once it is shut down *)
  ninv_closed : exited (mainp s) = false -> serve s = SvEnd true -> inShutdown s = true;
  ninv_err : exited (mainp s) = false -> serve s = SvClose \/ serve s = SvDone ->
    errCh s = true \/ inShutdown s = true;
  ninv_errClosed : errClosed s = true -> serve s = SvDone;
  ninv_listening : listening s = true -> serve s = SvAccept /\ inShutdown s = false;
  ninv_open : exited (mainp s) = false -> serve s = SvAccept -> listening s = negb (inShutdown s);
  ninv_accept : serve s = SvAccept -> draining (mainp s) = false;
  ninv_exit : mainp s = MnExit 0 ->
    signalled s = true /\ plain s = 0%nat /\ inShutdown s = true;
}.

(** * Lemmas *)

(** What the labels of the prober do to what the two goroutines look at. *)
Lemma StartCall_step c p p' :
  hreachable c p -> prober p = NotStarted -> hstep p StartCall = Some p' ->
  stopper p' = stopper p /\ (prober p' = NotStarted \/ prober p' = Spawning).
Proof.
  intros Hr Hp. destruct (hinv_reachable _ _ Hr) as [_ Hd _ _ _ _ _ _].
  rewrite Hp in Hd. simpl in *. rewrite Hd, orb_false_r.
  destruct (proberStopped p); intros [= <-]; simpl; auto.
Qed.

Lemma Spawn_step p p' :
  hstep p Spawn = Some p' -> stopper p' = stopper p /\ prober p = Spawning /\ prober p' = Probing.
Proof. simpl. by destruct (prober p); intros [= <-]. Qed.

Lemma prober_label_step p l p' :
  prober_label l = true -> hstep p l = Some p' ->
  stopper p' = stopper p /\ prober p <> Spawning /\ prober p' <> Spawning /\
  prober p <> NotStarted.
Proof.
  intros Hl Hs. destruct l; try discriminate Hl; simpl in Hs; destruct (prober p); try discriminate Hs;
    repeat case_match; simplify_eq; done.
Qed.

Lemma stop_step p l p' :
  l = StopCall \/ l = Cancel \/ l = Join -> hstep p l = Some p' ->
  prober p' = prober p /\
  match l with
  | StopCall => stopper p = NotCalled -> exists w, stopper p' = Cancelling w
  | Cancel => exists w, stopper p' = Joining w
  | _ => stopper p' = Stopped
  end.
Proof.
  intros Hl Hs. destruct Hl as [->|[->| ->]]; simpl in Hs; destruct (stopper p);
    repeat case_match; simplify_eq; simpl; eauto; done.
Qed.

Lemma hreachable_step c p l p' : hreachable c p -> hstep p l = Some p' -> hreachable c p'.
Proof. intros Hr Hs. eapply rtc_r; [done|by exists l]. Qed.

Lemma ninv_init env c : LoadConfig env = Ok c -> ninv c (main_init env).
Proof. intros E. unfold main_init. rewrite E. split; simpl; try done; try naive_solver. apply rtc_refl. Qed.

#[local] Arguments hstep : simpl never.

Ltac destruct_proc s := destruct s as [?pr ?sv ?mp ?li ?ih ?pl ?hj ?ec ?ecl ?sg].
Ltac solve_ninv :=
  split; simpl in *; try done; try (by intuition congruence);
  try (match goal with m : main_pc |- _ => destruct m; simpl in *; by intuition congruence end).

Lemma ninv_serve c s l s' :
  ninv c s -> exited (mainp s) = false -> ListenAndServe_step s l = Some s' -> ninv c s'.
Proof.
  intros [H1 H2 H3 H4 H5 H6 H7 H8 H9 H10 H10' H11 H12] Hx Hs. destruct_proc s. simpl in *.
  unfold ListenAndServe_step in Hs. simpl in Hs.
  destruct l; try discriminate Hs; destruct sv as [| | | | |cl| |]; try discriminate Hs; simpl in Hs.
  - destruct (hstep pr StartCall) as [p'|] eqn:E; [|done]. injection Hs as <-.
    destruct (StartCall_step c pr p' H1 (H3 eq_refl) E) as [Es Ep].
    apply (hreachable_step _ _ _ _ H1) in E.
    destruct Ep as [Ep|Ep]; rewrite Ep; solve_ninv; by rewrite Es.
  - destruct (hstep pr Spawn) as [p'|] eqn:E; [|done]. injection Hs as <-.
    pose proof (Spawn_step _ _ E) as (Es & Ep & Ep'). apply (hreachable_step _ _ _ _ H1) in E.
    solve_ninv; by rewrite ?Es, ?Ep'.
  - injection Hs as <-. destruct ih; solve_ninv.
  - destruct ih; injection Hs as <-; solve_ninv.
  - destruct ih; [|done]. injection Hs as <-. solve_ninv.
  - injection Hs as <-. destruct cl; solve_ninv.
  - injection Hs as <-. solve_ninv.
  - destruct ih; [done|]. injection Hs as <-. solve_ninv.
  - destruct ih; [done|]. injection Hs as <-. solve_ninv.
Qed.

Lemma ninv_main c s l s' :
  ninv c s -> exited (mainp s) = false -> main_step s l = Some s' -> ninv c s'.
Proof.
  intros [H1 H2 H3 H4 H5 H6 H7 H8 H9 H10 H10' H11 H12] Hx Hs. destruct_proc s. simpl in *.
  unfold main_step, Shutdown_step in Hs. simpl in Hs.
  destruct mp; try discriminate Hx; destruct l; try discriminate Hs; simpl in Hs.
  - destruct sg; [|done]. injection Hs as <-. solve_ninv.
  - destruct ec; [injection Hs as <-; solve_ninv|]. destruct ecl; [|done]. exfalso.
    specialize (H6 eq_refl). destruct H8; naive_solver.
  - destruct (hstep pr StopCall) as [p'|] eqn:E; [|done]. injection Hs as <-.
    destruct (stop_step _ _ _ (or_introl eq_refl) E) as [Ep Es]. specialize (Es H4).
    apply (hreachable_step _ _ _ _ H1) in E. rewrite <- Ep in H2, H3. solve_ninv.
  - destruct (hstep pr Cancel) as [p'|] eqn:E; [|done]. injection Hs as <-.
    destruct (stop_step _ _ _ (or_intror (or_introl eq_refl)) E) as [Ep Es].
    apply (hreachable_step _ _ _ _ H1) in E. rewrite <- Ep in H2, H3. solve_ninv.
  - destruct (hstep pr Join) as [p'|] eqn:E; [|done]. injection Hs as <-.
    destruct (stop_step _ _ _ (or_intror (or_intror eq_refl)) E) as [Ep Es].
    apply (hreachable_step _ _ _ _ H1) in E. rewrite <- Ep in H2, H3. solve_ninv.
  - injection Hs as <-. solve_ninv.
  - injection Hs as <-. solve_ninv.
  - destruct (is_SvAccept sv) eqn:E; [done|]. injection Hs as <-. solve_ninv. intros ->. done.
  - destruct pl; [|done]. injection Hs as <-. destruct lnErr; solve_ninv.
  - injection Hs as <-. solve_ninv.
Qed.

Lemma ninv_step c s l s' : ninv c s -> nstep s l = Some s' -> ninv c s'.
Proof.
  intros Hi. unfold nstep. destruct (exited (mainp s)) eqn:Hx; [done|].
  destruct l; intros Hs; try (by eapply ninv_serve); try (by eapply ninv_main).
  all: destruct Hi as [H1 H2 H3 H4 H5 H6 H7 H8 H9 H10 H10' H11 H12]; destruct_proc s; simpl in *.
  all: try (branches Hs; injection Hs as <-; solve_ninv; done).
  destruct (prober_label l) eqn:El; [|done]. destruct (hstep pr l) as [p'|] eqn:E; [|done].
  injection Hs as <-. destruct (prober_label_step _ _ _ El E) as (Es & Ep & Ep' & Ep0).
  apply (hreachable_step _ _ _ _ H1) in E. rewrite <- Es in H4. solve_ninv.
Qed.

Lemma ninv_reachable env c s : LoadConfig env = Ok c -> nreachable env s -> ninv c s.
Proof.
  intros E Hr. refine (rtc_invariant _ (ninv c) _ _ _ Hr (ninv_init env c E)).
  intros t t' Ht [l Hs]. by eapply ninv_step.
Qed.

Section quiescent.
Context (c : Config) (s : Proc).
Hypothesis Hinv : ninv c s.
Hypothesis Hrun : exited (mainp s) = false.
Hypothesis Hstuck : forall l, system_label l = true -> nstep s l = None.

Lemma stuck_step l : system_label l = true ->
  match l with
  | ServeStep => ListenAndServe_step s l = None
  | Prb l => prober_label l = true -> hstep (prb s) l = None
  | MainSignal | MainErr | MainStep | DrainTimeout => main_step s l = None
  | _ => True
  end.
Proof using Hrun Hstuck.
  intros Hl. pose proof (Hstuck l Hl) as H. unfold nstep in H. rewrite Hrun in H.
  destruct l; try done. intros E. rewrite E in H. by destruct (hstep (prb s) l).
Qed.

(** The goroutine of [ListenAndServe] accepts, or is through. *)
Lemma stuck_serve : serve s = SvAccept /\ inShutdown s = false \/ serve s = SvDone.
Proof using All.
  pose proof (stuck_step ServeStep eq_refl) as H. simpl in H. unfold ListenAndServe_step in H.
  destruct Hinv as [_ H2 _ _ _ _ _ _ _ _ _ _ _].
  destruct (serve s); try done; auto.
  - destruct (hstep (prb s) StartCall) eqn:E; [done|]. unfold hstep in E. simpl in E. by case_match.
  - unfold hstep in H. simpl in H. by rewrite (proj2 H2 eq_refl) in H.
  - by destruct (inShutdown s).
  - destruct (inShutdown s); [done|auto].
Qed.

Lemma stuck_join : mainp s <> MnJoin.
Proof using All.
  intros Em. pose proof stuck_serve as Hsv. destruct Hinv as [H1 H2 _ H4 _ _ _ _ _ _ _ _ _].
  rewrite Em in H4. destruct H4 as [w Hw].
  assert (stopper (prb s) = Stopped); [|congruence].
  apply (stop_returns c); [by apply hinv_reachable|by rewrite Hw|].
  intros l Hl. destruct (prober_label l) eqn:E; [by apply (stuck_step (Prb l) Hl)|].
  destruct l; try discriminate Hl; try discriminate E; unfold hstep.
  - simpl. destruct (prober (prb s)) eqn:Ep; try done. rewrite (proj1 H2 eq_refl) in Hsv. naive_solver.
  - simpl. by rewrite Hw.
  - pose proof (stuck_step MainStep eq_refl) as H. unfold main_step, Shutdown_step in H.
    rewrite Em in H. unfold hstep in H. by destruct (stopTargetProber_step (prb s) Join).
Qed.

Lemma stuck_serving :
  mainp s = MnSelect /\ signalled s = false /\ serve s = SvAccept /\ listening s = true.
Proof using All.
  pose proof stuck_serve as Hsv. pose proof stuck_join as Hj.
  pose proof (stuck_step MainSignal eq_refl) as M1. pose proof (stuck_step MainErr eq_refl) as M2.
  pose proof (stuck_step MainStep eq_refl) as M3. pose proof (stuck_step DrainTimeout eq_refl) as M4.
  destruct Hinv as [_ _ _ H4 _ H6 _ H8 _ _ H10' _ _]. specialize (H6 Hrun). specialize (H8 Hrun).
  simpl in M1, M2, M3, M4. unfold main_step, Shutdown_step in *.
  destruct (mainp s); try done; simpl in *.
  - destruct (signalled s); [done|]. destruct Hsv as [[E Ei]|E].
    + rewrite E, Ei in *. split_and!; try done. by apply H10'.
    + exfalso. destruct (H8 (or_intror E)) as [Ec|Ei]; [by rewrite Ec in M2|congruence].
  - unfold hstep in M3. simpl in M3. by rewrite H4 in M3.
  - destruct H4 as [w Hw]. unfold hstep in M3. simpl in M3. by rewrite Hw in M3.
  - destruct Hsv as [[E Ei]|E]; [congruence|]. by rewrite E in M3.
Qed.
End quiescent.

(** * Properties *)

(** C13. The proxy's process ends cleanly and always ends: it exits with status 0 only
    after a signal, with its listener closed, no request in progress and the prober
    stopped for good, never because the server failed; and with nothing left to do
    it has either exited or it serves, with its listener open and no signal
    received, so neither a signal nor a server that failed leaves it hanging.  A
    configuration that is refused ends it with status 1 before anything is
    started. *)
Theorem proxy_process_exit env s :
  nreachable env s ->
  match LoadConfig env with
  | Err _ => s = main_init env /\ mainp s = MnExit 1 /\ starts (prb s) = 0%nat
  | Ok c =>
      (mainp s = MnExit 0 ->
       signalled s = true /\ listening s = false /\ plain s = 0%nat /\
       (prober (prb s) = NotStarted \/ prober (prb s) = Returned)) /\
      ((forall l, system_label l = true -> nstep s l = None) ->
       exited (mainp s) = true \/
       (mainp s = MnSelect /\ signalled s = false /\ serve s = SvAccept /\ listening s = true))
  end.
Proof.
  intros Hr. destruct (LoadConfig env) as [c|e] eqn:E.
  - pose proof (ninv_reachable _ _ _ E Hr) as Hi. split.
    + intros Em. destruct Hi as [H1 _ _ H4 _ _ _ _ _ H10 _ _ H12].
      destruct (H12 Em) as (Hsg & Hpl & Hsh). rewrite Em in H4. split_and!; try done.
      * destruct (listening s); [|done]. destruct (H10 eq_refl); congruence.
      * apply (stopped_prober c); [by apply hinv_reachable|by apply H4].
    + intros Hs. destruct (exited (mainp s)) eqn:Hx; [by left|right]. by eapply stuck_serving.
  - assert (s = main_init env) as ->; [|unfold main_init; by rewrite E].
    refine (rtc_invariant _ (fun t => t = main_init env) _ _ _ Hr eq_refl).
    intros t t' -> [l Hs]. unfold nstep, main_init in Hs. by rewrite E in Hs.
Qed.

(** It serves, a WebSocket is opened, a signal comes, and the shutdown runs to its
    end. *)
Definition exampleShutdown : list nlabel :=
  [ServeStep; ServeStep; ServeStep; ServeStep; ConnNew; Hijack; ConnNew; Prb (ProbeDone exampleProbe);
   Sig; MainSignal; MainStep; MainStep; Prb (CheckCtx false); Prb SelectDone; MainStep; MainStep; ServeStep;
   MainStep; ConnDone; MainStep].

Definition exampleExit : Proc :=
  mkProc (mkProber (readConfig ∅) true true Returned Stopped true zeroHealth None 1 None)
    (SvEnd true) (MnExit 0) false true 0 1 false false true.

Lemma exampleExit_reachable : nreachable ∅ exampleExit.
Proof. apply (run_reachable nstep exampleShutdown). vm_compute. reflexivity. Qed.

Lemma proxy_process_exit_witness :
  signalled exampleExit = true /\ listening exampleExit = false /\ plain exampleExit = 0%nat /\
  (prober (prb exampleExit) = NotStarted \/ prober (prb exampleExit) = Returned).
Proof.
  pose proof (proxy_process_exit ∅ exampleExit exampleExit_reachable) as H.
  assert (LoadConfig ∅ = Ok (readConfig ∅)) as E by (vm_compute; reflexivity).
  rewrite E in H. apply H. reflexivity.
Defined.

(** The shutdown does not wait for the proxied connections: [http.Server.Shutdown]
    leaves hijacked connections alone, so the process can exit with status 0, its
    drain complete, while a WebSocket is still open. *)
Theorem shutdown_ignores_websockets :
  exists env s, nreachable env s /\ mainp s = MnExit 0 /\ hijacked s = 1%nat.
Proof. exists ∅, exampleExit. split; [exact exampleExit_reachable|done]. Qed.
