(* ===== verification/ProxyProcess.v ===== *)
(** The proxy as one system: the process of [ProxyMain] together with the
    connections of [ProxySystem].  [ProxyMain] only counts connections, those that
    [http.Server.Shutdown] waits for and those it does not; here the counts are those
    of the handlers themselves, each of which leaves the first group when
    [upgrader.Upgrade] hijacks its connection and the second when it returns. *)

From S2P Require Import Prelude GoOs SessionManager SlotPool ProxyConfig TargetHealth ProxyServer.
From S2P Require Import ProxySession ProxySystem ProxyMain.

Open Scope Z_scope.

(** * State *)

(** [other]: the requests for the health and metrics endpoints in progress. *)
Record Whole := mkWhole { w_proc : Proc; w_sys : ProxySystem; other : nat }.

(** What a handler's connection is to [http.Server]. *)
Inductive phase := Plain | Hijacked | Gone.

#[export] Instance phase_eq_dec : EqDecision phase.
Proof. solve_decision. Defined.

(** The connection of a handler that has returned is closed in the end; until then it
    is hijacked if the upgrade has got that far, also when it failed after that. *)
Definition sess_phase (s : Sess) : phase :=
  match ProxySession.main s with
  | HDone => Gone
  | _ => if taken s then Hijacked else Plain
  end.

Definition req_phase (r : Request acquire_pc unit Conn) : phase :=
  match req_user r with
  | None => Plain
  | Some (TurnedAway _) => Gone
  | Some (Proxied s) => sess_phase s
  end.

(** What a change of phase is to the process; [None] for a change that a connection
    cannot make. *)
Definition phase_change (p p' : phase) : option (option nlabel) :=
  match p, p' with
  | Plain, Plain | Hijacked, Hijacked | Gone, Gone => Some None
  | Plain, Hijacked => Some (Some Hijack)
  | Plain, Gone => Some (Some ConnDone)
  | Hijacked, Gone => Some (Some WsDone)
  | _, _ => None
  end.

Inductive wlabel :=
| WProc (l : nlabel)                       (* a step of the process itself *)
| WOtherNew | WOtherDone                   (* a request for another endpoint *)
| WSys (l : sys_label unit slabel).        (* a connection arrives or moves *)

(** The labels of [ProxyMain] that stand for connections. *)
Definition conn_label (l : nlabel) : bool :=
  match l with ConnNew | ConnDone | Hijack | WsDone => true | _ => false end.

(** The process with the connections updated for one of its labels, if any. *)
Definition follow (p : Proc) (l : option nlabel) : option Proc :=
  match l with
  | Some l => nstep p l
  | None => if exited (mainp p) then None else Some p
  end.

Definition touched (l : sys_label unit slabel) : option nat :=
  match l with SysArrive _ => None | SysSlot i | SysUser i _ => Some i end.

Definition phase_at (s : ProxySystem) (i : nat) : phase :=
  match sys_requests s !! i with Some r => req_phase r | None => Gone end.

Definition wstep (w : Whole) (l : wlabel) : option Whole :=
  match l with
  | WProc l =>
      if conn_label l then None
      else p' ← nstep (w_proc w) l; Some (mkWhole p' (w_sys w) (other w))
  | WOtherNew => p' ← nstep (w_proc w) ConnNew; Some (mkWhole p' (w_sys w) (S (other w)))
  | WOtherDone =>
      match other w with
      | O => None
      | S n => p' ← nstep (w_proc w) ConnDone; Some (mkWhole p' (w_sys w) n)
      end
  | WSys l =>
      s' ← sys_step (w_sys w) l;
      change ← match touched l with
               | None => Some (Some ConnNew)
               | Some i => phase_change (phase_at (w_sys w) i) (phase_at s' i)
               end;
      p' ← follow (w_proc w) change;
      Some (mkWhole p' s' (other w))
  end.

Definition whole_init (env : gmap string string) (c : Config) : Whole :=
  mkWhole (main_init env) (sys_init (NewSessionManager (MaxConnections c))) 0.

Definition whole_reachable (env : gmap string string) (c : Config) (w : Whole) : Prop :=
  rtc (lts_step wstep) (whole_init env c) w.

(** * Invariant *)

Definition is_phase (p : phase) (r : Request acquire_pc unit Conn) : bool :=
  bool_decide (req_phase r = p).

Record winv (env : gmap string string) (c : Config) (w : Whole) : Prop := mkWinv {
  winv_proc : nreachable env (w_proc w);
  winv_sys : proxy_reachable (MaxConnections c) (w_sys w);
  winv_plain : Z.of_nat (plain (w_proc w)) =
    Z.of_nat (other w) + count_if (is_phase Plain) (sys_requests (w_sys w));
  winv_hijacked : Z.of_nat (hijacked (w_proc w)) =
    count_if (is_phase Hijacked) (sys_requests (w_sys w));
}.

#[local] Arguments hstep : simpl never.

(** What a step of the process does to the counts. *)
Lemma nstep_counts p l p' :
  nstep p l = Some p' ->
  match l with
  | ConnNew => plain p' = S (plain p) /\ hijacked p' = hijacked p
  | ConnDone => plain p = S (plain p') /\ hijacked p' = hijacked p
  | Hijack => plain p = S (plain p') /\ hijacked p' = S (hijacked p)
  | WsDone => plain p' = plain p /\ hijacked p = S (hijacked p')
  | _ => plain p' = plain p /\ hijacked p' = hijacked p
  end.
Proof.
  unfold nstep. destruct (exited (mainp p)); [done|]. intros Hs.
  destruct l; unfold ListenAndServe_step, main_step, Shutdown_step in Hs; simpl in Hs;
    branches Hs; simplify_eq; simpl; try done; try (by repeat case_match).
  all: match type of Hs with context [hstep ?q ?l] => destruct (hstep q l) end; by simplify_eq/=.
Qed.

(** One request changes. *)
Lemma sys_step_requests s l s' :
  sys_step s l = Some s' ->
  match touched l with
  | None => exists r, sys_requests s' = (sys_requests s ++ [r])%list /\ req_phase r = Plain
  | Some i => exists r r', sys_requests s !! i = Some r /\ sys_requests s' = <[i := r']> (sys_requests s)
  end.
Proof.
  destruct l as [a|i|i l]; simpl.
  - intros [= <-]. simpl. by eexists.
  - destruct (sys_requests s !! i) as [r|]; [|done]. simpl. destruct (req_user r); [done|].
    destruct (Acquire_step _ _) as [[p' c']|]; [|done]. simpl. intros [= <-]. simpl. eauto.
  - destruct (sys_requests s !! i) as [r|]; [|done]. simpl. destruct (req_user r) as [u|]; [|done]. simpl.
    destruct (handleWebSocket u l) as [u'|]; [|done]. simpl. destruct (_ && _).
    + destruct (req_slot r); try done; intros [= <-]; simpl; eauto.
    + intros [= <-]. simpl. eauto.
Qed.

(** The counts follow the change of one request. *)
Lemma count_change ph (rs : list (Request acquire_pc unit Conn)) i r r' :
  rs !! i = Some r ->
  count_if (is_phase ph) (<[i := r']> rs) =
  count_if (is_phase ph) rs - Z.b2z (bool_decide (req_phase r = ph)) + Z.b2z (bool_decide (req_phase r' = ph)).
Proof. intros Hi. by rewrite (count_if_insert (is_phase ph) rs i r r' Hi). Qed.

Lemma phase_at_insert s s' i r r' :
  sys_requests s !! i = Some r -> sys_requests s' = <[i := r']> (sys_requests s) ->
  phase_at s i = req_phase r /\ phase_at s' i = req_phase r'.
Proof.
  intros Hi E. unfold phase_at. rewrite Hi, E. split; [done|].
  apply lookup_lt_Some in Hi. by rewrite list_lookup_insert_eq.
Qed.

Lemma winv_sys_step env c w l s' change p' :
  winv env c w -> sys_step (w_sys w) l = Some s' ->
  match touched l with
  | None => Some (Some ConnNew)
  | Some i => phase_change (phase_at (w_sys w) i) (phase_at s' i)
  end = Some change ->
  follow (w_proc w) change = Some p' -> winv env c (mkWhole p' s' (other w)).
Proof.
  intros [H1 H2 H3 H4] Hs Hc Hf.
  assert (nreachable env p') as Hp.
  { destruct change as [nl|]; simpl in Hf.
    - eapply rtc_r; [done|by exists nl].
    - destruct (exited _); by simplify_eq. }
  assert (proxy_reachable (MaxConnections c) s') as Hsys by (eapply rtc_r; [done|by exists l]).
  pose proof (sys_step_requests _ _ _ Hs) as Hr. split; simpl; [done|done| |].
  all: destruct (touched l) as [i|].
  1,3: destruct Hr as (r & r' & Hi & E); rewrite E, (count_change _ _ _ _ _ Hi);
    destruct (phase_at_insert _ _ _ _ _ Hi E) as [Ea Eb]; rewrite Ea, Eb in Hc; clear Ea Eb E;
    destruct (req_phase r), (req_phase r'); simplify_eq/=;
    try (apply nstep_counts in Hf; simpl in Hf); try (destruct (exited _); simplify_eq); lia.
  all: destruct Hr as (r & E & Er); rewrite E, count_if_app; simplify_eq; apply nstep_counts in Hf;
    cbn [count_if]; unfold is_phase at 2; rewrite Er; simpl; lia.
Qed.

Lemma winv_step env c w l w' : winv env c w -> wstep w l = Some w' -> winv env c w'.
Proof.
  intros Hi. destruct l as [l| | |l]; simpl.
  - destruct (conn_label l) eqn:El; [done|]. destruct (nstep (w_proc w) l) as [p'|] eqn:E; [|done].
    intros [= <-]. destruct Hi as [H1 H2 H3 H4]. pose proof (nstep_counts _ _ _ E) as Hc.
    assert (nreachable env p') by (eapply rtc_r; [done|by exists l]).
    destruct l; try discriminate El; destruct Hc as [Ec Ed]; split; simpl; try done; by rewrite ?Ec, ?Ed.
  - destruct (nstep (w_proc w) ConnNew) as [p'|] eqn:E; [|done]. intros [= <-].
    destruct Hi as [H1 H2 H3 H4]. pose proof (nstep_counts _ _ _ E) as Hc. simpl in Hc.
    assert (nreachable env p') by (eapply rtc_r; [done|by exists ConnNew]).
    split; cbn [w_proc w_sys other]; try done; lia.
  - destruct (other w) as [|n] eqn:Eo; [done|].
    destruct (nstep (w_proc w) ConnDone) as [p'|] eqn:E; [|done]. intros [= <-].
    destruct Hi as [H1 H2 H3 H4]. pose proof (nstep_counts _ _ _ E) as Hc. simpl in Hc.
    assert (nreachable env p') by (eapply rtc_r; [done|by exists ConnDone]).
    split; cbn [w_proc w_sys other]; try done; lia.
  - destruct (sys_step (w_sys w) l) as [s'|] eqn:Es; [|done]. simpl.
    destruct (match touched l with None => _ | Some i => _ end) as [change|] eqn:Ec; [|done]. simpl.
    destruct (follow (w_proc w) change) as [p'|] eqn:Ef; [|done]. intros [= <-].
    by eapply winv_sys_step.
Qed.

Lemma winv_reachable env c w : whole_reachable env c w -> LoadConfig env = Ok c -> winv env c w.
Proof.
  intros Hr E. refine (rtc_invariant _ (winv env c) _ _ _ Hr _).
  - intros t t' Ht [l Hs]. by eapply winv_step.
  - unfold whole_init, main_init. rewrite E. split; simpl; try done; [|apply rtc_refl].
    unfold nreachable, main_init. rewrite E. apply rtc_refl.
Qed.

(** ** The phases of one connection *)

(** A session is plain up to its upgrade, and hijacked from there until it returns; an
    upgrade that failed may leave it either. *)
Lemma taken_upgraded s : sreachable s -> ProxySession.main s = HUpgrade -> taken s = false.
Proof.
  intros Hr. refine (rtc_invariant _ (fun s => ProxySession.main s = HUpgrade -> taken s = false) _ _ _ Hr _);
    [|done].
  intros t t' Ht [l Hs]. destruct_sess t. simpl in *.
  destruct l; open_sstep Hs; try done; intros ->; auto.
Qed.

Lemma sess_phase_step s l s' :
  sreachable s -> sstep s l = Some s' ->
  phase_change (sess_phase s) (sess_phase s') <> None.
Proof.
  intros Hreach Hs. pose proof (taken_upgraded _ Hreach) as Hr. clear Hreach.
  unfold sess_phase, phase_change. destruct_sess s. simpl in *.
  destruct l; open_sstep Hs; simpl; try rewrite (Hr eq_refl); try done;
    repeat match goal with |- context [if ?b then _ else _] => destruct b end; try done;
    destruct m; simpl in *; done.
Qed.

Lemma sys_phase_change max (s : ProxySystem) l s' i :
  proxy_reachable max s -> sys_step s l = Some s' -> touched l = Some i ->
  phase_change (phase_at s i) (phase_at s' i) <> None.
Proof.
  intros Hr Hs Ht. pose proof (sys_inv_reachable _ _ (NewSessionManager_ok max) Hr) as Hinv.
  destruct l as [a|j|j l]; simplify_eq/=.
  - destruct (sys_requests s !! i) as [r|] eqn:Hi; [|done]. simpl in Hs.
    unfold phase_at, req_phase at 1. rewrite Hi. destruct (req_user r); [done|].
    by destruct (match sys_requests s' !! i with Some r => _ | None => _ end).
  - destruct (sys_requests s !! i) as [r|] eqn:Hi; [|done]. simpl in Hs.
    destruct (req_user r) as [u|] eqn:Hu; [|done]. simpl in Hs.
    pose proof (Forall_lookup_1 _ _ _ _ (sys_inv_requests _ _ Hinv) Hi) as Hok.
    destruct (request_conn _ _ Hok Hu) as [->|(t & -> & Hreach)]; [done|]. simpl in Hs.
    destruct (sstep t l) as [t'|] eqn:E; [|done]. simpl in Hs.
    assert (exists r', sys_requests s' = <[i := r']> (sys_requests s) /\ req_user r' = Some (Proxied t'))
      as (r' & E' & Er').
    { destruct (_ && _); [destruct (req_slot r); try done|]; simplify_eq/=; eauto. }
    destruct (phase_at_insert _ _ _ _ _ Hi E') as [-> ->]. unfold req_phase. rewrite Hu, Er'.
    by eapply sess_phase_step.
Qed.

(** The process follows every move of a connection. *)
Lemma follow_enabled env c w l s' i :
  winv env c w -> exited (mainp (w_proc w)) = false ->
  sys_step (w_sys w) l = Some s' -> touched l = Some i -> exists w', wstep w (WSys l) = Some w'.
Proof.
  intros [H1 H2 H3 H4] Hx Hs Ht. simpl. rewrite Hs. simpl. rewrite Ht.
  pose proof (sys_phase_change _ _ _ _ _ H2 Hs Ht) as Hc.
  destruct (phase_change _ _) as [change|] eqn:Ec; [|done]. simpl.
  pose proof (sys_step_requests _ _ _ Hs) as Hq. rewrite Ht in Hq. destruct Hq as (r & r' & Hi & E).
  destruct (phase_at_insert _ _ _ _ _ Hi E) as [Ea _].
  assert (forall ph, req_phase r = ph -> 1 <= count_if (is_phase ph) (sys_requests (w_sys w))) as Hpos.
  { intros ph Eph. apply (count_if_pos _ _ i r Hi). unfold is_phase. by apply bool_decide_eq_true. }
  rewrite Ea in Ec. unfold follow, nstep. destruct (req_phase r), (phase_at s' i); simplify_eq/=; rewrite ?Hx.
  all: try (specialize (Hpos _ eq_refl)).
  all: try (destruct (plain (w_proc w)); [lia|]); try (destruct (hijacked (w_proc w)); [lia|]); simpl; eauto.
Qed.

(** The hijacked connections hold slots. *)
Lemma hijacked_in_progress rs :
  Forall (request_ok (L := slabel)) rs ->
  count_if (is_phase Hijacked) rs <= count_if (in_progress (L := slabel)) rs.
Proof.
  induction 1 as [|r rs Hr _ IH]; [done|]. cbn [count_if].
  assert (is_phase Hijacked r = true -> in_progress (L := slabel) r = true) as Himp.
  { intros E%bool_decide_eq_true. unfold req_phase, in_progress in *.
    destruct (req_user r) as [[|s]|]; try done. simpl. unfold sess_phase in E.
    by destruct (ProxySession.main s). }
  destruct (is_phase Hijacked r); [rewrite Himp by done|]; simpl; destruct (in_progress r); simpl; lia.
Qed.

(** * Properties *)

(** C28. The process counts its connections right, and what a clean exit leaves is the
    hijacked connections: in every state the requests [http.Server.Shutdown] waits for
    are those whose connection the upgrade has not hijacked, and the hijacked ones
    hold a slot each, at most [MaxConnections]; the process never holds up a handler;
    and when it exits with status 0, every handler has returned or its connection was
    hijacked: it is inside a proxied session, which the exit cuts, or is about to
    return from an upgrade that failed after the hijack. *)
Theorem proxy_shutdown_leaves_sessions env c w :
  LoadConfig env = Ok c -> whole_reachable env c w ->
  let rs := sys_requests (w_sys w) in
  (nreachable env (w_proc w) /\ proxy_reachable (MaxConnections c) (w_sys w)) /\
  Z.of_nat (plain (w_proc w)) = Z.of_nat (other w) + count_if (is_phase Plain) rs /\
  (Z.of_nat (hijacked (w_proc w)) = count_if (is_phase Hijacked) rs /\
   count_if (is_phase Hijacked) rs <= ActiveCount (sys_pool (w_sys w)) <= Z.max 0 (int32 (MaxConnections c))) /\
  (exited (mainp (w_proc w)) = false ->
   forall l i s', touched l = Some i -> sys_step (w_sys w) l = Some s' ->
     exists w', wstep w (WSys l) = Some w') /\
  (mainp (w_proc w) = MnExit 0 ->
   other w = 0%nat /\ Forall (fun r => req_phase r = Gone \/ req_phase r = Hijacked) rs).
Proof.
  intros E Hr rs. pose proof (winv_reachable _ _ _ Hr E) as Hi. pose proof Hi as [H1 H2 H3 H4].
  destruct (ActiveCount_in_progress _ _ H2) as [Ea Hle].
  pose proof (sys_inv_requests _ _ (sys_inv_reachable _ _ (NewSessionManager_ok _) H2)) as Hok.
  pose proof (hijacked_in_progress _ Hok) as Hh. split_and!; try done; try (subst rs; lia).
  - intros Hx l i s' Ht Hs. by eapply follow_enabled.
  - intros Em. destruct (ninv_exit _ _ (ninv_reachable _ _ _ E H1) Em) as (_ & Hp & _).
    rewrite Hp in H3. pose proof (count_if_range (is_phase Plain) rs). split; [subst rs; lia|].
    apply Forall_lookup_2. intros i r Hlk. destruct (req_phase r) eqn:Eph; auto. exfalso.
    assert (1 <= count_if (is_phase Plain) rs); [|subst rs; lia].
    apply (count_if_pos _ _ i r Hlk). by apply bool_decide_eq_true.
Qed.

(** One proxied session is up when the signal comes. *)
Definition exampleWhole : list wlabel :=
  [WProc ServeStep; WProc ServeStep; WProc ServeStep; WProc ServeStep; WSys (SysArrive tt); WSys (SysSlot 0);
   WSys (SysSlot 0); WSys (SysUser 0 UpgradeOk); WOtherNew; WProc Sig; WProc MainSignal; WProc MainStep;
   WProc MainStep; WProc (Prb (ProbeDone exampleProbe)); WProc (Prb (CheckCtx false)); WProc (Prb SelectDone);
   WProc MainStep; WProc MainStep; WProc ServeStep; WProc MainStep; WOtherDone; WProc MainStep].

Lemma proxy_shutdown_leaves_sessions_witness :
  exists w, whole_reachable ∅ (readConfig ∅) w /\ mainp (w_proc w) = MnExit 0 /\
    hijacked (w_proc w) = 1%nat /\
    Forall (fun r => req_phase r = Gone \/ req_phase r = Hijacked) (sys_requests (w_sys w)).
Proof.
  destruct (run wstep (whole_init ∅ (readConfig ∅)) exampleWhole) as [w|] eqn:Hw;
    [|vm_compute in Hw; discriminate Hw].
  assert (mainp (w_proc w) = MnExit 0 /\ hijacked (w_proc w) = 1%nat) as [Em Eh].
  { vm_compute in Hw. injection Hw as <-. split; reflexivity. }
  pose proof (run_reachable wstep _ _ _ Hw) as Hr. exists w. split_and!; [exact Hr|exact Em|exact Eh|].
  assert (LoadConfig ∅ = Ok (readConfig ∅)) as E by (vm_compute; reflexivity).
  destruct (proxy_shutdown_leaves_sessions ∅ (readConfig ∅) w E Hr) as (_ & _ & _ & _ & H).
  apply (H Em).
Defined.
